(** * Sea-surface-height observations: catalog unification and retrieval

    A shallow embedding of [dfm_tools/observations.py] and the properties
    of its catalog and retrieval layer.

    Conventions of the embedding:
    - a Python function that may raise returns [Py.result]; the exception
      class is kept, the message is not;
    - what a function reads from the network or from disk is an argument;
    - a finite double is the rational number it stands for; the longitude
      shift is computed as the interpreter computes it, every operation
      rounded to the nearest double ([Float]); coordinates are otherwise
      used as exact rationals and the square root of a distance is taken
      in the reals;
    - a table is the list of its rows in index order; where only the
      columns of a table matter ([Catalog]) it is the list of its labels;
    - a one-dimensional dataset is the list of its samples in the order
      of its time dimension ([Series]); where the names of variables,
      coordinates and attributes matter ([Xr]) it is a map of variables.

    Part I holds the model, one module per group of functions:
    [Py] (values, exceptions), [Accents] ([_remove_accents]), [Float]
    (the arithmetic of doubles), [Geo]
    (points, [_lon_360_to_180], [_uhslc_get_json]), [Ssc] (the SSC
    catalog), [Catalog] (the catalog readers and [ssh_catalog_subset]),
    [Series] (the CMEMS, GESLA-3 and UHSLC series), [Xr] and [Retrieve]
    ([_make_hydrotools_consistent], [ssh_retrieve_data]), [Text]
    (replacement, padding, sorting of names), [SscRead] and [IocRead]
    (the rows of [ssc_ssh_read_catalog] and [ioc_ssh_read_catalog]),
    [IocRetrieve] ([ioc_ssh_retrieve_data]), [Overview] (the figures
    of [ssh_netcdf_overview]) and [PsmslTimes]
    ([psmsl_gnssir_ssh_read_catalog_gettimes]).
    Part II holds the properties. *)

From Stdlib Require Import ZArith QArith Qround Qabs Qpower Qreals Reals Lqa Lra Lia.
From Stdlib Require Import String Ascii.
From stdpp Require Import gmap strings list pretty sorting.

Local Open Scope Z_scope.
Local Open Scope string_scope.
Local Open Scope list_scope.

(* ===================================================================== *)
(** * Part I: the model                                                   *)
(* ===================================================================== *)

(** ** Python values, exceptions and results *)

Module Py.

(** The exception classes the module raises or lets through.
    [Unmodelled] marks a run that leaves the fragment of pandas that the
    embedding covers; no statement is made about such a run. *)
Inductive exn : Set :=
| ValueError
| KeyError
| AssertionError
| Exception
| UnicodeEncodeError
| TypeError
| IndexError
| FileNotFoundError
| HTTPError (msg : string)
| Unmodelled.

Inductive result (A : Type) : Type :=
| Ok (a : A)
| Raise (e : exn).
Arguments Ok {A} a.
Arguments Raise {A} e.

#[global] Instance result_ret : MRet result := fun A a => Ok a.
#[global] Instance result_bind : MBind result :=
  fun A B k m => match m with Ok a => k a | Raise e => Raise e end.

(** A loop over a list that carries a state and may raise. *)
Fixpoint foldM {A S : Type} (f : S -> A -> result S) (s : S) (l : list A) : result S :=
  match l with
  | [] => Ok s
  | a :: l' => s' ← f s a; foldM f s' l'
  end.

(** [d.get(k)] for a dict written as the list of its items. *)
Fixpoint assoc {A : Type} (k : string) (l : list (string * A)) : option A :=
  match l with
  | [] => None
  | (k', a) :: l' => if String.eqb k k' then Some a else assoc k l'
  end.

(** [assert cond] *)
Definition py_assert (cond : bool) : result unit :=
  if cond then Ok tt else Raise AssertionError.

(** Scalars that occur as identifiers and names in the catalogs. *)
Inductive pyval : Set :=
| PyStr (s : string)
| PyInt (z : Z).

(** [str(v)] *)
Definition str (v : pyval) : string :=
  match v with
  | PyStr s => s
  | PyInt z => pretty z
  end.

(** An argument that is a single name or a list of names
    ([isinstance(groups, list)]). *)
Inductive names : Set :=
| OneName (s : string)
| NameList (l : list string).

(** [x in l] for a list of strings *)
Definition str_in (x : string) (l : list string) : bool :=
  bool_decide (x ∈ l).

(** [s.lower()] on the ASCII letters; other bytes are kept. *)
Definition lower_ascii (c : ascii) : ascii :=
  let n := nat_of_ascii c in
  if (65 <=? n)%nat && (n <=? 90)%nat then ascii_of_nat (n + 32) else c.

Fixpoint lower (s : string) : string :=
  match s with
  | EmptyString => EmptyString
  | String c s' => String (lower_ascii c) (lower s')
  end.

(** [s.upper()] on the ASCII letters. *)
Definition upper_ascii (c : ascii) : ascii :=
  let n := nat_of_ascii c in
  if (97 <=? n)%nat && (n <=? 122)%nat then ascii_of_nat (n - 32) else c.

Fixpoint upper (s : string) : string :=
  match s with
  | EmptyString => EmptyString
  | String c s' => String (upper_ascii c) (upper s')
  end.

End Py.

Import Py.

(** ** [_remove_accents] *)

Module Accents.

(** A Python [str] is a sequence of Unicode code points. *)
Definition ustr : Type := list N.

Definition is_ascii (c : N) : bool := (c <? 128)%N.

(** [s.replace(old, new)] for one-character [old] and [new]. *)
Definition replace_char (old new : N) (s : ustr) : ustr :=
  map (fun c => if (c =? old)%N then new else c) s.

(** [s.encode('ASCII', 'ignore').decode('ASCII')]: code points outside
    ASCII are dropped, the others are kept. *)
Definition encode_ascii_ignore (s : ustr) : ustr := List.filter is_ascii s.

(** U+00F8, LATIN SMALL LETTER O WITH STROKE, and U+006F, [o]. *)
Definition o_stroke : N := 248.
Definition latin_o : N := 111.

Section remove_accents.

(** [unicodedata.normalize('NFKD', _)], a table of the Python runtime. *)
Variable NFKD : ustr -> ustr.

(** The function with its log: the second component holds the warning
    (input and output) when the lengths differ. *)
Definition _remove_accents_logged (input_str : ustr) : ustr * list (ustr * ustr) :=
  let input_str_replaced := replace_char o_stroke latin_o input_str in
  let nfkd_form := NFKD input_str_replaced in
  let only_ascii := encode_ascii_ignore nfkd_form in
  (only_ascii,
   if bool_decide (length input_str ≠ length only_ascii)
   then [(input_str, only_ascii)] else []).

Definition _remove_accents (input_str : ustr) : ustr :=
  fst (_remove_accents_logged input_str).

End remove_accents.

(** A fragment of the compatibility decomposition, enough to run the
    function: some accented Latin letters and the ligature U+FB01. Every
    other code point, the ASCII ones among them, decomposes to itself. *)
Definition decompose (c : N) : ustr :=
  match c with
  | 224%N => [97; 768]%N   (* a grave *)
  | 225%N => [97; 769]%N   (* a acute *)
  | 228%N => [97; 776]%N   (* a diaeresis *)
  | 229%N => [97; 778]%N   (* a ring *)
  | 231%N => [99; 807]%N   (* c cedilla *)
  | 232%N => [101; 768]%N  (* e grave *)
  | 233%N => [101; 769]%N  (* e acute *)
  | 241%N => [110; 771]%N  (* n tilde *)
  | 246%N => [111; 776]%N  (* o diaeresis *)
  | 252%N => [117; 776]%N  (* u diaeresis *)
  | 64257%N => [102; 105]%N (* ligature fi *)
  | _ => [c]
  end.

Definition nfkd_fragment (s : ustr) : ustr := flat_map decompose s.

End Accents.

(** ** Doubles *)

Module Float.

(** A finite IEEE 754 double is taken as the rational number it stands
    for; the sign of zero is not kept, and infinities and NaN are not
    values of the model. An operation on doubles is the exact operation
    on rationals followed by the rounding [rnd] to the nearest double. *)

Section double.
Local Open Scope Q_scope.

(** Rounding to the nearest integer, ties to the even one. *)
Definition round_half_even (a : Q) : Z :=
  let f := Qfloor a in
  match ((a - inject_Z f) ?= (1 # 2))%Q with
  | Lt => f
  | Gt => (f + 1)%Z
  | Eq => if Z.even f then f else (f + 1)%Z
  end.

(** [floor (log2 |q|)] for [q] other than 0. *)
Definition log2_floor (q : Q) : Z :=
  let l := (Z.log2 (Z.abs (Qnum q)) - Z.log2 (Zpos (Qden q)))%Z in
  if Qle_bool (2 ^ l) (Qabs q) then l else (l - 1)%Z.

(** The exponent of the last bit of the doubles of the size of [q]: a
    double has 53 bits, and the smallest doubles are the multiples of
    2^-1074. *)
Definition ulp_exp (q : Q) : Z := Z.max (log2_floor q - 52) (-1074).

(** The double nearest to [q], ties to the even significand. *)
Definition rnd (q : Q) : Q :=
  let e := ulp_exp q in
  Qred (inject_Z (round_half_even (q / 2 ^ e)) * 2 ^ e).

(** The greatest double. *)
Definition max_double : Q := inject_Z (2 ^ 53 - 1) * 2 ^ 971.

(** [q] is the value of a finite double. *)
Definition is_double (q : Q) : bool :=
  Qeq_bool (rnd q) q && Qle_bool (Qabs q) max_double.

(** [a + b] and [a - b] on doubles. *)
Definition add (a b : Q) : Q := rnd (a + b).
Definition sub (a b : Q) : Q := rnd (a - b).

(** [math.fmod(a, m)]: what is left of [a] after the whole multiples of
    [m], counted towards zero, are taken away. It is a double whenever
    [a] and [m] are: nothing is rounded. *)
Definition trunc (q : Q) : Z := if Qle_bool 0 q then Qfloor q else Qceiling q.
Definition fmod (a m : Q) : Q := a - m * inject_Z (trunc (a / m)).

Definition negative (q : Q) : bool := negb (Qle_bool 0 q).

(** [a % m] on doubles, [m] other than 0: the remainder of [fmod],
    brought to the sign of [m] by one addition. *)
Definition py_mod (a m : Q) : Q :=
  let r := fmod a m in
  if Qeq_bool r 0 then 0
  else if negb (Bool.eqb (negative m) (negative r)) then add r m
  else r.

(** [round(a, ndigits)] for a double and [ndigits >= 0]: the decimal
    with [ndigits] decimals nearest to [a], ties to the even last
    digit, and then the double nearest to that decimal. *)
Definition py_round (a : Q) (ndigits : nat) : Q :=
  let scale := inject_Z (10 ^ Z.of_nat ndigits) in
  rnd (inject_Z (round_half_even (a * scale)) / scale).

(** The whole turns below [a]. *)
Definition turns (a : Q) : Z := Qfloor (a / 360).

(** Ten decimals, and the decimal with ten decimals nearest to [a]. *)
Definition scale10 : Q := inject_Z (10 ^ 10).

Definition decimal10 (a : Q) : Q := inject_Z (round_half_even (a * scale10)) / scale10.

End double.

End Float.

(** ** Points and the longitude shift of the UHSLC catalog *)

Module Geo.

(** [shapely.Point(x, y)], coordinates in degrees. *)
Record Point : Set := mkPoint { x : Q; y : Q }.

(** Two points are the same geometry when their coordinates are equal
    as numbers. *)
Definition point_eqb (p q : Point) : bool :=
  Qeq_bool (x p) (x q) && Qeq_bool (y p) (y q).

(** shift from 0to360 to -180to180, round off to avoid
    134.463+180=314.46299999999997 *)
Definition _lon_360_to_180 (lon : Q) : Q :=
  Float.py_round (Float.sub (Float.py_mod (Float.add lon 180) 360) 180) 10.

(** A station of [meta.geojson]: the columns the module reads. *)
Record uhslc_feature : Type := mkUhslc {
  uhslc_id : Z;
  name : string;
  uhslc_country : string;
  rq_span : Z * Z;      (* oldest, latest *)
  fd_span : Z * Z;
  geometry : Point
}.

(** A geo-table: its columns and its rows. *)
Record uhslc_gdf : Type := mkUhslcGdf {
  columns : list string;
  features : list uhslc_feature
}.

Definition drop_if_present (drop_col : string) (cols : list string) : list string :=
  if str_in drop_col cols then List.filter (fun c => negb (String.eqb c drop_col)) cols
  else cols.

(** [_uhslc_get_json]: the argument is the table read from the server.
    The index becomes [uhslc_id] (the column is kept). *)
Definition _uhslc_get_json (uhslc_gpd : uhslc_gdf) : uhslc_gdf :=
  let cols := fold_left (fun c d => drop_if_present d c) ["rq_basin"; "rq_versions"]
                        (columns uhslc_gpd) in
  let geom_shift :=
    map (fun f => let pnt := geometry f in
                  mkUhslc (uhslc_id f) (name f) (uhslc_country f) (rq_span f) (fd_span f)
                          (mkPoint (_lon_360_to_180 (x pnt)) (y pnt)))
        (features uhslc_gpd) in
  mkUhslcGdf cols geom_shift.

(** Sample data: the double nearest to 179.99999999999 degrees east,
    and a one-station table. *)
Definition lon_eleven_decimals : Q := 197912092999669 # 1099511627776.

(** The doubles nearest to 134.463, 314.463 and -45.537, and the
    double 314.46299999999997 that the sum of the first and 180 is. *)
Definition lon_134_463 : Q := 4730996224180617 # 35184372088832.
Definition lon_314_463 : Q := 5532091600085189 # 17592186044416.
Definition lon_134_463_plus_180 : Q := 1383022900021297 # 4398046511104.
Definition lon_45_537_west : Q := -6408763007236571 # 140737488355328.

Definition uhslc_sample : uhslc_gdf :=
  mkUhslcGdf ["uhslc_id"; "name"; "country"; "rq_span"; "fd_span"; "rq_basin"; "geometry"]
             [mkUhslc 1 "Pohnpei" "Micronesia" (0, 10)%Z (5, 20)%Z
                      (mkPoint lon_eleven_decimals 7)].

End Geo.

(** ** The SSC catalog: identifier lookup, group subsets, linked stations *)

Module Ssc.
Import Geo.

(** A row of the catalog that [ssc_ssh_read_catalog] returns. [label] is
    the index label (the [ssc_id]); the identifier cells are lists of
    strings; the [dist_*] cells are empty until
    [ssc_add_linked_stations] fills them. *)
Record ssc_row : Type := mkSsc {
  label : string;
  station_id : string;
  station_name : string;
  station_name_unique : string;
  country : string;
  geometry : Point;
  psmsl : list string;
  ioc : list string;
  ptwc : list string;
  gloss : list string;
  uhslc : list string;
  sonel_gps : list string;
  sonel_tg : list string;
  dist_dict : option (gmap string (Q * Q * R));
  dist_min : option R;
  dist_max : option R
}.

(** The columns whose cells are lists of identifiers. *)
Definition id_columns : list (string * (ssc_row -> list string)) :=
  [("psmsl", psmsl); ("ioc", ioc); ("ptwc", ptwc); ("gloss", gloss);
   ("uhslc", uhslc); ("sonel_gps", sonel_gps); ("sonel_tg", sonel_tg)].

(** [ssc_catalog[colname]] for a column of identifier lists, as the
    function that reads the cell of a row. The other columns of the
    table are never selected by name in the code below. *)
Definition id_column (colname : string) : result (ssc_row -> list string) :=
  match assoc colname id_columns with
  | Some col => Ok col
  | None => Raise Unmodelled
  end.

(** [row[colname]] for a column of identifier lists (empty for any
    other name). *)
Definition ids_of (colname : string) (row : ssc_row) : list string :=
  match assoc colname id_columns with
  | Some col => col row
  | None => []
  end.

Definition list_validgroups : list string := ["psmsl"; "ioc"; "ptwc"; "gloss"; "uhslc"].

Fixpoint check_groupnames (groups : list string) : result unit :=
  match groups with
  | [] => Ok tt
  | groupname :: rest =>
      if str_in groupname list_validgroups then check_groupnames rest
      else Raise ValueError
  end.

Definition as_list (groups : names) : list string :=
  match groups with
  | OneName s => [s]
  | NameList l => l
  end.

Definition _check_ssc_groups_valid (groups : names) : result unit :=
  check_groupnames (as_list groups).

(** Rows selected by a boolean series. *)
Fixpoint select {A : Type} (mask : list bool) (rows : list A) : list A :=
  match mask, rows with
  | b :: mask', r :: rows' => if b then r :: select mask' rows' else select mask' rows'
  | _, _ => []
  end.

(** [series.sum()] of a boolean series. *)
Definition count_true (mask : list bool) : nat := length (List.filter (fun b : bool => b) mask).

(** The column labels of the table that [ssc_ssh_read_catalog()]
    returns: the columns of the service with [geo:lon] and [geo:lat]
    dropped and [name] and [ssc_id] renamed, the unique name and the
    geometry. *)
Definition catalog_columns : list string :=
  ["station_name"; "country"; "station_id"; "psmsl"; "ioc"; "ptwc"; "gloss"; "uhslc";
   "sonel_gps"; "sonel_tg"; "station_name_unique"; "geometry"].

(** [catalog.loc[mask, columns]] for a list of column labels: every
    label must be a column of the table. *)
Definition loc_rows_columns (mask : list bool) (columns : list string)
    (catalog : list ssc_row) : result (list ssc_row) :=
  if forallb (fun c => str_in c catalog_columns) columns
  then Ok (select mask catalog)
  else Raise KeyError.

(** [ssc_sscid_from_otherid]; [ssc_catalog_pd] is what
    [ssc_ssh_read_catalog()] returned. *)
Definition ssc_sscid_from_otherid (ssc_catalog_pd : list ssc_row)
    (group_id : pyval) (groupname : string) : result string :=
  let group_id := str group_id in
  _ ← _check_ssc_groups_valid (OneName groupname);
  col ← id_column groupname;
  let bool_strinseries := map (fun row => str_in group_id (col row)) ssc_catalog_pd in
  if (count_true bool_strinseries <? 1)%nat then Raise ValueError
  else if (1 <? count_true bool_strinseries)%nat then
    let columns := ["name"; "country"; "geo:lat"; "geo:lon"; groupname] in
    subset ← loc_rows_columns bool_strinseries columns ssc_catalog_pd;
    Raise ValueError
  else match select bool_strinseries ssc_catalog_pd with
       | row :: _ => Ok (label row)
       | [] => Raise IndexError
       end.

Fixpoint mapM_result {A B : Type} (f : A -> result B) (l : list A) : result (list B) :=
  match l with
  | [] => Ok []
  | a :: l' => b ← f a; bs ← mapM_result f l'; Ok (b :: bs)
  end.

(** [x.str.len()] summed over the selected columns of one row. *)
Definition ids_in_columns (cols : list (ssc_row -> list string)) (row : ssc_row) : nat :=
  foldr (fun col acc => (length (col row) + acc)%nat) 0%nat cols.

(** [ssc_ssh_subset_groups]; [read_catalog] is what
    [ssc_ssh_read_catalog()] would return. *)
Definition ssc_ssh_subset_groups (read_catalog : list ssc_row)
    (groups : names) (ssc_catalog_gpd : option (list ssc_row)) : result (list ssc_row) :=
  let ssc_catalog_gpd :=
    match ssc_catalog_gpd with None => read_catalog | Some c => c end in
  let groups := as_list groups in
  _ ← _check_ssc_groups_valid (NameList groups);
  cols ← mapM_result id_column groups;
  let bool_ingroup :=
    map (fun row => negb (ids_in_columns cols row =? 0)%nat) ssc_catalog_gpd in
  Ok (select bool_ingroup ssc_catalog_gpd).

(** *** Linked stations *)

(** A station of the IOC station list: the columns the module reads. *)
Record ioc_station : Type := mkIoc {
  Code : string;
  code : Z;
  Location : string;
  ioc_country : string;
  lon : Q;
  lat : Q;
  date_created : Z;
  lasttime : Z;
  UTCOffset : Z
}.

Record http_response : Type := mkResponse {
  status_code : Z;
  json : list ioc_station
}.

(** A row of the IOC catalog: index label, station, geometry. *)
Record ioc_row : Type := mkIocRow {
  ioc_label : string;
  ioc_data : ioc_station;
  ioc_geometry : Point
}.

(** [_ioc_get_json]; [resp] is the answer of the station list service. *)
Definition _ioc_get_json (resp : http_response) : result (list ioc_row) :=
  if (status_code resp =? 404)%Z then Raise Exception
  else Ok (map (fun s => mkIocRow (Code s) s (mkPoint (lon s) (lat s))) (json resp)).

(** [drop_duplicates(['Code','geometry'])]: the first row of each
    code and geometry is kept. *)
Definition same_code_geometry (a b : ioc_row) : bool :=
  String.eqb (Code (ioc_data a)) (Code (ioc_data b)) &&
  point_eqb (ioc_geometry a) (ioc_geometry b).

Fixpoint drop_duplicates_from (seen rows : list ioc_row) : list ioc_row :=
  match rows with
  | [] => []
  | r :: rows' =>
      if existsb (same_code_geometry r) seen then drop_duplicates_from seen rows'
      else r :: drop_duplicates_from (r :: seen) rows'
  end.

Definition drop_duplicates (rows : list ioc_row) : list ioc_row :=
  drop_duplicates_from [] rows.

(** A linked catalog, as far as the lookup goes: index label and geometry. *)
Definition linked_index : Type := list (string * Point).

Definition uhslc_linked (uhslc_catalog_gpd : uhslc_gdf) : linked_index :=
  (* uhslc index is dtype int but we use loc with dtype str *)
  map (fun f => (pretty (uhslc_id f), Geo.geometry f)) (features uhslc_catalog_gpd).

Definition ioc_linked (ioc_catalog_gpd : list ioc_row) : linked_index :=
  map (fun r => (lower (ioc_label r), ioc_geometry r)) (drop_duplicates ioc_catalog_gpd).

(** [linked_gpd.loc[linked_id]["geometry"]]: a missing label raises; a
    label that occurs once gives its row; a repeated label gives a table
    in place of a row, where the embedding stops. *)
Definition loc_geometry (linked_gpd : linked_index) (linked_id : string) : result Point :=
  match List.filter (fun r => String.eqb (fst r) linked_id) linked_gpd with
  | [] => Raise KeyError
  | [r] => Ok (snd r)
  | _ => Raise Unmodelled
  end.

(** [((x2-x1)**2 + (y2-y1)**2) **0.5] *)
Definition dist (x1 y1 x2 y2 : Q) : R :=
  sqrt (Q2R ((x2 - x1) ^ 2 + (y2 - y1) ^ 2)%Q).

(** The two accumulators of a station: [station_check_dict] and
    [station_check_dist_all]. *)
Definition check_state : Type := gmap string (Q * Q * R) * list R.

Definition link_one (x1 y1 : Q) (linked_name : string) (linked_gpd : linked_index)
    (acc : check_state) (linked_id : string) : result check_state :=
  let linked_id := lower linked_id in
  geom ← loc_geometry linked_gpd linked_id;
  let x2 := x geom in
  let y2 := y geom in
  let dist := dist x1 y1 x2 y2 in
  let station_key := (upper linked_name ++ ": " ++ linked_id)%string in
  Ok (<[station_key := (x2, y2, dist)]> (fst acc), snd acc ++ [dist]).

Definition link_catalog (x1 y1 : Q) (row : ssc_row)
    (acc : check_state) (entry : string * linked_index) : result check_state :=
  let '(linked_name, linked_gpd) := entry in
  col ← id_column linked_name;
  foldM (link_one x1 y1 linked_name linked_gpd) acc (col row).

(** [np.min] and [np.max] of a list. *)
Definition np_min (l : list R) : result R :=
  match l with
  | [] => Raise ValueError
  | d :: l' => Ok (fold_left Rmin l' d)
  end.

Definition np_max (l : list R) : result R :=
  match l with
  | [] => Raise ValueError
  | d :: l' => Ok (fold_left Rmax l' d)
  end.

Definition with_dist (d : gmap string (Q * Q * R)) (dmin dmax : R) (r : ssc_row) : ssc_row :=
  mkSsc (label r) (station_id r) (station_name r) (station_name_unique r) (country r)
        (geometry r) (psmsl r) (ioc r) (ptwc r) (gloss r) (uhslc r)
        (sonel_gps r) (sonel_tg r) (Some d) (Some dmin) (Some dmax).

(** The three assignments [catalog.loc[station_ssc_id, ...] = ...]. The
    first one gives a list of one dict: with one row of that index label
    the cell is set, with several rows of that label one value meets
    several cells and pandas raises [ValueError]. *)
Definition set_dist (station_ssc_id : string) (d : gmap string (Q * Q * R))
    (dmin dmax : R) (catalog : list ssc_row) : result (list ssc_row) :=
  let rows := List.filter (fun r => String.eqb (label r) station_ssc_id) catalog in
  if (1 <? length rows)%nat then Raise ValueError
  else
    Ok (map (fun r => if String.eqb (label r) station_ssc_id then with_dist d dmin dmax r
                      else r)
            catalog).

(** The body of the loop over the rows: [catalog] is the table being
    updated, [row] a row as it was when the loop started. *)
Definition add_linked_row (linked_dict : list (string * linked_index))
    (catalog : list ssc_row) (row : ssc_row) : result (list ssc_row) :=
  let station_ssc_id := label row in
  let x1 := x (geometry row) in
  let y1 := y (geometry row) in
  '(station_check_dict, station_check_dist_all) ←
     foldM (link_catalog x1 y1 row) (∅, []) linked_dict;
  if bool_decide (station_check_dict = ∅) then Ok catalog
  else
    dmin ← np_min station_check_dist_all;
    dmax ← np_max station_check_dist_all;
    set_dist station_ssc_id station_check_dict dmin dmax catalog.

Definition linked_catalogs (uhslc_catalog_gpd : uhslc_gdf) (ioc_catalog_gpd : list ioc_row)
  : list (string * linked_index) :=
  [("ioc", ioc_linked ioc_catalog_gpd); ("uhslc", uhslc_linked uhslc_catalog_gpd)].

(** [ssc_add_linked_stations]; [uhslc_meta] is the station table of the
    UHSLC server and [ioc_service] the IOC station list service, by its
    [showall] argument. *)
Definition ssc_add_linked_stations (uhslc_meta : uhslc_gdf)
    (ioc_service : string -> http_response)
    (ssc_catalog_gpd : list ssc_row) : result (list ssc_row) :=
  let uhslc_catalog_gpd := _uhslc_get_json uhslc_meta in
  ioc_catalog_gpd ← _ioc_get_json (ioc_service "all");
  let linked_dict := linked_catalogs uhslc_catalog_gpd ioc_catalog_gpd in
  foldM (add_linked_row linked_dict) ssc_catalog_gpd ssc_catalog_gpd.

(** *** Vocabulary of the statements about linked stations *)

(** The Euclidean distance between two points, in degrees. *)
Definition euclid (p q : Point) : R :=
  sqrt ((Q2R (x q) - Q2R (x p)) ^ 2 + (Q2R (y q) - Q2R (y p)) ^ 2)%R.

(** [geom] is the geometry of a station linked to [row]: some linked
    catalog lists, under the lowercased identifier, that geometry. *)
Definition linked_station (linked_dict : list (string * linked_index))
    (row : ssc_row) (geom : Point) : Prop :=
  exists linked_name linked_gpd linked_id,
    In (linked_name, linked_gpd) linked_dict /\
    In linked_id (ids_of linked_name row) /\
    In (lower linked_id, geom) linked_gpd.

(** What the loop body computes for one station, apart from the table
    it then updates: nothing for a station without links. *)
Definition station_links (linked_dict : list (string * linked_index)) (row : ssc_row)
  : result (option (gmap string (Q * Q * R) * R * R)) :=
  '(station_check_dict, station_check_dist_all) ←
     foldM (link_catalog (x (geometry row)) (y (geometry row)) row) (∅, []) linked_dict;
  if bool_decide (station_check_dict = ∅) then Ok None
  else
    dmin ← np_min station_check_dist_all;
    dmax ← np_max station_check_dist_all;
    Ok (Some (station_check_dict, dmin, dmax)).

Definition apply_links (station_ssc_id : string)
    (links : option (gmap string (Q * Q * R) * R * R)) (r : ssc_row) : ssc_row :=
  match links with
  | None => r
  | Some (d, dmin, dmax) =>
      if String.eqb (label r) station_ssc_id then with_dist d dmin dmax r else r
  end.

(** The steps of the loop applied to one row of the table. *)
Definition apply_all (steps : list (ssc_row * option (gmap string (Q * Q * R) * R * R)))
    (r : ssc_row) : ssc_row :=
  fold_left (fun r p => apply_links (label (fst p)) (snd p) r) steps r.

(** *** Sample data *)

Definition ssc_abas : ssc_row :=
  mkSsc "SSC-abas" "SSC-abas" "Abashiri" "SSC-abas_Abashiri" "JP" (mkPoint 144 44)
        ["2219"] ["abas"; "ABAS2"] [] ["327"] ["347"] [] [] None None None.

Definition ssc_abur : ssc_row :=
  mkSsc "SSC-abur" "SSC-abur" "Aburatsu" "SSC-abur_Aburatsu" "JP" (mkPoint 131 31)
        [] ["abur"] [] [] ["347"] [] [] None None None.

Definition ssc_acaj : ssc_row :=
  mkSsc "SSC-acaj" "SSC-acaj" "Acajutla" "SSC-acaj_Acajutla" "SV" (mkPoint (-90) 13)
        [] [] [] ["182"] [] [] [] None None None.

Definition ssc_sample : list ssc_row := [ssc_abas; ssc_abur; ssc_acaj].

Definition uhslc_meta_sample : uhslc_gdf :=
  mkUhslcGdf ["uhslc_id"; "name"; "country"; "rq_span"; "fd_span"; "geometry"]
             [mkUhslc 347 "Abashiri" "Japan" (0, 10)%Z (5, 20)%Z (mkPoint 148 47)].

Definition ioc_service_sample (showall : string) : http_response :=
  mkResponse 200
    [mkIoc "abas" 1 "Abashiri" "Japan" 144 44 0 10 0;
     mkIoc "abas2" 2 "Abashiri 2" "Japan" 147 48 0 10 0;
     mkIoc "abur" 3 "Aburatsu" "Japan" 131 31 0 10 0].

End Ssc.

(** ** The catalog readers and [ssh_catalog_subset], by their columns *)

Module Catalog.

(** The shape of a (geo-)table: the column labels in order, the name of
    the index, and the coordinate reference system of its geometry
    column, when it has one. *)
Record table : Type := mkTable {
  columns : list string;
  index_name : option string;
  crs : option string
}.

Definition has (c : string) (t : table) : bool := str_in c (columns t).

(** [t[c]]: reading a column. *)
Definition require (c : string) (t : table) : result unit :=
  if has c t then Ok tt else Raise KeyError.

Fixpoint require_all (cs : list string) (t : table) : result unit :=
  match cs with
  | [] => Ok tt
  | c :: cs' => _ ← require c t; require_all cs' t
  end.

(** [t[c] = ...]: an existing column keeps its place, a new one is
    appended. *)
Definition setcol (c : string) (t : table) : table :=
  if has c t then t
  else mkTable (columns t ++ [c]) (index_name t) (crs t).

(** [t.drop(cs, axis=1)]: every label must be a column. *)
Definition drop (cs : list string) (t : table) : result table :=
  _ ← require_all cs t;
  Ok (mkTable (List.filter (fun c => negb (str_in c cs)) (columns t)) (index_name t) (crs t)).

(** [t.rename(d, axis=1)]: labels outside the table are ignored. *)
Definition rename (d : list (string * string)) (t : table) : table :=
  mkTable (map (fun c => match assoc c d with Some c' => c' | None => c end) (columns t))
          (index_name t) (crs t).

(** [t.set_index(c, drop=False)] *)
Definition set_index (c : string) (t : table) : result table :=
  _ ← require c t; Ok (mkTable (columns t) (Some c) (crs t)).

(** [t.reset_index()]: the index becomes the first column. *)
Definition reset_index (t : table) : result table :=
  let c := match index_name t with
           | Some n => n
           | None => if has "index" t then "level_0" else "index"
           end in
  if has c t then Raise ValueError
  else Ok (mkTable (c :: columns t) None (crs t)).

(** [gpd.GeoDataFrame(data=t, geometry=geom, crs=epsg)] *)
Definition GeoDataFrame (t : table) (epsg : string) : table :=
  let t' := setcol "geometry" t in
  mkTable (columns t') (index_name t') (Some epsg).

(** [t.to_crs(epsg)] *)
Definition to_crs (epsg : string) (t : table) : result table :=
  match crs t with
  | None => Raise ValueError
  | Some _ => Ok (mkTable (columns t) (index_name t) (Some epsg))
  end.

(** [gpd.read_file] of a GeoJSON file with the given property names:
    the coordinates of GeoJSON are WGS 84 and the table holds them in
    a geometry column. *)
Definition read_geojson (properties : list string) : table :=
  mkTable (properties ++ ["geometry"]) None (Some "EPSG:4326").

(** A table read from JSON or CSV: its columns, a default index. *)
Definition read_plain (cols : list string) : table := mkTable cols None None.

(** What the readers find outside the program: the columns of each
    provider's station list, and the facts about the data that decide a
    branch below. *)
Record world : Type := mkWorld {
  ssc_json_columns : list string;
  ssc_any_linked : bool;                 (* some SSC station has an IOC or UHSLC id *)
  gesla3_meta_file : option (list string);   (* the header of the csv, when the file exists *)
  ioc_status_code : Z;
  ioc_json_columns : list string;
  cmems_index_header : string -> list string;  (* by dataset id *)
  cmems_lon_points : bool;               (* lon_min = lon_max in every row *)
  cmems_lat_points : bool;               (* lat_min = lat_max in every row *)
  uhslc_properties : list string;
  psmsl_sites_columns : list string;
  psmsl_any_station : bool;              (* a station is left after the spatial subset *)
  ddl_locations_columns : list string;
  ddl_locations_index : option string;
  ddl_epsg_uniq : list string;           (* the distinct values of Coordinatenstelsel *)
  gtsm_list_columns : list string
}.

(** The keyword arguments that [ssh_catalog_subset] passes on. *)
Record kwargs : Type := mkKwargs {
  linked_stations : option bool;
  only_coastal : option bool;
  drop_uhslc : option bool;
  drop_dart : option bool;
  drop_nonutc : option bool;
  overwrite : option bool;
  meta_dict : option (list (string * string))
}.

Definition no_kwargs : kwargs := mkKwargs None None None None None None None.

Definition given {A : Type} (o : option A) : bool :=
  match o with Some _ => true | None => false end.

(** The keywords that are set, by name. *)
Definition keywords (kw : kwargs) : list string :=
  (if given (linked_stations kw) then ["linked_stations"] else []) ++
  (if given (only_coastal kw) then ["only_coastal"] else []) ++
  (if given (drop_uhslc kw) then ["drop_uhslc"] else []) ++
  (if given (drop_dart kw) then ["drop_dart"] else []) ++
  (if given (drop_nonutc kw) then ["drop_nonutc"] else []) ++
  (if given (overwrite kw) then ["overwrite"] else []) ++
  (if given (meta_dict kw) then ["meta_dict"] else []).

(** Calling a function with a keyword it does not have raises. *)
Definition accepts (params : list string) (kw : kwargs) : result unit :=
  if forallb (fun k => str_in k params) (keywords kw) then Ok tt else Raise TypeError.

Definition arg (o : option bool) (default : bool) : bool :=
  match o with Some b => b | None => default end.

Section readers.
Variable w : world.

(** [ssc_add_linked_stations] adds its three columns when it sets a
    cell of them. *)
Definition ssc_add_linked_stations_columns (t : table) : table :=
  if ssc_any_linked w then setcol "dist_max" (setcol "dist_min" (setcol "dist_dict" t))
  else t.

Definition ssc_ssh_read_catalog (kw : kwargs) : result table :=
  _ ← accepts ["linked_stations"] kw;
  let ssc_catalog_pd := read_plain (ssc_json_columns w) in
  _ ← require_all ["psmsl"; "ioc"; "ptwc"; "gloss"; "uhslc"; "sonel_gps"; "sonel_tg"]
                   ssc_catalog_pd;
  _ ← require "name" ssc_catalog_pd;
  _ ← require "ssc_id" ssc_catalog_pd;
  let ssc_catalog_pd := setcol "station_name_unique" ssc_catalog_pd in
  ssc_catalog_pd ← set_index "ssc_id" ssc_catalog_pd;
  let ssc_catalog_gpd := GeoDataFrame ssc_catalog_pd "EPSG:4326" in
  ssc_catalog_gpd ← drop ["geo:lon"; "geo:lat"] ssc_catalog_gpd;
  let ssc_catalog_gpd :=
    rename [("name", "station_name"); ("ssc_id", "station_id")] ssc_catalog_gpd in
  Ok (if arg (linked_stations kw) false
      then ssc_add_linked_stations_columns ssc_catalog_gpd
      else ssc_catalog_gpd).

Definition get_cmems_dataset_id (source : string) : result string :=
  match assoc source [("cmems", "cmems_obs-ins_glo_phy-ssh_my_na_PT1H");
                          ("cmems-nrt", "cmems_obs-ins_glo_phybgcwav_mynrt_na_irr")] with
  | Some dataset_id => Ok dataset_id
  | None => Raise KeyError
  end.

Definition cmems_ssh_read_catalog (source : string) : result table :=
  dataset_id ← get_cmems_dataset_id source;
  let index_history_pd := read_plain (cmems_index_header w dataset_id) in
  _ ← require_all ["file_name"; "parameters"] index_history_pd;
  _ ← require_all ["geospatial_lon_min"; "geospatial_lon_max"] index_history_pd;
  _ ← py_assert (cmems_lon_points w);
  _ ← require_all ["geospatial_lat_min"; "geospatial_lat_max"] index_history_pd;
  _ ← py_assert (cmems_lat_points w);
  let index_history_gpd := GeoDataFrame index_history_pd "EPSG:4326" in
  index_history_gpd ← drop ["geospatial_lon_min"; "geospatial_lon_max";
                             "geospatial_lat_min"; "geospatial_lat_max"] index_history_gpd;
  let index_history_gpd := setcol "country" index_history_gpd in
  let index_history_gpd := setcol "station_name" index_history_gpd in
  let index_history_gpd := setcol "station_id" index_history_gpd in
  let index_history_gpd := setcol "station_name_unique" index_history_gpd in
  let index_history_gpd :=
    rename [("time_coverage_start", "time_min"); ("time_coverage_end", "time_max")]
           index_history_gpd in
  _ ← require "time_min" index_history_gpd;
  _ ← require "time_max" index_history_gpd;
  Ok (setcol "time_ndays" index_history_gpd).

Definition cmems_my_ssh_read_catalog (kw : kwargs) : result table :=
  _ ← accepts ["overwrite"] kw; cmems_ssh_read_catalog "cmems".

Definition cmems_nrt_ssh_read_catalog (kw : kwargs) : result table :=
  _ ← accepts ["overwrite"] kw; cmems_ssh_read_catalog "cmems-nrt".

Definition _uhslc_get_json : result table :=
  let uhslc_gpd := read_geojson (uhslc_properties w) in
  let uhslc_gpd :=
    mkTable (fold_left (fun c d => Geo.drop_if_present d c) ["rq_basin"; "rq_versions"]
                       (columns uhslc_gpd))
            (index_name uhslc_gpd) (crs uhslc_gpd) in
  set_index "uhslc_id" uhslc_gpd.

Definition uhslc_ssh_read_catalog (kw : kwargs) : result table :=
  _ ← accepts [] kw;
  uhslc_gpd ← _uhslc_get_json;
  _ ← require_all ["rq_span"; "fd_span"] uhslc_gpd;
  let uhslc_gpd := setcol "time_max" (setcol "time_min" uhslc_gpd) in
  _ ← require "name" uhslc_gpd;
  let uhslc_gpd := setcol "station_name_unique" uhslc_gpd in
  let uhslc_gpd := rename [("name", "station_name"); ("uhslc_id", "station_id")] uhslc_gpd in
  Ok (setcol "time_ndays" uhslc_gpd).

Definition _ioc_get_json : result table :=
  if (ioc_status_code w =? 404)%Z then Raise Exception
  else
    let ioc_catalog_pd := read_plain (ioc_json_columns w) in
    ioc_catalog_pd ← set_index "Code" ioc_catalog_pd;
    let ioc_catalog_gpd := GeoDataFrame ioc_catalog_pd "EPSG:4326" in
    drop ["Lon"; "lat"; "lon"; "lat"] ioc_catalog_gpd.

(** the catalog json does not contain time ranges so we derive it
    from daily csv files *)
Definition psmsl_gnssir_ssh_read_catalog_gettimes (station_list_gpd : table) : table :=
  let station_list_gpd := setcol "time_max" (setcol "time_min" station_list_gpd) in
  if psmsl_any_station w then setcol "time_ndays" station_list_gpd else station_list_gpd.

(** The part of [ssh_catalog_subset] after the choice of the reader. *)
Definition subset_with (catalog_read_func : kwargs -> result table)
    (source : string) (time_min time_max : option Z) (kw : kwargs) : result table :=
  ssh_catalog_gpd ← catalog_read_func kw;
  let ssh_catalog_gpd := setcol "source" ssh_catalog_gpd in
  (* spatial subsetting and sort again: the columns stay *)
  _ ← require "geometry" ssh_catalog_gpd;
  if given time_min && given time_max then
    let ssh_catalog_gpd :=
      if String.eqb source "psmsl-gnssir"
      then psmsl_gnssir_ssh_read_catalog_gettimes ssh_catalog_gpd
      else ssh_catalog_gpd in
    if negb (has "time_min" ssh_catalog_gpd) then Raise KeyError
    else
      _ ← require "time_min" ssh_catalog_gpd;
      _ ← require "time_max" ssh_catalog_gpd;
      Ok ssh_catalog_gpd
  else Ok ssh_catalog_gpd.

Definition ioc_ssh_read_catalog (kw : kwargs) : result table :=
  _ ← accepts ["drop_uhslc"; "drop_dart"; "drop_nonutc"] kw;
  ioc_catalog_gpd ← _ioc_get_json;
  _ ← require "date_created" ioc_catalog_gpd;
  let ioc_catalog_gpd := setcol "time_min" ioc_catalog_gpd in
  _ ← require "lasttime" ioc_catalog_gpd;
  let ioc_catalog_gpd := setcol "time_max" ioc_catalog_gpd in
  _ ← require "Code" ioc_catalog_gpd;
  let ioc_catalog_gpd := setcol "station_id" (setcol "station_name" ioc_catalog_gpd) in
  _ ← require "code" ioc_catalog_gpd;
  let ioc_catalog_gpd := setcol "station_name_unique" ioc_catalog_gpd in
  ioc_catalog_gpd ←
    (if arg (drop_uhslc kw) true then
       (* ssh_catalog_subset(source='ssc') *)
       ssc_catalog_pd ← subset_with ssc_ssh_read_catalog "ssc" None None no_kwargs;
       _ ← require_all ["ioc"; "uhslc"] ssc_catalog_pd;
       Ok (setcol "inSSClist" (setcol "UHSLC" ioc_catalog_gpd))
     else Ok ioc_catalog_gpd);
  _ ← (if arg (drop_dart kw) true then require "Location" ioc_catalog_gpd else Ok tt);
  _ ← (if arg (drop_nonutc kw) true then require "UTCOffset" ioc_catalog_gpd else Ok tt);
  Ok (setcol "time_ndays" ioc_catalog_gpd).

Definition psmsl_gnssir_ssh_read_catalog (kw : kwargs) : result table :=
  _ ← accepts [] kw;
  let station_list_pd := read_plain (psmsl_sites_columns w) in
  let station_list_pd := rename [("CountryCode", "country")] station_list_pd in
  let station_list_gpd := GeoDataFrame station_list_pd "EPSG:4326" in
  station_list_gpd ← drop ["Longitude"; "Latitude"] station_list_gpd;
  _ ← require "Code" station_list_gpd;
  let station_list_gpd := setcol "station_id" (setcol "station_name" station_list_gpd) in
  Ok (setcol "station_name_unique" station_list_gpd).

(** One column label of the GESLA-3 metadata file. *)
Definition gesla3_clean_char (c : ascii) : list ascii :=
  if Ascii.eqb c " " then ["_"%char]
  else if Ascii.eqb c "(" then []
  else if Ascii.eqb c ")" then []
  else if Ascii.eqb c "/" then ["_"%char]
  else [lower_ascii c].

Definition gesla3_clean (c : string) : string :=
  string_of_list_ascii (flat_map gesla3_clean_char (list_ascii_of_string c)).

Definition gesla3_ssh_read_catalog (kw : kwargs) : result table :=
  _ ← accepts ["only_coastal"] kw;
  match gesla3_meta_file w with
  | None => Raise FileNotFoundError
  | Some header =>
      let station_list_pd := read_plain (map gesla3_clean header) in
      station_list_pd ← set_index "file_name" station_list_pd;
      _ ← require_all ["start_date_time"; "end_date_time"] station_list_pd;
      _ ← (if arg (only_coastal kw) true then require "gauge_type" station_list_pd
           else Ok tt);
      let station_list_gpd := GeoDataFrame station_list_pd "EPSG:4326" in
      station_list_gpd ← drop ["longitude"; "latitude"] station_list_gpd;
      _ ← require "file_name" station_list_gpd;
      let station_list_gpd :=
        setcol "station_id" (setcol "station_name_unique" station_list_gpd) in
      _ ← require "site_name" station_list_gpd;
      let station_list_gpd := setcol "station_name" station_list_gpd in
      let station_list_gpd :=
        rename [("start_date_time", "time_min"); ("end_date_time", "time_max")]
               station_list_gpd in
      _ ← require_all ["time_max"; "time_min"] station_list_gpd;
      Ok (setcol "time_ndays" station_list_gpd)
  end.

Definition rwsddl_ssh_meta_dict : list (string * string) :=
  [("Grootheid.Code", "WATHTE"); ("Groepering.Code", "NVT")].

Definition rwsddl_ssh_read_catalog (kw : kwargs) : result table :=
  _ ← accepts ["meta_dict"] kw;
  let meta_dict :=
    match meta_dict kw with None => rwsddl_ssh_meta_dict | Some d => d end in
  let selected := mkTable (ddl_locations_columns w) (ddl_locations_index w) None in
  _ ← require_all (map fst meta_dict) selected;
  selected ← reset_index selected;
  _ ← require_all ["X"; "Y"; "Coordinatenstelsel"] selected;
  match ddl_epsg_uniq w with
  | [] => Raise IndexError
  | epsg :: [] =>
      let ddl_slev_gdf := GeoDataFrame selected epsg in
      (* convert coordinates to wgs84 *)
      ddl_slev_gdf ← to_crs "EPSG:4326" ddl_slev_gdf;
      _ ← require "Naam" ddl_slev_gdf;
      let ddl_slev_gdf := setcol "station_name" ddl_slev_gdf in
      _ ← require "Code" ddl_slev_gdf;
      let ddl_slev_gdf :=
        setcol "station_id" (setcol "station_name_unique" ddl_slev_gdf) in
      Ok (setcol "country" ddl_slev_gdf)
  | _ => Raise ValueError
  end.

Definition gtsm3_era5_cds_ssh_read_catalog (kw : kwargs) : result table :=
  _ ← accepts [] kw;
  let station_list_pd := read_plain (gtsm_list_columns w) in
  let station_list_gpd := GeoDataFrame station_list_pd "EPSG:4326" in
  station_list_gpd ← drop ["lon"; "lat"] station_list_gpd;
  _ ← require_all ["station_id"; "station_name"] station_list_gpd;
  let station_list_gpd := setcol "station_name_unique" station_list_gpd in
  let station_list_gpd := setcol "country" station_list_gpd in
  let station_list_gpd := setcol "time_max" (setcol "time_min" station_list_gpd) in
  Ok (setcol "time_ndays" station_list_gpd).

Definition ssh_sources : list (string * (kwargs -> result table)) :=
  [("ssc", ssc_ssh_read_catalog);
   ("gesla3", gesla3_ssh_read_catalog);
   ("ioc", ioc_ssh_read_catalog);
   ("cmems", cmems_my_ssh_read_catalog);
   ("cmems-nrt", cmems_nrt_ssh_read_catalog);
   ("uhslc", uhslc_ssh_read_catalog);
   ("psmsl-gnssir", psmsl_gnssir_ssh_read_catalog);
   ("rwsddl", rwsddl_ssh_read_catalog);
   ("gtsm3-era5-cds", gtsm3_era5_cds_ssh_read_catalog)].

(** [ssh_catalog_subset]; [source] is [None] when the argument is
    left out. The bounding box selects rows and leaves the columns. *)
Definition ssh_catalog_subset (source : option string)
    (time_min time_max : option Z) (kw : kwargs) : result table :=
  match source with
  | None => Raise ValueError
  | Some source =>
      match assoc source ssh_sources with
      | None => Raise ValueError
      | Some catalog_read_func =>
          subset_with catalog_read_func source time_min time_max kw
      end
  end.

End readers.

(** The columns every catalog has, and the time columns. *)
Definition located (t : table) : Prop :=
  crs t = Some "EPSG:4326" /\ has "geometry" t = true /\
  has "station_name" t = true /\ has "station_id" t = true /\
  has "station_name_unique" t = true.

Definition timed (t : table) : Prop :=
  has "time_min" t = true /\ has "time_max" t = true.

(** Sample data: the columns of each provider's station list. *)
Definition world_sample : world :=
  mkWorld
    ["name"; "country"; "ssc_id"; "geo:lon"; "geo:lat"; "psmsl"; "ioc"; "ptwc"; "gloss";
     "uhslc"; "sonel_gps"; "sonel_tg"]
    true
    (Some ["FILE NAME"; "SITE NAME"; "SITE CODE"; "COUNTRY"; "LATITUDE"; "LONGITUDE";
           "START DATE/TIME"; "END DATE/TIME"; "GAUGE TYPE"])
    200
    ["Code"; "Lon"; "lat"; "lon"; "code"; "Location"; "country"; "date_created";
     "lasttime"; "UTCOffset"]
    (fun _ => ["catalog_id"; "file_name"; "geospatial_lat_min"; "geospatial_lat_max";
               "geospatial_lon_min"; "geospatial_lon_max"; "time_coverage_start";
               "time_coverage_end"; "parameters"])
    true true
    ["name"; "uhslc_id"; "country"; "rq_span"; "fd_span"; "rq_basin"]
    ["Code"; "Name"; "CountryCode"; "Latitude"; "Longitude"]
    true
    ["Naam"; "X"; "Y"; "Coordinatenstelsel"; "Grootheid.Code"; "Groepering.Code"]
    (Some "Code")
    ["25831"]
    ["station_id"; "station_name"; "lon"; "lat"].

(** The catalogs that [ssh_catalog_subset] returns there for uhslc,
    ssc and rwsddl, without a time range. *)
Definition uhslc_catalog_sample : table :=
  mkTable ["station_name"; "station_id"; "country"; "rq_span"; "fd_span"; "geometry";
           "time_min"; "time_max"; "station_name_unique"; "time_ndays"; "source"]
          (Some "uhslc_id") (Some "EPSG:4326").

Definition ssc_catalog_sample : table :=
  mkTable ["station_name"; "country"; "station_id"; "psmsl"; "ioc"; "ptwc"; "gloss";
           "uhslc"; "sonel_gps"; "sonel_tg"; "station_name_unique"; "geometry"; "source"]
          (Some "ssc_id") (Some "EPSG:4326").

Definition rwsddl_catalog_sample : table :=
  mkTable ["Code"; "Naam"; "X"; "Y"; "Coordinatenstelsel"; "Grootheid.Code";
           "Groepering.Code"; "geometry"; "station_name"; "station_name_unique";
           "station_id"; "country"; "source"]
          None (Some "EPSG:4326").

End Catalog.

(** ** Time series: quality filters, duplicates, order *)

Module Series.

(** A float; [None] is NaN. *)
Definition fnum : Type := option Q.

Definition NaN : fnum := None.

(** [a == 1] on floats: NaN is equal to nothing. *)
Definition is_one (a : fnum) : bool :=
  match a with
  | Some q => Qeq_bool q 1
  | None => false
  end.

(** [da.where(cond)]: the value where the condition holds, NaN elsewhere. *)
Definition da_where (cond : bool) (a : fnum) : fnum := if cond then a else NaN.

(** The greater of two floats, NaN skipped. *)
Definition nanmax2 (a b : fnum) : fnum :=
  match a, b with
  | None, _ => b
  | _, None => a
  | Some p, Some q => if Qle_bool p q then Some q else Some p
  end.

(** [da.max(dim)] along one dimension, NaN skipped: NaN when every
    value is NaN. *)
Definition nanmax (l : list fnum) : fnum := fold_right nanmax2 NaN l.

(** Timestamps are nanoseconds since the epoch. *)
Definition in_slice (time_min time_max : option Z) (t : Z) : bool :=
  match time_min with Some lo => (lo <=? t)%Z | None => true end &&
  match time_max with Some hi => (t <=? hi)%Z | None => true end.

Fixpoint increasing (ts : list Z) : bool :=
  match ts with
  | t :: (t' :: _) as rest => (t <=? t')%Z && increasing rest
  | _ => true
  end.

(** [ds.sel(time=slice(time_min, time_max))]: the samples from
    [time_min] to [time_max], both included; all of them when no bound
    is given. The embedding stops at a bounded slice of an index that
    is not increasing, where the slice depends on the positions of the
    bounds. *)
Definition sel_time_slice {A : Type} (time : A -> Z) (time_min time_max : option Z)
    (ds : list A) : result (list A) :=
  let unbounded := match time_min, time_max with None, None => true | _, _ => false end in
  if unbounded || increasing (map time ds)
  then Ok (List.filter (fun s => in_slice time_min time_max (time s)) ds)
  else Raise Unmodelled.


(** *** CMEMS *)

(** One time step of a CMEMS file: the sea level and its quality flag,
    along DEPTH when the file has that dimension. *)
Record cmems_step : Type := mkCmemsStep {
  TIME : Z;
  SLEV : list fnum;
  SLEV_QC : list fnum
}.

(** The file: whether DEPTH is a dimension, and the steps. Without
    DEPTH a step holds one value and one flag. *)
Record cmems_file : Type := mkCmemsFile {
  has_DEPTH : bool;
  steps : list cmems_step
}.

(** A sample of a returned series. *)
Record sample : Type := mkSample {
  time : Z;
  waterlevel : fnum
}.

(** A returned series: the samples and the units of the water level. *)
Record series : Type := mkSeries {
  samples : list sample;
  units : string
}.

(** The value of a variable at a step after [ds.max(dim="DEPTH")],
    or as it is when there is no DEPTH. *)
Definition at_step (has_depth : bool) (l : list fnum) : fnum :=
  if has_depth then nanmax l
  else match l with v :: _ => v | [] => NaN end.

(** The steps of the file as the filter sees them: time, level, flag. *)
Definition cmems_reduced (file : cmems_file) : list (Z * fnum * fnum) :=
  (* reduce DEPTH dimension if present (nrt dataset) *)
  map (fun s => (TIME s, at_step (has_DEPTH file) (SLEV s),
                         at_step (has_DEPTH file) (SLEV_QC s))) (steps file).

(** [cmems_ssh_retrieve_data]; [file] is the file that the download
    of [row["file_name"]] leaves, [slev_units] the units it declares. *)
Definition cmems_ssh_retrieve_data (source : string) (file : cmems_file)
    (slev_units : string) (time_min time_max : option Z) : result (option series) :=
  _ ← Catalog.get_cmems_dataset_id source;
  let ds := cmems_reduced file in
  (* keep only data with "good_data" quality flag *)
  let ds := map (fun '(t, slev, slev_qc) => mkSample t (da_where (is_one slev_qc) slev)) ds in
  (* slice on time extent *)
  ds ← sel_time_slice time time_min time_max ds;
  if (length ds =? 0)%nat then Ok None
  else Ok (Some (mkSeries ds slev_units)).

(** *** GESLA-3 *)

(** A line of a GESLA-3 file. *)
Record gesla_line : Type := mkGeslaLine {
  date_time : Z;
  sea_level : fnum;
  qc_flag : Z;
  use_flag : Z
}.

Record gesla_sample : Type := mkGeslaSample {
  g_time : Z;
  g_waterlevel : fnum;
  g_qc_flag : fnum;
  g_use_flag : fnum
}.

(** [~data.index.duplicated()]: the first line of each time is kept. *)
Fixpoint keep_first {A : Type} (time : A -> Z) (seen : list Z) (l : list A) : list A :=
  match l with
  | [] => []
  | a :: l' =>
      if existsb (Z.eqb (time a)) seen then keep_first time seen l'
      else a :: keep_first time (time a :: seen) l'
  end.

Definition of_Z (z : Z) : fnum := Some (inject_Z z).

(** [gesla3_ssh_retrieve_data]; [gesla3_zip] is the archive, when it
    exists, as a map from file names to their lines. *)
Definition gesla3_ssh_retrieve_data (gesla3_zip : option (gmap string (list gesla_line)))
    (file_gesla : string) (time_min time_max : option Z)
  : result (option (list gesla_sample * string)) :=
  match gesla3_zip with
  | None => Raise FileNotFoundError
  | Some zip =>
      match zip !! file_gesla with
      | None => Raise KeyError
      | Some data =>
          (* clean up time duplicates *)
          let data := keep_first date_time [] data in
          (* subset time *)
          ds ← sel_time_slice date_time time_min time_max data;
          if (length ds =? 0)%nat then Ok None
          else
            (* filter bad quality data *)
            let ds := map (fun l => let good := (qc_flag l =? 1)%Z in
                             mkGeslaSample (date_time l)
                                           (da_where good (sea_level l))
                                           (da_where good (of_Z (qc_flag l)))
                                           (da_where good (of_Z (use_flag l)))) ds in
            Ok (Some (ds, "m"))
      end
  end.

(** *** UHSLC *)

(** The dataset that ERDDAP returns for one station, as far as
    [_preprocess_uhslc_erddap] reads it. *)
Record erddap_ds : Type := mkErddap {
  rowSize : bool;                        (* the variable is present *)
  timeseries : nat;                      (* the size of that dimension *)
  sea_level_units : string;
  global_attrs : gmap string string;
  constant_vars : gmap string string;    (* reduced over obs *)
  obs : list (Z * fnum)                  (* time, sea_level *)
}.

Inductive erddap_response : Type :=
| Data (ds : erddap_ds)
| Failed (e : exn).

(** A preprocessed dataset. *)
Record uhslc_ds : Type := mkUhslcDs {
  u_attrs : gmap string string;
  u_constants : gmap string string;
  u_units : string;
  u_samples : list sample
}.

(** [t.dt.round('s')]: to the nearest second, ties to the even one. *)
Definition round_s (t : Z) : Z :=
  let q := (t / 1000000000)%Z in
  let r := (t mod 1000000000)%Z in
  if (2 * r <? 1000000000)%Z then (q * 1000000000)%Z
  else if (1000000000 <? 2 * r)%Z then ((q + 1) * 1000000000)%Z
  else if Z.even q then (q * 1000000000)%Z else ((q + 1) * 1000000000)%Z.

(** [s.split("_")[-1]] *)
Fixpoint last_segment_from (acc : string) (s : string) : string :=
  match s with
  | EmptyString => acc
  | String c s' =>
      if Ascii.eqb c "_" then last_segment_from EmptyString s'
      else last_segment_from (acc ++ String c EmptyString)%string s'
  end.

Definition last_segment (s : string) : string := last_segment_from EmptyString s.

(** [ds.attrs[new] = ds.attrs.pop(old)] *)
Definition move_attr (suffix : string) (attrs : gmap string string) (attr : string)
  : result (gmap string string) :=
  match attrs !! attr with
  | None => Raise KeyError
  | Some v => Ok (<[(attr ++ "_" ++ suffix)%string := v]> (delete attr attrs))
  end.

Definition geospatial_attrs : list string :=
  ["geospatial_lon_min"; "geospatial_lon_max"; "Easternmost_Easting"; "Westernmost_Easting";
   "geospatial_lat_min"; "geospatial_lat_max"; "Northernmost_Northing";
   "Southernmost_Northing"].

Definition div1000 (a : fnum) : fnum :=
  match a with Some q => Some (q / 1000)%Q | None => None end.

Definition _preprocess_uhslc_erddap (ds : erddap_ds) : result uhslc_ds :=
  (* drop rowSize before merging to avoid conflicts *)
  _ ← (if rowSize ds then Ok tt else Raise ValueError);
  let attrs := fold_left (fun a attr => delete attr a) geospatial_attrs (global_attrs ds) in
  (* reduce timeseries dimension *)
  _ ← py_assert (timeseries ds =? 1)%nat;
  (* change units to meters *)
  _ ← py_assert (String.eqb (sea_level_units ds) "millimeters");
  let waterlevel := map (fun '(t, v) => (t, div1000 v)) (obs ds) in
  (* set time index, round times to seconds *)
  let samples := map (fun '(t, v) => mkSample (round_s t) v) waterlevel in
  (* rename some important conflicting attributes *)
  match attrs !! "id" with
  | None => Raise KeyError
  | Some dsid =>
      let dsid_short := last_segment dsid in
      attrs ← foldM (move_attr dsid_short) attrs
                        ["acknowledgement"; "processing_level"; "title"];
      Ok (mkUhslcDs attrs (constant_vars ds) "m" samples)
  end.

(** [_uhslc_ssh_retrieve_data_oneds]: the new [ds_list]. A request
    that fails with [HTTPError] and code 404 adds nothing; any other
    failure is raised. *)
Definition _uhslc_ssh_retrieve_data_oneds (response : erddap_response)
    (ds_list : list uhslc_ds) : result (list uhslc_ds) :=
  match response with
  | Data ds =>
      ds ← _preprocess_uhslc_erddap ds;
      Ok (ds_list ++ [ds])
  | Failed (HTTPError msg) =>
      match String.index 0 "code=404" msg with
      | Some _ => Ok ds_list
      | None => Raise (HTTPError msg)
      end
  | Failed e => Raise e
  end.

(** [combine_attrs='drop_conflicts']: an attribute is kept when the
    datasets that have it agree on it. *)
Definition drop_conflicts (a b : gmap string string) : gmap string string :=
  merge (fun x y => match x, y with
                    | Some u, Some v => if String.eqb u v then Some u else None
                    | Some u, None => Some u
                    | None, _ => y
                    end) a b.

(** [xr.concat(ds_list, dim='time', data_vars='minimal',
    compat='equals', combine_attrs='drop_conflicts')]: the samples in
    the order of the list; variables without the time dimension must
    be equal. *)
Fixpoint concat_after (first : uhslc_ds) (rest : list uhslc_ds) : result uhslc_ds :=
  match rest with
  | [] => Ok first
  | ds :: rest' =>
      if bool_decide (u_constants first = u_constants ds)
      then concat_after (mkUhslcDs (drop_conflicts (u_attrs first) (u_attrs ds))
                                   (u_constants first) (u_units first)
                                   (u_samples first ++ u_samples ds)) rest'
      else Raise ValueError
  end.

(** [ds.sortby('time')]: a stable sort. *)
Fixpoint insert_by_time (s : sample) (l : list sample) : list sample :=
  match l with
  | [] => [s]
  | s' :: l' => if (time s <? time s')%Z then s :: l
                else s' :: insert_by_time s l'
  end.

Definition sortby_time (l : list sample) : list sample :=
  fold_right insert_by_time [] l.

(** The ERDDAP server: the response to a request for a dataset id with
    the constraints on station and time. *)
Definition erddap_server : Type :=
  string -> Z -> option Z -> option Z -> erddap_response.

(** [uhslc_ssh_retrieve_data]; [uhslc_id] is [row.name]. *)
Definition uhslc_ssh_retrieve_data (server : erddap_server) (uhslc_id : Z)
    (time_min time_max : option Z) (include_rqds include_fast : bool)
  : result (option uhslc_ds) :=
  let ds_list := [] in
  ds_list ← (if include_rqds
             then _uhslc_ssh_retrieve_data_oneds
                    (server "global_hourly_rqds" uhslc_id time_min time_max) ds_list
             else Ok ds_list);
  ds_list ← (if include_fast
             then _uhslc_ssh_retrieve_data_oneds
                    (server "global_hourly_fast" uhslc_id time_min time_max) ds_list
             else Ok ds_list);
  (* return early if no data present *)
  match ds_list with
  | [] => Ok None
  | first :: rest =>
      ds ← concat_after first rest;
      (* drop duplicates, keep=first keeps rqds, sort by time *)
      Ok (Some (mkUhslcDs (u_attrs ds) (u_constants ds) (u_units ds)
                          (sortby_time (keep_first time [] (u_samples ds)))))
  end.

Definition time_le (a b : sample) : Prop := (time a <= time b)%Z.

(** The first value at a time. *)
Definition first_at (t : Z) (l : list sample) : option fnum :=
  match List.find (fun s => (time s =? t)%Z) l with
  | Some s => Some (waterlevel s)
  | None => None
  end.

(** *** Sample data *)

Definition cmems_file_sample : cmems_file :=
  mkCmemsFile false
    [mkCmemsStep 0 [Some 1.25%Q] [Some 1%Q];
     mkCmemsStep 3600 [Some 9.99%Q] [Some 4%Q];
     mkCmemsStep 7200 [Some 1.5%Q] [None];
     mkCmemsStep 10800 [Some 1.75%Q] [Some 1%Q]].

(** Two depths: the greatest level and the greatest flag of a step
    need not come from the same depth. *)
Definition cmems_file_depth_sample : cmems_file :=
  mkCmemsFile true [mkCmemsStep 0 [Some 1%Q; Some 5%Q] [Some 1%Q; Some 0%Q]].

Definition gesla_zip_sample : gmap string (list gesla_line) :=
  {[ "abashiri-347a-jpn-uhslc" :=
       [mkGeslaLine 0 (Some 1.25%Q) 1 1;
        mkGeslaLine 3600 (Some (-99.9999)%Q) 3 0;
        mkGeslaLine 3600 (Some 1.5%Q) 1 1;
        mkGeslaLine 7200 (Some 1.75%Q) 1 1] ]}.

Definition erddap_rqds_sample : erddap_ds :=
  mkErddap true 1 "millimeters"
           {[ "id" := "global_hourly_rqds"; "title" := "research quality";
              "acknowledgement" := "UHSLC"; "processing_level" := "rq";
              "geospatial_lat_min" := "44.0" ]}
           {[ "station_country" := "Japan" ]}
           [(0, Some 1250%Q); (3600000000000, Some 1500%Q); (7200000000000, Some 1750%Q)]%Z.

Definition erddap_fast_sample : erddap_ds :=
  mkErddap true 1 "millimeters"
           {[ "id" := "global_hourly_fast"; "title" := "fast delivery";
              "acknowledgement" := "UHSLC"; "processing_level" := "fd";
              "geospatial_lat_min" := "44.01" ]}
           {[ "station_country" := "Japan" ]}
           [(7200000000000, Some 1760%Q); (10800000000400, Some 2000%Q);
            (3600000000000, Some 1510%Q)]%Z.

(** A server with data for station 347 only. *)
Definition erddap_server_sample : erddap_server :=
  fun dataset_id uhslc_id time_min time_max =>
    if negb (uhslc_id =? 347)%Z then Failed (HTTPError "Error { code=404; }")
    else if String.eqb dataset_id "global_hourly_rqds" then Data erddap_rqds_sample
    else if String.eqb dataset_id "global_hourly_fast" then Data erddap_fast_sample
    else Failed (HTTPError "Error { code=404; }").

End Series.

(** ** Datasets and [ssh_retrieve_data] *)

Module Xr.

(** The value of an attribute. *)
Inductive attr : Type :=
| AStr (s : string)
| AInt (z : Z)
| AFloat (q : Q).

Definition of_pyval (v : pyval) : attr :=
  match v with
  | PyStr s => AStr s
  | PyInt z => AInt z
  end.

(** The values of a variable: numbers of some dtype along its
    dimensions (one number when it has none), strings, or one byte
    string of fixed width. *)
Inductive values : Type :=
| Array (dtype : string) (data : list Series.fnum)
| Strs (data : list string)
| Bytes (width : nat) (s : string).

Record DataArray : Type := mkDataArray {
  dims : list string;
  attrs : gmap string attr;
  data : values
}.

(** A dataset: its variables by name, the names among them that are
    coordinates, and its attributes. *)
Record Dataset : Type := mkDataset {
  variables : gmap string DataArray;
  coord_names : gset string;
  ds_attrs : gmap string attr
}.

(** ["k" in ds.variables] *)
Definition in_variables (k : string) (ds : Dataset) : bool :=
  bool_decide (is_Some (variables ds !! k)).

(** ["k" in ds.data_vars] *)
Definition in_data_vars (k : string) (ds : Dataset) : bool :=
  in_variables k ds && negb (bool_decide (k ∈ coord_names ds)).

(** ["d" in ds.dims]: the dimensions of a dataset are those of its
    variables. *)
Definition in_dims (d : string) (ds : Dataset) : bool :=
  bool_decide (map_Exists (fun _ v => d ∈ dims v) (variables ds)).

(** [ds[k]] *)
Definition getitem (k : string) (ds : Dataset) : result DataArray :=
  match variables ds !! k with
  | Some v => Ok v
  | None => Raise KeyError
  end.

(** [ds[k] = da] *)
Definition setitem (k : string) (da : DataArray) (ds : Dataset) : Dataset :=
  mkDataset (<[k := da]> (variables ds)) (coord_names ds) (ds_attrs ds).

(** [ds.attrs[k]] *)
Definition getattr (k : string) (ds : Dataset) : result attr :=
  match ds_attrs ds !! k with
  | Some a => Ok a
  | None => Raise KeyError
  end.

(** [ds.assign_attrs(...)] *)
Definition assign_attrs (new : list (string * attr)) (ds : Dataset) : Dataset :=
  mkDataset (variables ds) (coord_names ds)
            (fold_left (fun m kv => <[kv.1 := kv.2]> m) new (ds_attrs ds)).

(** [da.assign_attrs(...)] *)
Definition da_assign_attrs (new : list (string * attr)) (da : DataArray) : DataArray :=
  mkDataArray (dims da) (fold_left (fun m kv => <[kv.1 := kv.2]> m) new (attrs da)) (data da).

(** [ds.set_coords(names)] *)
Definition set_coords (names : list string) (ds : Dataset) : result Dataset :=
  if forallb (fun k => in_variables k ds) names
  then Ok (mkDataset (variables ds) (coord_names ds ∪ list_to_set names) (ds_attrs ds))
  else Raise ValueError.

(** [xr.DataArray(a)] of a scalar: no dimensions, no attributes. *)
Definition scalar (a : attr) : DataArray :=
  mkDataArray [] ∅
    match a with
    | AStr s => Strs [s]
    | AInt z => Array "int64" [Series.of_Z z]
    | AFloat q => Array "float64" [Some q]
    end.

Definition is_ascii_string (s : string) : bool :=
  forallb (fun c => (nat_of_ascii c <? 128)%nat) (list_ascii_of_string s).

Definition take_bytes (n : nat) (s : string) : string :=
  string_of_list_ascii (take n (list_ascii_of_string s)).

(** [xr.DataArray(a).astype("S64")]: text outside ASCII cannot be
    encoded, longer text is cut at 64 bytes. *)
Definition astype_S64 (a : attr) : result DataArray :=
  match a with
  | AStr s =>
      if is_ascii_string s then Ok (mkDataArray [] ∅ (Bytes 64 (take_bytes 64 s)))
      else Raise UnicodeEncodeError
  | AInt z => Ok (mkDataArray [] ∅ (Bytes 64 (take_bytes 64 (pretty z))))
  | AFloat _ => Raise Unmodelled
  end.

(** [da.astype("float32")]: dimensions and attributes are kept. The
    rounding to single precision is left out. *)
Definition astype_float32 (da : DataArray) : result DataArray :=
  match data da with
  | Array _ d => Ok (mkDataArray (dims da) (attrs da) (Array "float32" d))
  | _ => Raise Unmodelled
  end.

End Xr.

Module Retrieve.
Import Xr.

(** A row of a catalog, with the columns that [ssh_retrieve_data]
    reads; [name] is the index label and [columns] holds the others. *)
Record station : Type := mkStation {
  name : pyval;
  station_name : pyval;
  station_id : pyval;
  station_name_unique : string;
  geometry : Geo.Point;
  country : pyval;
  source : string;
  columns : gmap string pyval
}.

(** to make resulting netcdf file consistent with hydro_tools matlab
    post-processing *)
Definition _make_hydrotools_consistent (ds : Dataset) : result Dataset :=
  (* assert presence of time variable/dim (case sensitive) *)
  _ ← py_assert (in_variables "time" ds);
  _ ← py_assert (in_dims "time" ds);
  (* assert presence and units of waterlevel variable *)
  _ ← py_assert (in_data_vars "waterlevel" ds);
  waterlevel ← getitem "waterlevel" ds;
  match attrs waterlevel !! "units" with
  | None => Raise AssertionError
  | Some units =>
      _ ← py_assert (match units with AStr u => String.eqb u "m" | _ => false end);
      a ← getattr "station_name" ds;
      da ← astype_S64 a;
      let ds := setitem "station_name" da ds in
      a ← getattr "station_id" ds;
      da ← astype_S64 a;
      let ds := setitem "station_id" da ds in
      let x_attrs := [("standard_name", AStr "longitude"); ("units", AStr "degrees_east")] in
      let y_attrs := [("standard_name", AStr "latitude"); ("units", AStr "degrees_north")] in
      a ← getattr "longitude" ds;
      let ds := setitem "station_x_coordinate" (da_assign_attrs x_attrs (scalar a)) ds in
      a ← getattr "latitude" ds;
      let ds := setitem "station_y_coordinate" (da_assign_attrs y_attrs (scalar a)) ds in
      (* set waterlevel coords *)
      let coords := ["station_name"; "station_id"; "station_x_coordinate";
                     "station_y_coordinate"] in
      set_coords coords ds
  end.

(** [os.path.join(a, b)] on POSIX paths. *)
Definition path_join (a b : string) : string :=
  if String.prefix "/" b then b
  else if String.eqb a "" then b
  else match String.get (String.length a - 1) a with
       | Some "/"%char => (a ++ b)%string
       | _ => (a ++ "/" ++ b)%string
       end.

(** A provider's retrieval function: a dataset, nothing, or an
    exception, for a row and a time range. *)
Definition retriever : Type :=
  station -> option Z -> option Z -> result (option Dataset).

(** [series.unique()]: the distinct values in order of appearance. *)
Fixpoint unique_from (seen l : list string) : list string :=
  match l with
  | [] => []
  | s :: l' => if str_in s seen then unique_from seen l'
               else s :: unique_from (s :: seen) l'
  end.

Definition unique (l : list string) : list string := unique_from [] l.

(** What is done with the dataset of one station before it is
    written. *)
Definition prepare (row : station) (ds : Dataset) : result Dataset :=
  (* assign attrs from station catalog row *)
  let ds := assign_attrs [("station_name", of_pyval (station_name row));
                          ("station_id", of_pyval (station_id row));
                          ("station_name_unique", AStr (station_name_unique row));
                          ("longitude", AFloat (Geo.x (geometry row)));
                          ("latitude", AFloat (Geo.y (geometry row)));
                          ("country", of_pyval (country row));
                          ("source", AStr (source row))] ds in
  waterlevel ← getitem "waterlevel" ds;
  waterlevel ← astype_float32 waterlevel;
  let ds := setitem "waterlevel" waterlevel ds in
  _make_hydrotools_consistent ds.

(** [f"{a}"] *)
Definition attr_str (a : attr) : result string :=
  match a with
  | AStr s => Ok s
  | AInt z => Ok (pretty z)
  | AFloat _ => Raise Unmodelled
  end.

(** The path of the file of a prepared dataset. *)
Definition file_out_of (dir_output : string) (ds : Dataset) : result string :=
  stat_name ← getattr "station_name_unique" ds;
  stat_name ← attr_str stat_name;
  Ok (path_join dir_output (stat_name ++ ".nc")%string).

(** The path of the file of a row. *)
Definition file_out (dir_output : string) (row : station) : string :=
  path_join dir_output (station_name_unique row ++ ".nc")%string.

(** The loop over the rows: the files written, in order, as path and
    content, and how the loop ended. A file that was written stays
    when a later row raises. *)
Fixpoint retrieve_rows (retrieve_data_func : retriever) (dir_output : string)
    (time_min time_max : option Z) (rows : list station)
  : list (string * Dataset) * result unit :=
  match rows with
  | [] => ([], Ok tt)
  | row :: rows' =>
      match retrieve_data_func row time_min time_max with
      | Raise e => ([], Raise e)
      | Ok None => retrieve_rows retrieve_data_func dir_output time_min time_max rows'
      | Ok (Some ds) =>
          match ds ← prepare row ds; file_out ← file_out_of dir_output ds; Ok (file_out, ds) with
          | Raise e => ([], Raise e)
          | Ok (file_out, ds) =>
              (* ds.to_netcdf(file_out, format="NETCDF4_CLASSIC") *)
              let '(written, outcome) :=
                retrieve_rows retrieve_data_func dir_output time_min time_max rows' in
              ((file_out, ds) :: written, outcome)
          end
      end
  end.

Section dispatch.

(** The retrieval functions of the providers. *)
Variables gesla3_ssh_retrieve_data ioc_ssh_retrieve_data cmems_ssh_retrieve_data
          uhslc_ssh_retrieve_data psmsl_gnssir_ssh_retrieve_data
          rwsddl_ssh_retrieve_data gtsm3_era5_cds_ssh_retrieve_data : retriever.

Definition ssh_sources : list (string * retriever) :=
  [("gesla3", gesla3_ssh_retrieve_data);
   ("ioc", ioc_ssh_retrieve_data);
   ("cmems", cmems_ssh_retrieve_data);
   ("cmems-nrt", cmems_ssh_retrieve_data);
   ("uhslc", uhslc_ssh_retrieve_data);
   ("psmsl-gnssir", psmsl_gnssir_ssh_retrieve_data);
   ("rwsddl", rwsddl_ssh_retrieve_data);
   ("gtsm3-era5-cds", gtsm3_era5_cds_ssh_retrieve_data)].

(** [ssh_retrieve_data]: the files written and the outcome. *)
Definition ssh_retrieve_data (ssh_catalog_gpd : list station) (dir_output : string)
    (time_min time_max : option Z) : list (string * Dataset) * result unit :=
  if (length ssh_catalog_gpd =? 0)%nat then ([], Raise ValueError)
  else
    let source_list := unique (map source ssh_catalog_gpd) in
    if (1 <? length source_list)%nat then ([], Raise Exception)
    else
      match source_list with
      | [] => ([], Raise IndexError)
      | source :: _ =>
          match assoc source ssh_sources with
          | None => ([], Raise ValueError)
          | Some retrieve_data_func =>
              retrieve_rows retrieve_data_func dir_output time_min time_max ssh_catalog_gpd
          end
      end.

End dispatch.

(** *** Vocabulary of the statements *)

(** The rows for which the provider returns a dataset. *)
Definition has_data (f : retriever) (time_min time_max : option Z) (row : station) : bool :=
  match f row time_min time_max with
  | Ok (Some _) => true
  | _ => false
  end.

(** A coordinate of the dataset with the given value. *)
Definition coordinate (k : string) (da : DataArray) (ds : Dataset) : Prop :=
  variables ds !! k = Some da /\ k ∈ coord_names ds.

(** The dataset written for a row. *)
Definition written_for (row : station) (ds : Dataset) : Prop :=
  (exists waterlevel,
     variables ds !! "waterlevel" = Some waterlevel /\
     ("waterlevel" ∉ coord_names ds) /\
     attrs waterlevel !! "units" = Some (AStr "m")) /\
  in_variables "time" ds = true /\ in_dims "time" ds = true /\
  (exists da, astype_S64 (of_pyval (station_name row)) = Ok da /\
              coordinate "station_name" da ds) /\
  (exists da, astype_S64 (of_pyval (station_id row)) = Ok da /\
              coordinate "station_id" da ds) /\
  (exists da, coordinate "station_x_coordinate" da ds /\
              data da = Array "float64" [Some (Geo.x (geometry row))]) /\
  (exists da, coordinate "station_y_coordinate" da ds /\
              data da = Array "float64" [Some (Geo.y (geometry row))]).

(** The time variable of the dataset lies along the time dimension:
    it is the index of that dimension, as in the datasets that the
    providers build from a table indexed by time. *)
Definition time_is_index (ds : Dataset) : Prop :=
  forall v, variables ds !! "time" = Some v -> in_dims "time" ds = true -> "time" ∈ dims v.

(** *** The series of the providers as datasets *)

(** A series as a dataset: the time coordinate and the water level
    along it. *)
Definition series_dataset (samples : list Series.sample) (units : string) : Dataset :=
  mkDataset
    {[ "time" := mkDataArray ["time"] ∅
                   (Array "datetime64[ns]" (map (fun s => Series.of_Z (Series.time s)) samples));
       "waterlevel" := mkDataArray ["time"] {[ "units" := AStr units ]}
                         (Array "float64" (map Series.waterlevel samples)) ]}
    {[ "time" ]}
    ∅.

(** [uhslc_ssh_retrieve_data] as a retriever: [row.name] is the
    station number. *)
Definition uhslc_retriever (server : Series.erddap_server) : retriever :=
  fun row time_min time_max =>
    match name row with
    | PyInt uhslc_id =>
        ds ← Series.uhslc_ssh_retrieve_data server uhslc_id time_min time_max true true;
        Ok (match ds with
            | Some ds => Some (series_dataset (Series.u_samples ds) (Series.u_units ds))
            | None => None
            end)
    | PyStr _ => Raise Unmodelled
    end.

(** A provider without data. *)
Definition no_data : retriever := fun _ _ _ => Ok None.

(** *** Sample data *)

Definition station_abashiri : station :=
  mkStation (PyInt 347) (PyStr "Abashiri") (PyInt 347) "uhslc-347" (Geo.mkPoint 144 44)
            (PyStr "Japan") "uhslc" ∅.

Definition station_pohnpei : station :=
  mkStation (PyInt 1) (PyStr "Pohnpei") (PyInt 1) "uhslc-001" (Geo.mkPoint 158 7)
            (PyStr "Micronesia") "uhslc" ∅.

Definition stations_sample : list station := [station_pohnpei; station_abashiri].

(** The provider of a row, by its source. *)
Definition provider_has_data (sources : list (string * retriever))
    (time_min time_max : option Z) (row : station) : bool :=
  match assoc (source row) sources with
  | Some f => has_data f time_min time_max row
  | None => false
  end.

End Retrieve.

(** ** Text: replacement, padding, sorting without regard to case *)

Module Text.

(** [s.replace(old, new)] for a non-empty [old]: the occurrences are
    replaced from the left, without overlap. [skip] counts the
    characters of an occurrence that are still to be passed over. *)
Fixpoint replace_from (old new : string) (skip : nat) (s : string) : string :=
  match s with
  | EmptyString => EmptyString
  | String c s' =>
      match skip with
      | S k => replace_from old new k s'
      | O => if String.prefix old s
             then (new ++ replace_from old new (String.length old - 1) s')%string
             else String c (replace_from old new 0 s')
      end
  end.

Definition replace (old new s : string) : string := replace_from old new 0 s.

Fixpoint zeros (n : nat) : string :=
  match n with
  | O => EmptyString
  | S k => String "0" (zeros k)
  end.

(** Digits padded with zeros on the left to a width. *)
Definition zfill (width : nat) (digits : string) : string :=
  (zeros (width - String.length digits) ++ digits)%string.

(** [f"{x:03d}"]: at least three characters, the zeros after the sign. *)
Definition format_03d (x : Z) : string :=
  match x with
  | Zneg p => String "-" (zfill 2 (pretty (Npos p)))
  | _ => zfill 3 (pretty (Z.to_N x))
  end.

(** [sorted(l, key=str.casefold)], a stable sort; [casefold] is
    [lower] on ASCII text. *)
Definition casefold_le (a b : string) : bool := String.leb (lower a) (lower b).

Fixpoint insert_casefold (a : string) (l : list string) : list string :=
  match l with
  | [] => [a]
  | b :: l' => if casefold_le a b then a :: l else b :: insert_casefold a l'
  end.

Definition sorted_casefold (l : list string) : list string :=
  fold_right insert_casefold [] l.

(** *** Vocabulary: reading a number back *)

Definition is_digit (c : ascii) : bool :=
  let n := nat_of_ascii c in (48 <=? n)%nat && (n <=? 57)%nat.

Definition digit_value (c : ascii) : N := N.of_nat (nat_of_ascii c - 48).

(** The number that the leading digits of a text spell, after [acc]. *)
Fixpoint parse_digits (acc : N) (s : string) : N :=
  match s with
  | EmptyString => acc
  | String c s' => if is_digit c then parse_digits (acc * 10 + digit_value c) s' else acc
  end.

End Text.

(** ** [ssc_ssh_read_catalog]: the rows *)

Module SscRead.
Import Accents.

(** An element of a list of identifiers: a text, or a float NaN. *)
Inductive id_value : Type :=
| IdText (id : ustr)
| IdNaN.

(** A cell of an identifier column of the service: a list of
    identifiers, the object [np.nan] (the missing value of a column of
    objects), a NaN that is another object than [np.nan] (a value of a
    column of floats, which [apply] hands over as a new float), or one
    identifier. *)
Inductive cell : Type :=
| CList (ids : list id_value)
| CNaN
| CFloatNaN
| CScalar (id : ustr).

(** [x if isinstance(x,list) else [] if x is np.nan else [x]]: the test
    is for the object [np.nan], not for a NaN. *)
Definition as_id_list (x : cell) : list id_value :=
  match x with
  | CList ids => ids
  | CNaN => []
  | CFloatNaN => [IdNaN]
  | CScalar id => [IdText id]
  end.

(** A station as the service lists it. *)
Record ssc_json : Type := mkSscJson {
  ssc_id : ustr;
  name : ustr;
  country : ustr;
  geo_lon : Q;
  geo_lat : Q;
  j_psmsl : cell;
  j_ioc : cell;
  j_ptwc : cell;
  j_gloss : cell;
  j_uhslc : cell;
  j_sonel_gps : cell;
  j_sonel_tg : cell
}.

(** A row of the catalog; [label] is the index label. *)
Record ssc_station : Type := mkSscStation {
  label : ustr;
  station_id : ustr;
  station_name : ustr;
  station_name_unique : ustr;
  station_country : ustr;
  geometry : Geo.Point;
  psmsl : list id_value;
  ioc : list id_value;
  ptwc : list id_value;
  gloss : list id_value;
  uhslc : list id_value;
  sonel_gps : list id_value;
  sonel_tg : list id_value
}.

(** [0-9a-zA-Z] *)
Definition is_alnum (c : N) : bool :=
  ((48 <=? c) && (c <=? 57) || (65 <=? c) && (c <=? 90) || (97 <=? c) && (c <=? 122))%N.

Definition dash : N := 45.
Definition underscore : N := 95.

(** [re.sub("[^0-9a-zA-Z]+", "-", x)]: every longest run of other
    characters becomes one dash. [in_run] tells that the run has
    started. *)
Fixpoint sub_non_alnum (in_run : bool) (x : ustr) : ustr :=
  match x with
  | [] => []
  | c :: x' =>
      if is_alnum c then c :: sub_non_alnum false x'
      else if in_run then sub_non_alnum true x'
      else dash :: sub_non_alnum true x'
  end.

(** [s.lstrip(c)], [s.rstrip(c)] and [s.strip(c)] for one character. *)
Fixpoint lstrip (c : N) (s : ustr) : ustr :=
  match s with
  | [] => []
  | d :: s' => if (d =? c)%N then lstrip c s' else s
  end.

Definition rstrip (c : N) (s : ustr) : ustr := rev (lstrip c (rev s)).

Definition strip (c : N) (s : ustr) : ustr := rstrip c (lstrip c s).

Section read.

Variable NFKD : ustr -> ustr.

(** The name of a station, cleaned for the unique name. *)
Definition station_name_clean (name : ustr) : ustr :=
  (* remove accents *)
  let station_name_clean := _remove_accents NFKD name in
  (* replace all non-alphanumeric characters and with dash *)
  let station_name_clean := sub_non_alnum false station_name_clean in
  (* remove first/last dash from name if present *)
  strip dash station_name_clean.

(** [ssc_ssh_read_catalog()], without the linked stations;
    [ssc_catalog_pd] is the station list of the service. *)
Definition ssc_ssh_read_catalog (ssc_catalog_pd : list ssc_json) : list ssc_station :=
  map (fun j =>
         mkSscStation (ssc_id j) (ssc_id j) (name j)
                      (ssc_id j ++ [underscore] ++ station_name_clean (name j))
                      (country j)
                      (Geo.mkPoint (geo_lon j) (geo_lat j))
                      (as_id_list (j_psmsl j)) (as_id_list (j_ioc j))
                      (as_id_list (j_ptwc j)) (as_id_list (j_gloss j))
                      (as_id_list (j_uhslc j)) (as_id_list (j_sonel_gps j))
                      (as_id_list (j_sonel_tg j)))
      ssc_catalog_pd.

End read.

(** *** Sample data: "Saint-Louis (Sénégal)" *)

Definition ssc_json_sample : ssc_json :=
  mkSscJson [83; 83; 67; 45; 115; 108; 111; 117]%N
            [83; 97; 105; 110; 116; 45; 76; 111; 117; 105; 115; 32; 40; 83; 233; 110;
             233; 103; 97; 108; 41]%N
            [83; 78]%N (-16.5)%Q 16 (CScalar [49; 56; 49; 54]%N) CNaN CNaN
            (CList [IdText [50; 53; 51]%N]) CNaN CFloatNaN CFloatNaN.

End SscRead.

(** ** [ioc_ssh_read_catalog]: the rows *)

Module IocRead.
Import Ssc.

(** A row of the IOC catalog. The columns [UHSLC] and [inSSClist]
    exist only when the stations of UHSLC were looked up. *)
Record ioc_entry : Type := mkIocEntry {
  station : ioc_row;
  time_min : Z;
  time_max : Z;
  station_name : string;
  station_id : string;
  station_name_unique : string;
  UHSLC : option bool;
  inSSClist : option bool;
  time_ndays : option Q
}.

Definition with_flags (uhslc inssc : option bool) (r : ioc_entry) : ioc_entry :=
  mkIocEntry (station r) (time_min r) (time_max r) (station_name r) (station_id r)
             (station_name_unique r) uhslc inssc (time_ndays r).

(** [catalog.loc[ioc_code, 'inSSClist'] = True]: every row with that
    index label is set. *)
Definition set_inSSClist (ioc_code : string) (catalog : list ioc_entry) : list ioc_entry :=
  map (fun r => if String.eqb (ioc_label (station r)) ioc_code
                then with_flags (UHSLC r) (Some true) r else r) catalog.

Definition set_UHSLC (ioc_code : string) (catalog : list ioc_entry) : list ioc_entry :=
  map (fun r => if String.eqb (ioc_label (station r)) ioc_code
                then with_flags (Some true) (inSSClist r) r else r) catalog.

(** The body of the loop over the codes. *)
Definition flag_code (ssc_catalog_pd : list ssc_row) (catalog : list ioc_entry)
    (ioc_code : string) : list ioc_entry :=
  let iocstat_uhslcid :=
    map uhslc (List.filter (fun x => str_in ioc_code (ioc x)) ssc_catalog_pd) in
  match iocstat_uhslcid with
  | [] => catalog (* ioc_code not in the SSC list *)
  | first :: _ =>
      let catalog := set_inSSClist ioc_code catalog in
      if (length first =? 0)%nat then catalog (* station contains no UHSLC code *)
      else set_UHSLC ioc_code catalog
  end.

(** Nanoseconds as days. *)
Definition ndays (dt : Z) : Q := (inject_Z dt / 1000000000 / 3600 / 24)%Q.

(** [ioc_ssh_read_catalog]; [resp] is the answer of the station list
    service for [showall=a], [ssc_catalog] what
    [ssh_catalog_subset(source='ssc')] returns or raises. *)
Definition ioc_ssh_read_catalog (resp : http_response) (ssc_catalog : result (list ssc_row))
    (drop_uhslc drop_dart drop_nonutc : bool) : result (list ioc_entry) :=
  ioc_catalog_gpd ← _ioc_get_json resp;
  let ioc_catalog_gpd :=
    map (fun r =>
           let s := ioc_data r in
           mkIocEntry r (date_created s) (lasttime s) (Code s) (Code s)
                      ("ioc-" ++ Code s ++ "-" ++ pretty (code s))%string
                      None None None) ioc_catalog_gpd in
  ioc_catalog_gpd ←
    (if drop_uhslc then
       (* filter non-UHSLC stations *)
       ssc_catalog_pd ← ssc_catalog;
       let catalog := map (with_flags (Some false) (Some false)) ioc_catalog_gpd in
       let catalog :=
         fold_left (flag_code ssc_catalog_pd)
                   (map (fun r => Code (ioc_data (station r))) catalog) catalog in
       Ok (List.filter (fun r => negb (bool_decide (UHSLC r = Some true))) catalog)
     else Ok ioc_catalog_gpd);
  let ioc_catalog_gpd :=
    if drop_dart then
      List.filter (fun r => negb (String.prefix "DART " (Location (ioc_data (station r)))))
                  ioc_catalog_gpd
    else ioc_catalog_gpd in
  let ioc_catalog_gpd :=
    if drop_nonutc then
      (* filter out all non-UTC stations *)
      List.filter (fun r => (UTCOffset (ioc_data (station r)) =? 0)%Z) ioc_catalog_gpd
    else ioc_catalog_gpd in
  Ok (map (fun r => mkIocEntry (station r) (time_min r) (time_max r) (station_name r)
                               (station_id r) (station_name_unique r) (UHSLC r)
                               (inSSClist r) (Some (ndays (time_max r - time_min r))))
          ioc_catalog_gpd).

(** *** Vocabulary of the statements *)

(** The SSC catalog lists the code, and its first station that does
    has a UHSLC identifier. *)
Definition in_uhslc (ssc_catalog_pd : list ssc_row) (ioc_code : string) : bool :=
  match List.filter (fun x => str_in ioc_code (ioc x)) ssc_catalog_pd with
  | [] => false
  | first :: _ => negb (length (uhslc first) =? 0)%nat
  end.

Definition in_ssc (ssc_catalog_pd : list ssc_row) (ioc_code : string) : bool :=
  existsb (fun x => str_in ioc_code (ioc x)) ssc_catalog_pd.

(** The stations that are kept. *)
Definition kept (ssc_catalog_pd : list ssc_row) (drop_uhslc drop_dart drop_nonutc : bool)
    (s : ioc_station) : bool :=
  (negb drop_uhslc || negb (in_uhslc ssc_catalog_pd (Code s))) &&
  (negb drop_dart || negb (String.prefix "DART " (Location s))) &&
  (negb drop_nonutc || (UTCOffset s =? 0)%Z).

(** The row of a station in the returned catalog. *)
Definition ioc_entry_of (ssc_catalog_pd : list ssc_row) (drop_uhslc : bool) (s : ioc_station)
  : ioc_entry :=
  mkIocEntry (mkIocRow (Code s) s (Geo.mkPoint (lon s) (lat s)))
             (date_created s) (lasttime s) (Code s) (Code s)
             ("ioc-" ++ Code s ++ "-" ++ pretty (code s))%string
             (if drop_uhslc then Some false else None)
             (if drop_uhslc then Some (in_ssc ssc_catalog_pd (Code s)) else None)
             (Some (ndays (lasttime s - date_created s))).

(** *** Sample data *)

Definition ioc_stations_sample : http_response :=
  mkResponse 200
    [mkIoc "abas" 1 "Abashiri" "Japan" 144 44 0 864000000000000 0;
     mkIoc "dtok" 2 "DART Tokyo" "Japan" 147 38 0 864000000000000 0;
     mkIoc "acaj" 3 "Acajutla" "El Salvador" (-90) 13 0 864000000000000 (-6);
     mkIoc "zanz" 4 "Zanzibar" "Tanzania" 39 (-6) 0 1728000000000000 0].

End IocRead.

(** ** [ioc_ssh_retrieve_data] *)

Module IocRetrieve.
Import Series.

(** [pd.Timestamp(year, month, day)], a day at midnight. *)
Record date : Type := mkDate { year : Z; month : Z; day : Z }.

(** [pd.Period] of frequency month. *)
Record period : Type := mkPeriod { p_year : Z; p_month : Z }.

(** The months counted from January of year 0. *)
Definition month_number (d : date) : Z := (year d * 12 + (month d - 1))%Z.

Definition period_of_number (i : Z) : period := mkPeriod (i / 12) (i mod 12 + 1).

(** [pd.period_range(time_min, time_max, freq="1M")]: the months from
    that of [time_min] to that of [time_max]; none when the second is
    before the first. *)
Definition period_range (time_min time_max : date) : list period :=
  map period_of_number
      (seqZ (month_number time_min) (month_number time_max - month_number time_min + 1)).

(** The first and the last moment that are asked for a month. *)
Definition month_window (p : period) : date * date :=
  let year := p_year p in
  let month := p_month p in
  let starttime := mkDate year month 1 in
  let endtime := if (month =? 12)%Z then mkDate (year + 1) 1 1
                 else mkDate year (month + 1) 1 in
  (starttime, endtime).

(** The text of an answer of the data service: the empty list, a list
    whose first element is an error, or records of time and level. *)
Inductive body : Type :=
| EmptyList
| ErrorMessage
| Records (records : list (Z * fnum)).

Record response : Type := mkResponse {
  status_code : Z;
  text : body
}.

(** The data service, by station code, first and last moment. *)
Definition data_service : Type := string -> date -> date -> response.

(** The body of the loop over the months: the request for the month and
    what is done with the answer. *)
Definition retrieve_month (service : data_service) (station_code : string)
    (results_list : list (list (Z * fnum))) (p : period) : result (list (list (Z * fnum))) :=
  let '(starttime, endtime) := month_window p in
  let resp := service station_code starttime endtime in
  if (status_code resp =? 404)%Z then Raise Exception
  else match text resp with
       | EmptyList => Ok results_list
       | ErrorMessage => Raise Exception
       | Records [] => Raise IndexError
       | Records data_pd_one => Ok (results_list ++ [data_pd_one])
       end.

(** [~index.duplicated(keep='last')]: the last sample of each time is
    kept. *)
Definition keep_last (l : list sample) : list sample :=
  rev (keep_first time [] (rev l)).

(** [index.minute] *)
Definition minute (t : Z) : Z := ((t / 60000000000) mod 60)%Z.

(** The loop over the months with the requests that [requests.get]
    sends: the first and last moment of every request, in the order of
    sending, and the results of the loop or the exception that ends
    it. *)
Fixpoint request_months (service : data_service) (station_code : string)
    (results_list : list (list (Z * fnum))) (periods : list period)
  : list (date * date) * result (list (list (Z * fnum))) :=
  match periods with
  | [] => ([], Ok results_list)
  | p :: periods' =>
      match retrieve_month service station_code results_list p with
      | Ok results_list' =>
          let '(sent, r) := request_months service station_code results_list' periods' in
          (month_window p :: sent, r)
      | Raise e => ([month_window p], Raise e)
      end
  end.

(** [ioc_ssh_retrieve_data] with the requests it sends; [station_code]
    is [row.name]. *)
Definition ioc_ssh_retrieve_data_sent (service : data_service) (station_code : string)
    (time_min time_max : option date) (subset_hourly : bool)
  : list (date * date) * result (option series) :=
  match time_min, time_max with
  | Some time_min, Some time_max =>
      let period_range := period_range time_min time_max in
      let '(sent, loop) := request_months service station_code [] period_range in
      (sent,
       results_list ← loop;
       if (length results_list =? 0)%nat then
         (* continue with next station if no data present in entire period *)
         Ok None
       else
         let data_pd_all := map (fun '(stime, slevel) => mkSample stime slevel)
                                (concat results_list) in
         let data_pd_all := keep_last data_pd_all in
         let data_pd_all :=
           if subset_hourly
           then List.filter (fun s => (minute (time s) =? 0)%Z) data_pd_all
           else data_pd_all in
         Ok (Some (mkSeries data_pd_all "m")))
  | _, _ => ([], Raise ValueError)
  end.

(** What [ioc_ssh_retrieve_data] returns or raises. *)
Definition ioc_ssh_retrieve_data (service : data_service) (station_code : string)
    (time_min time_max : option date) (subset_hourly : bool) : result (option series) :=
  snd (ioc_ssh_retrieve_data_sent service station_code time_min time_max subset_hourly).

(** The requests that [ioc_ssh_retrieve_data] sends; they do not depend
    on [subset_hourly]. *)
Definition ioc_requests (service : data_service) (station_code : string)
    (time_min time_max : option date) : list (date * date) :=
  fst (ioc_ssh_retrieve_data_sent service station_code time_min time_max false).

(** *** Vocabulary of the statements *)

(** An answer that ends the loop: not found, an error message, or a list
    of records without a first one. *)
Definition refused (resp : response) : bool :=
  (status_code resp =? 404)%Z ||
  match text resp with
  | ErrorMessage | Records [] => true
  | _ => false
  end.

(** The records of all months, in the order of the requests. *)
Definition answers (service : data_service) (station_code : string)
    (time_min time_max : date) : list sample :=
  flat_map (fun p => match text (service station_code (fst (month_window p))
                                         (snd (month_window p))) with
                     | Records records =>
                         map (fun '(stime, slevel) => mkSample stime slevel) records
                     | _ => []
                     end)
           (period_range time_min time_max).

(** The first day of the month with a number. *)
Definition first_day (i : Z) : date := mkDate (i / 12) (i mod 12 + 1) 1.

(** The last value at a time. *)
Definition last_at (t : Z) (l : list sample) : option fnum := first_at t (rev l).

(** *** Sample data: two months, the first moment of February in both *)

Definition ioc_service_sample : data_service :=
  fun station_code starttime endtime =>
    if negb (String.eqb station_code "zanz") then mkResponse 200 EmptyList
    else if (month starttime =? 1)%Z then
      mkResponse 200 (Records [(1704067200000000000, Some 1.25%Q);
                               (1704067260000000000, Some 1.26%Q);
                               (1706745600000000000, Some 1.5%Q)]%Z)
    else if (month starttime =? 2)%Z then
      mkResponse 200 (Records [(1706745600000000000, Some 1.51%Q);
                               (1706749200000000000, Some 1.75%Q)]%Z)
    else mkResponse 200 EmptyList.

(** The sample service without an answer for December. *)
Definition refusing_service : data_service :=
  fun station_code starttime endtime =>
    if (month starttime =? 12)%Z then mkResponse 404 EmptyList
    else ioc_service_sample station_code starttime endtime.

(** A service with a record half a minute after the full hour. *)
Definition half_minute_service : data_service :=
  fun station_code starttime endtime =>
    mkResponse 200 (Records [(1704067200000000000, Some 1.25%Q);
                             (1704067230000000000, Some 1.26%Q);
                             (1704067260000000000, Some 1.27%Q)]%Z).

End IocRetrieve.

(** ** [ssh_netcdf_overview]: the figures *)

Module Overview.
Import Text.

(** A saved figure: its file name, the labels of the y axis with their
    positions, and the rows of markers on the axes when it was saved,
    each with its height and the file whose times it shows. *)
Record figure : Type := mkFigure {
  figname : string;
  yticks : list (Z * string);
  rows : list (Z * string)
}.

(** The axes, the names collected for the figure in progress, and the
    figures saved so far. *)
Record state : Type := mkState {
  ax : list (Z * string);
  fig_file_list : list string;
  saved : list figure
}.

(** [range(0, -nlines, -1)] *)
Definition range_down (nlines : nat) : list Z :=
  map (fun i => (- Z.of_nat i)%Z) (seq 0 nlines).

Definition overview_figname (first last : Z) : string :=
  ("overview_availability_" ++ format_03d first ++ "_" ++ format_03d last)%string.

(** The body of the loop for file number [ifile] of [nfiles]. *)
Definition overview_file (perplot nfiles : Z) (st : state) (ifile : Z) (fname : string)
  : state :=
  let fname_clean := replace ".nc" "" fname in
  let fig_file_list := fig_file_list st ++ [fname_clean] in
  let ax := ax st ++ [((- (ifile mod perplot))%Z, fname_clean)] in
  let bool_lastinrange := (ifile mod perplot =? perplot - 1)%Z in
  let bool_lastfile := (ifile =? nfiles - 1)%Z in
  let saved :=
    if bool_lastinrange || bool_lastfile then
      (* finish and save figure *)
      let nlines := length fig_file_list in
      let figname := overview_figname (ifile - Z.of_nat nlines + 2) (ifile + 1) in
      saved st ++ [mkFigure figname (combine (range_down nlines) fig_file_list) ax]
    else saved st in
  if bool_lastinrange then
    (* reset figure *)
    mkState [] [] saved
  else mkState ax fig_file_list saved.

Fixpoint overview_loop (perplot nfiles : Z) (st : state) (ifile : Z) (files : list string)
  : state :=
  match files with
  | [] => st
  | fname :: files' =>
      overview_loop perplot nfiles (overview_file perplot nfiles st ifile fname)
                    (ifile + 1) files'
  end.

(** [ssh_netcdf_overview], as far as the figures go: [file_list] holds
    the names of the [*.nc] files of the directory, each taken to hold a
    series that can be read and drawn; the table of statistics is left
    out. Without files there is nothing to concatenate; a [perplot] of
    zero ends in a division by zero at the first file, which is outside
    the exception classes of [Py.exn]. *)
Definition ssh_netcdf_overview (file_list : list string) (perplot : Z)
  : result (list figure) :=
  let file_list := sorted_casefold file_list in
  match file_list with
  | [] => Raise ValueError
  | _ :: _ =>
      if (perplot =? 0)%Z then Raise Unmodelled
      else Ok (saved (overview_loop perplot (Z.of_nat (length file_list))
                                    (mkState [] [] []) 0 file_list))
  end.

(** *** Vocabulary of the statements *)

(** The files of a figure, from the top. *)
Definition figure_files (f : figure) : list string := map snd (yticks f).

(** The figures are named after the numbers of their first and last
    file, counted from [start + 1]. *)
Fixpoint numbered (start : nat) (figs : list figure) : Prop :=
  match figs with
  | [] => True
  | f :: figs' =>
      figname f = overview_figname (Z.of_nat start + 1)
                                   (Z.of_nat (start + length (figure_files f))) /\
      numbered (start + length (figure_files f)) figs'
  end.

(** A figure whose rows of markers stand at the labels of their files,
    from the top down, with at most [perplot] files. *)
Definition aligned (perplot : Z) (f : figure) : Prop :=
  rows f = yticks f /\
  map fst (yticks f) = range_down (length (figure_files f)) /\
  (0 < length (figure_files f))%nat /\ (Z.of_nat (length (figure_files f)) <= perplot)%Z.

Definition total_files (figs : list figure) : nat :=
  length (concat (map figure_files figs)).

(** The state of the loop before a file, [done] being the labels of
    the files before it: the figures saved so far are full, and the
    names collected since the last of them are on the axes. *)
Record loop_inv (perplot : Z) (done : list string) (st : state) : Prop := mkInv {
  inv_files : concat (map figure_files (saved st)) ++ fig_file_list st = done;
  inv_ax : ax st = combine (range_down (length (fig_file_list st))) (fig_file_list st);
  inv_cur : Z.of_nat (length (fig_file_list st)) = (Z.of_nat (length done) mod perplot)%Z;
  inv_full : Forall (fun f => aligned perplot f /\
                              Z.of_nat (length (figure_files f)) = perplot) (saved st);
  inv_names : numbered 0 (saved st)
}.

(** *** Sample data *)

Definition overview_files_sample : list string :=
  ["uhslc-347.nc"; "ioc-abas-1.nc"; "UHSLC-001.nc"; "ioc-abur-3.nc"; "gesla3-x.nc"].

End Overview.

(** ** Further vocabulary of the statements *)

Module Terms.

(** The three attributes that [_preprocess_uhslc_erddap] renames. *)
Definition renamed_attrs : list string := ["acknowledgement"; "processing_level"; "title"].

(** A request without data: an [HTTPError] whose text holds "code=404". *)
Definition not_found (response : Series.erddap_response) : Prop :=
  exists msg, response = Series.Failed (HTTPError msg) /\
              is_Some (String.index 0 "code=404" msg).

(** The four station coordinates of [_make_hydrotools_consistent]. *)
Definition station_coords : list string :=
  ["station_name"; "station_id"; "station_x_coordinate"; "station_y_coordinate"].

(** Sample data: a series of two samples with the attributes of
    station 347. *)
Definition hydrotools_sample : Xr.Dataset :=
  Xr.assign_attrs [("station_name", Xr.AStr "Abashiri"); ("station_id", Xr.AInt 347);
                   ("longitude", Xr.AFloat 144); ("latitude", Xr.AFloat 44)]
    (Retrieve.series_dataset [Series.mkSample 0 (Some 1.25%Q);
                              Series.mkSample 3600000000000 (Some 1.5%Q)] "m").

End Terms.

(** ** [psmsl_gnssir_ssh_read_catalog_gettimes] *)

Module PsmslTimes.

(** A station of the PSMSL GNSS-IR catalog, as far as the time extents
    go; a time of [None] is NaT, a number of days of [None] is missing. *)
Record site : Type := mkSite {
  label : Z;
  site_code : string;
  time_min : option Z;
  time_max : option Z;
  time_ndays : option Q
}.

(** The daily file of a station: the times of its lines, or the
    failure of the request. *)
Definition daily_service : Type := Z -> result (list Z).

(** Nanoseconds as days. *)
Definition ndays (dt : Z) : Q := (inject_Z dt / 1000000000 / 3600 / 24)%Q.

(** [catalog.loc[station_id, ...] = ...] for the three columns: every
    row with that index label is set. *)
Definition set_times (station_id : Z) (tmin tmax : Z) (catalog : list site) : list site :=
  map (fun r => if (label r =? station_id)%Z
                then mkSite (label r) (site_code r) (Some tmin) (Some tmax)
                            (Some (ndays (tmax - tmin)))
                else r) catalog.

(** The body of the loop over the stations. *)
Definition gettimes_station (daily : daily_service) (catalog : list site) (station_id : Z)
  : result (list site) :=
  data_daily ← daily station_id;
  match data_daily with
  | [] => Raise IndexError
  | first :: _ =>
      let time_min := first in
      let time_max := List.last data_daily first in
      Ok (set_times station_id time_min time_max catalog)
  end.

(** [psmsl_gnssir_ssh_read_catalog_gettimes] *)
Definition psmsl_gnssir_ssh_read_catalog_gettimes (daily : daily_service)
    (station_list_gpd : list site) : result (list site) :=
  let station_list_gpd :=
    map (fun r => mkSite (label r) (site_code r) None None (time_ndays r)) station_list_gpd in
  foldM (gettimes_station daily) station_list_gpd (map label station_list_gpd).

(** *** Sample data *)

Definition sites_sample : list site :=
  [mkSite 10001 "ABER" None None None; mkSite 10002 "BRST" None None None].

Definition daily_sample : daily_service :=
  fun station_id =>
    if (station_id =? 10001)%Z then Ok [0; 86400000000000; 172800000000000]%Z
    else if (station_id =? 10002)%Z then Ok [86400000000000]%Z
    else Ok [].

End PsmslTimes.

(* ===================================================================== *)
(** * Part II: properties                                                 *)
(* ===================================================================== *)

(** ** Results *)

Lemma bind_Ok_inv {A B : Type} (m : result A) (k : A -> result B) (b : B) :
  m ≫= k = Ok b -> exists a, m = Ok a /\ k a = Ok b.
Proof. destruct m as [a|e]; simpl; intros H; [eauto | discriminate H]. Qed.

Lemma bind_Raise_inv {A B : Type} (m : result A) (k : A -> result B) (e : exn) :
  m ≫= k = Raise e -> m = Raise e \/ exists a, m = Ok a /\ k a = Raise e.
Proof.
  destruct m as [a|e']; simpl; intros H; [eauto | left; injection H as ->; reflexivity].
Qed.

(** ** [_remove_accents] *)

Section AccentsProps.
Import Accents.

Variable NFKD : ustr -> ustr.

Lemma encode_ascii_ignore_ascii (s : ustr) :
  Forall (fun c => is_ascii c = true) (encode_ascii_ignore s).
Proof.
  unfold encode_ascii_ignore. apply List.Forall_forall. intros c Hc.
  apply filter_In in Hc. tauto.
Qed.

Lemma encode_ascii_ignore_id (s : ustr) :
  Forall (fun c => is_ascii c = true) s -> encode_ascii_ignore s = s.
Proof.
  unfold encode_ascii_ignore.
  induction 1 as [|c s Hc _ IH]; simpl; [reflexivity|].
  rewrite Hc. now f_equal.
Qed.

Lemma replace_o_stroke_ascii (s : ustr) :
  Forall (fun c => is_ascii c = true) s -> replace_char o_stroke latin_o s = s.
Proof.
  unfold replace_char.
  induction 1 as [|c s Hc _ IH]; simpl; [reflexivity|].
  rewrite IH. f_equal.
  destruct (N.eqb_spec c o_stroke) as [->|]; [discriminate Hc | reflexivity].
Qed.

Lemma remove_accents_is_ascii (s : ustr) :
  Forall (fun c => is_ascii c = true) (_remove_accents NFKD s).
Proof. apply encode_ascii_ignore_ascii. Qed.

(** The normal form of ASCII text is the text itself: ASCII code points
    have no decomposition and no combining class. *)
Hypothesis NFKD_ascii :
  forall s, Forall (fun c => is_ascii c = true) s -> NFKD s = s.

Lemma remove_accents_fixes_ascii (s : ustr) :
  Forall (fun c => is_ascii c = true) s -> _remove_accents NFKD s = s.
Proof.
  intros Hs. unfold _remove_accents, _remove_accents_logged. simpl.
  rewrite (replace_o_stroke_ascii s Hs), (NFKD_ascii s Hs).
  now apply encode_ascii_ignore_id.
Qed.

(** C9. [_remove_accents] returns ASCII characters only, and applying it
    to its own output gives that output back. *)
Theorem remove_accents_ascii_idempotent (input_str : ustr) :
  Forall (fun c => (c < 128)%N) (_remove_accents NFKD input_str) /\
  _remove_accents NFKD (_remove_accents NFKD input_str)
  = _remove_accents NFKD input_str.
Proof.
  split.
  - eapply List.Forall_impl; [|apply remove_accents_is_ascii].
    intros c Hc. now apply N.ltb_lt.
  - apply remove_accents_fixes_ascii, remove_accents_is_ascii.
Qed.

End AccentsProps.

Lemma decompose_ascii (c : N) : Accents.is_ascii c = true -> Accents.decompose c = [c].
Proof.
  unfold Accents.is_ascii. intros Hc. apply N.ltb_lt in Hc.
  unfold Accents.decompose.
  repeat match goal with
         | |- context [match ?c with _ => _ end] => destruct c; try lia; try reflexivity
         end.
Qed.

Lemma nfkd_fragment_ascii (s : Accents.ustr) :
  Forall (fun c => Accents.is_ascii c = true) s -> Accents.nfkd_fragment s = s.
Proof.
  unfold Accents.nfkd_fragment.
  induction 1 as [|c s Hc _ IH]; simpl; [reflexivity|].
  now rewrite (decompose_ascii c Hc), IH.
Qed.

(** "Tromsø é": the stroke is replaced, the accent is dropped. *)
Example remove_accents_tromso :
  Accents._remove_accents Accents.nfkd_fragment [84; 114; 111; 109; 115; 248; 32; 233]%N
  = [84; 114; 111; 109; 115; 111; 32; 101]%N.
Proof. reflexivity. Qed.

(** The property at "Tromsø é", for the fragment of the decomposition. *)
Lemma remove_accents_ascii_idempotent_witness :
  Forall (fun c => (c < 128)%N)
         (Accents._remove_accents Accents.nfkd_fragment [84; 114; 111; 109; 115; 248; 32; 233]%N) /\
  Accents._remove_accents Accents.nfkd_fragment
    (Accents._remove_accents Accents.nfkd_fragment [84; 114; 111; 109; 115; 248; 32; 233]%N)
  = Accents._remove_accents Accents.nfkd_fragment [84; 114; 111; 109; 115; 248; 32; 233]%N.
Proof.
  exact (remove_accents_ascii_idempotent Accents.nfkd_fragment nfkd_fragment_ascii
           [84; 114; 111; 109; 115; 248; 32; 233]%N).
Defined.

(** ** Doubles *)

Section FloatProps.
Import Float.
Local Open Scope Q_scope.

Lemma pow2_pos (e : Z) : 0 < 2 ^ e.
Proof. apply Qpower_0_lt. reflexivity. Qed.

Lemma pow2_le (a b : Z) : (a <= b)%Z -> 2 ^ a <= 2 ^ b.
Proof. intros H. apply Qpower_le_compat_l; [exact H | discriminate]. Qed.

Lemma pow2_lt (a b : Z) : (a < b)%Z -> 2 ^ a < 2 ^ b.
Proof. intros H. apply Qpower_lt_compat_l; [exact H | reflexivity]. Qed.

Lemma pow2_plus (a b : Z) : 2 ^ (a + b) == 2 ^ a * 2 ^ b.
Proof. apply Qpower_plus. discriminate. Qed.

Lemma pow2_Z (a : Z) : (0 <= a)%Z -> inject_Z (2 ^ a) == 2 ^ a.
Proof. intros H. now rewrite Zpower_Qpower. Qed.

Lemma Qabs_frac (q : Q) : Qabs q == inject_Z (Z.abs (Qnum q)) / inject_Z (Zpos (Qden q)).
Proof.
  destruct q as [n d]. unfold Qabs. simpl Qnum. simpl Qden.
  rewrite (Qmake_Qdiv (Z.abs n) d). reflexivity.
Qed.

(** [log2_floor] is the exponent of the power of two at or below [|q|]. *)
Lemma log2_floor_spec (q : Q) :
  ~ q == 0 -> 2 ^ log2_floor q <= Qabs q /\ Qabs q < 2 ^ (log2_floor q + 1).
Proof.
  intros Hq.
  assert (Hn : (0 < Z.abs (Qnum q))%Z).
  { destruct q as [n d]. simpl. unfold Qeq in Hq. simpl in Hq. lia. }
  set (n := Z.abs (Qnum q)) in *. set (d := Zpos (Qden q)).
  assert (Hd : (0 < d)%Z) by reflexivity.
  pose proof (Z.log2_spec n Hn) as [Hn1 Hn2].
  pose proof (Z.log2_spec d Hd) as [Hd1 Hd2].
  pose proof (Z.log2_nonneg n) as Ha. pose proof (Z.log2_nonneg d) as Hb.
  set (a := Z.log2 n) in *. set (b := Z.log2 d) in *.
  assert (Eq : Qabs q == inject_Z n / inject_Z d) by apply Qabs_frac.
  assert (Hdq : 0 < inject_Z d) by (change (inject_Z 0 < inject_Z d); rewrite <- Zlt_Qlt; exact Hd).
  rewrite Zle_Qle, pow2_Z in Hn1, Hd1 by assumption.
  rewrite Zlt_Qlt, pow2_Z in Hn2, Hd2 by lia.
  unfold log2_floor. fold n d a b.
  destruct (Qle_bool (2 ^ (a - b)) (Qabs q)) eqn:T.
  - apply Qle_bool_iff in T. split; [exact T|].
    rewrite Eq. apply Qlt_shift_div_r; [exact Hdq|].
    assert (E : 2 ^ (a - b + 1) * 2 ^ b == 2 ^ (a + 1)).
    { rewrite <- pow2_plus. apply Qpower_comp; [reflexivity | lia]. } 
    eapply Qlt_le_trans; [exact Hn2|]. rewrite <- E.
    apply Qmult_le_l; [apply pow2_pos | exact Hd1].
  - assert (T' : Qabs q < 2 ^ (a - b)).
    { apply Qnot_le_lt. intros H. apply Qle_bool_iff in H. congruence. }
    split.
    + rewrite Eq. apply Qle_shift_div_l; [exact Hdq|].
      assert (E : 2 ^ (a - b - 1) * 2 ^ (b + 1) == 2 ^ a).
      { rewrite <- pow2_plus. apply Qpower_comp; [reflexivity | lia]. }
      eapply Qle_trans; [|exact Hn1]. rewrite <- E.
      apply Qmult_le_l; [apply pow2_pos | now apply Qlt_le_weak].
    + replace (a - b - 1 + 1)%Z with (a - b)%Z by lia. exact T'.
Qed.


Lemma log2_floor_le (q : Q) (L : Z) :
  ~ q == 0 -> Qabs q < 2 ^ (L + 1) -> (log2_floor q <= L)%Z.
Proof.
  intros Hq Hlt. destruct (log2_floor_spec q Hq) as [Hlo _].
  assert (H : 2 ^ log2_floor q < 2 ^ (L + 1)) by (eapply Qle_lt_trans; eassumption).
  apply Qpower_lt_compat_l_inv in H; [lia | reflexivity].
Qed.

Lemma ulp_exp_le (q : Q) (L : Z) :
  ~ q == 0 -> Qabs q < 2 ^ (L + 1) -> (-1074 <= L - 52)%Z -> (ulp_exp q <= L - 52)%Z.
Proof.
  intros Hq Hlt HL. pose proof (log2_floor_le q L Hq Hlt). unfold ulp_exp. lia.
Qed.

Lemma round_half_even_near (a : Q) :
  a - (1 # 2) <= inject_Z (round_half_even a) /\
  inject_Z (round_half_even a) <= a + (1 # 2).
Proof.
  unfold round_half_even.
  pose proof (Qfloor_le a) as Hlo.
  pose proof (Qlt_floor a) as Hhi.
  rewrite inject_Z_plus in Hhi. change (inject_Z 1) with 1 in Hhi.
  set (f := Qfloor a) in *.
  destruct (Qcompare_spec (a - inject_Z f) (1 # 2)) as [He|Hl|Hg].
  - destruct (Z.even f); [|rewrite inject_Z_plus; change (inject_Z 1) with 1];
      split; Lqa.lra.
  - split; Lqa.lra.
  - rewrite inject_Z_plus. change (inject_Z 1) with 1. split; Lqa.lra.
Qed.

(** Rounding does not leave an interval with integer ends. *)
Lemma round_half_even_between (lo hi : Z) (a : Q) :
  inject_Z lo <= a -> a <= inject_Z hi ->
  (lo <= round_half_even a <= hi)%Z.
Proof.
  intros Hlo Hhi.
  assert (Hf : (lo <= Qfloor a)%Z) by (apply Qfloor_resp_le in Hlo; now rewrite Qfloor_Z in Hlo).
  assert (Hc : (Qfloor a <= hi)%Z) by (apply Qfloor_resp_le in Hhi; now rewrite Qfloor_Z in Hhi).
  unfold round_half_even.
  pose proof (Qfloor_le a) as Hfl.
  set (f := Qfloor a) in *.
  assert (Hup : ~ a == inject_Z f -> (f + 1 <= hi)%Z).
  { intros Hne. destruct (Z.eq_dec f hi) as [->|]; [|lia].
    exfalso. apply Hne. apply Qle_antisym; assumption. }
  destruct (Qcompare_spec (a - inject_Z f) (1 # 2)) as [He|Hl|Hg].
  - destruct (Z.even f); [lia|]. split; [lia|]. apply Hup. intros E. Lqa.lra.
  - lia.
  - split; [lia|]. apply Hup. intros E. Lqa.lra.
Qed.

Lemma round_half_even_comp (a b : Q) : a == b -> round_half_even a = round_half_even b.
Proof.
  intros E. unfold round_half_even.
  rewrite (Qfloor_comp _ _ E).
  assert (C : (a - inject_Z (Qfloor b) ?= 1 # 2) = (b - inject_Z (Qfloor b) ?= 1 # 2))
    by (now rewrite E).
  now rewrite C.
Qed.

Lemma round_half_even_Z (z : Z) : round_half_even (inject_Z z) = z.
Proof.
  unfold round_half_even. rewrite Qfloor_Z.
  destruct (Qcompare_spec (inject_Z z - inject_Z z) (1 # 2)) as [He|Hl|Hg];
    [Lqa.lra | reflexivity | Lqa.lra].
Qed.

(** A number within less than a half of an integer is rounded to it. *)
Lemma round_half_even_unique (z : Z) (a : Q) :
  inject_Z z - (1 # 2) < a -> a < inject_Z z + (1 # 2) -> round_half_even a = z.
Proof.
  intros Hlo Hhi. destruct (round_half_even_near a) as [H1 H2].
  assert (L : (z - 1 < round_half_even a)%Z).
  { rewrite Zlt_Qlt. unfold Z.sub. rewrite inject_Z_plus, inject_Z_opp.
    change (inject_Z 1) with 1. Lqa.lra. }
  assert (U : (round_half_even a < z + 1)%Z).
  { rewrite Zlt_Qlt. rewrite inject_Z_plus. change (inject_Z 1) with 1. Lqa.lra. }
  lia.
Qed.

Lemma log2_floor_unique (q : Q) (l : Z) :
  2 ^ l <= Qabs q -> Qabs q < 2 ^ (l + 1) -> log2_floor q = l.
Proof.
  intros Hlo Hhi.
  assert (Hq : ~ q == 0).
  { intros E. rewrite E in Hlo. pose proof (pow2_pos l). change (Qabs 0) with 0 in Hlo. Lqa.lra. }
  destruct (log2_floor_spec q Hq) as [Slo Shi].
  assert (H1 : 2 ^ l < 2 ^ (log2_floor q + 1)) by (eapply Qle_lt_trans; eassumption).
  assert (H2 : 2 ^ log2_floor q < 2 ^ (l + 1)) by (eapply Qle_lt_trans; eassumption).
  apply Qpower_lt_compat_l_inv in H1; [|reflexivity].
  apply Qpower_lt_compat_l_inv in H2; [|reflexivity].
  lia.
Qed.

Lemma rnd_eq (q : Q) :
  rnd q == inject_Z (round_half_even (q / 2 ^ ulp_exp q)) * 2 ^ ulp_exp q.
Proof. unfold rnd. apply Qred_correct. Qed.

Lemma rnd_0 (q : Q) : q == 0 -> rnd q == 0.
Proof.
  intros E. rewrite rnd_eq.
  rewrite (round_half_even_comp _ (inject_Z 0)).
  - rewrite round_half_even_Z. change (inject_Z 0) with 0. Lqa.lra.
  - unfold Qdiv. set (v := / 2 ^ ulp_exp q). rewrite E.
    change (inject_Z 0) with 0. Lqa.lra.
Qed.

Lemma rnd_comp : Proper (Qeq ==> Qeq) rnd.
Proof.
  intros a b E.
  destruct (Qeq_dec a 0) as [Ha|Ha].
  - rewrite (rnd_0 a Ha). symmetry. apply rnd_0. now rewrite <- E.
  - assert (Hb : ~ b == 0) by (now rewrite <- E).
    assert (El : log2_floor a = log2_floor b).
    { destruct (log2_floor_spec b Hb) as [Slo Shi].
      apply log2_floor_unique; now rewrite E. }
    rewrite !rnd_eq. unfold ulp_exp. rewrite El.
    rewrite (round_half_even_comp (a / _) (b / 2 ^ Z.max (log2_floor b - 52) (-1074)));
      [reflexivity | now rewrite E].
Qed.

#[local] Existing Instance rnd_comp.

(** The double nearest to [q] is within half a unit of its last place. *)
Lemma rnd_error_ulp (q : Q) :
  Qabs (rnd q - q) <= 2 ^ ulp_exp q * (1 # 2).
Proof.
  rewrite rnd_eq. set (u := 2 ^ ulp_exp q).
  assert (Hu : 0 < u) by apply pow2_pos.
  destruct (round_half_even_near (q / u)) as [Hlo Hhi].
  set (r := inject_Z (round_half_even (q / u))) in *.
  assert (E : q == q / u * u) by (field; Lqa.lra).
  apply Qabs_Qle_condition. split.
  - assert (H : (q / u - (1 # 2)) * u <= r * u)
      by (apply Qmult_le_compat_r; [exact Hlo | Lqa.lra]).
    Lqa.lra.
  - assert (H : r * u <= (q / u + (1 # 2)) * u)
      by (apply Qmult_le_compat_r; [exact Hhi | Lqa.lra]).
    Lqa.lra.
Qed.

(** The error of a rounding below a power of two. *)
Lemma rnd_error (q : Q) (L : Z) :
  Qabs q < 2 ^ (L + 1) -> (-1074 <= L - 52)%Z ->
  Qabs (rnd q - q) <= 2 ^ (L - 53).
Proof.
  intros Hlt HL.
  destruct (Qeq_dec q 0) as [Hq|Hq].
  - rewrite (rnd_0 q Hq), Hq. simpl. apply Qlt_le_weak, pow2_pos.
  - eapply Qle_trans; [apply rnd_error_ulp|].
    pose proof (ulp_exp_le q L Hq Hlt HL) as He.
    assert (E : 2 ^ (L - 53) == 2 ^ (L - 52) * (1 # 2)).
    { replace (L - 53)%Z with ((L - 52) + (-1))%Z by lia. now rewrite pow2_plus. }
    rewrite E. apply Qmult_le_compat_r; [now apply pow2_le | discriminate].
Qed.

(** Rounding does not leave an interval whose ends are whole numbers
    below 2^53. *)
Lemma rnd_between (lo hi : Z) (q : Q) :
  (- 2 ^ 53 < lo)%Z -> (hi < 2 ^ 53)%Z ->
  inject_Z lo <= q -> q <= inject_Z hi ->
  inject_Z lo <= rnd q /\ rnd q <= inject_Z hi.
Proof.
  intros Blo Bhi Hlo Hhi.
  destruct (Qeq_dec q 0) as [Hq|Hq].
  - rewrite (rnd_0 q Hq). rewrite Hq in Hlo, Hhi. now split.
  - assert (Hlt : Qabs q < 2 ^ (52 + 1)).
    { apply Qabs_Qlt_condition. 
      assert (H53 : 2 ^ (52 + 1) == inject_Z (2 ^ 53)) by reflexivity.
      rewrite H53. rewrite Zlt_Qlt in Blo, Bhi. rewrite inject_Z_opp in Blo. split; Lqa.lra. }
    pose proof (ulp_exp_le q 52 Hq Hlt ltac:(lia)) as He.
    rewrite rnd_eq. set (e := ulp_exp q) in *.
    set (u := 2 ^ e). assert (Hu : 0 < u) by apply pow2_pos.
    assert (Ez : forall z : Z, inject_Z (z * 2 ^ (- e)) * u == inject_Z z).
    { intros z. rewrite inject_Z_mult, pow2_Z by lia. unfold u.
      rewrite <- Qmult_assoc, <- pow2_plus. replace (- e + e)%Z with 0%Z by lia.
      simpl. Lqa.lra. }
    assert (Ed : forall z : Z, inject_Z (z * 2 ^ (- e)) == inject_Z z / u).
    { intros z. rewrite <- (Ez z). field. Lqa.lra. }
    destruct (round_half_even_between (lo * 2 ^ (- e)) (hi * 2 ^ (- e)) (q / u)) as [H1 H2].
    + rewrite Ed. apply Qmult_le_compat_r; [exact Hlo | apply Qlt_le_weak, Qinv_lt_0_compat, Hu].
    + rewrite Ed. apply Qmult_le_compat_r; [exact Hhi | apply Qlt_le_weak, Qinv_lt_0_compat, Hu].
    + rewrite Zle_Qle in H1, H2. split.
      * rewrite <- (Ez lo). apply Qmult_le_compat_r; [exact H1 | Lqa.lra].
      * rewrite <- (Ez hi). apply Qmult_le_compat_r; [exact H2 | Lqa.lra].
Qed.



Lemma rnd_Z (z : Z) : (- 2 ^ 53 < z < 2 ^ 53)%Z -> rnd (inject_Z z) == inject_Z z.
Proof.
  intros [Hlo Hhi].
  destruct (rnd_between z z (inject_Z z) Hlo Hhi) as [H1 H2]; try apply Qle_refl.
  now apply Qle_antisym.
Qed.

(** *** The remainder *)

Lemma trunc_cases (q : Q) :
  (0 <= q /\ trunc q = Qfloor q) \/ (q < 0 /\ trunc q = Qceiling q).
Proof.
  unfold trunc. destruct (Qle_bool 0 q) eqn:E.
  - left. apply Qle_bool_iff in E. now split.
  - right. split; [|reflexivity]. apply Qnot_le_lt. intros H.
    apply Qle_bool_iff in H. congruence.
Qed.

Lemma negative_spec (q : Q) : negative q = true <-> q < 0.
Proof.
  unfold negative. destruct (Qle_bool 0 q) eqn:E; simpl.
  - apply Qle_bool_iff in E. split; [discriminate | intros H; Lqa.lra].
  - split; [intros _|reflexivity]. apply Qnot_le_lt. intros H.
    apply Qle_bool_iff in H. congruence.
Qed.

Lemma Qceiling_floor (q : Q) :
  (Qceiling q = Qfloor q /\ q == inject_Z (Qfloor q)) \/
  (Qceiling q = (Qfloor q + 1)%Z /\ ~ q == inject_Z (Qfloor q)).
Proof.
  pose proof (Qfloor_le q) as F1. pose proof (Qlt_floor q) as F2.
  pose proof (Qle_ceiling q) as C1. pose proof (Qceiling_lt q) as C2.
  rewrite inject_Z_plus in F2. unfold Z.sub in C2. rewrite inject_Z_plus in C2.
  rewrite inject_Z_opp in C2. change (inject_Z 1) with 1 in F2, C2.
  destruct (Qeq_dec q (inject_Z (Qfloor q))) as [E|N].
  - left. split; [|exact E].
    assert (H1 : (Qceiling q < Qfloor q + 1)%Z).
    { rewrite Zlt_Qlt, inject_Z_plus. change (inject_Z 1) with 1. Lqa.lra. }
    assert (H2 : (Qfloor q <= Qceiling q)%Z) by (rewrite Zle_Qle; apply Qle_floor_ceiling).
    lia.
  - right. split; [|exact N].
    assert (H1 : (Qceiling q < Qfloor q + 2)%Z).
    { rewrite Zlt_Qlt, inject_Z_plus. change (inject_Z 2) with 2. Lqa.lra. }
    assert (H2 : (Qfloor q < Qceiling q)%Z).
    { rewrite Zlt_Qlt. apply Qle_lt_trans with q; [exact F1|].
      apply Qle_lteq in C1 as [C1|C1]; [exact C1|].
      exfalso. apply N.
      assert (H3 : (Qceiling q < Qfloor q + 1)%Z).
      { rewrite Zlt_Qlt, inject_Z_plus. change (inject_Z 1) with 1. Lqa.lra. }
      assert (H4 : (Qfloor q <= Qceiling q)%Z) by (rewrite Zle_Qle; apply Qle_floor_ceiling).
      assert (H5 : Qceiling q = Qfloor q) by lia.
      rewrite <- H5. exact C1. }
    lia.
Qed.

Lemma turns_spec (a : Q) :
  0 <= a - 360 * inject_Z (turns a) /\ a - 360 * inject_Z (turns a) < 360.
Proof.
  unfold turns.
  pose proof (Qfloor_le (a / 360)) as Hlo.
  pose proof (Qlt_floor (a / 360)) as Hhi.
  rewrite inject_Z_plus in Hhi. change (inject_Z 1) with 1 in Hhi.
  set (k := inject_Z (Qfloor (a / 360))) in *.
  assert (Ha : a == 360 * (a / 360)) by field.
  split; Lqa.lra.
Qed.

Lemma turns_unique (a : Q) (k : Z) :
  360 * inject_Z k <= a -> a < 360 * inject_Z k + 360 -> turns a = k.
Proof.
  intros Hlo Hhi. destruct (turns_spec a) as [Tlo Thi].
  assert (H1 : (turns a < k + 1)%Z).
  { rewrite Zlt_Qlt, inject_Z_plus. change (inject_Z 1) with 1. Lqa.lra. }
  assert (H2 : (k < turns a + 1)%Z).
  { rewrite Zlt_Qlt, inject_Z_plus. change (inject_Z 1) with 1. Lqa.lra. }
  lia.
Qed.

Lemma pow2_m45 : 2 ^ (-45) == 1 # 35184372088832.
Proof. reflexivity. Qed.
Lemma pow2_m44 : 2 ^ (-44) == 1 # 17592186044416.
Proof. reflexivity. Qed.
Lemma pow2_m46 : 2 ^ (-46) == 1 # 70368744177664.
Proof. reflexivity. Qed.
Lemma pow2_9 : 2 ^ 9 == 512.
Proof. reflexivity. Qed.
Lemma pow2_8 : 2 ^ 8 == 256.
Proof. reflexivity. Qed.
Lemma pow2_10 : 2 ^ 10 == 1024.
Proof. reflexivity. Qed.

(** [a % 360] is what is left of [a] after its whole turns, up to the
    rounding of one addition, and lies between 0 and 360. *)
Lemma py_mod_360 (a : Q) :
  let exact := a - 360 * inject_Z (turns a) in
  (py_mod a 360 == exact \/ py_mod a 360 == rnd exact) /\
  0 <= py_mod a 360 /\ py_mod a 360 <= 360.
Proof.
  intros exact. destruct (turns_spec a) as [Tlo Thi]. fold exact in Tlo, Thi.
  assert (Hr : 0 <= rnd exact /\ rnd exact <= 360).
  { apply (rnd_between 0 360); try reflexivity; [exact Tlo | now apply Qlt_le_weak]. }
  assert (Hcases : py_mod a 360 == exact \/ py_mod a 360 == rnd exact).
  { unfold py_mod, fmod.
    set (r := a - 360 * inject_Z (trunc (a / 360))).
    assert (Er : (0 <= a /\ r == exact) \/
                 (a < 0 /\ ((r == 0 /\ exact == 0) \/ (r < 0 /\ r + 360 == exact)))).
    { unfold r, exact, turns.
      assert (Ha : a == 360 * (a / 360)) by field.
      destruct (trunc_cases (a / 360)) as [[Hq ->]|[Hq ->]].
      - left. split; [Lqa.lra | reflexivity].
      - right. split; [Lqa.lra|].
        destruct (Qceiling_floor (a / 360)) as [[-> E]|[-> N]].
        + left. split; Lqa.lra.
        + right. rewrite inject_Z_plus. change (inject_Z 1) with 1.
          pose proof (Qfloor_le (a / 360)) as F1.
          split; [|Lqa.lra].
          assert (F : inject_Z (Qfloor (a / 360)) < a / 360).
          { apply Qle_lteq in F1 as [F1|F1]; [exact F1|]. exfalso. apply N. now symmetry. }
          pose proof (Qlt_floor (a / 360)) as F2.
          rewrite inject_Z_plus in F2. change (inject_Z 1) with 1 in F2. Lqa.lra. }
    destruct (Qeq_bool r 0) eqn:Z0.
    - apply Qeq_bool_iff in Z0. left.
      destruct Er as [[_ E]|[_ [[_ E]|[Hneg _]]]]; Lqa.lra.
    - assert (Hnz : ~ r == 0).
      { intros E. apply Qeq_bool_iff in E. congruence. }
      assert (N360 : negative 360 = false) by reflexivity.
      rewrite N360.
      destruct (negative r) eqn:Nr; simpl.
      + apply negative_spec in Nr. right. unfold add.
        destruct Er as [[Ha E]|[_ [[E _]|[_ E]]]]; [Lqa.lra | Lqa.lra |].
        now rewrite E.
      + left. destruct Er as [[_ E]|[_ [[E _]|[Hneg _]]]]; [exact E | Lqa.lra |].
        exfalso. apply negative_spec in Hneg. congruence. }
  split; [exact Hcases|].
  destruct Hcases as [->| ->]; [split; Lqa.lra | exact Hr].
Qed.

Lemma py_mod_360_near (a : Q) :
  Qabs (py_mod a 360 - (a - 360 * inject_Z (turns a))) <= 2 ^ (-45).
Proof.
  destruct (py_mod_360 a) as [[E|E] _]; cbv zeta in E; rewrite E.
  - assert (Z0 : a - 360 * inject_Z (turns a) - (a - 360 * inject_Z (turns a)) == 0) by ring.
    rewrite Z0. discriminate.
  - apply (rnd_error _ 8); [|lia].
    destruct (turns_spec a) as [Tlo Thi].
    apply Qabs_Qlt_condition. rewrite pow2_9. split; Lqa.lra.
Qed.


(** *** No overflow *)

Lemma round_half_even_le (hi : Z) (a : Q) : a <= inject_Z hi -> (round_half_even a <= hi)%Z.
Proof.
  intros H. apply (round_half_even_between (Qfloor a) hi a); [apply Qfloor_le | exact H].
Qed.

Lemma round_half_even_ge (lo : Z) (a : Q) : inject_Z lo <= a -> (lo <= round_half_even a)%Z.
Proof.
  intros H. apply (round_half_even_between lo (Qceiling a) a); [exact H | apply Qle_ceiling].
Qed.

(** A multiple of a power of two that is at least the unit of the last
    place of [q] bounds the double nearest to [q] as it bounds [q]. *)
Lemma rnd_le_mult (q : Q) (K f : Z) :
  (ulp_exp q <= f)%Z -> q <= inject_Z K * 2 ^ f -> rnd q <= inject_Z K * 2 ^ f.
Proof.
  intros He Hq. rewrite rnd_eq. set (e := ulp_exp q) in *.
  set (u := 2 ^ e). assert (Hu : 0 < u) by apply pow2_pos.
  assert (E : inject_Z K * 2 ^ f == inject_Z (K * 2 ^ (f - e)) * u).
  { rewrite inject_Z_mult, pow2_Z by lia. unfold u.
    rewrite <- Qmult_assoc, <- pow2_plus. replace (f - e + e)%Z with f by lia. reflexivity. }
  rewrite E in *. apply Qmult_le_compat_r; [|Lqa.lra].
  rewrite <- Zle_Qle. apply round_half_even_le.
  apply Qle_shift_div_r; [exact Hu | exact Hq].
Qed.

Lemma rnd_ge_mult (q : Q) (K f : Z) :
  (ulp_exp q <= f)%Z -> inject_Z K * 2 ^ f <= q -> inject_Z K * 2 ^ f <= rnd q.
Proof.
  intros He Hq. rewrite rnd_eq. set (e := ulp_exp q) in *.
  set (u := 2 ^ e). assert (Hu : 0 < u) by apply pow2_pos.
  assert (E : inject_Z K * 2 ^ f == inject_Z (K * 2 ^ (f - e)) * u).
  { rewrite inject_Z_mult, pow2_Z by lia. unfold u.
    rewrite <- Qmult_assoc, <- pow2_plus. replace (f - e + e)%Z with f by lia. reflexivity. }
  rewrite E in *. apply Qmult_le_compat_r; [|Lqa.lra].
  rewrite <- Zle_Qle. apply round_half_even_ge.
  apply Qle_shift_div_l; [exact Hu | exact Hq].
Qed.

Lemma ulp_exp_bound (q : Q) : ~ q == 0 -> Qabs q < 2 ^ (ulp_exp q + 53).
Proof.
  intros Hq. destruct (log2_floor_spec q Hq) as [_ Hhi].
  eapply Qlt_le_trans; [exact Hhi|]. apply pow2_le. unfold ulp_exp. lia.
Qed.

(** No overflow: the sum of a finite double and 180 rounds to a finite
    double. *)
Lemma add_180_finite (lon : Q) :
  Qabs lon <= max_double -> Qabs (add lon 180) <= max_double.
Proof.
  intros Hl. apply Qabs_Qle_condition in Hl as [Hlo Hhi].
  unfold add. set (q := lon + 180).
  destruct (Qeq_dec q 0) as [Hq|Hq].
  { rewrite (rnd_0 q Hq). discriminate. }
  assert (M3 : max_double + 180 < 2 ^ (1023 + 1)) by (vm_compute; reflexivity).
  assert (Hlt : Qabs q < 2 ^ (1023 + 1)).
  { apply Qabs_Qlt_condition. unfold q. split; Lqa.lra. }
  pose proof (ulp_exp_le q 1023 Hq Hlt ltac:(lia)) as He.
  replace (1023 - 52)%Z with 971%Z in He by lia.
  pose proof (ulp_exp_bound q Hq) as Hb.
  assert (EM : max_double == inject_Z (2 ^ 53 - 1) * 2 ^ 971) by reflexivity.
  apply Qabs_Qle_condition.
  destruct (Z_le_gt_dec 9 (ulp_exp q)) as [H9|H9].
  - (* the unit of the last place is above 2 * 180 *)
    rewrite rnd_eq. set (e := ulp_exp q) in *. set (u := 2 ^ e) in *.
    assert (Hu : 0 < u) by apply pow2_pos.
    assert (Hu9 : 512 <= u) by (apply (pow2_le 9 e H9)).
    assert (E : max_double == inject_Z ((2 ^ 53 - 1) * 2 ^ (971 - e)) * u).
    { rewrite EM, inject_Z_mult, pow2_Z by lia. unfold u.
      rewrite <- Qmult_assoc, <- pow2_plus. replace (971 - e + e)%Z with 971%Z by lia.
      reflexivity. }
    set (K := ((2 ^ 53 - 1) * 2 ^ (971 - e))%Z) in *.
    destruct (round_half_even_near (q / u)) as [N1 N2].
    assert (Hq1 : q / u <= inject_Z K + 180 / u).
    { apply Qle_shift_div_r; [exact Hu|].
      assert (X : (inject_Z K + 180 / u) * u == inject_Z K * u + 180) by (field; Lqa.lra).
      rewrite X, <- E. unfold q. Lqa.lra. }
    assert (Hq2 : - inject_Z K - 180 / u <= q / u).
    { apply Qle_shift_div_l; [exact Hu|].
      assert (X : (- inject_Z K - 180 / u) * u == - (inject_Z K * u) - 180) by (field; Lqa.lra).
      rewrite X, <- E. unfold q. Lqa.lra. }
    assert (Hs : 180 / u < 1 # 2).
    { apply Qlt_shift_div_r; [exact Hu | Lqa.lra]. }
    assert (R1 : (round_half_even (q / u) < K + 1)%Z).
    { rewrite Zlt_Qlt, inject_Z_plus. change (inject_Z 1) with 1. Lqa.lra. }
    assert (R2 : (- K - 1 < round_half_even (q / u))%Z).
    { rewrite Zlt_Qlt. unfold Z.sub. rewrite !inject_Z_plus, !inject_Z_opp.
      change (inject_Z 1) with 1. Lqa.lra. }
    assert (R3 : (- K <= round_half_even (q / u) <= K)%Z) by lia.
    destruct R3 as [R3 R4]. rewrite Zle_Qle in R3, R4. rewrite inject_Z_opp in R3.
    rewrite E. split.
    + assert (Z0 : - (inject_Z K * u) == (- inject_Z K) * u) by ring.
      rewrite Z0. apply Qmult_le_compat_r; [exact R3 | Lqa.lra].
    + apply Qmult_le_compat_r; [exact R4 | Lqa.lra].
  - (* a small sum *)
    assert (Hsmall : Qabs q < 2 ^ 62).
    { eapply Qlt_le_trans; [exact Hb|]. apply pow2_le. lia. }
    apply Qabs_Qlt_condition in Hsmall as [S1 S2].
    assert (P : 2 ^ 62 <= max_double) by (vm_compute; discriminate).
    pose proof (rnd_le_mult q 1 62 ltac:(lia)) as U.
    pose proof (rnd_ge_mult q (-1) 62 ltac:(lia)) as L.
    change (inject_Z 1) with 1 in U. change (inject_Z (-1)) with (-(1)) in L.
    split.
    + apply Qle_trans with (- (1) * 2 ^ 62); [Lqa.lra | apply L; Lqa.lra].
    + apply Qle_trans with (1 * 2 ^ 62); [apply U; Lqa.lra | Lqa.lra].
Qed.


End FloatProps.

(** ** The longitude shift *)

Section LonProps.
Import Float Geo.
Local Open Scope Q_scope.
#[local] Existing Instance rnd_comp.

Ltac consts :=
  change (inject_Z (-180)) with (-180) in *; change (inject_Z 180) with 180 in *;
  change (inject_Z 0) with 0 in *; change (inject_Z 360) with 360 in *.

Lemma scale10_pos : 0 < scale10.
Proof. reflexivity. Qed.

Lemma py_round_10 (a : Q) : py_round a 10 = rnd (decimal10 a).
Proof. reflexivity. Qed.

Lemma decimal10_near (a : Q) : Qabs (decimal10 a - a) <= 1 # 20000000000.
Proof.
  unfold decimal10.
  destruct (round_half_even_near (a * scale10)) as [Hlo Hhi].
  set (r := inject_Z (round_half_even (a * scale10))) in *.
  assert (Hs : scale10 == 10000000000) by reflexivity.
  apply Qabs_Qle_condition. split.
  - apply Qle_minus_iff.
    assert (E : r / scale10 - a + - - (1 # 20000000000)
                == (r - (a * scale10 - (1 # 2))) / scale10) by (rewrite Hs; field).
    rewrite E. apply Qle_shift_div_l; [exact scale10_pos | Lqa.lra].
  - apply Qle_minus_iff.
    assert (E : (1 # 20000000000) + - (r / scale10 - a)
                == (a * scale10 + (1 # 2) - r) / scale10) by (rewrite Hs; field).
    rewrite E. apply Qle_shift_div_l; [exact scale10_pos | Lqa.lra].
Qed.

Lemma decimal10_between (lo hi : Z) (a : Q) :
  inject_Z lo <= a -> a <= inject_Z hi ->
  inject_Z lo <= decimal10 a /\ decimal10 a <= inject_Z hi.
Proof.
  intros Hlo Hhi. unfold decimal10.
  destruct (round_half_even_between (lo * 10 ^ 10) (hi * 10 ^ 10) (a * scale10)) as [H1 H2].
  - rewrite inject_Z_mult. apply Qmult_le_compat_r; [exact Hlo | discriminate].
  - rewrite inject_Z_mult. apply Qmult_le_compat_r; [exact Hhi | discriminate].
  - rewrite Zle_Qle in H1, H2. rewrite inject_Z_mult in H1, H2.
    fold scale10 in H1, H2.
    split.
    + apply Qle_shift_div_l; [exact scale10_pos | exact H1].
    + apply Qle_shift_div_r; [exact scale10_pos | exact H2].
Qed.

(** A number within less than 5e-11 of a decimal with ten decimals is
    rounded to that decimal. *)
Lemma decimal10_unique (z : Z) (a : Q) :
  Qabs (a - inject_Z z / scale10) < 1 # 20000000000 ->
  decimal10 a == inject_Z z / scale10.
Proof.
  intros H. unfold decimal10.
  rewrite (round_half_even_unique z (a * scale10)); [reflexivity | |].
  - apply Qabs_Qlt_condition in H as [H _].
    assert (Hs : scale10 == 10000000000) by reflexivity.
    assert (E : inject_Z z == inject_Z z / scale10 * scale10) by (field; discriminate).
    assert (X : (inject_Z z / scale10 - (1 # 20000000000)) * scale10 < a * scale10).
    { apply Qmult_lt_compat_r; [exact scale10_pos | Lqa.lra]. }
    rewrite Hs in X at 2. rewrite Hs in E at 2. Lqa.lra.
  - apply Qabs_Qlt_condition in H as [_ H].
    assert (Hs : scale10 == 10000000000) by reflexivity.
    assert (E : inject_Z z == inject_Z z / scale10 * scale10) by (field; discriminate).
    assert (X : a * scale10 < (inject_Z z / scale10 + (1 # 20000000000)) * scale10).
    { apply Qmult_lt_compat_r; [exact scale10_pos | Lqa.lra]. }
    rewrite Hs in X at 3. rewrite Hs in E at 2. Lqa.lra.
Qed.

(** The shifted longitude lies between -180 and 180. *)
Lemma lon_360_to_180_range (lon : Q) :
  -180 <= _lon_360_to_180 lon /\ _lon_360_to_180 lon <= 180.
Proof.
  unfold _lon_360_to_180. rewrite py_round_10.
  destruct (py_mod_360 (add lon 180)) as [_ [Mlo Mhi]].
  set (m := py_mod (add lon 180) 360) in *.
  assert (S : -180 <= sub m 180 /\ sub m 180 <= 180).
  { unfold sub. apply (rnd_between (-180) 180); try reflexivity; consts; Lqa.lra. }
  destruct S as [Slo Shi].
  destruct (decimal10_between (-180) 180 (sub m 180) Slo Shi) as [Dlo Dhi].
  apply (rnd_between (-180) 180); try reflexivity; assumption.
Qed.

Lemma Qabs_le_sum (a b c x y : Q) :
  Qabs (a - b) <= x -> Qabs (b - c) <= y -> Qabs (a - c) <= x + y.
Proof.
  intros H1 H2. apply Qabs_Qle_condition in H1 as [? ?], H2 as [? ?].
  apply Qabs_Qle_condition. split; Lqa.lra.
Qed.

(** The steps of the shift for a longitude whose sum with 180 is below
    1024 in size: the value before the rounding to ten decimals is
    within 2^-44 + 2^-45 + 2^-46 of the longitude less its whole
    turns. *)
Lemma lon_shift_near (lon : Q) :
  Qabs (lon + 180) < 1024 ->
  let a := add lon 180 in
  let s := sub (py_mod a 360) 180 in
  Qabs (s - (lon - 360 * inject_Z (turns a))) <= 7 # 70368744177664 /\
  -180 <= s /\ s <= 180.
Proof.
  intros Hl a s.
  assert (Ea : Qabs (a - (lon + 180)) <= 2 ^ (-44)).
  { unfold a, add. apply (rnd_error _ 9); [|lia]. now rewrite pow2_10. }
  pose proof (py_mod_360_near a) as Em.
  destruct (py_mod_360 a) as [_ [Mlo Mhi]].
  set (m := py_mod a 360) in *.
  assert (Es : Qabs (s - (m - 180)) <= 2 ^ (-46)).
  { unfold s, sub. apply (rnd_error _ 7); [|lia].
    rewrite pow2_8. apply Qabs_Qlt_condition. split; Lqa.lra. }
  assert (S : -180 <= s /\ s <= 180).
  { unfold s, sub. apply (rnd_between (-180) 180); try reflexivity; consts; Lqa.lra. }
  split; [|exact S].
  rewrite pow2_m44 in Ea. rewrite pow2_m45 in Em. rewrite pow2_m46 in Es.
  apply Qabs_Qle_condition in Ea as [? ?], Em as [? ?], Es as [? ?].
  apply Qabs_Qle_condition. split; Lqa.lra.
Qed.

(** For a longitude at most one and a half turns from zero the result
    is within 5.1e-11 of the longitude less a whole number of turns. *)
Lemma lon_360_to_180_near (lon : Q) :
  -540 <= lon -> lon <= 540 ->
  exists k : Z,
    Qabs (_lon_360_to_180 lon - (lon - 360 * inject_Z k)) <= 51 # 1000000000000.
Proof.
  intros Hlo Hhi.
  assert (Hl : Qabs (lon + 180) < 1024) by (apply Qabs_Qlt_condition; split; Lqa.lra).
  destruct (lon_shift_near lon Hl) as [Es [Slo Shi]]. cbv zeta in Es, Slo, Shi.
  exists (turns (add lon 180)).
  unfold _lon_360_to_180. rewrite py_round_10.
  set (s := sub (py_mod (add lon 180) 360) 180) in *.
  pose proof (decimal10_near s) as Ed.
  destruct (decimal10_between (-180) 180 s Slo Shi) as [Dlo Dhi].
  consts.
  assert (Er : Qabs (rnd (decimal10 s) - decimal10 s) <= 2 ^ (-46)).
  { apply (rnd_error _ 7); [|lia].
    rewrite pow2_8. apply Qabs_Qlt_condition. split; Lqa.lra. }
  rewrite pow2_m46 in Er.
  apply Qabs_Qle_condition in Es as [? ?], Ed as [? ?], Er as [? ?].
  apply Qabs_Qle_condition. split; Lqa.lra.
Qed.


Lemma uhslc_get_json_longitude (uhslc_gpd : uhslc_gdf) (f : uhslc_feature) :
  In f (features (_uhslc_get_json uhslc_gpd)) ->
  exists f0, In f0 (features uhslc_gpd) /\
             x (geometry f) = _lon_360_to_180 (x (geometry f0)) /\
             y (geometry f) = y (geometry f0) /\ uhslc_id f = uhslc_id f0.
Proof.
  unfold _uhslc_get_json. simpl. intros Hf.
  apply in_map_iff in Hf. destruct Hf as [f0 [<- Hf0]].
  exists f0. simpl. auto.
Qed.

(** C8 (amended). The shift is [(L + 180) mod 360 - 180] computed on
    doubles, every operation rounded, and rounded to ten decimals. For
    a finite double the sum with 180 is a finite double again, and the
    result lies in the closed interval [-180, 180]; for a longitude
    from -540 to 540 it is within 5.1e-11 of a value that differs from
    [L] by a multiple of 360. The longitudes of the UHSLC catalog lie
    in [-180, 180]. *)
Theorem lon_360_to_180_rounded :
  (forall lon : Q,
     (-180 <= _lon_360_to_180 lon /\ _lon_360_to_180 lon <= 180) /\
     (is_double lon = true -> Qabs (add lon 180) <= max_double)) /\
  (forall lon : Q,
     -540 <= lon -> lon <= 540 ->
     exists k : Z,
       Qabs (_lon_360_to_180 lon - (lon - 360 * inject_Z k)) <= 51 # 1000000000000) /\
  (forall (uhslc_gpd : uhslc_gdf) (f : uhslc_feature),
     In f (features (_uhslc_get_json uhslc_gpd)) ->
     -180 <= x (geometry f) /\ x (geometry f) <= 180).
Proof.
  split; [|split].
  - intros lon. split; [apply lon_360_to_180_range|].
    intros Hd. unfold is_double in Hd. apply andb_prop in Hd as [_ Hd].
    apply Qle_bool_iff in Hd. now apply add_180_finite.
  - apply lon_360_to_180_near.
  - intros gdf f Hf.
    destruct (uhslc_get_json_longitude gdf f Hf) as [f0 [_ [-> _]]].
    apply lon_360_to_180_range.
Qed.

(** C8, counterexample. The double nearest to 179.99999999999 is
    mapped to 180, which is outside [-180, 180) and does not differ
    from it by a multiple of 360. *)
Lemma lon_360_to_180_reaches_180 :
  is_double lon_eleven_decimals = true /\
  _lon_360_to_180 lon_eleven_decimals == 180 /\
  ~ _lon_360_to_180 lon_eleven_decimals < 180 /\
  ~ (exists k : Z,
       _lon_360_to_180 lon_eleven_decimals == lon_eleven_decimals - 360 * inject_Z k) /\
  ~ (forall f, In f (features (_uhslc_get_json uhslc_sample)) -> x (geometry f) < 180).
Proof.
  split; [vm_compute; reflexivity|].
  split; [vm_compute; reflexivity|].
  split; [intros H; vm_compute in H; discriminate H|].
  split.
  - intros [k H].
    assert (E : _lon_360_to_180 lon_eleven_decimals = 180) by (vm_compute; reflexivity).
    rewrite E in H. unfold lon_eleven_decimals, Qeq in H. simpl in H. lia.
  - intros H. specialize (H _ (or_introl eq_refl)).
    vm_compute in H. discriminate H.
Qed.

(** The sum of 134.463 and 180 is the double 314.46299999999997, not the
    double nearest to 314.463; the shift gives 134.463 back, and gives
    134.4629999995 for 360000134.463. *)
Example lon_360_to_180_sample :
  add lon_134_463 180 == lon_134_463_plus_180 /\
  ~ lon_134_463_plus_180 == lon_314_463 /\
  _lon_360_to_180 lon_134_463 == lon_134_463 /\
  _lon_360_to_180 lon_314_463 == lon_45_537_west /\
  _lon_360_to_180 (rnd 360000134.463) == rnd 134.4629999995.
Proof. repeat split; vm_compute; congruence. Qed.

End LonProps.

(** The shift of the double nearest to 314.463. *)
Lemma lon_360_to_180_rounded_witness :
  exists k : Z,
    (Qabs (Geo._lon_360_to_180 Geo.lon_314_463 - (Geo.lon_314_463 - 360 * inject_Z k))
     <= 51 # 1000000000000)%Q.
Proof.
  apply (proj1 (proj2 lon_360_to_180_rounded) Geo.lon_314_463); vm_compute; discriminate.
Defined.

(** ** The SSC catalog *)

Section SscProps.
Import Ssc.

Lemma select_map_filter {A : Type} (f : A -> bool) (l : list A) :
  select (map f l) l = List.filter f l.
Proof.
  induction l as [|a l IH]; simpl; [reflexivity|].
  destruct (f a); now rewrite IH.
Qed.

Lemma count_true_map {A : Type} (f : A -> bool) (l : list A) :
  count_true (map f l) = length (List.filter f l).
Proof.
  unfold count_true.
  induction l as [|a l IH]; simpl; [reflexivity|].
  destruct (f a); simpl; now rewrite IH.
Qed.

Lemma str_in_true (x : string) (l : list string) : str_in x l = true <-> x ∈ l.
Proof. unfold str_in. apply bool_decide_eq_true. Qed.

Lemma str_in_false (x : string) (l : list string) : str_in x l = false <-> x ∉ l.
Proof. unfold str_in. apply bool_decide_eq_false. Qed.

(** A valid group name selects a column of the catalog. *)
Lemma id_column_valid (groupname : string) :
  groupname ∈ list_validgroups ->
  exists col, id_column groupname = Ok col /\ forall row, ids_of groupname row = col row.
Proof.
  unfold list_validgroups. intros H.
  repeat (apply elem_of_cons in H; destruct H as [->|H]);
    [eexists; split; [reflexivity | intros; reflexivity] ..|].
  now apply elem_of_nil in H.
Qed.

Lemma check_single_valid (groupname : string) :
  groupname ∈ list_validgroups -> _check_ssc_groups_valid (OneName groupname) = Ok tt.
Proof.
  intros H. unfold _check_ssc_groups_valid. simpl.
  apply str_in_true in H. now rewrite H.
Qed.

Lemma check_single_invalid (groupname : string) :
  groupname ∉ list_validgroups ->
  _check_ssc_groups_valid (OneName groupname) = Raise ValueError.
Proof.
  intros H. unfold _check_ssc_groups_valid. simpl.
  apply str_in_false in H. now rewrite H.
Qed.

Lemma check_groupnames_valid (groups : list string) :
  Forall (fun g => g ∈ list_validgroups) groups -> check_groupnames groups = Ok tt.
Proof.
  induction 1 as [|g groups Hg _ IH]; simpl; [reflexivity|].
  apply str_in_true in Hg. now rewrite Hg.
Qed.

Lemma check_groupnames_invalid (groups : list string) :
  ~ Forall (fun g => g ∈ list_validgroups) groups ->
  check_groupnames groups = Raise ValueError.
Proof.
  induction groups as [|g groups IH]; simpl; intros H.
  - exfalso. apply H. constructor.
  - destruct (str_in g list_validgroups) eqn:E; [|reflexivity].
    apply IH. intros HF. apply H. constructor; [now apply str_in_true | exact HF].
Qed.

(** The lookup of the columns for the message of the second
    [ValueError] fails: the catalog has no column [name]. *)
Lemma loc_rows_columns_message (mask : list bool) (groupname : string)
    (catalog : list ssc_row) :
  loc_rows_columns mask ["name"; "country"; "geo:lat"; "geo:lon"; groupname] catalog
  = Raise KeyError.
Proof. reflexivity. Qed.

(** The run of [ssc_sscid_from_otherid] for a valid group name, by the
    rows that list the identifier. *)
Lemma ssc_sscid_from_otherid_run
    (ssc_catalog_pd : list ssc_row) (group_id : pyval) (groupname : string) :
  groupname ∈ list_validgroups ->
  ssc_sscid_from_otherid ssc_catalog_pd group_id groupname
  = let found := List.filter (fun row => str_in (str group_id) (ids_of groupname row))
                             ssc_catalog_pd in
    if (length found <? 1)%nat then Raise ValueError
    else if (1 <? length found)%nat then Raise KeyError
    else match found with
         | row :: _ => Ok (label row)
         | [] => Raise IndexError
         end.
Proof.
  intros Hval.
  destruct (id_column_valid groupname Hval) as [col [Hcol Hids]].
  unfold ssc_sscid_from_otherid.
  rewrite (check_single_valid groupname Hval). simpl. rewrite Hcol. simpl.
  rewrite count_true_map, select_map_filter.
  assert (E : List.filter (fun row => str_in (str group_id) (col row)) ssc_catalog_pd
              = List.filter (fun row => str_in (str group_id) (ids_of groupname row))
                            ssc_catalog_pd).
  { apply filter_ext. intros row. now rewrite Hids. }
  rewrite E.
  destruct (length _ <? 1)%nat; [reflexivity|].
  destruct (1 <? length _)%nat; reflexivity.
Qed.

(** C3. When more than one row lists the identifier in the group,
    [ssc_sscid_from_otherid] raises [KeyError], not the [ValueError] it
    is about to raise: the message is built from the columns [name],
    [geo:lat] and [geo:lon], which [ssc_ssh_read_catalog] has renamed or
    dropped. So it is for the UHSLC identifier 347 in the sample
    catalog, where two stations list it. The other cases are as
    intended: [ValueError] for a group name outside the five valid
    ones and when no row lists the identifier, and the index label of
    the row when exactly one row does. *)
Theorem ssc_sscid_from_otherid_cases :
  ssc_sscid_from_otherid ssc_sample (PyInt 347) "uhslc" = Raise KeyError /\
  forall (ssc_catalog_pd : list ssc_row) (group_id : pyval) (groupname : string),
    let found := List.filter (fun row => str_in (str group_id) (ids_of groupname row))
                             ssc_catalog_pd in
    (groupname ∉ ["psmsl"; "ioc"; "ptwc"; "gloss"; "uhslc"] ->
     ssc_sscid_from_otherid ssc_catalog_pd group_id groupname = Raise ValueError) /\
    (groupname ∈ ["psmsl"; "ioc"; "ptwc"; "gloss"; "uhslc"] ->
     (found = [] ->
      ssc_sscid_from_otherid ssc_catalog_pd group_id groupname = Raise ValueError) /\
     ((1 < length found)%nat ->
      ssc_sscid_from_otherid ssc_catalog_pd group_id groupname = Raise KeyError) /\
     (forall row, found = [row] ->
      ssc_sscid_from_otherid ssc_catalog_pd group_id groupname = Ok (label row))).
Proof.
  split; [vm_compute; reflexivity|].
  intros ssc_catalog_pd group_id groupname found. split.
  - intros Hinv. unfold ssc_sscid_from_otherid.
    now rewrite (check_single_invalid groupname Hinv).
  - intros Hval.
    rewrite (ssc_sscid_from_otherid_run ssc_catalog_pd group_id groupname Hval).
    fold found. cbv zeta. split; [|split].
    + intros ->. reflexivity.
    + intros Hlen.
      destruct (Nat.ltb_spec (length found) 1); [lia|].
      destruct (Nat.ltb_spec 1 (length found)); [reflexivity | lia].
    + intros row ->. reflexivity.
Qed.

Example sscid_from_uhslc_347 :
  List.filter (fun row => str_in "347" (uhslc row)) ssc_sample = [ssc_abas; ssc_abur] /\
  ssc_sscid_from_otherid ssc_sample (PyInt 2219) "psmsl" = Ok "SSC-abas" /\
  ssc_sscid_from_otherid ssc_sample (PyStr "abur") "ioc" = Ok "SSC-abur" /\
  ssc_sscid_from_otherid ssc_sample (PyStr "abur") "sonel_gps" = Raise ValueError /\
  ssc_sscid_from_otherid ssc_sample (PyStr "nope") "ioc" = Raise ValueError.
Proof. repeat split; vm_compute; reflexivity. Qed.

Lemma mapM_id_column_valid (groups : list string) :
  Forall (fun g => g ∈ list_validgroups) groups ->
  exists cols, mapM_result id_column groups = Ok cols /\
               forall row, ids_in_columns cols row
                           = foldr (fun g acc => (length (ids_of g row) + acc)%nat) 0%nat groups.
Proof.
  induction 1 as [|g groups Hg _ [cols [Hcols Hsum]]]; simpl.
  - exists []. split; [reflexivity | intros; reflexivity].
  - destruct (id_column_valid g Hg) as [col [Hcol Hids]].
    exists (col :: cols). rewrite Hcol. simpl. rewrite Hcols. simpl.
    split; [reflexivity|]. intros row. simpl. now rewrite Hsum, Hids.
Qed.

Lemma sum_lengths_zero (groups : list string) (row : ssc_row) :
  negb (foldr (fun g acc => (length (ids_of g row) + acc)%nat) 0%nat groups =? 0)%nat
  = existsb (fun g => negb (length (ids_of g row) =? 0)%nat) groups.
Proof.
  induction groups as [|g groups IH]; simpl; [reflexivity|].
  rewrite <- IH.
  destruct (length (ids_of g row)); simpl; [reflexivity|reflexivity].
Qed.

(** C7. For valid group names [ssc_ssh_subset_groups] returns the rows,
    in catalog order, that have an identifier in one of the requested
    groups; a group name outside the five valid ones raises
    [ValueError]. *)
Theorem ssc_ssh_subset_groups_exact
    (read_catalog : list ssc_row) (groups : names) (ssc_catalog_gpd : option (list ssc_row)) :
  let catalog := match ssc_catalog_gpd with None => read_catalog | Some c => c end in
  let has_id row := existsb (fun g => negb (length (ids_of g row) =? 0)%nat) (as_list groups) in
  (Forall (fun g => g ∈ ["psmsl"; "ioc"; "ptwc"; "gloss"; "uhslc"]) (as_list groups) ->
   ssc_ssh_subset_groups read_catalog groups ssc_catalog_gpd
   = Ok (List.filter has_id catalog)) /\
  (~ Forall (fun g => g ∈ ["psmsl"; "ioc"; "ptwc"; "gloss"; "uhslc"]) (as_list groups) ->
   ssc_ssh_subset_groups read_catalog groups ssc_catalog_gpd = Raise ValueError).
Proof.
  intros catalog has_id. unfold ssc_ssh_subset_groups, _check_ssc_groups_valid.
  fold catalog. simpl as_list. split.
  - intros Hval. rewrite (check_groupnames_valid _ Hval). simpl.
    destruct (mapM_id_column_valid _ Hval) as [cols [-> Hsum]]. simpl.
    f_equal. rewrite <- select_map_filter. f_equal.
    apply map_ext. intros row. unfold has_id.
    now rewrite Hsum, sum_lengths_zero.
  - intros Hinv. now rewrite (check_groupnames_invalid _ Hinv).
Qed.

Example subset_groups_sample :
  ssc_ssh_subset_groups [] (NameList ["gloss"; "psmsl"]) (Some ssc_sample)
  = Ok [ssc_abas; ssc_acaj] /\
  ssc_ssh_subset_groups [] (OneName "uhslc") (Some ssc_sample) = Ok [ssc_abas; ssc_abur] /\
  ssc_ssh_subset_groups [] (NameList []) (Some ssc_sample) = Ok [] /\
  ssc_ssh_subset_groups [] (NameList ["ioc"; "sonel_tg"]) (Some ssc_sample)
  = Raise ValueError.
Proof. repeat split; vm_compute; reflexivity. Qed.

End SscProps.

(** *** Linked stations *)

Section LinkedProps.
Import Geo Ssc.
Local Open Scope R_scope.

Lemma dist_euclid (p q : Point) : dist (x p) (y p) (x q) (y q) = euclid p q.
Proof.
  unfold dist, euclid. f_equal.
  rewrite Q2R_plus. simpl Qpower.
  rewrite !Q2R_mult, !Q2R_minus. ring.
Qed.

Lemma fold_left_Rmin_le (l : list R) (d : R) : fold_left Rmin l d <= d.
Proof.
  revert d. induction l as [|e l IH]; intros d; simpl; [apply Rle_refl|].
  eapply Rle_trans; [apply IH | apply Rmin_l].
Qed.

Lemma fold_left_Rmin_lower (l : list R) (d e : R) :
  In e (d :: l) -> fold_left Rmin l d <= e.
Proof.
  revert d. induction l as [|e' l IH]; intros d [->|H]; simpl.
  - apply Rle_refl.
  - destruct H.
  - eapply Rle_trans; [apply fold_left_Rmin_le | apply Rmin_l].
  - destruct H as [->|H].
    + eapply Rle_trans; [apply fold_left_Rmin_le | apply Rmin_r].
    + apply IH. now right.
Qed.

Lemma fold_left_Rmin_In (l : list R) (d : R) : In (fold_left Rmin l d) (d :: l).
Proof.
  revert d. induction l as [|e l IH]; intros d; simpl; [now left|].
  destruct (IH (Rmin d e)) as [H|H]; [|now right; right].
  rewrite <- H. unfold Rmin. destruct (Rle_dec d e); [now left | now right; left].
Qed.

Lemma fold_left_Rmax_ge (l : list R) (d : R) : d <= fold_left Rmax l d.
Proof.
  revert d. induction l as [|e l IH]; intros d; simpl; [apply Rle_refl|].
  eapply Rle_trans; [apply Rmax_l | apply IH].
Qed.

Lemma fold_left_Rmax_upper (l : list R) (d e : R) :
  In e (d :: l) -> e <= fold_left Rmax l d.
Proof.
  revert d. induction l as [|e' l IH]; intros d [->|H]; simpl.
  - apply Rle_refl.
  - destruct H.
  - eapply Rle_trans; [apply Rmax_l | apply fold_left_Rmax_ge].
  - destruct H as [->|H].
    + eapply Rle_trans; [apply Rmax_r | apply fold_left_Rmax_ge].
    + apply IH. now right.
Qed.

Lemma fold_left_Rmax_In (l : list R) (d : R) : In (fold_left Rmax l d) (d :: l).
Proof.
  revert d. induction l as [|e l IH]; intros d; simpl; [now left|].
  destruct (IH (Rmax d e)) as [H|H]; [|now right; right].
  rewrite <- H. unfold Rmax. destruct (Rle_dec d e); [now right; left | now left].
Qed.

(** A successful lookup finds the one row with that label. *)
Lemma loc_geometry_Ok (linked_gpd : linked_index) (linked_id : string) (geom : Point) :
  loc_geometry linked_gpd linked_id = Ok geom ->
  In (linked_id, geom) linked_gpd /\
  forall geom', In (linked_id, geom') linked_gpd -> geom' = geom.
Proof.
  unfold loc_geometry. intros H.
  destruct (List.filter _ linked_gpd) as [|[k g] [|]] eqn:E; try discriminate H.
  injection H as <-.
  assert (Hin : forall r, In r (List.filter (fun r => String.eqb (fst r) linked_id) linked_gpd)
                          <-> r = (k, g)).
  { intros r. rewrite E. simpl. split; [intros [<-|[]]; reflexivity | intros ->; now left]. }
  assert (Hk : k = linked_id).
  { pose proof (proj2 (Hin (k, g)) eq_refl) as Hk.
    apply filter_In in Hk as [_ Hk].
    simpl in Hk. apply String.eqb_eq in Hk. exact Hk. }
  subst k. split.
  - pose proof (proj2 (Hin (linked_id, g)) eq_refl) as Hg.
    now apply filter_In in Hg as [? _].
  - intros g' Hg'.
    assert (X : (linked_id, g') = (linked_id, g)).
    { apply Hin. apply filter_In. split; [exact Hg'|]. simpl. apply String.eqb_refl. }
    congruence.
Qed.

Lemma link_ids_spec (x1 y1 : Q) (linked_name : string) (linked_gpd : linked_index)
    (ids : list string) (acc acc' : check_state) :
  foldM (link_one x1 y1 linked_name linked_gpd) acc ids = Ok acc' ->
  exists geoms,
    Forall2 (fun linked_id g => loc_geometry linked_gpd (lower linked_id) = Ok g) ids geoms /\
    snd acc' = (snd acc ++ map (fun g => dist x1 y1 (x g) (y g)) geoms)%list /\
    (fst acc' = ∅ <-> fst acc = ∅ /\ ids = []).
Proof.
  revert acc. induction ids as [|linked_id ids IH]; intros acc H; simpl in H.
  - injection H as <-. exists []. split; [constructor|]. split.
    + simpl. now rewrite app_nil_r.
    + tauto.
  - apply bind_Ok_inv in H as [acc1 [Hone H]].
    unfold link_one in Hone.
    apply bind_Ok_inv in Hone as [geom [Hloc Hone]]. injection Hone as <-.
    apply IH in H. destruct H as [geoms [HF [Hsnd Hfst]]].
    exists (geom :: geoms). split; [constructor; assumption|]. split.
    + rewrite Hsnd. simpl. now rewrite <- app_assoc.
    + rewrite Hfst. simpl. split.
      * intros [Hne _]. exfalso. exact (insert_non_empty _ _ _ Hne).
      * intros [_ Hnil]. discriminate Hnil.
Qed.

Lemma Forall2_loc_In (linked_gpd : linked_index) (ids : list string) (geoms : list Point) :
  Forall2 (fun linked_id g => loc_geometry linked_gpd (lower linked_id) = Ok g) ids geoms ->
  (forall g, In g geoms ->
     exists linked_id, In linked_id ids /\ In (lower linked_id, g) linked_gpd) /\
  (forall linked_id g, In linked_id ids -> In (lower linked_id, g) linked_gpd -> In g geoms).
Proof.
  induction 1 as [|linked_id g ids geoms Hloc _ [IH1 IH2]]; split.
  - intros g [].
  - intros ? ? [].
  - intros g' [<-|Hg'].
    + exists linked_id. split; [now left | now apply loc_geometry_Ok].
    + destruct (IH1 g' Hg') as [i [Hi Hin]]. exists i. split; [now right | exact Hin].
  - intros i g' [<-|Hi] Hin.
    + left. symmetry. now apply (proj2 (loc_geometry_Ok _ _ _ Hloc)).
    + right. now apply (IH2 i).
Qed.

(** What is computed for one station. *)
Lemma station_links_spec (uhslc_catalog_gpd : uhslc_gdf) (ioc_catalog_gpd : list ioc_row)
    (row : ssc_row) (links : option (gmap string (Q * Q * R) * R * R)) :
  let linked_dict := linked_catalogs uhslc_catalog_gpd ioc_catalog_gpd in
  station_links linked_dict row = Ok links ->
  (ioc row = [] /\ uhslc row = [] -> links = None) /\
  ((ioc row ++ uhslc row)%list <> [] ->
   exists d dmin dmax,
     links = Some (d, dmin, dmax) /\
     (exists g, linked_station linked_dict row g /\ dmin = euclid (geometry row) g) /\
     (exists g, linked_station linked_dict row g /\ dmax = euclid (geometry row) g) /\
     (forall g, linked_station linked_dict row g ->
                dmin <= euclid (geometry row) g /\ euclid (geometry row) g <= dmax)).
Proof.
  intros linked_dict. unfold station_links, linked_dict, linked_catalogs.
  set (x1 := x (geometry row)). set (y1 := y (geometry row)).
  set (gi := ioc_linked ioc_catalog_gpd). set (gu := uhslc_linked uhslc_catalog_gpd).
  intros H.
  apply bind_Ok_inv in H as [[d l] [Hfold H]].
  simpl in Hfold.
  apply bind_Ok_inv in Hfold as [acc1 [Hi Hfold]].
  apply bind_Ok_inv in Hfold as [acc2 [Hu Hfold]].
  injection Hfold as ->.
  change (foldM (link_one x1 y1 "ioc" gi) (∅, []) (ioc row) = Ok acc1) in Hi.
  change (foldM (link_one x1 y1 "uhslc" gu) acc1 (uhslc row) = Ok (d, l)) in Hu.
  apply link_ids_spec in Hi as [geoms_i [HFi [Hli Hdi]]].
  apply link_ids_spec in Hu as [geoms_u [HFu [Hlu Hdu]]].
  simpl in Hli, Hlu, Hdi, Hdu. rewrite Hli in Hlu.
  assert (Hempty : d = ∅ <-> ioc row = [] /\ uhslc row = []).
  { rewrite Hdu, Hdi. tauto. }
  assert (Hl : l = map (fun g => euclid (geometry row) g) (geoms_i ++ geoms_u)).
  { rewrite Hlu, map_app.
    f_equal; apply map_ext; intros g; apply (dist_euclid (geometry row) g). }
  destruct (Forall2_loc_In _ _ _ HFi) as [Hi1 Hi2].
  destruct (Forall2_loc_In _ _ _ HFu) as [Hu1 Hu2].
  assert (Hst : forall g, linked_station
                            [("ioc", gi); ("uhslc", gu)] row g <-> In g (geoms_i ++ geoms_u)).
  { intros g. rewrite in_app_iff. split.
    - intros [name [gpd [i [Hd [Hid Hin]]]]].
      destruct Hd as [Hd|[Hd|[]]]; injection Hd as <- <-.
      + left. now apply (Hi2 i).
      + right. now apply (Hu2 i).
    - intros [Hg|Hg].
      + destruct (Hi1 g Hg) as [i [Hid Hin]].
        exists "ioc", gi, i. split; [now left | split; assumption].
      + destruct (Hu1 g Hg) as [i [Hid Hin]].
        exists "uhslc", gu, i. split; [now right; left | split; assumption]. }
  case_bool_decide as Hd.
  - injection H as <-. split; [reflexivity|].
    intros Hne. exfalso. apply Hne. apply Hempty in Hd as [-> ->]. reflexivity.
  - split.
    { intros Hnil. exfalso. apply Hd. now apply Hempty. }
    intros _.
    destruct l as [|d0 l0].
    { exfalso. apply Hd, Hempty.
      symmetry in Hl. apply map_eq_nil in Hl. apply app_eq_nil in Hl as [Ei Eu].
      subst geoms_i geoms_u. inversion HFi. inversion HFu. split; reflexivity. }
    simpl in H. injection H as <-.
    exists d, (fold_left Rmin l0 d0), (fold_left Rmax l0 d0).
    split; [reflexivity|].
    assert (In_l : forall e, In e (d0 :: l0) <->
                             exists g, In g (geoms_i ++ geoms_u) /\ e = euclid (geometry row) g).
    { intros e. rewrite Hl, in_map_iff. split; intros [g [? ?]]; exists g; split; auto. }
    split; [|split].
    + destruct (proj1 (In_l _) (fold_left_Rmin_In l0 d0)) as [g [Hg E]].
      exists g. split; [now apply Hst | exact E].
    + destruct (proj1 (In_l _) (fold_left_Rmax_In l0 d0)) as [g [Hg E]].
      exists g. split; [now apply Hst | exact E].
    + intros g Hg. apply Hst in Hg.
      assert (Hin : In (euclid (geometry row) g) (d0 :: l0))
        by (apply In_l; exists g; split; [exact Hg | reflexivity]).
      split; [now apply fold_left_Rmin_lower | now apply fold_left_Rmax_upper].
Qed.

Lemma label_apply_links (lbl : string) links (r : ssc_row) :
  label (apply_links lbl links r) = label r.
Proof.
  unfold apply_links. destruct links as [[[d dmin] dmax]|]; [|reflexivity].
  destruct (String.eqb (label r) lbl); reflexivity.
Qed.

Lemma labels_apply_links (lbl : string) links (catalog : list ssc_row) :
  map label (map (apply_links lbl links) catalog) = map label catalog.
Proof. rewrite map_map. apply map_ext. intros r. apply label_apply_links. Qed.

(** With distinct index labels at most one row has a given label. *)
Lemma filter_label_NoDup (catalog : list ssc_row) (lbl : string) :
  NoDup (map label catalog) ->
  (length (List.filter (fun r => String.eqb (label r) lbl) catalog) <= 1)%nat.
Proof.
  induction catalog as [|r l IH]; simpl; intros Hnd; [lia|].
  apply NoDup_cons in Hnd as [Hfresh Hnd].
  destruct (String.eqb_spec (label r) lbl) as [E|]; [|now apply IH].
  simpl.
  destruct (List.filter _ l) as [|r' rest] eqn:F; [simpl; lia|].
  exfalso. apply Hfresh.
  assert (Hin : In r' (List.filter (fun r => String.eqb (label r) lbl) l))
    by (rewrite F; now left).
  apply filter_In in Hin as [Hin Hk]. apply String.eqb_eq in Hk.
  apply list_elem_of_In. apply in_map_iff. exists r'. split; [congruence | exact Hin].
Qed.

(** A step of the loop that returns has set the cells of the rows with
    the label of the station. *)
Lemma add_linked_row_Ok (linked_dict : list (string * linked_index))
    (catalog cat1 : list ssc_row) (row : ssc_row) :
  add_linked_row linked_dict catalog row = Ok cat1 ->
  exists links, station_links linked_dict row = Ok links /\
                cat1 = map (apply_links (label row) links) catalog.
Proof.
  unfold add_linked_row, station_links.
  destruct (foldM _ _ linked_dict) as [[d l]|e]; simpl; [|discriminate].
  case_bool_decide as Hd.
  - intros H. injection H as <-. exists None. split; [reflexivity|].
    simpl. now rewrite map_id.
  - destruct (np_min l) as [dmin|]; simpl; [|discriminate].
    destruct (np_max l) as [dmax|]; simpl; [|discriminate].
    unfold set_dist. destruct (1 <? _)%nat; [discriminate|].
    intros H. injection H as <-. exists (Some (d, dmin, dmax)). split; reflexivity.
Qed.

(** With distinct index labels a step of the loop fails only where the
    links of the station fail. *)
Lemma add_linked_row_links (linked_dict : list (string * linked_index))
    (catalog : list ssc_row) (row : ssc_row) :
  NoDup (map label catalog) ->
  add_linked_row linked_dict catalog row
  = links ← station_links linked_dict row;
    Ok (map (apply_links (label row) links) catalog).
Proof.
  intros Hnd. unfold add_linked_row, station_links.
  destruct (foldM _ _ linked_dict) as [[d l]|e]; simpl; [|reflexivity].
  case_bool_decide.
  - simpl. now rewrite map_id.
  - destruct (np_min l); simpl; [|reflexivity].
    destruct (np_max l); simpl; [|reflexivity].
    unfold set_dist.
    pose proof (filter_label_NoDup catalog (label row) Hnd) as Hlen.
    destruct (Nat.ltb_spec 1 (length (List.filter (fun r => String.eqb (label r) (label row))
                                                  catalog))); [lia | reflexivity].
Qed.

Lemma add_linked_loop (linked_dict : list (string * linked_index))
    (rows cur cat' : list ssc_row) :
  foldM (add_linked_row linked_dict) cur rows = Ok cat' ->
  exists linkss,
    Forall2 (fun row links => station_links linked_dict row = Ok links) rows linkss /\
    cat' = map (apply_all (combine rows linkss)) cur.
Proof.
  revert cur. induction rows as [|row rows IH]; intros cur H; simpl in H.
  - injection H as <-. exists []. split; [constructor|].
    unfold apply_all. simpl. now rewrite map_id.
  - apply bind_Ok_inv in H as [cat1 [Hrow H]].
    apply add_linked_row_Ok in Hrow as [links [Hlinks ->]].
    apply IH in H as [linkss [HF ->]].
    exists (links :: linkss). split; [constructor; assumption|].
    rewrite map_map. reflexivity.
Qed.

Lemma apply_all_other (steps : list (ssc_row * option (gmap string (Q * Q * R) * R * R)))
    (r : ssc_row) :
  ~ In (label r) (map (fun p => label (fst p)) steps) -> apply_all steps r = r.
Proof.
  unfold apply_all. revert r.
  induction steps as [|[row links] steps IH]; intros r Hr; simpl; [reflexivity|].
  simpl in Hr.
  assert (E : apply_links (label row) links r = r).
  { unfold apply_links. destruct links as [[[d dmin] dmax]|]; [|reflexivity].
    destruct (String.eqb_spec (label r) (label row)) as [Heq|]; [|reflexivity].
    exfalso. apply Hr. left. now symmetry. }
  rewrite E. apply IH. intros Hin. apply Hr. now right.
Qed.

Lemma combine_labels (rows : list ssc_row)
    (linkss : list (option (gmap string (Q * Q * R) * R * R))) :
  length rows = length linkss ->
  map (fun p => label (fst p)) (combine rows linkss) = map label rows.
Proof.
  revert linkss. induction rows as [|r rows IH]; intros [|l linkss] H;
    simpl in *; try discriminate; [reflexivity|].
  f_equal. apply IH. lia.
Qed.

(** With distinct index labels a row is changed by its own step only. *)
Lemma apply_all_own (rows : list ssc_row)
    (linkss : list (option (gmap string (Q * Q * R) * R * R))) (r : ssc_row) :
  NoDup (map label rows) ->
  length rows = length linkss ->
  In r rows ->
  exists links, In (r, links) (combine rows linkss) /\
                apply_all (combine rows linkss) r = apply_links (label r) links r.
Proof.
  revert linkss. induction rows as [|r0 rows IH]; intros [|l linkss] Hnd Hlen Hin;
    simpl in *; try discriminate; try contradiction.
  apply NoDup_cons in Hnd as [Hfresh Hnd].
  assert (Hlen' : length rows = length linkss) by lia.
  destruct Hin as [->|Hin].
  - exists l. split; [now left|].
    unfold apply_all. simpl. apply apply_all_other.
    rewrite label_apply_links, (combine_labels _ _ Hlen').
    intros H. apply Hfresh. now apply list_elem_of_In.
  - destruct (IH linkss Hnd Hlen' Hin) as [links [Hc Ha]].
    exists links. split; [now right|].
    unfold apply_all. simpl.
    assert (E : apply_links (label r0) l r = r).
    { unfold apply_links. destruct l as [[[d dmin] dmax]|]; [|reflexivity].
      destruct (String.eqb_spec (label r) (label r0)) as [Heq|]; [|reflexivity].
      exfalso. apply Hfresh. rewrite <- Heq. apply list_elem_of_In.
      now apply in_map. }
    rewrite E. exact Ha.
Qed.

Lemma Forall2_combine_In {A B : Type} (P : A -> B -> Prop) (l : list A) (k : list B) a b :
  Forall2 P l k -> In (a, b) (combine l k) -> P a b.
Proof.
  induction 1 as [|a0 b0 l k H0 _ IH]; simpl; [intros []|].
  intros [E|Hin]; [injection E as <- <-; exact H0 | now apply IH].
Qed.

Lemma Forall2_map_r_In {A B : Type} (P : A -> B -> Prop) (f : A -> B) (l : list A) :
  (forall a, In a l -> P a (f a)) -> Forall2 P l (map f l).
Proof.
  induction l as [|a l IH]; intros H; simpl; constructor.
  - apply H. now left.
  - apply IH. intros a' Ha'. apply H. now right.
Qed.

(** C2. With distinct index labels, when [ssc_add_linked_stations]
    returns, every station with a linked IOC or UHSLC identifier has
    [dist_min] and [dist_max] set to the least and the greatest
    Euclidean distance to its linked stations, so [dist_min <= dist_max];
    a station without linked identifiers is returned as it was. *)
Theorem ssc_add_linked_stations_dist
    (uhslc_meta : uhslc_gdf) (ioc_service : string -> http_response)
    (ssc_catalog_gpd catalog' : list ssc_row) :
  NoDup (map label ssc_catalog_gpd) ->
  ssc_add_linked_stations uhslc_meta ioc_service ssc_catalog_gpd = Ok catalog' ->
  exists ioc_catalog_gpd,
    _ioc_get_json (ioc_service "all") = Ok ioc_catalog_gpd /\
    let linked_dict := linked_catalogs (_uhslc_get_json uhslc_meta) ioc_catalog_gpd in
    Forall2
      (fun row row' =>
         (ioc row = [] /\ uhslc row = [] -> row' = row) /\
         ((ioc row ++ uhslc row)%list <> [] ->
          exists d dmin dmax,
            row' = with_dist d dmin dmax row /\
            dist_min row' = Some dmin /\ dist_max row' = Some dmax /\
            (exists g, linked_station linked_dict row g /\ dmin = euclid (geometry row) g) /\
            (exists g, linked_station linked_dict row g /\ dmax = euclid (geometry row) g) /\
            (forall g, linked_station linked_dict row g ->
                       dmin <= euclid (geometry row) g /\ euclid (geometry row) g <= dmax) /\
            dmin <= dmax))
      ssc_catalog_gpd catalog'.
Proof.
  intros Hnd Hrun. unfold ssc_add_linked_stations in Hrun.
  apply bind_Ok_inv in Hrun as [ioc_catalog_gpd [Hioc Hrun]].
  exists ioc_catalog_gpd. split; [exact Hioc|]. intros linked_dict.
  apply add_linked_loop in Hrun as [linkss [HF ->]].
  pose proof (Forall2_length _ _ _ HF) as Hlen.
  apply Forall2_map_r_In. intros row Hrow.
  destruct (apply_all_own _ _ row Hnd Hlen Hrow) as [links [Hc ->]].
  pose proof (Forall2_combine_In _ _ _ _ _ HF Hc) as Hlinks. simpl in Hlinks.
  apply station_links_spec in Hlinks as [Hnone Hsome].
  split.
  - intros Hnil. now rewrite (Hnone Hnil).
  - intros Hne. destruct (Hsome Hne) as [d [dmin [dmax [-> [Hmin [Hmax Hall]]]]]].
    exists d, dmin, dmax. unfold apply_links. rewrite String.eqb_refl.
    split; [reflexivity|]. split; [reflexivity|]. split; [reflexivity|].
    split; [exact Hmin|]. split; [exact Hmax|]. split; [exact Hall|].
    destruct Hmin as [g [Hg _]]. destruct (Hall g Hg). eapply Rle_trans; eassumption.
Qed.

(** *** The run returns when every linked identifier is found once *)

Lemma link_ids_total (x1 y1 : Q) (linked_name : string) (linked_gpd : linked_index)
    (ids : list string) (acc : check_state) :
  (forall linked_id, In linked_id ids ->
     exists g, loc_geometry linked_gpd (lower linked_id) = Ok g) ->
  exists acc', foldM (link_one x1 y1 linked_name linked_gpd) acc ids = Ok acc'.
Proof.
  revert acc. induction ids as [|linked_id ids IH]; intros acc Hall; simpl.
  - exists acc. reflexivity.
  - destruct (Hall linked_id (or_introl eq_refl)) as [g Hg].
    assert (Hone : exists acc1, link_one x1 y1 linked_name linked_gpd acc linked_id = Ok acc1)
      by (unfold link_one; rewrite Hg; simpl; eauto).
    destruct Hone as [acc1 ->]. simpl.
    apply IH. intros i Hi. apply Hall. now right.
Qed.

Lemma station_links_total (uhslc_catalog_gpd : uhslc_gdf) (ioc_catalog_gpd : list ioc_row)
    (row : ssc_row) :
  (forall linked_id, In linked_id (ioc row) ->
     exists g, loc_geometry (ioc_linked ioc_catalog_gpd) (lower linked_id) = Ok g) ->
  (forall linked_id, In linked_id (uhslc row) ->
     exists g, loc_geometry (uhslc_linked uhslc_catalog_gpd) (lower linked_id) = Ok g) ->
  exists links,
    station_links (linked_catalogs uhslc_catalog_gpd ioc_catalog_gpd) row = Ok links.
Proof.
  intros Hi Hu. unfold station_links, linked_catalogs. simpl.
  set (x1 := x (geometry row)). set (y1 := y (geometry row)).
  destruct (link_ids_total x1 y1 "ioc" _ (ioc row) (∅, []) Hi) as [acc1 H1].
  destruct (link_ids_total x1 y1 "uhslc" _ (uhslc row) acc1 Hu) as [[d l] H2].
  change (link_catalog x1 y1 row (∅, []) ("ioc", ioc_linked ioc_catalog_gpd))
    with (foldM (link_one x1 y1 "ioc" (ioc_linked ioc_catalog_gpd)) (∅, []) (ioc row)).
  rewrite H1. simpl.
  change (link_catalog x1 y1 row acc1 ("uhslc", uhslc_linked uhslc_catalog_gpd))
    with (foldM (link_one x1 y1 "uhslc" (uhslc_linked uhslc_catalog_gpd)) acc1 (uhslc row)).
  rewrite H2. simpl.
  case_bool_decide as Hd; [eexists; reflexivity|].
  apply link_ids_spec in H1 as [geoms_i [HFi [Hli Hdi]]].
  apply link_ids_spec in H2 as [geoms_u [HFu [Hlu Hdu]]].
  simpl in Hli, Hlu, Hdi, Hdu.
  destruct l as [|d0 l0]; [|simpl; eexists; reflexivity].
  exfalso. apply Hd. apply Hdu.
  rewrite Hli in Hlu. simpl in Hlu. symmetry in Hlu.
  apply app_eq_nil in Hlu as [Ei Eu].
  apply map_eq_nil in Ei, Eu. subst geoms_i geoms_u.
  inversion HFi as [Eioc|]. inversion HFu as [Euh|].
  split; [|reflexivity]. apply Hdi. split; [reflexivity | now symmetry].
Qed.

Lemma add_linked_loop_total (linked_dict : list (string * linked_index))
    (rows cur : list ssc_row) :
  NoDup (map label cur) ->
  (forall row, In row rows -> exists links, station_links linked_dict row = Ok links) ->
  exists cat', foldM (add_linked_row linked_dict) cur rows = Ok cat'.
Proof.
  revert cur. induction rows as [|row rows IH]; intros cur Hnd Hall; simpl.
  - exists cur. reflexivity.
  - destruct (Hall row (or_introl eq_refl)) as [links Hl].
    rewrite (add_linked_row_links _ _ _ Hnd), Hl. simpl.
    apply IH; [now rewrite labels_apply_links|].
    intros r Hr. apply Hall. now right.
Qed.

(** [ssc_add_linked_stations] returns when the index labels are
    distinct, the station list is served and every linked identifier
    occurs once in its linked catalog. *)
Lemma ssc_add_linked_stations_returns
    (uhslc_meta : uhslc_gdf) (ioc_service : string -> http_response)
    (ssc_catalog_gpd : list ssc_row) :
  NoDup (map label ssc_catalog_gpd) ->
  status_code (ioc_service "all") <> 404%Z ->
  (forall ioc_catalog_gpd row linked_id,
     _ioc_get_json (ioc_service "all") = Ok ioc_catalog_gpd ->
     In row ssc_catalog_gpd ->
     (In linked_id (ioc row) ->
      exists g, loc_geometry (ioc_linked ioc_catalog_gpd) (lower linked_id) = Ok g) /\
     (In linked_id (uhslc row) ->
      exists g, loc_geometry (uhslc_linked (_uhslc_get_json uhslc_meta)) (lower linked_id)
                = Ok g)) ->
  exists catalog', ssc_add_linked_stations uhslc_meta ioc_service ssc_catalog_gpd = Ok catalog'.
Proof.
  intros Hnd Hstatus Hall. unfold ssc_add_linked_stations.
  assert (Hj : exists c, _ioc_get_json (ioc_service "all") = Ok c).
  { unfold _ioc_get_json. apply Z.eqb_neq in Hstatus. rewrite Hstatus. eauto. }
  destruct Hj as [c Hc]. rewrite Hc. simpl.
  apply add_linked_loop_total; [exact Hnd|]. intros row Hrow.
  apply station_links_total; intros i Hi; now apply (Hall c row i Hc Hrow).
Qed.

Lemma ssc_sample_labels : NoDup (map label ssc_sample).
Proof. apply (bool_decide_unpack _). vm_compute. exact I. Qed.

(** The property at the sample catalog: two stations with links, one
    without. *)
Lemma ssc_add_linked_stations_dist_witness :
  exists catalog',
    ssc_add_linked_stations uhslc_meta_sample ioc_service_sample ssc_sample = Ok catalog' /\
    exists ioc_catalog_gpd,
      _ioc_get_json (ioc_service_sample "all") = Ok ioc_catalog_gpd /\
      let linked_dict :=
        linked_catalogs (_uhslc_get_json uhslc_meta_sample) ioc_catalog_gpd in
      Forall2
        (fun row row' =>
           (ioc row = [] /\ uhslc row = [] -> row' = row) /\
           ((ioc row ++ uhslc row)%list <> [] ->
            exists d dmin dmax,
              row' = with_dist d dmin dmax row /\
              dist_min row' = Some dmin /\ dist_max row' = Some dmax /\
              (exists g, linked_station linked_dict row g /\ dmin = euclid (geometry row) g) /\
              (exists g, linked_station linked_dict row g /\ dmax = euclid (geometry row) g) /\
              (forall g, linked_station linked_dict row g ->
                         dmin <= euclid (geometry row) g /\ euclid (geometry row) g <= dmax) /\
              dmin <= dmax))
        ssc_sample catalog'.
Proof.
  eexists. split.
  - vm_compute. reflexivity.
  - apply (ssc_add_linked_stations_dist uhslc_meta_sample ioc_service_sample ssc_sample).
    + exact ssc_sample_labels.
    + vm_compute. reflexivity.
Defined.

End LinkedProps.

(** ** The columns of the catalogs *)

Section CatalogProps.
Import Catalog.

Lemma has_app_l (c : string) (l k : list string) :
  str_in c l = true -> str_in c (l ++ k) = true.
Proof.
  unfold str_in. rewrite !bool_decide_eq_true. intros H. apply elem_of_app. now left.
Qed.

Lemma has_setcol_new (c : string) (t : table) : has c (setcol c t) = true.
Proof.
  unfold setcol. destruct (has c t) eqn:E; [exact E|].
  unfold has, str_in. simpl. apply bool_decide_eq_true, elem_of_app.
  right. apply list_elem_of_singleton. reflexivity.
Qed.

Lemma has_setcol_old (c c' : string) (t : table) :
  has c t = true -> has c (setcol c' t) = true.
Proof.
  unfold setcol. intros H. destruct (has c' t); [exact H|].
  unfold has. simpl. now apply has_app_l.
Qed.

Lemma crs_setcol (c : string) (t : table) : crs (setcol c t) = crs t.
Proof. unfold setcol. now destruct (has c t). Qed.

Lemma require_Ok (c : string) (t : table) (u : unit) : require c t = Ok u -> has c t = true.
Proof. unfold require. now destruct (has c t). Qed.

Lemma require_all_Ok (cs : list string) (t : table) (u : unit) :
  require_all cs t = Ok u -> forall c, In c cs -> has c t = true.
Proof.
  induction cs as [|c0 cs IH]; simpl; intros H c; [intros []|].
  apply bind_Ok_inv in H as [u0 [H0 H]].
  intros [<-|Hc]; [now apply require_Ok in H0 | now apply IH].
Qed.

Lemma drop_Ok (cs : list string) (t t' : table) :
  drop cs t = Ok t' ->
  crs t' = crs t /\
  forall c, has c t = true -> str_in c cs = false -> has c t' = true.
Proof.
  unfold drop. intros H. apply bind_Ok_inv in H as [u [_ H]]. injection H as <-.
  split; [reflexivity|]. unfold has, str_in. simpl. intros c Hc Hn.
  apply bool_decide_eq_true in Hc. apply bool_decide_eq_true.
  apply list_elem_of_In, filter_In. split; [now apply list_elem_of_In|].
  unfold str_in. now rewrite Hn.
Qed.

Lemma has_rename_to (d : list (string * string)) (c c' : string) (t : table) :
  has c t = true -> assoc c d = Some c' -> has c' (rename d t) = true.
Proof.
  unfold has, str_in, rename. simpl. rewrite !bool_decide_eq_true. intros H E.
  apply list_elem_of_In, in_map_iff. exists c. rewrite E.
  split; [reflexivity | now apply list_elem_of_In].
Qed.

Lemma has_rename_keep (d : list (string * string)) (c : string) (t : table) :
  has c t = true -> assoc c d = None -> has c (rename d t) = true.
Proof.
  unfold has, str_in, rename. simpl. rewrite !bool_decide_eq_true. intros H E.
  apply list_elem_of_In, in_map_iff. exists c. rewrite E.
  split; [reflexivity | now apply list_elem_of_In].
Qed.

Lemma set_index_Ok (c : string) (t t' : table) :
  set_index c t = Ok t' -> columns t' = columns t /\ crs t' = crs t.
Proof.
  unfold set_index. intros H. apply bind_Ok_inv in H as [u [_ H]].
  injection H as <-. split; reflexivity.
Qed.

Lemma set_index_has (c : string) (t t' : table) :
  set_index c t = Ok t' -> has c t' = true.
Proof.
  unfold set_index. intros H. apply bind_Ok_inv in H as [u [Hr H]].
  injection H as <-. now apply require_Ok in Hr.
Qed.

Lemma drop_if_present_keeps (c d : string) (cols : list string) :
  str_in c cols = true -> String.eqb c d = false ->
  str_in c (Geo.drop_if_present d cols) = true.
Proof.
  unfold Geo.drop_if_present. intros Hc Hne. destruct (str_in d cols); [|exact Hc].
  unfold str_in in *. apply bool_decide_eq_true in Hc. apply bool_decide_eq_true.
  apply list_elem_of_In, filter_In. split; [now apply list_elem_of_In | now rewrite Hne].
Qed.

Lemma has_set_index (c c0 : string) (t t' : table) :
  set_index c0 t = Ok t' -> has c t = true -> has c t' = true.
Proof. intros H. apply set_index_Ok in H as [E _]. unfold has. now rewrite E. Qed.

Lemma has_reset_index (c : string) (t t' : table) :
  reset_index t = Ok t' -> has c t = true -> has c t' = true.
Proof.
  unfold reset_index. destruct (has _ t); [discriminate|].
  intros H. injection H as <-. unfold has, str_in. simpl.
  rewrite !bool_decide_eq_true. intros Hc. now apply elem_of_cons; right.
Qed.

Lemma has_GeoDataFrame_geometry (t : table) (epsg : string) :
  has "geometry" (GeoDataFrame t epsg) = true.
Proof. unfold GeoDataFrame. apply (has_setcol_new "geometry" t). Qed.

Lemma has_GeoDataFrame (c : string) (t : table) (epsg : string) :
  has c t = true -> has c (GeoDataFrame t epsg) = true.
Proof. intros H. unfold GeoDataFrame. apply (has_setcol_old c "geometry" t H). Qed.

Lemma crs_GeoDataFrame (t : table) (epsg : string) : crs (GeoDataFrame t epsg) = Some epsg.
Proof. reflexivity. Qed.

Lemma to_crs_Ok (epsg : string) (t t' : table) :
  to_crs epsg t = Ok t' -> crs t' = Some epsg /\ columns t' = columns t.
Proof.
  unfold to_crs. destruct (crs t); [|discriminate].
  intros H. injection H as <-. split; reflexivity.
Qed.

Lemma has_to_crs (c epsg : string) (t t' : table) :
  to_crs epsg t = Ok t' -> has c t = true -> has c t' = true.
Proof. intros H. apply to_crs_Ok in H as [_ E]. unfold has. now rewrite E. Qed.

Create HintDb cols.
#[local] Hint Resolve has_setcol_new has_setcol_old has_GeoDataFrame_geometry
  has_GeoDataFrame : cols.
#[local] Hint Extern 1 (str_in _ _ = false) => reflexivity : cols.
#[local] Hint Extern 1 (assoc _ _ = _) => reflexivity : cols.
#[local] Hint Extern 1 (In _ _) => simpl; tauto : cols.

(** Split a successful run into its steps. *)
Ltac steps H :=
  repeat match type of H with
         | (_ ≫= _) = Ok _ =>
             let u := fresh "u" in let Hu := fresh "Hu" in
             apply bind_Ok_inv in H as [u [Hu H]]
         | (if ?b then _ else _) = Ok _ => destruct b eqn:?; try discriminate H
         | match ?o with _ => _ end = Ok _ => destruct o eqn:?; try discriminate H
         | Ok _ = Ok _ => injection H as H
         end.

(** Turn the steps into facts about columns. *)
Ltac facts :=
  repeat match goal with
         | H : require _ _ = Ok _ |- _ => apply require_Ok in H
         | H : require_all _ _ = Ok _ |- _ =>
             let F := fresh "R" in pose proof (require_all_Ok _ _ _ H) as F; clear H
         | H : set_index _ _ = Ok _ |- _ =>
             let F := fresh "S" in let G := fresh "X" in
             pose proof (fun c => has_set_index c _ _ _ H) as F;
             pose proof (set_index_has _ _ _ H) as G;
             apply set_index_Ok in H as [_ H]
         | H : drop _ _ = Ok _ |- _ =>
             let F := fresh "D" in apply drop_Ok in H as [H F]
         | H : to_crs _ _ = Ok _ |- _ =>
             let F := fresh "T" in
             pose proof (fun c => has_to_crs c _ _ _ H) as F;
             apply to_crs_Ok in H as [H _]
         | H : reset_index _ = Ok _ |- _ =>
             let F := fresh "I" in
             pose proof (fun c => has_reset_index c _ _ H) as F; clear H
         end.

Ltac crs_solve :=
  repeat first [ rewrite crs_setcol | progress simpl crs
               | match goal with H : crs _ = _ |- _ => rewrite H end ];
  try reflexivity.

Variable w : world.

Lemma ssc_located (kw : kwargs) (t : table) :
  ssc_ssh_read_catalog w kw = Ok t -> located t.
Proof.
  unfold ssc_ssh_read_catalog. intros H. steps H.
  apply require_Ok in Hu1, Hu2. apply set_index_Ok in Hu3 as [Ec Ecrs].
  apply drop_Ok in Hu4 as [Dcrs Dhas].
  set (t0 := rename _ u4) in *.
  assert (L : located t0).
  { assert (G : forall c, has c u3 = true -> str_in c ["geo:lon"; "geo:lat"] = false ->
                          has c u4 = true).
    { intros c Hc Hn. apply Dhas; [|exact Hn]. apply has_GeoDataFrame. exact Hc. }
    assert (S : forall c, has c (setcol "station_name_unique" (read_plain (ssc_json_columns w)))
                          = true -> has c u3 = true).
    { intros c. unfold has. now rewrite Ec. }
    unfold located, t0. simpl. rewrite Dcrs. repeat split.
    - apply has_rename_keep; [|reflexivity]. apply Dhas; auto with cols.
    - apply (has_rename_to _ "name"); [|reflexivity]. apply G; auto with cols.
    - apply (has_rename_to _ "ssc_id"); [|reflexivity]. apply G; auto with cols.
    - apply has_rename_keep; [|reflexivity]. apply G; auto with cols. }
  assert (L' : located (ssc_add_linked_stations_columns w t0)).
  { unfold ssc_add_linked_stations_columns. destruct (ssc_any_linked w); [|exact L].
    destruct L as [? [? [? [? ?]]]]. unfold located. rewrite !crs_setcol.
    repeat split; auto with cols. }
  destruct (arg (linked_stations kw) false); subst t; assumption.
Qed.

#[local] Hint Extern 2 (has _ (rename _ _) = true) =>
  apply has_rename_keep; [|reflexivity] : cols.

(** One layer of a table expression at a time, without search. *)
Ltac peel :=
  first [ assumption
        | match goal with
          | R : forall c, In c _ -> has c ?t = true
            |- has _ ?t = true => apply R; simpl; tauto
          | D : forall c, has c _ = true -> str_in c _ = false -> has c ?t = true
            |- has _ ?t = true => apply D; [|first [reflexivity | assumption]]
          | S : forall c, has c _ = true -> has c ?t = true
            |- has _ ?t = true => apply S
          end
        | apply has_setcol_new
        | apply has_setcol_old
        | apply has_GeoDataFrame_geometry
        | apply has_GeoDataFrame
        | apply has_rename_keep; [|reflexivity] ].

Ltac cols_solve := repeat peel.

Ltac located_solve :=
  unfold located; split; [crs_solve | repeat split; cols_solve].

Lemma cmems_located_timed (source : string) (t : table) :
  cmems_ssh_read_catalog w source = Ok t -> located t /\ timed t.
Proof.
  unfold cmems_ssh_read_catalog. intros H. steps H. facts. subst t.
  split; [located_solve|]. unfold timed. split; cols_solve.
Qed.

Lemma cmems_my_located_timed (kw : kwargs) (t : table) :
  cmems_my_ssh_read_catalog w kw = Ok t -> located t /\ timed t.
Proof.
  unfold cmems_my_ssh_read_catalog. intros H. steps H. now apply cmems_located_timed in H.
Qed.

Lemma cmems_nrt_located_timed (kw : kwargs) (t : table) :
  cmems_nrt_ssh_read_catalog w kw = Ok t -> located t /\ timed t.
Proof.
  unfold cmems_nrt_ssh_read_catalog. intros H. steps H. now apply cmems_located_timed in H.
Qed.

Lemma uhslc_located_timed (kw : kwargs) (t : table) :
  uhslc_ssh_read_catalog w kw = Ok t -> located t /\ timed t.
Proof.
  unfold uhslc_ssh_read_catalog, _uhslc_get_json. intros H. steps H. facts. subst t.
  assert (G : has "geometry" u0 = true).
  { apply S. unfold has, read_geojson. simpl.
    repeat (apply drop_if_present_keeps; [|reflexivity]).
    unfold str_in. apply bool_decide_eq_true, elem_of_app. right.
    apply list_elem_of_singleton. reflexivity. }
  split.
  - unfold located. split; [crs_solve|]. split; [cols_solve|].
    split; [|split].
    + apply has_setcol_old. apply (has_rename_to _ "name"); [|reflexivity]. cols_solve.
    + apply has_setcol_old. apply (has_rename_to _ "uhslc_id"); [|reflexivity]. cols_solve.
    + cols_solve.
  - unfold timed. split; cols_solve.
Qed.

Lemma ioc_get_json_Ok (t : table) :
  _ioc_get_json w = Ok t ->
  crs t = Some "EPSG:4326" /\ has "geometry" t = true /\ has "Code" t = true /\
  forall c, has c (read_plain (ioc_json_columns w)) = true ->
            str_in c ["Lon"; "lat"; "lon"; "lat"] = false -> has c t = true.
Proof.
  unfold _ioc_get_json. intros H. steps H. facts.
  split; [crs_solve|]. split; [cols_solve|]. split; [cols_solve|].
  intros c Hc Hn. cols_solve.
Qed.

Lemma ioc_located_timed (kw : kwargs) (t : table) :
  ioc_ssh_read_catalog w kw = Ok t -> located t /\ timed t.
Proof.
  unfold ioc_ssh_read_catalog. intros H.
  apply bind_Ok_inv in H as [u [_ H]].
  apply bind_Ok_inv in H as [t0 [Hj H]].
  apply ioc_get_json_Ok in Hj as [Hcrs [Hg [Hcode _]]].
  steps H. clear Hu4 Hu5.
  destruct (arg (drop_uhslc kw) true); steps Hu3; facts; subst;
    (split; [located_solve | unfold timed; split; cols_solve]).
Qed.

Lemma psmsl_located (kw : kwargs) (t : table) :
  psmsl_gnssir_ssh_read_catalog w kw = Ok t -> located t.
Proof.
  unfold psmsl_gnssir_ssh_read_catalog. intros H. steps H. facts. subst t.
  located_solve.
Qed.

Lemma gesla3_located_timed (kw : kwargs) (t : table) :
  gesla3_ssh_read_catalog w kw = Ok t -> located t /\ timed t.
Proof.
  unfold gesla3_ssh_read_catalog. intros H.
  steps H; facts; subst; (split; [located_solve | unfold timed; split; cols_solve]).
Qed.

Lemma rwsddl_located (kw : kwargs) (t : table) :
  rwsddl_ssh_read_catalog w kw = Ok t -> located t.
Proof.
  unfold rwsddl_ssh_read_catalog. intros H. steps H. facts. subst t.
  located_solve.
Qed.

Lemma gtsm3_located_timed (kw : kwargs) (t : table) :
  gtsm3_era5_cds_ssh_read_catalog w kw = Ok t -> located t /\ timed t.
Proof.
  unfold gtsm3_era5_cds_ssh_read_catalog. intros H. steps H. facts. subst t.
  split; [located_solve | unfold timed; split; cols_solve].
Qed.

Lemma gettimes_located (t : table) :
  located t -> located (psmsl_gnssir_ssh_read_catalog_gettimes w t).
Proof.
  unfold psmsl_gnssir_ssh_read_catalog_gettimes. intros [? [? [? [? ?]]]].
  destruct (psmsl_any_station w); located_solve.
Qed.

Lemma gettimes_has (c : string) (t : table) :
  has c t = true -> has c (psmsl_gnssir_ssh_read_catalog_gettimes w t) = true.
Proof.
  unfold psmsl_gnssir_ssh_read_catalog_gettimes. intros H.
  destruct (psmsl_any_station w); cols_solve.
Qed.

Lemma subset_with_Ok (f : kwargs -> result table) (source : string)
    (time_min time_max : option Z) (kw : kwargs) (t : table) :
  (forall kw t0, f kw = Ok t0 -> located t0) ->
  subset_with w f source time_min time_max kw = Ok t ->
  located t /\ has "source" t = true /\
  (given time_min && given time_max = true -> timed t) /\
  ((forall kw t0, f kw = Ok t0 -> timed t0) -> timed t).
Proof.
  intros Hf H. unfold subset_with in H.
  apply bind_Ok_inv in H as [t0 [Hread H]].
  pose proof (Hf _ _ Hread) as [Hcrs [Hg [Hn [Hi Hu]]]].
  apply bind_Ok_inv in H as [u [_ H]].
  assert (L0 : located (setcol "source" t0)) by located_solve.
  assert (S0 : has "source" (setcol "source" t0) = true) by cols_solve.
  assert (T0 : (forall kw t0, f kw = Ok t0 -> timed t0) -> timed (setcol "source" t0)).
  { intros Ht. destruct (Ht _ _ Hread). split; cols_solve. }
  destruct (given time_min && given time_max).
  - set (t1 := if String.eqb source "psmsl-gnssir" then _ else _) in H.
    assert (L1 : located t1 /\ has "source" t1 = true)
      by (unfold t1; destruct (String.eqb source "psmsl-gnssir");
          [split; [now apply gettimes_located | now apply gettimes_has] | now split]).
    destruct (has "time_min" t1) eqn:Hmin; simpl in H; [|discriminate H].
    steps H. facts. subst t.
    destruct L1. split; [assumption|]. split; [assumption|].
    split; intros _; split; assumption.
  - injection H as <-. split; [exact L0|]. split; [exact S0|].
    split; [discriminate | exact T0].
Qed.

Lemma assoc_In {A : Type} (k : string) (l : list (string * A)) (a : A) :
  assoc k l = Some a -> In (k, a) l.
Proof.
  induction l as [|[k' a'] l IH]; simpl; [discriminate|].
  destruct (String.eqb_spec k k') as [->|_].
  - intros H. injection H as ->. now left.
  - intros H. right. now apply IH.
Qed.

Lemma assoc_None {A : Type} (k : string) (l : list (string * A)) :
  ~ In k (map fst l) -> assoc k l = None.
Proof.
  induction l as [|[k' a'] l IH]; simpl; [reflexivity|].
  intros H. destruct (String.eqb_spec k k') as [->|_]; [exfalso; apply H; now left|].
  apply IH. intros Hin. apply H. now right.
Qed.

(** C4 (amended). The catalog that [ssh_catalog_subset] returns has a
    geometry column in EPSG:4326 and the columns station_name,
    station_id, station_name_unique and source. It has the columns
    time_min and time_max when the source is gesla3, ioc, cmems,
    cmems-nrt, uhslc or gtsm3-era5-cds, and when a time range was
    requested. *)
Theorem ssh_catalog_subset_columns
    (source : option string) (time_min time_max : option Z) (kw : kwargs) (t : table) :
  ssh_catalog_subset w source time_min time_max kw = Ok t ->
  crs t = Some "EPSG:4326" /\ has "geometry" t = true /\
  has "station_name" t = true /\ has "station_id" t = true /\
  has "station_name_unique" t = true /\ has "source" t = true /\
  ((exists s, source = Some s /\
              In s ["gesla3"; "ioc"; "cmems"; "cmems-nrt"; "uhslc"; "gtsm3-era5-cds"]) \/
   (time_min <> None /\ time_max <> None) ->
   has "time_min" t = true /\ has "time_max" t = true).
Proof.
  unfold ssh_catalog_subset. destruct source as [s|]; [|discriminate].
  destruct (assoc s (ssh_sources w)) as [f|] eqn:Hf; [|discriminate].
  intros H. apply assoc_In in Hf.
  assert (Hloc : forall kw t0, f kw = Ok t0 -> located t0).
  { unfold ssh_sources in Hf. simpl in Hf.
    repeat (destruct Hf as [Hf|Hf]; [injection Hf as <- <-|]); try contradiction;
      intros kw0 t0 H0;
      first [ now apply ssc_located in H0 | now apply psmsl_located in H0
            | now apply rwsddl_located in H0
            | now apply gesla3_located_timed in H0 | now apply ioc_located_timed in H0
            | now apply cmems_my_located_timed in H0
            | now apply cmems_nrt_located_timed in H0
            | now apply uhslc_located_timed in H0
            | now apply gtsm3_located_timed in H0 ]. }
  destruct (subset_with_Ok f s time_min time_max kw t Hloc H)
    as [[Hcrs [Hg [Hn [Hi Hu]]]] [Hs [Hgiven Htimed]]].
  repeat (split; [assumption|]).
  intros [[s' [Es Hin]]|[Hmin Hmax]].
  - injection Es as <-. apply Htimed.
    unfold ssh_sources in Hf. simpl in Hf, Hin.
    repeat (destruct Hf as [Hf|Hf]; [injection Hf as <- <-|]); try contradiction;
      repeat (destruct Hin as [Hin|Hin]; [try discriminate Hin|]); try contradiction;
      intros kw0 t0 H0;
      first [ now apply gesla3_located_timed in H0 | now apply ioc_located_timed in H0
            | now apply cmems_my_located_timed in H0
            | now apply cmems_nrt_located_timed in H0
            | now apply uhslc_located_timed in H0
            | now apply gtsm3_located_timed in H0 ].
  - apply Hgiven. destruct time_min, time_max; try contradiction; reflexivity.
Qed.

End CatalogProps.

(** The property at the sample world, for the source uhslc. *)
Lemma ssh_catalog_subset_columns_witness :
  Catalog.crs Catalog.uhslc_catalog_sample = Some "EPSG:4326" /\
  Catalog.has "geometry" Catalog.uhslc_catalog_sample = true /\
  Catalog.has "station_name" Catalog.uhslc_catalog_sample = true /\
  Catalog.has "station_id" Catalog.uhslc_catalog_sample = true /\
  Catalog.has "station_name_unique" Catalog.uhslc_catalog_sample = true /\
  Catalog.has "source" Catalog.uhslc_catalog_sample = true /\
  ((exists s, Some "uhslc" = Some s /\
              In s ["gesla3"; "ioc"; "cmems"; "cmems-nrt"; "uhslc"; "gtsm3-era5-cds"]) \/
   (@None Z <> None /\ @None Z <> None) ->
   Catalog.has "time_min" Catalog.uhslc_catalog_sample = true /\
   Catalog.has "time_max" Catalog.uhslc_catalog_sample = true).
Proof.
  apply (ssh_catalog_subset_columns Catalog.world_sample (Some "uhslc") None None
                                    Catalog.no_kwargs Catalog.uhslc_catalog_sample).
  vm_compute. reflexivity.
Defined.

(** C4, counterexample. The catalogs of the sources ssc and rwsddl have
    no time_min and no time_max column; asking for a time range there
    raises [KeyError]. *)
Lemma ssh_catalog_subset_without_times :
  Catalog.ssh_catalog_subset Catalog.world_sample (Some "ssc") None None Catalog.no_kwargs
  = Ok Catalog.ssc_catalog_sample /\
  Catalog.has "time_min" Catalog.ssc_catalog_sample = false /\
  Catalog.has "time_max" Catalog.ssc_catalog_sample = false /\
  Catalog.ssh_catalog_subset Catalog.world_sample (Some "rwsddl") None None Catalog.no_kwargs
  = Ok Catalog.rwsddl_catalog_sample /\
  Catalog.has "time_min" Catalog.rwsddl_catalog_sample = false /\
  Catalog.has "time_max" Catalog.rwsddl_catalog_sample = false /\
  Catalog.ssh_catalog_subset Catalog.world_sample (Some "ssc") (Some 0) (Some 10)
                             Catalog.no_kwargs
  = Raise KeyError.
Proof. repeat split; vm_compute; reflexivity. Qed.


(** ** Quality filters *)

Section QualityProps.
Import Series.

Lemma sel_time_slice_Ok {A : Type} (time : A -> Z) (time_min time_max : option Z)
    (ds ds' : list A) :
  sel_time_slice time time_min time_max ds = Ok ds' ->
  ds' = List.filter (fun s => in_slice time_min time_max (time s)) ds.
Proof.
  unfold sel_time_slice. destruct (_ || increasing (map time ds)); [|discriminate].
  intros H. now injection H as <-.
Qed.

Lemma Forall2_filter_map {A B : Type} (R : A -> B -> Prop) (f : A -> B)
    (p : B -> bool) (l : list A) :
  (forall a, R a (f a)) ->
  Forall2 R (List.filter (fun a => p (f a)) l) (List.filter p (map f l)).
Proof.
  intros HR. induction l as [|a l IH]; simpl; [constructor|].
  destruct (p (f a)); [constructor; [apply HR | exact IH] | exact IH].
Qed.




Lemma length_zero_nil {A : Type} (l : list A) : (length l =? 0)%nat = true <-> l = [].
Proof. destruct l; simpl; split; intros H; try reflexivity; discriminate H. Qed.





Example cmems_sample_filtered :
  cmems_ssh_retrieve_data "cmems" cmems_file_sample "m" None (Some 7200)
  = Ok (Some (mkSeries [mkSample 0 (Some 1.25%Q); mkSample 3600 NaN; mkSample 7200 NaN] "m")).
Proof. reflexivity. Qed.

(** With two depths the level that is kept can be one whose own flag
    is not 1: the reduction takes the greatest level and the greatest
    flag of the step. *)
Example cmems_depth_sample_filtered :
  cmems_ssh_retrieve_data "cmems-nrt" cmems_file_depth_sample "m" None None
  = Ok (Some (mkSeries [mkSample 0 (Some 5%Q)] "m")).
Proof. reflexivity. Qed.

Example gesla_sample_filtered :
  gesla3_ssh_retrieve_data (Some gesla_zip_sample) "abashiri-347a-jpn-uhslc" None None
  = Ok (Some ([mkGeslaSample 0 (Some 1.25%Q) (Some 1%Q) (Some 1%Q);
               mkGeslaSample 3600 NaN NaN NaN;
               mkGeslaSample 7200 (Some 1.75%Q) (Some 1%Q) (Some 1%Q)], "m")).
Proof. vm_compute. reflexivity. Qed.

End QualityProps.



(** ** Duplicates and order of the UHSLC series *)

Section UhslcProps.
Import Series.

Lemma keep_first_In {A : Type} (time : A -> Z) (seen : list Z) (l : list A) (a : A) :
  In a (keep_first time seen l) -> In a l /\ ~ In (time a) seen.
Proof.
  revert seen. induction l as [|b l IH]; intros seen; simpl; [intros []|].
  destruct (existsb (Z.eqb (time b)) seen) eqn:E.
  - intros H. apply IH in H as [? ?]. split; [now right | assumption].
  - intros [<-|H].
    + split; [now left|]. intros Hin.
      assert (X : existsb (Z.eqb (time b)) seen = true)
        by (apply existsb_exists; exists (time b); split; [exact Hin | apply Z.eqb_refl]).
      congruence.
    + apply IH in H as [? Hn]. split; [now right|].
      intros Hin. apply Hn. now right.
Qed.

Lemma keep_first_NoDup {A : Type} (time : A -> Z) (seen : list Z) (l : list A) :
  List.NoDup (map time (keep_first time seen l)).
Proof.
  revert seen. induction l as [|b l IH]; intros seen; simpl; [constructor|].
  destruct (existsb (Z.eqb (time b)) seen); [apply IH|].
  simpl. constructor; [|apply IH].
  intros Hin. apply in_map_iff in Hin as [a [Ea Ha]].
  apply keep_first_In in Ha as [_ Hn]. apply Hn. rewrite Ea. now left.
Qed.

Lemma keep_first_times {A : Type} (time : A -> Z) (seen : list Z) (l : list A) (t : Z) :
  In t (map time l) -> ~ In t seen -> In t (map time (keep_first time seen l)).
Proof.
  revert seen. induction l as [|b l IH]; intros seen; simpl; [intros []|].
  intros Hin Hn.
  destruct (existsb (Z.eqb (time b)) seen) eqn:E.
  - destruct Hin as [Eb|Hin]; [|now apply IH].
    exfalso. apply existsb_exists in E as [t' [Ht' Et']].
    apply Z.eqb_eq in Et'. apply Hn. congruence.
  - simpl. destruct (Z.eq_dec (time b) t) as [Eb|Nb]; [now left|].
    right. destruct Hin as [Eb|Hin]; [contradiction|].
    apply IH; [exact Hin|]. intros [Eb|Hs]; contradiction.
Qed.

(** The first sample of each time is the one that is kept. *)
Lemma keep_first_find {A : Type} (time : A -> Z) (seen : list Z) (l : list A) (t : Z) :
  ~ In t seen ->
  List.find (fun s => (time s =? t)%Z) (keep_first time seen l)
  = List.find (fun s => (time s =? t)%Z) l.
Proof.
  revert seen. induction l as [|b l IH]; intros seen Hn; simpl; [reflexivity|].
  destruct (existsb (Z.eqb (time b)) seen) eqn:E.
  - destruct (Z.eqb_spec (time b) t) as [Eb|Nb].
    + exfalso. apply existsb_exists in E as [t' [Ht' Et']].
      apply Z.eqb_eq in Et'. apply Hn. congruence.
    + now apply IH.
  - simpl. destruct (Z.eqb_spec (time b) t) as [Eb|Nb]; [reflexivity|].
    apply IH. intros [Eb|Hs]; [now apply Nb | contradiction].
Qed.

Lemma insert_by_time_perm (s : sample) (l : list sample) :
  Permutation (insert_by_time s l) (s :: l).
Proof.
  induction l as [|s' l IH]; simpl; [reflexivity|].
  destruct (time s <? time s')%Z; [reflexivity|].
  rewrite IH. apply perm_swap.
Qed.

Lemma sortby_time_perm (l : list sample) : Permutation (sortby_time l) l.
Proof.
  induction l as [|s l IH]; simpl; [reflexivity|].
  rewrite insert_by_time_perm. now constructor.
Qed.

Lemma insert_by_time_sorted (s : sample) (l : list sample) :
  Sorted time_le l -> Sorted time_le (insert_by_time s l).
Proof.
  induction 1 as [|s' l Hl IH Hhd]; simpl; [repeat constructor|].
  destruct (Z.ltb_spec (time s) (time s')).
  - constructor; [now constructor|]. constructor. unfold time_le. lia.
  - constructor; [exact IH|].
    destruct l as [|s'' l]; simpl.
    + constructor. unfold time_le. lia.
    + destruct (time s <? time s'')%Z; constructor.
      * unfold time_le. lia.
      * now inversion Hhd.
Qed.

Lemma sortby_time_sorted (l : list sample) : Sorted time_le (sortby_time l).
Proof.
  induction l as [|s l IH]; simpl; [constructor|]. now apply insert_by_time_sorted.
Qed.

(** A sorted list of distinct times is strictly increasing. *)
Lemma sorted_distinct_increasing (l : list sample) :
  Sorted time_le l -> List.NoDup (map time l) ->
  StronglySorted Z.lt (map time l).
Proof.
  intros Hs Hnd.
  apply Sorted_StronglySorted in Hs; [|intros a b c; unfold time_le; lia].
  induction Hs as [|s l Hl IH Hall]; simpl; [constructor|].
  simpl in Hnd. apply List.NoDup_cons_iff in Hnd as [Hfresh Hnd].
  constructor; [now apply IH|].
  apply List.Forall_forall. intros t Ht.
  apply in_map_iff in Ht as [s' [<- Hs']].
  rewrite List.Forall_forall in Hall. specialize (Hall s' Hs'). unfold time_le in Hall.
  assert (time s <> time s') by (intros E; apply Hfresh; rewrite E; now apply in_map).
  lia.
Qed.

Lemma first_at_Some (l : list sample) (t : Z) (v : fnum) :
  List.NoDup (map time l) ->
  (first_at t l = Some v <-> In (mkSample t v) l).
Proof.
  unfold first_at. induction l as [|[t' v'] l IH]; simpl; intros Hnd.
  - split; [discriminate | intros []].
  - apply List.NoDup_cons_iff in Hnd as [Hfresh Hnd]. specialize (IH Hnd).
    destruct (Z.eqb_spec t' t) as [->|Hne]; simpl.
    + split.
      * intros H. injection H as ->. now left.
      * intros [H|H]; [now injection H as -> |].
        exfalso. apply Hfresh. change t with (time (mkSample t v)). now apply in_map.
    + rewrite IH. split; [now right|]. intros [H|H]; [|exact H].
      injection H as E _. contradiction.
Qed.

Lemma first_at_None (l : list sample) (t : Z) :
  first_at t l = None <-> ~ In t (map time l).
Proof.
  unfold first_at. induction l as [|[t' v'] l IH]; simpl.
  - tauto.
  - destruct (Z.eqb_spec t' t) as [->|Hne]; simpl.
    + split; [discriminate | intros H; exfalso; apply H; now left].
    + rewrite IH. split; [intros H [E|Hin]; contradiction | intros H Hin; apply H; now right].
Qed.

Lemma first_at_perm (l l' : list sample) (t : Z) :
  Permutation l l' -> List.NoDup (map time l) -> first_at t l' = first_at t l.
Proof.
  intros Hp Hnd.
  assert (Hnd' : List.NoDup (map time l'))
    by (eapply Permutation_NoDup; [apply Permutation_map; exact Hp | exact Hnd]).
  destruct (first_at t l) as [v|] eqn:E.
  - apply first_at_Some; [exact Hnd'|]. apply first_at_Some in E; [|exact Hnd].
    eapply Permutation_in; eassumption.
  - apply first_at_None. apply first_at_None in E. intros Hin. apply E.
    eapply Permutation_in; [apply Permutation_map; symmetry; exact Hp | exact Hin].
Qed.

Lemma first_at_app_l (l k : list sample) (t : Z) :
  In t (map time l) -> first_at t (l ++ k) = first_at t l.
Proof.
  unfold first_at. induction l as [|s l IH]; simpl; [intros []|].
  destruct (Z.eqb_spec (time s) t) as [E|Hne]; [reflexivity|].
  intros [E|Hin]; [contradiction | now apply IH].
Qed.

(** The series after [drop_duplicates] and [sortby]. *)
Lemma sorted_first_kept (l : list sample) :
  StronglySorted Z.lt (map time (sortby_time (keep_first time [] l))) /\
  (forall t, first_at t (sortby_time (keep_first time [] l)) = first_at t l) /\
  (forall t, In t (map time (sortby_time (keep_first time [] l))) <-> In t (map time l)).
Proof.
  pose proof (keep_first_NoDup time [] l) as Hnd.
  pose proof (sortby_time_perm (keep_first time [] l)) as Hp.
  split; [|split].
  - apply sorted_distinct_increasing; [apply sortby_time_sorted|].
    eapply Permutation_NoDup; [apply Permutation_map; symmetry; exact Hp | exact Hnd].
  - intros t. rewrite (first_at_perm _ _ t (Permutation_sym Hp) Hnd).
    unfold first_at. now rewrite keep_first_find by (intros []).
  - intros t. split.
    + intros H. eapply Permutation_in in H; [|apply Permutation_map; exact Hp].
      apply in_map_iff in H as [s [<- Hs]]. apply keep_first_In in Hs as [Hs _].
      now apply in_map.
    + intros H. eapply Permutation_in; [apply Permutation_map; symmetry; exact Hp|].
      apply keep_first_times; [exact H | intros []].
Qed.

Lemma concat_after_samples (first ds : uhslc_ds) (rest : list uhslc_ds) :
  concat_after first rest = Ok ds ->
  u_samples ds = u_samples first ++ concat (map u_samples rest).
Proof.
  revert first. induction rest as [|d rest IH]; intros first; simpl.
  - intros H. injection H as <-. now rewrite app_nil_r.
  - case_bool_decide; [|discriminate].
    intros Hc. apply IH in Hc. rewrite Hc. simpl. now rewrite app_assoc.
Qed.

Lemma oneds_Ok (response : erddap_response) (ds_list ds_list' : list uhslc_ds) :
  _uhslc_ssh_retrieve_data_oneds response ds_list = Ok ds_list' ->
  (exists raw ds, response = Data raw /\ _preprocess_uhslc_erddap raw = Ok ds /\
                  ds_list' = ds_list ++ [ds]) \/
  (exists msg, response = Failed (HTTPError msg) /\ ds_list' = ds_list).
Proof.
  unfold _uhslc_ssh_retrieve_data_oneds.
  destruct response as [raw|e].
  - intros H. apply bind_Ok_inv in H as [ds [Hp H]]. injection H as <-.
    left. exists raw, ds. auto.
  - destruct e; try discriminate.
    destruct (String.index 0 "code=404" msg); [|discriminate].
    intros H. injection H as <-. right. exists msg. auto.
Qed.

(** C10. When [uhslc_ssh_retrieve_data] returns a dataset, its times
    are strictly increasing (sorted, no time twice); a time of the
    rqds dataset carries the value that the rqds dataset has there
    (the first one, when rqds itself repeats the time), also when the
    fast dataset has that time too; and the times are those of the
    datasets that were retrieved. *)
Theorem uhslc_retrieve_sorted_unique
    (server : erddap_server) (uhslc_id : Z) (time_min time_max : option Z)
    (include_rqds include_fast : bool) (ds : uhslc_ds) :
  uhslc_ssh_retrieve_data server uhslc_id time_min time_max include_rqds include_fast
  = Ok (Some ds) ->
  StronglySorted Z.lt (map time (u_samples ds)) /\
  (forall raw rqds,
     include_rqds = true ->
     server "global_hourly_rqds" uhslc_id time_min time_max = Data raw ->
     _preprocess_uhslc_erddap raw = Ok rqds ->
     forall t, In t (map time (u_samples rqds)) ->
               first_at t (u_samples ds) = first_at t (u_samples rqds)) /\
  (forall raw fast t,
     include_fast = true ->
     server "global_hourly_fast" uhslc_id time_min time_max = Data raw ->
     _preprocess_uhslc_erddap raw = Ok fast ->
     In t (map time (u_samples fast)) -> In t (map time (u_samples ds))).
Proof.
  unfold uhslc_ssh_retrieve_data. intros H.
  apply bind_Ok_inv in H as [l1 [H1 H]].
  apply bind_Ok_inv in H as [l2 [H2 H]].
  destruct l2 as [|first rest]; [discriminate|].
  apply bind_Ok_inv in H as [cat [Hcat H]]. injection H as <-. simpl.
  apply concat_after_samples in Hcat.
  change (u_samples first ++ concat (map u_samples rest))
    with (concat (map u_samples (first :: rest))) in Hcat.
  rewrite Hcat.
  destruct (sorted_first_kept (concat (map u_samples (first :: rest))))
    as [Hsorted [Hfirst Htimes]].
  split; [exact Hsorted|]. split.
  - intros raw rqds -> Hresp Hpre t Ht.
    rewrite Hfirst.
    apply oneds_Ok in H1 as [[raw' [ds' [E [Hpre' ->]]]]|[msg [E _]]];
      [|rewrite Hresp in E; discriminate E].
    rewrite Hresp in E. injection E as <-. rewrite Hpre in Hpre'. injection Hpre' as <-.
    assert (E2 : exists more, first :: rest = rqds :: more).
    { destruct include_fast.
      - apply oneds_Ok in H2 as [[? [d [_ [_ E2]]]]|[? [_ E2]]]; simpl in E2.
        + exists [d]. exact E2.
        + exists []. exact E2.
      - simpl in H2. injection H2 as <- <-. exists []. reflexivity. }
    destruct E2 as [more ->]. simpl.
    now apply first_at_app_l.
  - intros raw fast t -> Hresp Hpre Ht.
    apply Htimes.
    apply oneds_Ok in H2 as [[raw' [ds' [E [Hpre' E2]]]]|[msg [E _]]];
      [|rewrite Hresp in E; discriminate E].
    rewrite Hresp in E. injection E as <-. rewrite Hpre in Hpre'. injection Hpre' as <-.
    rewrite E2, map_app, concat_app, map_app. apply in_or_app. right.
    simpl. now rewrite app_nil_r.
Qed.

End UhslcProps.

Example uhslc_sample_retrieved :
  match Series.uhslc_ssh_retrieve_data Series.erddap_server_sample 347 None None true true with
  | Ok (Some ds) =>
      Series.u_samples ds
      = [Series.mkSample 0 (Some 1.250%Q);
         Series.mkSample 3600000000000 (Some 1.500%Q);
         Series.mkSample 7200000000000 (Some 1.750%Q);
         Series.mkSample 10800000000000 (Some 2.000%Q)]
  | _ => False
  end.
Proof. vm_compute. reflexivity. Qed.

(** The property at the sample server, for station 347. *)
Lemma uhslc_retrieve_sorted_unique_witness :
  exists ds,
    Series.uhslc_ssh_retrieve_data Series.erddap_server_sample 347 None None true true
    = Ok (Some ds) /\
    (StronglySorted Z.lt (map Series.time (Series.u_samples ds)) /\
     (forall raw rqds,
        true = true ->
        Series.erddap_server_sample "global_hourly_rqds" 347 None None = Series.Data raw ->
        Series._preprocess_uhslc_erddap raw = Ok rqds ->
        forall t, In t (map Series.time (Series.u_samples rqds)) ->
                  Series.first_at t (Series.u_samples ds)
                  = Series.first_at t (Series.u_samples rqds)) /\
     (forall raw fast t,
        true = true ->
        Series.erddap_server_sample "global_hourly_fast" 347 None None = Series.Data raw ->
        Series._preprocess_uhslc_erddap raw = Ok fast ->
        In t (map Series.time (Series.u_samples fast)) ->
        In t (map Series.time (Series.u_samples ds)))).
Proof.
  eexists. split.
  - vm_compute. reflexivity.
  - apply (uhslc_retrieve_sorted_unique Series.erddap_server_sample 347 None None true true).
    vm_compute. reflexivity.
Defined.


(** ** The files that [ssh_retrieve_data] writes *)

Section RetrieveProps.
Import Xr Retrieve.
#[local] Set Warnings "-clear-no-such-hyp".

Lemma py_assert_Ok (cond : bool) (u : unit) : py_assert cond = Ok u -> cond = true.
Proof. destruct cond; [reflexivity | discriminate]. Qed.

Lemma getitem_Ok (k : string) (ds : Dataset) (da : DataArray) :
  getitem k ds = Ok da -> variables ds !! k = Some da.
Proof. unfold getitem. destruct (variables ds !! k); [|discriminate]. congruence. Qed.

Lemma getattr_Ok (k : string) (ds : Dataset) (a : attr) :
  getattr k ds = Ok a -> ds_attrs ds !! k = Some a.
Proof. unfold getattr. destruct (ds_attrs ds !! k); [|discriminate]. congruence. Qed.

Lemma astype_float32_Ok (da da' : DataArray) :
  astype_float32 da = Ok da' -> dims da' = dims da /\ attrs da' = attrs da.
Proof.
  unfold astype_float32. destruct (data da); try discriminate.
  intros H. injection H as <-. split; reflexivity.
Qed.

Lemma set_coords_Ok (names : list string) (ds ds' : Dataset) :
  set_coords names ds = Ok ds' ->
  variables ds' = variables ds /\
  coord_names ds' = coord_names ds ∪ list_to_set names /\
  ds_attrs ds' = ds_attrs ds.
Proof.
  unfold set_coords. destruct (forallb _ names); [|discriminate].
  intros H. injection H as <-. repeat split.
Qed.

Lemma in_dims_iff (d : string) (ds : Dataset) :
  in_dims d ds = true <-> exists k v, variables ds !! k = Some v /\ d ∈ dims v.
Proof. unfold in_dims. rewrite bool_decide_eq_true. apply map_Exists_lookup. Qed.

Lemma list_ascii_length (s : string) : length (list_ascii_of_string s) = String.length s.
Proof. induction s as [|c s IH]; simpl; [reflexivity | now rewrite IH]. Qed.

(** A name of at most 64 ASCII characters is stored as it is. *)
Lemma astype_S64_short (s : string) :
  is_ascii_string s = true -> (String.length s <= 64)%nat ->
  astype_S64 (AStr s) = Ok (mkDataArray [] ∅ (Bytes 64 s)).
Proof.
  intros Ha Hl. unfold astype_S64. rewrite Ha. unfold take_bytes.
  rewrite take_ge by (rewrite list_ascii_length; exact Hl).
  now rewrite string_of_list_ascii_of_string.
Qed.

(** The dataset that passes the checks is written with the
    coordinates of its row. *)
Lemma prepare_written (row : station) (ds ds' : Dataset) :
  time_is_index ds -> prepare row ds = Ok ds' -> written_for row ds'.
Proof.
  intros Hidx H. unfold prepare in H.
  apply bind_Ok_inv in H as [wl0 [Hwl0 H]]. apply getitem_Ok in Hwl0. simpl in Hwl0.
  apply bind_Ok_inv in H as [wl [Hwl H]]. apply astype_float32_Ok in Hwl as [Hdims Hattrs].
  unfold _make_hydrotools_consistent in H.
  apply bind_Ok_inv in H as [u1 [Htime H]]. apply py_assert_Ok in Htime.
  apply bind_Ok_inv in H as [u2 [Hdim H]]. apply py_assert_Ok in Hdim.
  apply bind_Ok_inv in H as [u3 [Hdv H]]. apply py_assert_Ok in Hdv.
  apply bind_Ok_inv in H as [wl' [Hwl' H]]. apply getitem_Ok in Hwl'.
  simpl in Hwl'. rewrite lookup_insert_eq in Hwl'. injection Hwl' as <-.
  rewrite Hattrs in H.
  destruct (attrs wl0 !! "units") as [units|] eqn:Hunits; [|discriminate H].
  apply bind_Ok_inv in H as [u4 [Hm H]]. apply py_assert_Ok in Hm.
  destruct units as [u| |]; try discriminate Hm. apply String.eqb_eq in Hm. subst u.
  apply bind_Ok_inv in H as [a1 [Ha1 H]]. apply getattr_Ok in Ha1.
  apply bind_Ok_inv in H as [da1 [Hda1 H]].
  apply bind_Ok_inv in H as [a2 [Ha2 H]]. apply getattr_Ok in Ha2.
  apply bind_Ok_inv in H as [da2 [Hda2 H]].
  apply bind_Ok_inv in H as [a3 [Ha3 H]]. apply getattr_Ok in Ha3.
  apply bind_Ok_inv in H as [a4 [Ha4 H]]. apply getattr_Ok in Ha4.
  apply set_coords_Ok in H as [Hvars [Hcoords Hat]].
  simpl in Ha1, Ha2, Ha3, Ha4, Hvars, Hcoords.
  assert (E1 : a1 = of_pyval (station_name row)) by (simplify_map_eq; reflexivity).
  assert (E2 : a2 = of_pyval (station_id row)) by (simplify_map_eq; reflexivity).
  assert (E3 : a3 = AFloat (Geo.x (geometry row))) by (simplify_map_eq; reflexivity).
  assert (E4 : a4 = AFloat (Geo.y (geometry row))) by (simplify_map_eq; reflexivity).
  subst a1 a2 a3 a4. clear Ha1 Ha2 Ha3 Ha4.
  unfold in_data_vars in Hdv. apply andb_true_iff in Hdv as [_ Hnc].
  apply negb_true_iff, bool_decide_eq_false in Hnc. simpl in Hnc.
  unfold written_for, coordinate. rewrite Hvars, Hcoords.
  split; [|split; [|split; [|split; [|split; [|split]]]]].
  - exists wl. split; [now simplify_map_eq|]. split; [|now rewrite Hattrs].
    set_solver.
  - unfold in_variables in *. simpl in Htime. rewrite Hvars.
    apply bool_decide_eq_true. apply bool_decide_eq_true in Htime.
    now simplify_map_eq.
  - apply in_dims_iff. rewrite Hvars.
    unfold in_variables in Htime. apply bool_decide_eq_true in Htime. simpl in Htime.
    rewrite lookup_insert_ne in Htime by discriminate.
    destruct Htime as [vt Hvt].
    exists "time", vt. split; [now simplify_map_eq|].
    apply (Hidx vt Hvt). apply in_dims_iff.
    apply in_dims_iff in Hdim as [k [v [Hk Hd]]]. simpl in Hk.
    destruct (decide (k = "waterlevel")) as [->|Hne].
    + rewrite lookup_insert_eq in Hk. injection Hk as <-.
      exists "waterlevel", wl0. split; [exact Hwl0 | now rewrite <- Hdims].
    + rewrite lookup_insert_ne in Hk by congruence. exists k, v. now split.
  - exists da1. split; [exact Hda1|]. split; [now simplify_map_eq | set_solver].
  - exists da2. split; [exact Hda2|]. split; [now simplify_map_eq | set_solver].
  - eexists. split; [split; [now simplify_map_eq | set_solver] | reflexivity].
  - eexists. split; [split; [now simplify_map_eq | set_solver] | reflexivity].
Qed.

Lemma prepare_file_out (dir_output : string) (row : station) (ds ds' : Dataset) :
  prepare row ds = Ok ds' -> file_out_of dir_output ds' = Ok (file_out dir_output row).
Proof.
  intros H. unfold prepare in H.
  apply bind_Ok_inv in H as [wl0 [_ H]].
  apply bind_Ok_inv in H as [wl [_ H]].
  unfold _make_hydrotools_consistent in H.
  repeat (apply bind_Ok_inv in H; destruct H as [? [_ H]]).
  destruct (attrs _ !! "units"); [|discriminate H].
  repeat (apply bind_Ok_inv in H; destruct H as [? [_ H]]).
  apply set_coords_Ok in H as [_ [_ Hat]]. simpl in Hat.
  unfold file_out_of, getattr. rewrite Hat. now simplify_map_eq.
Qed.

Lemma retrieve_rows_written (f : retriever) (dir_output : string)
    (time_min time_max : option Z) (rows : list station)
    (written : list (string * Dataset)) (outcome : result unit) :
  (forall row ds, f row time_min time_max = Ok (Some ds) -> time_is_index ds) ->
  retrieve_rows f dir_output time_min time_max rows = (written, outcome) ->
  exists done rest,
    rows = done ++ rest /\ (outcome = Ok tt -> rest = []) /\
    Forall2 (fun row w => w.1 = file_out dir_output row /\ written_for row w.2)
            (List.filter (has_data f time_min time_max) done) written.
Proof.
  intros Hidx. revert written outcome.
  induction rows as [|row rows IH]; intros written outcome H; simpl in H.
  - injection H as <- <-. exists [], []. repeat split; constructor.
  - destruct (f row time_min time_max) as [[ds|]|e] eqn:Hf.
    + destruct (prepare row ds) as [ds'|e] eqn:Hp; simpl in H.
      * rewrite (prepare_file_out dir_output row ds ds' Hp) in H. simpl in H.
        destruct (retrieve_rows f dir_output time_min time_max rows) as [w o] eqn:Hr.
        injection H as <- <-.
        destruct (IH w o eq_refl) as [done [rest [-> [Hok HF]]]].
        exists (row :: done), rest. split; [reflexivity|]. split; [exact Hok|].
        simpl. unfold has_data at 1. rewrite Hf. constructor; [|exact HF].
        split; [reflexivity|]. simpl. eapply prepare_written; [|exact Hp]. eauto.
      * injection H as <- <-. exists [], (row :: rows).
        split; [reflexivity|]. split; [discriminate | constructor].
    + destruct (IH written outcome H) as [done [rest [-> [Hok HF]]]].
      exists (row :: done), rest. split; [reflexivity|]. split; [exact Hok|].
      simpl. unfold has_data at 1. now rewrite Hf.
    + injection H as <- <-. exists [], (row :: rows).
      split; [reflexivity|]. split; [discriminate | constructor].
Qed.

Lemma unique_from_In (seen l : list string) (x : string) :
  In x l -> ~ In x seen -> In x (unique_from seen l).
Proof.
  revert seen. induction l as [|s l IH]; intros seen; simpl; [intros []|].
  intros Hin Hn. destruct (str_in s seen) eqn:E.
  - destruct Hin as [->|Hin]; [|now apply IH].
    exfalso. apply Hn. unfold str_in in E. apply bool_decide_eq_true in E.
    now apply list_elem_of_In.
  - destruct (string_dec s x) as [->|Hne]; [now left|]. right.
    destruct Hin as [Hin|Hin]; [contradiction|].
    apply IH; [exact Hin|]. intros [E'|Hs]; contradiction.
Qed.

(** A catalog with one unique source has that source in every row. *)
Lemma unique_single (l : list string) (s : string) (more : list string) :
  unique l = s :: more -> (1 <? length (unique l))%nat = false ->
  forall x, In x l -> x = s.
Proof.
  intros E Hlen x Hx. rewrite E in Hlen. simpl in Hlen.
  destruct more; [|discriminate Hlen].
  assert (Hin : In x (unique l)) by (apply unique_from_In; [exact Hx | intros []]).
  rewrite E in Hin. destruct Hin as [<-|[]]. reflexivity.
Qed.

Lemma unique_from_seen (seen l : list string) :
  (forall x, In x l -> In x seen) -> unique_from seen l = [].
Proof.
  induction l as [|s l IH]; intros H; simpl; [reflexivity|].
  assert (E : str_in s seen = true).
  { unfold str_in. apply bool_decide_eq_true, list_elem_of_In, H. now left. }
  rewrite E. apply IH. intros x Hx. apply H. now right.
Qed.

Lemma unique_constant (l : list string) (s : string) :
  l <> [] -> (forall x, In x l -> x = s) -> unique l = [s].
Proof.
  destruct l as [|s0 l]; [congruence|]. intros _ H.
  assert (E : s0 = s) by (apply H; now left). subst s0.
  unfold unique. simpl. f_equal. apply unique_from_seen.
  intros x Hx. left. symmetry. apply H. now right.
Qed.

Lemma two_members_length {A : Type} (l : list A) (a b : A) :
  In a l -> In b l -> a <> b -> (1 < length l)%nat.
Proof.
  destruct l as [|x [|y l]]; simpl; try tauto; [|lia].
  intros [<-|[]] [<-|[]] H. congruence.
Qed.

Lemma unique_two (l : list string) (a b : string) :
  In a l -> In b l -> a <> b -> (1 <? length (unique l))%nat = true.
Proof.
  intros Ha Hb Hne. apply Nat.ltb_lt.
  apply (two_members_length _ a b); [| |exact Hne];
    apply unique_from_In; auto.
Qed.

Variables gesla3_ssh_retrieve_data ioc_ssh_retrieve_data cmems_ssh_retrieve_data
          uhslc_ssh_retrieve_data psmsl_gnssir_ssh_retrieve_data
          rwsddl_ssh_retrieve_data gtsm3_era5_cds_ssh_retrieve_data : retriever.

Let sources : list (string * retriever) :=
  ssh_sources gesla3_ssh_retrieve_data ioc_ssh_retrieve_data cmems_ssh_retrieve_data
              uhslc_ssh_retrieve_data psmsl_gnssir_ssh_retrieve_data
              rwsddl_ssh_retrieve_data gtsm3_era5_cds_ssh_retrieve_data.

(** C1. Every file that [ssh_retrieve_data] writes belongs to a row
    whose provider returned a dataset, in the order of the catalog; the
    dataset in it has a data variable waterlevel with units m, a
    variable and a dimension time, and the coordinates station_name,
    station_id, station_x_coordinate and station_y_coordinate of that
    row. A row whose provider returned nothing has no file. When the
    call ends without an exception every row was handled. The
    datasets of the providers are taken to have their time variable
    along the time dimension. *)
Theorem ssh_retrieve_data_written
    (ssh_catalog_gpd : list station) (dir_output : string)
    (time_min time_max : option Z)
    (written : list (string * Dataset)) (outcome : result unit) :
  (forall source f row ds,
     assoc source sources = Some f ->
     f row time_min time_max = Ok (Some ds) -> time_is_index ds) ->
  ssh_retrieve_data gesla3_ssh_retrieve_data ioc_ssh_retrieve_data cmems_ssh_retrieve_data
                    uhslc_ssh_retrieve_data psmsl_gnssir_ssh_retrieve_data
                    rwsddl_ssh_retrieve_data gtsm3_era5_cds_ssh_retrieve_data
                    ssh_catalog_gpd dir_output time_min time_max
  = (written, outcome) ->
  exists done rest,
    ssh_catalog_gpd = done ++ rest /\ (outcome = Ok tt -> rest = []) /\
    Forall2 (fun row w => w.1 = file_out dir_output row /\ written_for row w.2)
            (List.filter (provider_has_data sources time_min time_max) done) written.
Proof.
  intros Hidx H. unfold ssh_retrieve_data in H. fold sources in H.
  assert (Hnone : forall e, (written, outcome) = ([], Raise e) ->
            exists done rest,
              ssh_catalog_gpd = done ++ rest /\ (outcome = Ok tt -> rest = []) /\
              Forall2 (fun row w => w.1 = file_out dir_output row /\ written_for row w.2)
                      (List.filter (provider_has_data sources time_min time_max) done)
                      written).
  { intros e E. injection E as -> ->. exists [], ssh_catalog_gpd.
    split; [reflexivity|]. split; [discriminate | constructor]. }
  destruct (length ssh_catalog_gpd =? 0)%nat; [now apply (Hnone ValueError)|].
  destruct (1 <? length (unique (map source ssh_catalog_gpd)))%nat eqn:Hlen;
    [now apply (Hnone Exception)|].
  destruct (unique (map source ssh_catalog_gpd)) as [|s more] eqn:Hu;
    [now apply (Hnone IndexError)|].
  destruct (assoc s sources) as [f|] eqn:Hf; [|now apply (Hnone ValueError)].
  rewrite <- Hu in Hlen.
  pose proof (unique_single _ _ _ Hu Hlen) as Hall.
  apply retrieve_rows_written in H; [|intros row ds; apply (Hidx s f row ds Hf)].
  destruct H as [done [rest [-> [Hok HF]]]].
  exists done, rest. split; [reflexivity|]. split; [exact Hok|].
  rewrite (filter_ext_in (provider_has_data sources time_min time_max)
                         (has_data f time_min time_max)); [exact HF|].
  intros row Hrow. unfold provider_has_data.
  rewrite (Hall (source row)); [now rewrite Hf|].
  apply in_map. apply in_or_app. now left.
Qed.

(** What [ssh_retrieve_data] refuses. *)
Lemma ssh_retrieve_data_refuses
    (ssh_catalog_gpd : list station) (dir_output : string) (time_min time_max : option Z) :
  let run := ssh_retrieve_data gesla3_ssh_retrieve_data ioc_ssh_retrieve_data
               cmems_ssh_retrieve_data uhslc_ssh_retrieve_data
               psmsl_gnssir_ssh_retrieve_data rwsddl_ssh_retrieve_data
               gtsm3_era5_cds_ssh_retrieve_data ssh_catalog_gpd dir_output
               time_min time_max in
  (ssh_catalog_gpd = [] -> run = ([], Raise ValueError)) /\
  ((exists r1 r2, In r1 ssh_catalog_gpd /\ In r2 ssh_catalog_gpd /\
                  source r1 <> source r2) ->
   run = ([], Raise Exception)) /\
  (forall s, ssh_catalog_gpd <> [] ->
             (forall r, In r ssh_catalog_gpd -> source r = s) ->
             ~ In s ["gesla3"; "ioc"; "cmems"; "cmems-nrt"; "uhslc"; "psmsl-gnssir";
                     "rwsddl"; "gtsm3-era5-cds"] ->
             run = ([], Raise ValueError)).
Proof.
  intros run. unfold run, ssh_retrieve_data. split; [|split].
  - intros ->. reflexivity.
  - intros [r1 [r2 [H1 [H2 Hne]]]].
    destruct ssh_catalog_gpd as [|r0 rows]; [destruct H1|].
    change (length (r0 :: rows) =? 0)%nat with false. cbv iota.
    rewrite (unique_two (map source (r0 :: rows)) (source r1) (source r2));
      [reflexivity | now apply in_map | now apply in_map | exact Hne].
  - intros s Hne Hall Hs.
    destruct ssh_catalog_gpd as [|r0 rows]; [congruence|].
    change (length (r0 :: rows) =? 0)%nat with false. cbv iota.
    rewrite (unique_constant (map source (r0 :: rows)) s);
      [|discriminate | intros x Hx; apply in_map_iff in Hx as [r [<- Hr]]; now apply Hall].
    simpl length. change (1 <? 1)%nat with false. cbv iota.
    rewrite assoc_None; [reflexivity | exact Hs].
Qed.

End RetrieveProps.

(** The datasets of the sample providers have their time variable
    along the time dimension. *)
Lemma series_dataset_time_is_index (samples : list Series.sample) (units : string) :
  Retrieve.time_is_index (Retrieve.series_dataset samples units).
Proof.
  unfold Retrieve.time_is_index, Retrieve.series_dataset. simpl. intros v Hv _.
  rewrite lookup_insert_eq in Hv. injection Hv as <-. simpl.
  apply list_elem_of_singleton. reflexivity.
Qed.

Lemma sample_providers_time_is_index
    (source : string) (f : Retrieve.retriever) (row : Retrieve.station) (ds : Xr.Dataset) :
  assoc source
    (Retrieve.ssh_sources Retrieve.no_data Retrieve.no_data Retrieve.no_data
       (Retrieve.uhslc_retriever Series.erddap_server_sample)
       Retrieve.no_data Retrieve.no_data Retrieve.no_data) = Some f ->
  f row None None = Ok (Some ds) -> Retrieve.time_is_index ds.
Proof.
  intros Hf. apply assoc_In in Hf. unfold Retrieve.ssh_sources in Hf. simpl in Hf.
  repeat (destruct Hf as [Hf|Hf]; [injection Hf as <- <-|]); try contradiction;
    try discriminate.
  unfold Retrieve.uhslc_retriever. destruct (Retrieve.name row); [discriminate|].
  intros H. apply bind_Ok_inv in H as [[d|] [_ H]]; [|discriminate H].
  injection H as <-. apply series_dataset_time_is_index.
Qed.

(** The property at a catalog of two UHSLC stations, one of them
    without data. *)
Lemma ssh_retrieve_data_written_witness :
  exists written,
    Retrieve.ssh_retrieve_data Retrieve.no_data Retrieve.no_data Retrieve.no_data
      (Retrieve.uhslc_retriever Series.erddap_server_sample)
      Retrieve.no_data Retrieve.no_data Retrieve.no_data
      Retrieve.stations_sample "out" None None
    = (written, Ok tt) /\
    exists done rest,
      Retrieve.stations_sample = done ++ rest /\ (Ok tt = Ok tt -> rest = []) /\
      Forall2 (fun row w => w.1 = Retrieve.file_out "out" row /\ Retrieve.written_for row w.2)
              (List.filter
                 (Retrieve.provider_has_data
                    (Retrieve.ssh_sources Retrieve.no_data Retrieve.no_data Retrieve.no_data
                       (Retrieve.uhslc_retriever Series.erddap_server_sample)
                       Retrieve.no_data Retrieve.no_data Retrieve.no_data)
                    None None) done)
              written.
Proof.
  eexists. split.
  - vm_compute. reflexivity.
  - apply (ssh_retrieve_data_written Retrieve.no_data Retrieve.no_data Retrieve.no_data
             (Retrieve.uhslc_retriever Series.erddap_server_sample)
             Retrieve.no_data Retrieve.no_data Retrieve.no_data
             Retrieve.stations_sample "out" None None).
    + exact sample_providers_time_is_index.
    + vm_compute. reflexivity.
Defined.


(** ** The two dispatch functions *)

Example retrieve_sample_files :
  exists ds,
    Retrieve.ssh_retrieve_data Retrieve.no_data Retrieve.no_data Retrieve.no_data
      (Retrieve.uhslc_retriever Series.erddap_server_sample)
      Retrieve.no_data Retrieve.no_data Retrieve.no_data
      Retrieve.stations_sample "out" None None
    = ([("out/uhslc-347.nc", ds)], Ok tt) /\
    Xr.coord_names ds
    = {[ "time"; "station_name"; "station_id"; "station_x_coordinate";
         "station_y_coordinate" ]} /\
    Xr.getitem "station_name" ds = Ok (Xr.mkDataArray [] ∅ (Xr.Bytes 64 "Abashiri")) /\
    Xr.getitem "station_id" ds = Ok (Xr.mkDataArray [] ∅ (Xr.Bytes 64 "347")).
Proof.
  eexists. split; [vm_compute; reflexivity|].
  split; [|split]; vm_compute; reflexivity.
Qed.

(** C6. [ssh_catalog_subset] raises [ValueError] for a source that
    is not one of its nine names (and when the source is left out).
    [ssh_retrieve_data] raises [ValueError] for an empty catalog,
    [Exception] for a catalog with two different sources, and
    [ValueError] when the one source of the catalog is not one of its
    eight names; in each case nothing is written. *)
Theorem dispatch_validates_inputs :
  (forall (w : Catalog.world) (source : option string) (time_min time_max : option Z)
          (kw : Catalog.kwargs),
     (forall s, source = Some s ->
                ~ In s ["ssc"; "gesla3"; "ioc"; "cmems"; "cmems-nrt"; "uhslc";
                        "psmsl-gnssir"; "rwsddl"; "gtsm3-era5-cds"]) ->
     Catalog.ssh_catalog_subset w source time_min time_max kw = Raise ValueError) /\
  (forall (gesla3 ioc cmems uhslc psmsl_gnssir rwsddl gtsm3_era5_cds : Retrieve.retriever)
          (ssh_catalog_gpd : list Retrieve.station) (dir_output : string)
          (time_min time_max : option Z),
     let run := Retrieve.ssh_retrieve_data gesla3 ioc cmems uhslc psmsl_gnssir rwsddl
                  gtsm3_era5_cds ssh_catalog_gpd dir_output time_min time_max in
     (ssh_catalog_gpd = [] -> run = ([], Raise ValueError)) /\
     ((exists r1 r2, In r1 ssh_catalog_gpd /\ In r2 ssh_catalog_gpd /\
                     Retrieve.source r1 <> Retrieve.source r2) ->
      run = ([], Raise Exception)) /\
     (forall s, ssh_catalog_gpd <> [] ->
                (forall r, In r ssh_catalog_gpd -> Retrieve.source r = s) ->
                ~ In s ["gesla3"; "ioc"; "cmems"; "cmems-nrt"; "uhslc"; "psmsl-gnssir";
                        "rwsddl"; "gtsm3-era5-cds"] ->
                run = ([], Raise ValueError))).
Proof.
  split.
  - intros w source time_min time_max kw Hs. unfold Catalog.ssh_catalog_subset.
    destruct source as [s|]; [|reflexivity].
    rewrite assoc_None; [reflexivity | exact (Hs s eq_refl)].
  - intros. apply ssh_retrieve_data_refuses.
Qed.

Example dispatch_sample_refusals :
  Catalog.ssh_catalog_subset Catalog.world_sample (Some "gtsm") None None Catalog.no_kwargs
  = Raise ValueError /\
  Catalog.ssh_catalog_subset Catalog.world_sample None None None Catalog.no_kwargs
  = Raise ValueError /\
  Retrieve.ssh_retrieve_data Retrieve.no_data Retrieve.no_data Retrieve.no_data
    Retrieve.no_data Retrieve.no_data Retrieve.no_data Retrieve.no_data
    [Retrieve.mkStation (PyStr "SSC-abas") (PyStr "Abashiri") (PyStr "SSC-abas")
       "SSC-abas_Abashiri" (Geo.mkPoint 144 44) (PyStr "JP") "ssc" ∅] "out" None None
  = ([], Raise ValueError).
Proof. repeat split; vm_compute; reflexivity. Qed.

(** ** More on [_remove_accents] *)

Section AccentsMore.
Import Accents.

Variable NFKD : ustr -> ustr.
Hypothesis NFKD_ascii :
  forall s, Forall (fun c => is_ascii c = true) s -> NFKD s = s.

Lemma replace_o_stroke_only (s : ustr) :
  Forall (fun c => is_ascii c = true \/ c = o_stroke) s ->
  Forall (fun c => is_ascii c = true) (replace_char o_stroke latin_o s).
Proof.
  unfold replace_char. induction 1 as [|c s Hc _ IH]; simpl; constructor; [|exact IH].
  destruct (N.eqb_spec c o_stroke) as [->|Hne]; [reflexivity|].
  destruct Hc as [Hc|Hc]; [exact Hc | contradiction].
Qed.

(** X2. A name whose only letters outside ASCII are [ø] comes back with
    every [ø] replaced by [o], every other character in place, and no
    warning is logged. *)
Theorem remove_accents_o_stroke (input_str : ustr) :
  Forall (fun c => is_ascii c = true \/ c = o_stroke) input_str ->
  _remove_accents_logged NFKD input_str
  = (map (fun c => if (c =? o_stroke)%N then latin_o else c) input_str, []).
Proof.
  intros Hs. unfold _remove_accents_logged.
  pose proof (replace_o_stroke_only input_str Hs) as Hr.
  rewrite (NFKD_ascii _ Hr), (encode_ascii_ignore_id _ Hr).
  unfold replace_char. rewrite length_map.
  now rewrite bool_decide_eq_false_2 by (intros H; now apply H).
Qed.

End AccentsMore.

(** The property at "Tromsø", for the fragment of the decomposition. *)
Lemma remove_accents_o_stroke_witness :
  Accents._remove_accents_logged Accents.nfkd_fragment [84; 114; 111; 109; 115; 248]%N
  = ([84; 114; 111; 109; 115; 111]%N, []).
Proof.
  apply (remove_accents_o_stroke Accents.nfkd_fragment nfkd_fragment_ascii
           [84; 114; 111; 109; 115; 248]%N).
  repeat constructor; (left; reflexivity) || (right; reflexivity).
Defined.

(** ** More on the longitude shift *)

Section LonMore.
Import Float Geo.
Local Open Scope Q_scope.
#[local] Existing Instance rnd_comp.

Ltac consts :=
  change (inject_Z (-180)) with (-180) in *; change (inject_Z 180) with 180 in *;
  change (inject_Z 0) with 0 in *; change (inject_Z 360) with 360 in *.

(** X8. A longitude that is written with at most ten decimals, from
    -540 to 540, and given as the double nearest to it, is mapped to
    the double nearest to the decimal shifted by the whole turns that
    bring it into [-180, 180): nothing of the rounding errors of the
    sum and the difference is left. *)
Theorem lon_360_to_180_decimal (z k : Z) :
  let D := inject_Z z / scale10 in
  -540 <= D -> D <= 540 ->
  -180 <= D - 360 * inject_Z k -> D - 360 * inject_Z k < 180 ->
  _lon_360_to_180 (rnd D) == rnd (D - 360 * inject_Z k).
Proof.
  intros D Hlo Hhi Tlo Thi.
  assert (Hs : scale10 == 10000000000) by reflexivity.
  (* the shifted decimal has ten decimals: it is at most 180 - 1e-10 *)
  set (z' := (z - 360 * k * 10 ^ 10)%Z).
  assert (ET : D - 360 * inject_Z k == inject_Z z' / scale10).
  { unfold D, z'. unfold Z.sub. rewrite inject_Z_plus, inject_Z_opp, !inject_Z_mult.
    fold scale10. change (inject_Z 360) with 360. field. discriminate. }
  assert (Ez' : inject_Z z' == (D - 360 * inject_Z k) * scale10).
  { rewrite ET. field. discriminate. }
  assert (Hz' : (z' + 1 <= 180 * 10 ^ 10)%Z).
  { assert (H : (z' < 180 * 10 ^ 10)%Z); [|lia].
    rewrite Zlt_Qlt, Ez', inject_Z_mult. fold scale10. change (inject_Z 180) with 180.
    apply Qmult_lt_compat_r; [exact scale10_pos | exact Thi]. }
  assert (Thi' : D - 360 * inject_Z k <= 180 - (1 # 10000000000)).
  { rewrite Zle_Qle, inject_Z_plus, Ez', inject_Z_mult in Hz'. fold scale10 in Hz'.
    change (inject_Z 180) with 180 in Hz'. change (inject_Z 1) with 1 in Hz'.
    rewrite Hs in Hz'. Lqa.lra. }
  (* the turns *)
  assert (Hk : (-1 <= k <= 2)%Z).
  { assert (H1 : (k < 3)%Z)
      by (rewrite Zlt_Qlt; change (inject_Z 3) with 3; clear - Hhi Tlo; clearbody D; Lqa.lra).
    assert (H2 : (-2 < k)%Z).
      { rewrite Zlt_Qlt; change (inject_Z (-2)) with (-2); clear - Hlo Thi; clearbody D. Lqa.lra. }
    lia. }
  clearbody D.
  (* the longitude as a double *)
  set (lon := rnd D).
  assert (El : Qabs (lon - D) <= 2 ^ (-44)).
  { unfold lon. apply (rnd_error _ 9); [|lia].
    rewrite pow2_10. apply Qabs_Qlt_condition. split; Lqa.lra. }
  rewrite pow2_m44 in El.
  assert (Bl : inject_Z (360 * k - 180) <= lon /\ lon <= inject_Z 540).
  { unfold lon. apply (rnd_between (360 * k - 180) 540); [lia | reflexivity | |].
    - unfold Z.sub. rewrite inject_Z_plus, inject_Z_mult, inject_Z_opp.
      change (inject_Z 360) with 360. change (inject_Z 180) with 180. Lqa.lra.
    - exact Hhi. }
  destruct Bl as [Bl1 Bl2].
  unfold Z.sub in Bl1. rewrite inject_Z_plus, inject_Z_mult, inject_Z_opp in Bl1.
  change (inject_Z 360) with 360 in Bl1. change (inject_Z 180) with 180 in Bl1.
  change (inject_Z 540) with 540 in Bl2.
  assert (Hl : Qabs (lon + 180) < 1024) by (apply Qabs_Qlt_condition; split; Lqa.lra).
  set (a := add lon 180).
  assert (Ea : Qabs (a - (lon + 180)) <= 2 ^ (-44)).
  { unfold a, add. apply (rnd_error _ 9); [|lia]. now rewrite pow2_10. }
  rewrite pow2_m44 in Ea.
  assert (Ba : inject_Z (360 * k) <= a /\ a <= inject_Z 720).
  { unfold a, add. apply (rnd_between (360 * k) 720); [lia | reflexivity | |].
    - rewrite inject_Z_mult. change (inject_Z 360) with 360. Lqa.lra.
    - change (inject_Z 720) with 720. Lqa.lra. }
  destruct Ba as [Ba1 _]. rewrite inject_Z_mult in Ba1. change (inject_Z 360) with 360 in Ba1.
  assert (Tk : turns a = k).
  { apply turns_unique; [exact Ba1|].
    apply Qabs_Qle_condition in El as [? ?], Ea as [? ?]. Lqa.lra. }
  destruct (lon_shift_near lon Hl) as [Es [Slo Shi]]. cbv zeta in Es, Slo, Shi.
  fold a in Es, Slo, Shi. rewrite Tk in Es.
  unfold _lon_360_to_180. fold lon a. rewrite py_round_10.
  set (s := sub (py_mod a 360) 180) in *.
  rewrite ET. apply rnd_comp. apply decimal10_unique. rewrite <- ET.
  apply Qabs_Qlt_condition.
  apply Qabs_Qle_condition in El as [? ?], Es as [? ?]. split; Lqa.lra.
Qed.


End LonMore.

(** 314.463 degrees east is 45.537 degrees west. *)
Lemma lon_360_to_180_decimal_witness :
  (Geo._lon_360_to_180 (Float.rnd (inject_Z 3144630000000 / Float.scale10))
   == Float.rnd (inject_Z 3144630000000 / Float.scale10 - 360 * inject_Z 1))%Q.
Proof.
  apply (lon_360_to_180_decimal 3144630000000 1); vm_compute; congruence.
Defined.

(** ** More on the SSC catalog *)

Section SscMore.
Import Ssc.

(** The run of [ssc_ssh_subset_groups] for valid group names. *)
Lemma subset_groups_run (read_catalog : list ssc_row) (groups : names)
    (ssc_catalog_gpd : option (list ssc_row)) (rows : list ssc_row) :
  ssc_ssh_subset_groups read_catalog groups ssc_catalog_gpd = Ok rows ->
  Forall (fun g => g ∈ list_validgroups) (as_list groups) /\
  rows = List.filter
           (fun row => existsb (fun g => negb (length (ids_of g row) =? 0)%nat) (as_list groups))
           (match ssc_catalog_gpd with None => read_catalog | Some c => c end).
Proof.
  unfold ssc_ssh_subset_groups, _check_ssc_groups_valid. simpl as_list. intros H.
  destruct (decide (Forall (fun g => g ∈ list_validgroups) (as_list groups))) as [Hval|Hinv].
  - split; [exact Hval|].
    rewrite (check_groupnames_valid _ Hval) in H. simpl in H.
    destruct (mapM_id_column_valid _ Hval) as [cols [Hcols Hsum]].
    rewrite Hcols in H. simpl in H. injection H as <-.
    rewrite <- select_map_filter. f_equal.
    apply map_ext. intros row. now rewrite Hsum, sum_lengths_zero.
  - rewrite (check_groupnames_invalid _ Hinv) in H. discriminate H.
Qed.

Lemma subset_groups_valid (read_catalog : list ssc_row) (groups : names)
    (ssc_catalog_gpd : option (list ssc_row)) :
  Forall (fun g => g ∈ list_validgroups) (as_list groups) ->
  ssc_ssh_subset_groups read_catalog groups ssc_catalog_gpd
  = Ok (List.filter
          (fun row => existsb (fun g => negb (length (ids_of g row) =? 0)%nat) (as_list groups))
          (match ssc_catalog_gpd with None => read_catalog | Some c => c end)).
Proof.
  intros Hval. unfold ssc_ssh_subset_groups, _check_ssc_groups_valid. simpl as_list.
  rewrite (check_groupnames_valid _ Hval). simpl.
  destruct (mapM_id_column_valid _ Hval) as [cols [-> Hsum]]. simpl.
  f_equal. rewrite <- select_map_filter. f_equal.
  apply map_ext. intros row. now rewrite Hsum, sum_lengths_zero.
Qed.

Lemma filter_filter_weaker {A : Type} (f g : A -> bool) (l : list A) :
  (forall a, f a = true -> g a = true) ->
  List.filter f (List.filter g l) = List.filter f l.
Proof.
  intros Hfg. induction l as [|a l IH]; simpl; [reflexivity|].
  destruct (g a) eqn:Eg; simpl.
  - destruct (f a); now rewrite IH.
  - destruct (f a) eqn:Ef; [|exact IH].
    apply Hfg in Ef. congruence.
Qed.

Lemma sublist_List_filter {A : Type} (f : A -> bool) (l : list A) :
  sublist (List.filter f l) l.
Proof.
  induction l as [|a l IH]; simpl; [constructor|].
  destruct (f a); now constructor.
Qed.

(** X3. The station that [ssc_sscid_from_otherid] finds for an
    identifier of a group is one of the stations that
    [ssc_ssh_subset_groups] selects for that group, and it lists the
    identifier. *)
Theorem ssc_sscid_in_group_subset
    (ssc_catalog_pd : list ssc_row) (group_id : pyval) (groupname sscid : string) :
  ssc_sscid_from_otherid ssc_catalog_pd group_id groupname = Ok sscid ->
  exists rows row,
    ssc_ssh_subset_groups ssc_catalog_pd (OneName groupname) None = Ok rows /\
    In row rows /\ label row = sscid /\ In (str group_id) (ids_of groupname row).
Proof.
  intros H.
  assert (Hval : groupname ∈ list_validgroups).
  { destruct (decide (groupname ∈ list_validgroups)) as [Hv|Hv]; [exact Hv|].
    unfold ssc_sscid_from_otherid in H.
    rewrite (check_single_invalid _ Hv) in H. discriminate H. }
  rewrite (ssc_sscid_from_otherid_run _ _ _ Hval) in H. cbv zeta in H.
  destruct (length _ <? 1)%nat; [discriminate H|].
  destruct (1 <? length _)%nat; [discriminate H|].
  destruct (List.filter _ ssc_catalog_pd) as [|row rest] eqn:E; [discriminate H|].
  injection H as <-.
  assert (Hrow : In row (List.filter
                           (fun row => str_in (str group_id) (ids_of groupname row))
                           ssc_catalog_pd)) by (rewrite E; now left).
  apply filter_In in Hrow as [Hin Hid].
  apply str_in_true, list_elem_of_In in Hid.
  eexists. exists row. split.
  - apply subset_groups_valid. simpl. constructor; [exact Hval | constructor].
  - split; [|split; [reflexivity | exact Hid]].
    apply filter_In. split; [exact Hin|]. simpl.
    destruct (ids_of groupname row); [contradiction | reflexivity].
Qed.

(** X4. Subsets nest: when the catalog has been narrowed to some groups,
    narrowing the result to part of those groups gives what narrowing
    the catalog itself gives. In particular a subset is not changed by
    asking for the same groups again, and it holds rows of the catalog
    only, in their order. *)
Theorem ssc_ssh_subset_groups_nested
    (read_catalog catalog rows : list ssc_row) (groups fewer : names) :
  ssc_ssh_subset_groups read_catalog groups (Some catalog) = Ok rows ->
  (forall g, In g (as_list fewer) -> In g (as_list groups)) ->
  ssc_ssh_subset_groups read_catalog fewer (Some rows)
  = ssc_ssh_subset_groups read_catalog fewer (Some catalog) /\
  ssc_ssh_subset_groups read_catalog groups (Some rows) = Ok rows /\
  sublist rows catalog.
Proof.
  intros H Hsub. apply subset_groups_run in H as [Hval ->].
  assert (Hval' : Forall (fun g => g ∈ list_validgroups) (as_list fewer)).
  { apply List.Forall_forall. intros g Hg.
    apply (proj1 (List.Forall_forall _ _) Hval). now apply Hsub. }
  rewrite !(subset_groups_valid _ fewer _ Hval'), !(subset_groups_valid _ groups _ Hval).
  split; [|split].
  - f_equal. apply filter_filter_weaker. intros row Hrow.
    apply existsb_exists in Hrow as [g [Hg Hlen]].
    apply existsb_exists. exists g. split; [now apply Hsub | exact Hlen].
  - f_equal. apply filter_filter_weaker. auto.
  - apply sublist_List_filter.
Qed.

End SscMore.

(** The lookup of PSMSL station 2219 in the sample catalog. *)
Lemma ssc_sscid_in_group_subset_witness :
  exists rows row,
    Ssc.ssc_ssh_subset_groups Ssc.ssc_sample (OneName "psmsl") None = Ok rows /\
    In row rows /\ Ssc.label row = "SSC-abas" /\
    In (str (PyInt 2219)) (Ssc.ids_of "psmsl" row).
Proof.
  apply (ssc_sscid_in_group_subset Ssc.ssc_sample (PyInt 2219) "psmsl" "SSC-abas").
  vm_compute. reflexivity.
Defined.

(** The sample catalog narrowed to GLOSS and PSMSL, then to GLOSS. *)
Lemma ssc_ssh_subset_groups_nested_witness :
  Ssc.ssc_ssh_subset_groups [] (OneName "gloss") (Some [Ssc.ssc_abas; Ssc.ssc_acaj])
  = Ssc.ssc_ssh_subset_groups [] (OneName "gloss") (Some Ssc.ssc_sample) /\
  Ssc.ssc_ssh_subset_groups [] (NameList ["gloss"; "psmsl"])
                            (Some [Ssc.ssc_abas; Ssc.ssc_acaj])
  = Ok [Ssc.ssc_abas; Ssc.ssc_acaj] /\
  sublist [Ssc.ssc_abas; Ssc.ssc_acaj] Ssc.ssc_sample.
Proof.
  apply (ssc_ssh_subset_groups_nested [] Ssc.ssc_sample [Ssc.ssc_abas; Ssc.ssc_acaj]
           (NameList ["gloss"; "psmsl"]) (OneName "gloss")).
  - vm_compute. reflexivity.
  - simpl. intros g [<-|[]]. now left.
Defined.

(** ** More on the linked stations *)

Section LinkedMore.
Import Geo Ssc.

Lemma foldM_Raise_inv {A S : Type} (f : S -> A -> result S) (s : S) (l : list A) (e : exn) :
  foldM f s l = Raise e -> exists s' a, In a l /\ f s' a = Raise e.
Proof.
  revert s. induction l as [|a l IH]; intros s H; simpl in H; [discriminate H|].
  apply bind_Raise_inv in H as [H|[s1 [_ H]]].
  - exists s, a. split; [now left | exact H].
  - destruct (IH _ H) as [s' [a' [Hin Hf]]]. exists s', a'. split; [now right | exact Hf].
Qed.

Lemma with_dist_with_dist d dmin dmax d' dmin' dmax' (r : ssc_row) :
  with_dist d dmin dmax (with_dist d' dmin' dmax' r) = with_dist d dmin dmax r.
Proof. reflexivity. Qed.

Lemma apply_all_cells (steps : list (ssc_row * option (gmap string (Q * Q * R) * R * R)))
    (r : ssc_row) :
  apply_all steps r = r \/ exists d dmin dmax, apply_all steps r = with_dist d dmin dmax r.
Proof.
  unfold apply_all. revert r.
  induction steps as [|[row links] steps IH]; intros r; simpl; [now left|].
  assert (E : apply_links (label row) links r = r \/
              exists d dmin dmax, apply_links (label row) links r = with_dist d dmin dmax r).
  { unfold apply_links. destruct links as [[[d dmin] dmax]|]; [|now left].
    destruct (String.eqb (label r) (label row)); [right; eauto | now left]. }
  destruct E as [->|[d [dmin [dmax ->]]]]; [apply IH|].
  right. destruct (IH (with_dist d dmin dmax r)) as [->|[d' [dmin' [dmax' ->]]]]; eauto.
Qed.

(** X6. [ssc_add_linked_stations] returns the stations it was given, in
    their order: a returned row is the row of the catalog, or that row
    with its [dist_dict], [dist_min] and [dist_max] cells filled. *)
Theorem ssc_add_linked_stations_keeps_rows
    (uhslc_meta : uhslc_gdf) (ioc_service : string -> http_response)
    (ssc_catalog_gpd catalog' : list ssc_row) :
  ssc_add_linked_stations uhslc_meta ioc_service ssc_catalog_gpd = Ok catalog' ->
  Forall2 (fun row row' =>
             row' = row \/ exists d dmin dmax, row' = with_dist d dmin dmax row)
          ssc_catalog_gpd catalog'.
Proof.
  unfold ssc_add_linked_stations. intros H.
  apply bind_Ok_inv in H as [ioc_catalog_gpd [_ H]].
  apply add_linked_loop in H as [linkss [_ ->]].
  apply Forall2_map_r_In. intros row _. apply apply_all_cells.
Qed.

(** *** Identifiers that the linked catalogs do not hold *)

Lemma filter_label_unique (linked_gpd : linked_index) (linked_id : string) :
  NoDup (map fst linked_gpd) ->
  (length (List.filter (fun r => String.eqb (fst r) linked_id) linked_gpd) <= 1)%nat.
Proof.
  induction linked_gpd as [|[k g] l IH]; simpl; intros Hnd; [lia|].
  apply NoDup_cons in Hnd as [Hfresh Hnd].
  destruct (String.eqb_spec k linked_id) as [->|]; [|now apply IH].
  simpl.
  assert (E : List.filter (fun r => String.eqb (fst r) linked_id) l = []).
  { destruct (List.filter _ l) as [|[k' g'] rest] eqn:E; [reflexivity|].
    exfalso. apply Hfresh.
    assert (Hin : In (k', g') (List.filter (fun r => String.eqb (fst r) linked_id) l))
      by (rewrite E; now left).
    apply filter_In in Hin as [Hin Hk]. simpl in Hk. apply String.eqb_eq in Hk. subst k'.
    apply list_elem_of_In. apply in_map_iff. exists (linked_id, g'). now split. }
  rewrite E. simpl. lia.
Qed.

(** With distinct labels a lookup finds the row or raises [KeyError]. *)
Lemma loc_geometry_cases (linked_gpd : linked_index) (linked_id : string) :
  NoDup (map fst linked_gpd) ->
  (exists geom, loc_geometry linked_gpd linked_id = Ok geom) \/
  (loc_geometry linked_gpd linked_id = Raise KeyError /\
   ~ In linked_id (map fst linked_gpd)).
Proof.
  intros Hnd. pose proof (filter_label_unique linked_gpd linked_id Hnd) as Hlen.
  unfold loc_geometry.
  destruct (List.filter _ linked_gpd) as [|r [|r' rest]] eqn:E; simpl in Hlen; try lia.
  - right. split; [reflexivity|]. intros Hin.
    apply in_map_iff in Hin as [[k g] [Hk Hin]]. simpl in Hk. subst k.
    assert (X : In (linked_id, g) (List.filter (fun r => String.eqb (fst r) linked_id)
                                               linked_gpd)).
    { apply filter_In. split; [exact Hin|]. simpl. apply String.eqb_refl. }
    rewrite E in X. exact X.
  - left. eauto.
Qed.

Lemma link_ids_raises (x1 y1 : Q) (linked_name : string) (linked_gpd : linked_index)
    (ids : list string) (acc : check_state) (e : exn) :
  NoDup (map fst linked_gpd) ->
  foldM (link_one x1 y1 linked_name linked_gpd) acc ids = Raise e -> e = KeyError.
Proof.
  intros Hnd H. apply foldM_Raise_inv in H as [s' [linked_id [_ H]]].
  unfold link_one in H.
  destruct (loc_geometry_cases linked_gpd (lower linked_id) Hnd) as [[g Hg]|[Hg _]];
    rewrite Hg in H; simpl in H; [discriminate H | now injection H].
Qed.

(** The identifiers of a station that returned were all found. *)
Lemma station_links_found (uhslc_catalog_gpd : uhslc_gdf) (ioc_catalog_gpd : list ioc_row)
    (row : ssc_row) (links : option (gmap string (Q * Q * R) * R * R)) :
  station_links (linked_catalogs uhslc_catalog_gpd ioc_catalog_gpd) row = Ok links ->
  (forall linked_id, In linked_id (ioc row) ->
     In (lower linked_id) (map fst (ioc_linked ioc_catalog_gpd))) /\
  (forall linked_id, In linked_id (uhslc row) ->
     In (lower linked_id) (map fst (uhslc_linked uhslc_catalog_gpd))).
Proof.
  unfold station_links, linked_catalogs.
  set (x1 := x (geometry row)). set (y1 := y (geometry row)).
  set (gi := ioc_linked ioc_catalog_gpd). set (gu := uhslc_linked uhslc_catalog_gpd).
  intros H.
  apply bind_Ok_inv in H as [[d l] [Hfold _]].
  simpl in Hfold.
  apply bind_Ok_inv in Hfold as [acc1 [Hi Hfold]].
  apply bind_Ok_inv in Hfold as [acc2 [Hu _]].
  change (foldM (link_one x1 y1 "ioc" gi) (∅, []) (ioc row) = Ok acc1) in Hi.
  change (foldM (link_one x1 y1 "uhslc" gu) acc1 (uhslc row) = Ok acc2) in Hu.
  apply link_ids_spec in Hi as [geoms_i [HFi _]].
  apply link_ids_spec in Hu as [geoms_u [HFu _]].
  assert (Hall : forall gpd ids geoms,
            Forall2 (fun linked_id g => loc_geometry gpd (lower linked_id) = Ok g) ids geoms ->
            forall linked_id, In linked_id ids -> In (lower linked_id) (map fst gpd)).
  { intros gpd ids geoms HF. induction HF as [|i g ids geoms Hloc _ IH].
    - intros ? [].
    - intros i' [<-|Hi']; [|now apply IH].
      apply loc_geometry_Ok in Hloc as [Hin _].
      apply in_map_iff. exists (lower i, g). now split. }
  split; [apply (Hall _ _ _ HFi) | apply (Hall _ _ _ HFu)].
Qed.

(** A station raises [KeyError] or returns. *)
Lemma station_links_raises (uhslc_catalog_gpd : uhslc_gdf) (ioc_catalog_gpd : list ioc_row)
    (row : ssc_row) (e : exn) :
  NoDup (map fst (ioc_linked ioc_catalog_gpd)) ->
  NoDup (map fst (uhslc_linked uhslc_catalog_gpd)) ->
  station_links (linked_catalogs uhslc_catalog_gpd ioc_catalog_gpd) row = Raise e ->
  e = KeyError.
Proof.
  intros Hni Hnu. unfold station_links, linked_catalogs.
  set (x1 := x (geometry row)). set (y1 := y (geometry row)).
  set (gi := ioc_linked ioc_catalog_gpd) in *.
  set (gu := uhslc_linked uhslc_catalog_gpd) in *.
  intros H.
  apply bind_Raise_inv in H as [H|[[d l] [Hfold H]]].
  - simpl in H.
    apply bind_Raise_inv in H as [H|[acc1 [Hi H]]].
    + now apply (link_ids_raises x1 y1 "ioc" gi (ioc row) (∅, []) e Hni).
    + apply bind_Raise_inv in H as [H|[acc2 [_ H]]]; [|discriminate H].
      now apply (link_ids_raises x1 y1 "uhslc" gu (uhslc row) acc1 e Hnu).
  - exfalso. simpl in Hfold.
    apply bind_Ok_inv in Hfold as [acc1 [Hi Hfold]].
    apply bind_Ok_inv in Hfold as [acc2 [Hu Hfold]]. injection Hfold as ->.
    change (foldM (link_one x1 y1 "ioc" gi) (∅, []) (ioc row) = Ok acc1) in Hi.
    change (foldM (link_one x1 y1 "uhslc" gu) acc1 (uhslc row) = Ok (d, l)) in Hu.
    apply link_ids_spec in Hi as [geoms_i [HFi [Hli Hdi]]].
    apply link_ids_spec in Hu as [geoms_u [HFu [Hlu Hdu]]].
    simpl in Hli, Hlu, Hdi, Hdu.
    case_bool_decide as Hd; [discriminate H|].
    destruct l as [|d0 l0]; [|simpl in H; discriminate H].
    apply Hd, Hdu.
    rewrite Hli in Hlu. simpl in Hlu. symmetry in Hlu.
    apply app_eq_nil in Hlu as [Ei Eu].
    apply map_eq_nil in Ei, Eu. subst geoms_i geoms_u.
    inversion HFi as [Eioc|]. inversion HFu as [Euh|].
    split; [|reflexivity]. apply Hdi. split; [reflexivity | now symmetry].
Qed.

Lemma drop_duplicates_from_sublist (seen rows : list ioc_row) :
  sublist (drop_duplicates_from seen rows) rows.
Proof.
  revert seen. induction rows as [|r rows IH]; intros seen; simpl; [constructor|].
  destruct (existsb _ seen); now constructor.
Qed.

Lemma sublist_map_NoDup {A B : Type} (f : A -> B) (l k : list A) :
  sublist l k -> NoDup (map f k) -> NoDup (map f l).
Proof.
  intros Hs Hnd. eapply sublist_NoDup; [exact Hnd|]. now apply fmap_sublist.
Qed.

(** The labels of the linked IOC catalog are distinct when the codes of
    the station list are, without regard to case. *)
Lemma ioc_linked_labels (ioc_catalog_gpd : list ioc_row) :
  NoDup (map (fun r => lower (ioc_label r)) ioc_catalog_gpd) ->
  NoDup (map fst (ioc_linked ioc_catalog_gpd)).
Proof.
  intros H. unfold ioc_linked. rewrite map_map. simpl.
  apply (sublist_map_NoDup _ _ ioc_catalog_gpd); [apply drop_duplicates_from_sublist | exact H].
Qed.

(** With distinct index labels the loop over the stations fails where
    the links of a station fail. *)
Lemma add_linked_loop_raises (linked_dict : list (string * linked_index))
    (rows cur : list ssc_row) (e : exn) :
  NoDup (map label cur) ->
  foldM (add_linked_row linked_dict) cur rows = Raise e ->
  exists row, In row rows /\ station_links linked_dict row = Raise e.
Proof.
  revert cur. induction rows as [|row rows IH]; intros cur Hnd H; simpl in H;
    [discriminate H|].
  rewrite (add_linked_row_links _ _ _ Hnd) in H.
  apply bind_Raise_inv in H as [H|[cat1 [Hrow H]]].
  - apply bind_Raise_inv in H as [H|[links [_ H]]]; [|discriminate H].
    exists row. split; [now left | exact H].
  - apply bind_Ok_inv in Hrow as [links [_ Hrow]]. injection Hrow as <-.
    assert (Hnd' : NoDup (map label (map (apply_links (label row) links) cur)))
      by (now rewrite labels_apply_links).
    destruct (IH _ Hnd' H) as [r [Hr Hl]].
    exists r. split; [now right | exact Hl].
Qed.

(** X7. A link that cannot be followed aborts the call: when the station
    list is served, the index labels of the catalog and of the two linked
    catalogs (the IOC one after [drop_duplicates] and lowercasing) are
    distinct, and some station lists an IOC or UHSLC identifier that its
    linked catalog does not hold (IOC codes without regard to case),
    [ssc_add_linked_stations] raises [KeyError] and returns no catalog. *)
Theorem ssc_add_linked_stations_stale_link
    (uhslc_meta : uhslc_gdf) (ioc_service : string -> http_response)
    (ssc_catalog_gpd : list ssc_row) (ioc_catalog_gpd : list ioc_row)
    (row : ssc_row) (linked_id : string) :
  _ioc_get_json (ioc_service "all") = Ok ioc_catalog_gpd ->
  NoDup (map label ssc_catalog_gpd) ->
  NoDup (map fst (ioc_linked ioc_catalog_gpd)) ->
  NoDup (map fst (uhslc_linked (_uhslc_get_json uhslc_meta))) ->
  In row ssc_catalog_gpd ->
  (In linked_id (ioc row) /\
   ~ In (lower linked_id) (map fst (ioc_linked ioc_catalog_gpd))) \/
  (In linked_id (uhslc row) /\
   ~ In (lower linked_id) (map fst (uhslc_linked (_uhslc_get_json uhslc_meta)))) ->
  ssc_add_linked_stations uhslc_meta ioc_service ssc_catalog_gpd = Raise KeyError.
Proof.
  intros Hj Hnd Ni Nu Hrow Hstale. unfold ssc_add_linked_stations.
  rewrite Hj. simpl.
  set (uhslc_catalog_gpd := _uhslc_get_json uhslc_meta) in *.
  destruct (foldM _ ssc_catalog_gpd ssc_catalog_gpd) as [cat'|e] eqn:Hrun.
  - exfalso.
    apply add_linked_loop in Hrun as [linkss [HF _]].
    assert (Hlinks : exists links,
               station_links (linked_catalogs uhslc_catalog_gpd ioc_catalog_gpd) row
               = Ok links).
    { clear -HF Hrow. induction HF as [|r links rows linkss H0 _ IH]; [destruct Hrow|].
      destruct Hrow as [->|Hrow]; [eauto | now apply IH]. }
    destruct Hlinks as [links Hlinks].
    apply station_links_found in Hlinks as [Fi Fu].
    destruct Hstale as [[Hid Hno]|[Hid Hno]].
    + apply Hno, Fi, Hid.
    + apply Hno, Fu, Hid.
  - f_equal.
    apply (add_linked_loop_raises _ _ _ _ Hnd) in Hrun as [r [_ Hr]].
    now apply (station_links_raises uhslc_catalog_gpd ioc_catalog_gpd r e Ni Nu).
Qed.

End LinkedMore.

(** The sample catalog, linked: the rows are kept. *)
Lemma ssc_add_linked_stations_keeps_rows_witness :
  exists catalog',
    Ssc.ssc_add_linked_stations Ssc.uhslc_meta_sample Ssc.ioc_service_sample Ssc.ssc_sample
    = Ok catalog' /\
    Forall2 (fun row row' =>
               row' = row \/ exists d dmin dmax, row' = Ssc.with_dist d dmin dmax row)
            Ssc.ssc_sample catalog'.
Proof.
  eexists. split.
  - vm_compute. reflexivity.
  - apply (ssc_add_linked_stations_keeps_rows Ssc.uhslc_meta_sample Ssc.ioc_service_sample).
    vm_compute. reflexivity.
Defined.

(** The sample catalog against a station list that lacks the code
    ABAS2 and lists the station abas twice, once in capitals. *)
Lemma ssc_add_linked_stations_stale_link_witness :
  Ssc.ssc_add_linked_stations Ssc.uhslc_meta_sample
    (fun _ => Ssc.mkResponse 200 [Ssc.mkIoc "abas" 1 "Abashiri" "Japan" 144 44 0 10 0;
                                  Ssc.mkIoc "abas" 1 "Abashiri" "Japan" 144 44 0 10 0;
                                  Ssc.mkIoc "abur" 3 "Aburatsu" "Japan" 131 31 0 10 0])
    Ssc.ssc_sample
  = Raise KeyError.
Proof.
  eapply (ssc_add_linked_stations_stale_link _ _ _ _ Ssc.ssc_abas "ABAS2").
  - reflexivity.
  - apply (bool_decide_unpack _). vm_compute. exact I.
  - apply (bool_decide_unpack _). vm_compute. exact I.
  - apply (bool_decide_unpack _). vm_compute. exact I.
  - now left.
  - left. split; [right; now left|].
    intros Hin. vm_compute in Hin. intuition discriminate.
Defined.

(** ** More on the UHSLC and GESLA-3 series *)

Section SeriesMore.
Import Series Terms.

Lemma round_s_whole (t : Z) :
  (round_s t mod 1000000000 = 0)%Z /\ (Z.abs (round_s t - t) <= 500000000)%Z.
Proof.
  unfold round_s.
  pose proof (Z.div_mod t 1000000000 ltac:(lia)) as Hd.
  pose proof (Z.mod_pos_bound t 1000000000 ltac:(lia)) as Hm.
  set (q := (t / 1000000000)%Z) in *. set (r := (t mod 1000000000)%Z) in *.
  assert (Hq : forall k, ((k * 1000000000) mod 1000000000 = 0)%Z)
    by (intros k; apply Z_mod_mult).
  destruct (Z.ltb_spec (2 * r) 1000000000); [split; [apply Hq | lia]|].
  destruct (Z.ltb_spec 1000000000 (2 * r)); [split; [apply Hq | lia]|].
  destruct (Z.even q); split; try apply Hq; lia.
Qed.

Lemma fold_delete_lookup (keys : list string) (m : gmap string string) (k : string) :
  fold_left (fun a attr => delete attr a) keys m !! k
  = if bool_decide (k ∈ keys) then None else m !! k.
Proof.
  revert m. induction keys as [|k0 keys IH]; intros m.
  - cbn [fold_left]. case_bool_decide as H; [now apply elem_of_nil in H | reflexivity].
  - cbn [fold_left]. rewrite IH.
    destruct (decide (k ∈ keys)) as [Hin|Hin].
    + rewrite (bool_decide_eq_true_2 (k ∈ keys) Hin).
      rewrite (bool_decide_eq_true_2 (k ∈ k0 :: keys)); [reflexivity|].
      apply elem_of_cons. now right.
    + rewrite (bool_decide_eq_false_2 (k ∈ keys) Hin).
      destruct (decide (k0 = k)) as [->|Hne].
      * rewrite lookup_delete_eq.
        rewrite (bool_decide_eq_true_2 (k ∈ k :: keys)); [reflexivity|].
        apply elem_of_cons. now left.
      * rewrite lookup_delete_ne by exact Hne.
        rewrite (bool_decide_eq_false_2 (k ∈ k0 :: keys)); [reflexivity|].
        intros H. apply elem_of_cons in H as [H|H]; [now apply Hne | contradiction].
Qed.

(** Two texts that differ at a position. *)
Ltac str_ne n :=
  let E := fresh "E" in
  intros E; apply (f_equal (String.get n)) in E; vm_compute in E; discriminate E.

Ltac str_differs :=
  first [ str_ne 0%nat | str_ne 5%nat | str_ne 15%nat | str_ne 16%nat ].

Ltac skip_keys :=
  repeat first [ rewrite lookup_insert_ne by str_differs
               | rewrite lookup_delete_ne by str_differs ].

Lemma move_attrs_Ok (suffix : string) (attrs attrs' : gmap string string) :
  foldM (move_attr suffix) attrs renamed_attrs = Ok attrs' ->
  exists a p t,
    attrs !! "acknowledgement" = Some a /\ attrs !! "processing_level" = Some p /\
    attrs !! "title" = Some t /\
    attrs' = <[("title" ++ "_" ++ suffix)%string := t]>
               (delete "title"
                  (<[("processing_level" ++ "_" ++ suffix)%string := p]>
                     (delete "processing_level"
                        (<[("acknowledgement" ++ "_" ++ suffix)%string := a]>
                           (delete "acknowledgement" attrs))))).
Proof.
  unfold renamed_attrs. simpl. intros H.
  apply bind_Ok_inv in H as [m1 [H1 H]].
  apply bind_Ok_inv in H as [m2 [H2 H]].
  apply bind_Ok_inv in H as [m3 [H3 H]]. injection H as <-.
  unfold move_attr in H1, H2, H3.
  destruct (attrs !! "acknowledgement") as [a|] eqn:Ea; [|discriminate H1].
  injection H1 as <-.
  destruct (_ !! "processing_level") as [p|] eqn:Ep in H2; [|discriminate H2].
  injection H2 as <-.
  destruct (_ !! "title") as [t|] eqn:Et in H3; [|discriminate H3].
  injection H3 as <-.
  rewrite lookup_insert_ne, lookup_delete_ne in Ep by str_differs.
  rewrite lookup_insert_ne, lookup_delete_ne, lookup_insert_ne, lookup_delete_ne in Et
    by str_differs.
  exists a, p, t. auto.
Qed.

(** The attributes of the dataset that [_preprocess_uhslc_erddap]
    returns. *)
Lemma preprocess_uhslc_erddap_attrs (ds : erddap_ds) (out : uhslc_ds) :
  _preprocess_uhslc_erddap ds = Ok out ->
  (forall attr, In attr geospatial_attrs -> u_attrs out !! attr = None) /\
  exists dsid,
    global_attrs ds !! "id" = Some dsid /\
    (forall attr, In attr renamed_attrs ->
       u_attrs out !! attr = None /\
       is_Some (global_attrs ds !! attr) /\
       u_attrs out !! (attr ++ "_" ++ last_segment dsid)%string = global_attrs ds !! attr) /\
    (forall attr, ~ In attr geospatial_attrs -> ~ In attr renamed_attrs ->
       ~ In attr (map (fun a => (a ++ "_" ++ last_segment dsid)%string) renamed_attrs) ->
       u_attrs out !! attr = global_attrs ds !! attr).
Proof.
  unfold _preprocess_uhslc_erddap. intros H.
  apply bind_Ok_inv in H as [[] [_ H]].
  apply bind_Ok_inv in H as [[] [_ H]].
  apply bind_Ok_inv in H as [[] [_ H]].
  set (attrs := fold_left _ geospatial_attrs (global_attrs ds)) in H.
  destruct (attrs !! "id") as [dsid|] eqn:Hid; [|discriminate H].
  apply bind_Ok_inv in H as [attrs' [Hmove H]]. injection H as <-. simpl.
  apply move_attrs_Ok in Hmove as [a [p [t [Ha [Hp [Ht ->]]]]]].
  set (sfx := last_segment dsid).
  assert (G : forall k, attrs !! k
                        = if bool_decide (k ∈ geospatial_attrs) then None
                          else global_attrs ds !! k)
    by (intros k; apply fold_delete_lookup).
  assert (Gno : forall k, ~ In k geospatial_attrs -> attrs !! k = global_attrs ds !! k).
  { intros k Hk. rewrite G. rewrite bool_decide_eq_false_2; [reflexivity|].
    intros H. now apply Hk, list_elem_of_In. }
  split.
  - intros attr Hattr.
    assert (E : attrs !! attr = None).
    { rewrite G. rewrite bool_decide_eq_true_2; [reflexivity | now apply list_elem_of_In]. }
    simpl in Hattr.
    repeat (destruct Hattr as [<-|Hattr];
            [skip_keys; exact E|]).
    destruct Hattr.
  - exists dsid. split; [|split].
    + rewrite <- Gno; [exact Hid|].
      simpl. intros Hin. repeat (destruct Hin as [Hin|Hin]; [discriminate Hin|]). exact Hin.
    + intros attr Hattr.
      assert (N : forall k, In k renamed_attrs -> ~ In k geospatial_attrs).
      { intros k Hk Hin. simpl in Hk, Hin.
        repeat (destruct Hk as [<-|Hk];
                [repeat (destruct Hin as [Hin|Hin]; [discriminate Hin|]); exact Hin|]).
        exact Hk. }
      simpl in Hattr. destruct Hattr as [<-|[<-|[<-|[]]]].
      * rewrite <- (Gno "acknowledgement") by (apply N; simpl; tauto).
        rewrite Ha. split; [|split; [eauto|]].
        -- skip_keys. apply lookup_delete_eq.
        -- skip_keys. apply lookup_insert_eq.
      * rewrite <- (Gno "processing_level") by (apply N; simpl; tauto).
        rewrite Hp. split; [|split; [eauto|]].
        -- skip_keys. apply lookup_delete_eq.
        -- skip_keys. apply lookup_insert_eq.
      * rewrite <- (Gno "title") by (apply N; simpl; tauto).
        rewrite Ht. split; [|split; [eauto|]].
        -- skip_keys. apply lookup_delete_eq.
        -- apply lookup_insert_eq.
    + intros attr Hg Hr Hs. rewrite <- (Gno attr Hg).
      simpl in Hr, Hs.
      repeat first [ rewrite lookup_insert_ne by (intros <-; tauto)
                   | rewrite lookup_delete_ne by (intros <-; tauto) ].
      reflexivity.
Qed.

(** X11. What [_preprocess_uhslc_erddap] returns: water levels in metres,
    each the observed sea level divided by 1000, in the order of the
    observations; every time a whole second, at most half a second from
    the observed time; none of the eight geospatial attributes; and the
    attributes [acknowledgement], [processing_level] and [title] under
    their name followed by the last part of the dataset id. Any other
    attribute is kept. *)
Theorem preprocess_uhslc_erddap_result (ds : erddap_ds) (out : uhslc_ds) :
  _preprocess_uhslc_erddap ds = Ok out ->
  u_units out = "m" /\
  Forall2 (fun o s =>
             (time s mod 1000000000 = 0)%Z /\ (Z.abs (time s - fst o) <= 500000000)%Z /\
             waterlevel s = div1000 (snd o))
          (obs ds) (u_samples out) /\
  (forall attr, In attr geospatial_attrs -> u_attrs out !! attr = None) /\
  exists dsid,
    global_attrs ds !! "id" = Some dsid /\
    (forall attr, In attr renamed_attrs ->
       u_attrs out !! attr = None /\
       is_Some (global_attrs ds !! attr) /\
       u_attrs out !! (attr ++ "_" ++ last_segment dsid)%string = global_attrs ds !! attr) /\
    (forall attr, ~ In attr geospatial_attrs -> ~ In attr renamed_attrs ->
       ~ In attr (map (fun a => (a ++ "_" ++ last_segment dsid)%string) renamed_attrs) ->
       u_attrs out !! attr = global_attrs ds !! attr).
Proof.
  intros H. pose proof (preprocess_uhslc_erddap_attrs ds out H) as Hattrs.
  unfold _preprocess_uhslc_erddap in H.
  apply bind_Ok_inv in H as [[] [_ H]].
  apply bind_Ok_inv in H as [[] [_ H]].
  apply bind_Ok_inv in H as [[] [_ H]].
  destruct (_ !! "id") as [dsid|]; [|discriminate H].
  apply bind_Ok_inv in H as [attrs' [_ H]]. injection H as <-.
  split; [reflexivity|]. split; [|exact Hattrs].
  cbn [u_samples]. rewrite map_map.
  apply Forall2_map_r_In. intros [t0 v] _. simpl.
  destruct (round_s_whole t0). auto.
Qed.

Lemma oneds_unchanged (response : erddap_response) (ds_list : list uhslc_ds) :
  _uhslc_ssh_retrieve_data_oneds response ds_list = Ok ds_list <-> not_found response.
Proof.
  unfold _uhslc_ssh_retrieve_data_oneds, not_found. split.
  - destruct response as [raw|e].
    + intros H. apply bind_Ok_inv in H as [ds [_ H]]. injection H as H.
      apply (f_equal (@length _)) in H. rewrite length_app in H. simpl in H. lia.
    + destruct e; try discriminate.
      destruct (String.index 0 "code=404" msg) eqn:E; [|discriminate].
      intros _. exists msg. rewrite E. split; [reflexivity | eauto].
  - intros [msg [-> [n Hn]]]. now rewrite Hn.
Qed.

Lemma oneds_grows (response : erddap_response) (ds_list ds_list' : list uhslc_ds) :
  _uhslc_ssh_retrieve_data_oneds response ds_list = Ok ds_list' ->
  ds_list' = ds_list \/ exists ds, ds_list' = ds_list ++ [ds].
Proof.
  intros H. apply oneds_Ok in H as [[raw [ds [_ [_ ->]]]]|[msg [_ ->]]]; eauto.
Qed.

(** X12. [uhslc_ssh_retrieve_data] returns nothing exactly when each of
    the requests it makes (research quality, fast delivery) is answered
    with a 404 error; a research-quality request that fails in any
    other way ends the call with that failure. *)
Theorem uhslc_retrieve_nothing_iff_not_found
    (server : erddap_server) (uhslc_id : Z) (time_min time_max : option Z)
    (include_rqds include_fast : bool) :
  let rqds := server "global_hourly_rqds" uhslc_id time_min time_max in
  let fast := server "global_hourly_fast" uhslc_id time_min time_max in
  (uhslc_ssh_retrieve_data server uhslc_id time_min time_max include_rqds include_fast
   = Ok None
   <-> (include_rqds = true -> not_found rqds) /\ (include_fast = true -> not_found fast)) /\
  (forall e, include_rqds = true -> rqds = Failed e -> ~ not_found rqds ->
     uhslc_ssh_retrieve_data server uhslc_id time_min time_max include_rqds include_fast
     = Raise e).
Proof.
  intros rqds fast. unfold uhslc_ssh_retrieve_data. fold rqds fast. split; [split|].
  - intros H.
    apply bind_Ok_inv in H as [l1 [H1 H]].
    apply bind_Ok_inv in H as [l2 [H2 H]].
    destruct l2 as [|first rest]; [clear H|].
    2:{ apply bind_Ok_inv in H as [? [_ H]]. discriminate H. }
    assert (E1 : l1 = []).
    { destruct include_fast; [|now injection H2].
      apply oneds_grows in H2 as [H2|[ds H2]]; [now symmetry|].
      symmetry in H2. apply app_eq_nil in H2 as [_ H2]. discriminate H2. }
    subst l1. split; intros ->.
    + now apply (oneds_unchanged rqds []).
    + now apply (oneds_unchanged fast []).
  - intros [Hr Hf].
    assert (E1 : (if include_rqds then _uhslc_ssh_retrieve_data_oneds rqds [] else Ok [])
                 = Ok []).
    { destruct include_rqds; [|reflexivity]. apply oneds_unchanged. now apply Hr. }
    rewrite E1. simpl.
    assert (E2 : (if include_fast then _uhslc_ssh_retrieve_data_oneds fast [] else Ok [])
                 = Ok []).
    { destruct include_fast; [|reflexivity]. apply oneds_unchanged. now apply Hf. }
    rewrite E2. reflexivity.
  - intros e -> He Hnf.
    assert (E1 : _uhslc_ssh_retrieve_data_oneds rqds [] = Raise e).
    { unfold _uhslc_ssh_retrieve_data_oneds. rewrite He.
      destruct e; try reflexivity.
      destruct (String.index 0 "code=404" msg) eqn:E; [|reflexivity].
      exfalso. apply Hnf. exists msg. rewrite He, E. split; [reflexivity | eauto]. }
    rewrite E1. reflexivity.
Qed.

Lemma find_unique_time {A : Type} (time : A -> Z) (l : list A) (a : A) :
  List.NoDup (map time l) -> In a l ->
  List.find (fun s => (time s =? time a)%Z) l = Some a.
Proof.
  induction l as [|b l IH]; simpl; intros Hnd Hin; [destruct Hin|].
  apply List.NoDup_cons_iff in Hnd as [Hb Hnd].
  destruct Hin as [->|Hin]; [now rewrite Z.eqb_refl|].
  destruct (Z.eqb_spec (time b) (time a)) as [E|_]; [|now apply IH].
  exfalso. apply Hb. rewrite E. now apply in_map.
Qed.

(** X14. The times of the series that [gesla3_ssh_retrieve_data] returns:
    there is at least one, no time occurs twice, they are the times of
    the file that lie in the requested range, and the values at a time
    come from the first line of the file with that time, also when a
    later line with the same time has better quality. *)
Theorem gesla3_retrieve_times
    (zip : gmap string (list gesla_line)) (data : list gesla_line) (file_gesla : string)
    (time_min time_max : option Z) (ds : list gesla_sample) (ds_units : string) :
  zip !! file_gesla = Some data ->
  gesla3_ssh_retrieve_data (Some zip) file_gesla time_min time_max = Ok (Some (ds, ds_units)) ->
  ds <> [] /\ List.NoDup (map g_time ds) /\
  (forall t, In t (map g_time ds)
             <-> In t (map date_time data) /\ in_slice time_min time_max t = true) /\
  (forall s, In s ds ->
     exists line, List.find (fun l => (date_time l =? g_time s)%Z) data = Some line /\
                  g_waterlevel s = da_where (qc_flag line =? 1)%Z (sea_level line)).
Proof.
  intros Hdata H. unfold gesla3_ssh_retrieve_data in H. rewrite Hdata in H.
  apply bind_Ok_inv in H as [sel [Hsel H]].
  apply sel_time_slice_Ok in Hsel.
  destruct (length sel =? 0)%nat eqn:Hlen; [discriminate H|].
  injection H as <- _.
  assert (Ht : map g_time
                 (map (fun l => mkGeslaSample (date_time l)
                                  (da_where (qc_flag l =? 1)%Z (sea_level l))
                                  (da_where (qc_flag l =? 1)%Z (of_Z (qc_flag l)))
                                  (da_where (qc_flag l =? 1)%Z (of_Z (use_flag l)))) sel)
               = map date_time sel) by (rewrite map_map; reflexivity).
  split; [|split; [|split]].
  - destruct sel; [discriminate Hlen | discriminate].
  - rewrite Ht, Hsel.
    pose proof (keep_first_NoDup date_time [] data) as Hnd.
    clear -Hnd. induction (keep_first date_time [] data) as [|a l IH]; simpl; [constructor|].
    simpl in Hnd. apply List.NoDup_cons_iff in Hnd as [Ha Hl].
    destruct (in_slice _ _ _); [|now apply IH].
    simpl. apply List.NoDup_cons; [|now apply IH].
    intros Hin. apply Ha.
    apply in_map_iff in Hin as [b [Hb Hin]]. apply filter_In in Hin as [Hin _].
    apply in_map_iff. exists b. now split.
  - intros t. rewrite Ht, Hsel. split.
    + intros Hin. apply in_map_iff in Hin as [l [<- Hin]].
      apply filter_In in Hin as [Hin Hs]. split; [|exact Hs].
      apply keep_first_In in Hin as [Hin _]. now apply in_map.
    + intros [Hin Hs].
      apply (keep_first_times date_time [] data t) in Hin; [|intros []].
      apply in_map_iff in Hin as [l [<- Hin]].
      apply in_map_iff. exists l. split; [reflexivity|].
      apply filter_In. now split.
  - intros s Hs. apply in_map_iff in Hs as [l [<- Hl]]. simpl.
    rewrite Hsel in Hl. apply filter_In in Hl as [Hl _].
    exists l. split; [|reflexivity].
    rewrite <- (keep_first_find date_time [] data (date_time l)) by (intros []).
    apply find_unique_time; [apply keep_first_NoDup | exact Hl].
Qed.


Lemma drop_conflicts_lookup (a b : gmap string string) (k : string) :
  drop_conflicts a b !! k
  = match a !! k, b !! k with
    | Some u, Some v => if String.eqb u v then Some u else None
    | Some u, None => Some u
    | None, y => y
    end.
Proof.
  unfold drop_conflicts. rewrite lookup_merge.
  destruct (a !! k), (b !! k); reflexivity.
Qed.

(** X13. When both the research-quality and the fast-delivery dataset
    of a station are retrieved, the merged dataset holds the
    acknowledgement, the processing level and the title of each of
    them, under the name of the attribute followed by [_rqds] or
    [_fast]; the attributes of these names themselves and the dataset
    id, on which the two datasets differ, are not in it. *)
Theorem uhslc_merged_attributes
    (server : erddap_server) (uhslc_id : Z) (time_min time_max : option Z)
    (raw_rqds raw_fast : erddap_ds) (ds : uhslc_ds) :
  server "global_hourly_rqds" uhslc_id time_min time_max = Data raw_rqds ->
  server "global_hourly_fast" uhslc_id time_min time_max = Data raw_fast ->
  global_attrs raw_rqds !! "id" = Some "global_hourly_rqds" ->
  global_attrs raw_fast !! "id" = Some "global_hourly_fast" ->
  (forall attr, In attr renamed_attrs ->
     global_attrs raw_fast !! (attr ++ "_rqds")%string = None /\
     global_attrs raw_rqds !! (attr ++ "_fast")%string = None) ->
  uhslc_ssh_retrieve_data server uhslc_id time_min time_max true true = Ok (Some ds) ->
  (forall attr, In attr renamed_attrs ->
     is_Some (global_attrs raw_rqds !! attr) /\
     u_attrs ds !! (attr ++ "_rqds")%string = global_attrs raw_rqds !! attr /\
     is_Some (global_attrs raw_fast !! attr) /\
     u_attrs ds !! (attr ++ "_fast")%string = global_attrs raw_fast !! attr /\
     u_attrs ds !! attr = None) /\
  u_attrs ds !! "id" = None.
Proof.
  intros Srq Sfd Irq Ifd Hfree H. unfold uhslc_ssh_retrieve_data in H.
  rewrite Srq, Sfd in H.
  apply bind_Ok_inv in H as [l1 [H1 H]].
  apply bind_Ok_inv in H as [l2 [H2 H]].
  unfold _uhslc_ssh_retrieve_data_oneds in H1, H2.
  apply bind_Ok_inv in H1 as [rq [Prq H1]]. injection H1 as <-.
  apply bind_Ok_inv in H2 as [fd [Pfd H2]]. injection H2 as <-.
  simpl in H. apply bind_Ok_inv in H as [cat [Hcat H]]. injection H as <-.
  simpl in Hcat. case_bool_decide; [|discriminate Hcat]. injection Hcat as <-. simpl.
  destruct (preprocess_uhslc_erddap_attrs raw_rqds rq Prq)
    as [_ [id_rq [Eid_rq [Rrq Orq]]]].
  destruct (preprocess_uhslc_erddap_attrs raw_fast fd Pfd)
    as [_ [id_fd [Eid_fd [Rfd Ofd]]]].
  rewrite Irq in Eid_rq. injection Eid_rq as <-.
  rewrite Ifd in Eid_fd. injection Eid_fd as <-.
  change (last_segment "global_hourly_rqds") with "rqds" in Rrq, Orq.
  change (last_segment "global_hourly_fast") with "fast" in Rfd, Ofd.
  change ("_" ++ "rqds")%string with "_rqds" in Rrq, Orq.
  change ("_" ++ "fast")%string with "_fast" in Rfd, Ofd.
  assert (Nin : forall (k : string) (l : list string),
             forallb (fun x => negb (String.eqb x k)) l = true -> ~ In k l).
  { intros k l Hl Hin. apply (proj1 (forallb_forall _ _) Hl) in Hin.
    now rewrite String.eqb_refl in Hin. }
  split.
  - intros attr Hattr.
    destruct (Rrq attr Hattr) as [Nrq [Srq' Vrq]].
    destruct (Rfd attr Hattr) as [Nfd [Sfd' Vfd]].
    destruct (Hfree attr Hattr) as [Ffd Frq].
    split; [exact Srq'|]. split; [|split; [exact Sfd'|split]].
    + rewrite drop_conflicts_lookup, Vrq.
      rewrite Ofd, Ffd; [now destruct (global_attrs raw_rqds !! attr)|..];
        simpl in Hattr; destruct Hattr as [<-|[<-|[<-|[]]]]; apply Nin; reflexivity.
    + rewrite drop_conflicts_lookup, Vfd.
      rewrite Orq, Frq; [reflexivity|..];
        simpl in Hattr; destruct Hattr as [<-|[<-|[<-|[]]]]; apply Nin; reflexivity.
    + now rewrite drop_conflicts_lookup, Nrq, Nfd.
  - rewrite drop_conflicts_lookup.
    rewrite Orq, Ofd, Irq, Ifd by (apply Nin; reflexivity). reflexivity.
Qed.

End SeriesMore.

(** The research-quality sample dataset, preprocessed. *)
Lemma preprocess_uhslc_erddap_result_witness :
  exists out,
    Series._preprocess_uhslc_erddap Series.erddap_rqds_sample = Ok out /\
    Series.u_units out = "m" /\
    Forall2 (fun o s =>
               (Series.time s mod 1000000000 = 0)%Z /\
               (Z.abs (Series.time s - fst o) <= 500000000)%Z /\
               Series.waterlevel s = Series.div1000 (snd o))
            (Series.obs Series.erddap_rqds_sample) (Series.u_samples out) /\
    (forall attr, In attr Series.geospatial_attrs -> Series.u_attrs out !! attr = None) /\
    exists dsid,
      Series.global_attrs Series.erddap_rqds_sample !! "id" = Some dsid /\
      (forall attr, In attr Terms.renamed_attrs ->
         Series.u_attrs out !! attr = None /\
         is_Some (Series.global_attrs Series.erddap_rqds_sample !! attr) /\
         Series.u_attrs out !! (attr ++ "_" ++ Series.last_segment dsid)%string
         = Series.global_attrs Series.erddap_rqds_sample !! attr) /\
      (forall attr, ~ In attr Series.geospatial_attrs -> ~ In attr Terms.renamed_attrs ->
         ~ In attr (map (fun a => (a ++ "_" ++ Series.last_segment dsid)%string)
                        Terms.renamed_attrs) ->
         Series.u_attrs out !! attr
         = Series.global_attrs Series.erddap_rqds_sample !! attr).
Proof.
  eexists. split.
  - vm_compute. reflexivity.
  - apply (preprocess_uhslc_erddap_result Series.erddap_rqds_sample).
    vm_compute. reflexivity.
Defined.

(** The sample archive: the second line has the time of the third. *)
Lemma gesla3_retrieve_times_witness :
  exists ds ds_units,
    Series.gesla3_ssh_retrieve_data (Some Series.gesla_zip_sample) "abashiri-347a-jpn-uhslc"
                                    (Some 0%Z) (Some 3600%Z)
    = Ok (Some (ds, ds_units)) /\
    (ds <> [] /\ List.NoDup (map Series.g_time ds) /\
     (forall t, In t (map Series.g_time ds)
                <-> In t (map Series.date_time
                              [Series.mkGeslaLine 0 (Some 1.25%Q) 1 1;
                               Series.mkGeslaLine 3600 (Some (-99.9999)%Q) 3 0;
                               Series.mkGeslaLine 3600 (Some 1.5%Q) 1 1;
                               Series.mkGeslaLine 7200 (Some 1.75%Q) 1 1]) /\
                    Series.in_slice (Some 0%Z) (Some 3600%Z) t = true) /\
     (forall s, In s ds ->
        exists line,
          List.find (fun l => (Series.date_time l =? Series.g_time s)%Z)
                    [Series.mkGeslaLine 0 (Some 1.25%Q) 1 1;
                     Series.mkGeslaLine 3600 (Some (-99.9999)%Q) 3 0;
                     Series.mkGeslaLine 3600 (Some 1.5%Q) 1 1;
                     Series.mkGeslaLine 7200 (Some 1.75%Q) 1 1] = Some line /\
          Series.g_waterlevel s
          = Series.da_where (Series.qc_flag line =? 1)%Z (Series.sea_level line))).
Proof.
  eexists. eexists. split.
  - vm_compute. reflexivity.
  - apply (gesla3_retrieve_times Series.gesla_zip_sample _ "abashiri-347a-jpn-uhslc"
             (Some 0%Z) (Some 3600%Z) _ "m").
    + vm_compute. reflexivity.
    + vm_compute. reflexivity.
Defined.

(** The two sample datasets of station 347, merged. *)
Lemma uhslc_merged_attributes_witness :
  exists ds,
    Series.uhslc_ssh_retrieve_data Series.erddap_server_sample 347 None None true true
    = Ok (Some ds) /\
    ((forall attr, In attr Terms.renamed_attrs ->
        is_Some (Series.global_attrs Series.erddap_rqds_sample !! attr) /\
        Series.u_attrs ds !! (attr ++ "_rqds")%string
        = Series.global_attrs Series.erddap_rqds_sample !! attr /\
        is_Some (Series.global_attrs Series.erddap_fast_sample !! attr) /\
        Series.u_attrs ds !! (attr ++ "_fast")%string
        = Series.global_attrs Series.erddap_fast_sample !! attr /\
        Series.u_attrs ds !! attr = None) /\
     Series.u_attrs ds !! "id" = None).
Proof.
  eexists. split.
  - vm_compute. reflexivity.
  - apply (uhslc_merged_attributes Series.erddap_server_sample 347 None None
             Series.erddap_rqds_sample Series.erddap_fast_sample).
    + reflexivity.
    + reflexivity.
    + vm_compute. reflexivity.
    + vm_compute. reflexivity.
    + intros attr Hattr. simpl in Hattr.
      destruct Hattr as [<-|[<-|[<-|[]]]]; split; vm_compute; reflexivity.
    + vm_compute. reflexivity.
Defined.

(** ** More on [_make_hydrotools_consistent] *)

Section HydrotoolsMore.
Import Xr Retrieve Terms.
#[local] Set Warnings "-clear-no-such-hyp".

(** The run of [_make_hydrotools_consistent] on a dataset that passes
    its checks. *)
Lemma make_hydrotools_consistent_run (ds : Dataset) (waterlevel : DataArray)
    (a1 a2 a3 a4 : attr) (da1 da2 : DataArray) :
  in_variables "time" ds = true -> in_dims "time" ds = true ->
  variables ds !! "waterlevel" = Some waterlevel -> ("waterlevel" ∉ coord_names ds) ->
  attrs waterlevel !! "units" = Some (AStr "m") ->
  ds_attrs ds !! "station_name" = Some a1 -> astype_S64 a1 = Ok da1 ->
  ds_attrs ds !! "station_id" = Some a2 -> astype_S64 a2 = Ok da2 ->
  ds_attrs ds !! "longitude" = Some a3 -> ds_attrs ds !! "latitude" = Some a4 ->
  _make_hydrotools_consistent ds
  = Ok (mkDataset
          (<["station_y_coordinate" :=
               da_assign_attrs [("standard_name", AStr "latitude");
                                ("units", AStr "degrees_north")] (scalar a4)]>
             (<["station_x_coordinate" :=
                  da_assign_attrs [("standard_name", AStr "longitude");
                                   ("units", AStr "degrees_east")] (scalar a3)]>
                (<["station_id" := da2]> (<["station_name" := da1]> (variables ds)))))
          (coord_names ds ∪ list_to_set station_coords)
          (ds_attrs ds)).
Proof.
  intros Htime Hdim Hwl Hnc Hunits H1 Hd1 H2 Hd2 H3 H4.
  unfold _make_hydrotools_consistent.
  rewrite Htime, Hdim. simpl.
  assert (Hdv : in_data_vars "waterlevel" ds = true).
  { unfold in_data_vars, in_variables. rewrite Hwl.
    rewrite bool_decide_eq_true_2 by eauto.
    now rewrite bool_decide_eq_false_2. }
  rewrite Hdv. simpl.
  unfold getitem. rewrite Hwl. simpl. rewrite Hunits. simpl.
  unfold getattr. simpl. rewrite H1. simpl. rewrite Hd1. simpl.
  rewrite H2. simpl. rewrite Hd2. simpl. rewrite H3. simpl. rewrite H4. simpl.
  unfold set_coords, setitem. cbn [variables coord_names ds_attrs].
  match goal with
  | |- (if ?b then _ else _) = _ => assert (E : b = true); [|rewrite E; reflexivity]
  end.
  cbn [forallb]. unfold in_variables. cbn [variables].
  rewrite !bool_decide_eq_true_2; [reflexivity | simplify_map_eq; eauto ..].
Qed.

Lemma make_hydrotools_consistent_Ok (ds ds' : Dataset) :
  _make_hydrotools_consistent ds = Ok ds' ->
  exists waterlevel a1 a2 a3 a4 da1 da2,
    in_variables "time" ds = true /\ in_dims "time" ds = true /\
    variables ds !! "waterlevel" = Some waterlevel /\ ("waterlevel" ∉ coord_names ds) /\
    attrs waterlevel !! "units" = Some (AStr "m") /\
    ds_attrs ds !! "station_name" = Some a1 /\ astype_S64 a1 = Ok da1 /\
    ds_attrs ds !! "station_id" = Some a2 /\ astype_S64 a2 = Ok da2 /\
    ds_attrs ds !! "longitude" = Some a3 /\ ds_attrs ds !! "latitude" = Some a4.
Proof.
  intros H. unfold _make_hydrotools_consistent in H.
  apply bind_Ok_inv in H as [u1 [Htime H]]. apply py_assert_Ok in Htime.
  apply bind_Ok_inv in H as [u2 [Hdim H]]. apply py_assert_Ok in Hdim.
  apply bind_Ok_inv in H as [u3 [Hdv H]]. apply py_assert_Ok in Hdv.
  apply bind_Ok_inv in H as [wl [Hwl H]]. apply getitem_Ok in Hwl.
  destruct (attrs wl !! "units") as [units|] eqn:Hunits; [|discriminate H].
  apply bind_Ok_inv in H as [u4 [Hm H]]. apply py_assert_Ok in Hm.
  destruct units as [u| |]; try discriminate Hm. apply String.eqb_eq in Hm. subst u.
  apply bind_Ok_inv in H as [a1 [Ha1 H]]. apply getattr_Ok in Ha1.
  apply bind_Ok_inv in H as [da1 [Hda1 H]].
  apply bind_Ok_inv in H as [a2 [Ha2 H]]. apply getattr_Ok in Ha2.
  apply bind_Ok_inv in H as [da2 [Hda2 H]].
  apply bind_Ok_inv in H as [a3 [Ha3 H]]. apply getattr_Ok in Ha3.
  apply bind_Ok_inv in H as [a4 [Ha4 H]]. apply getattr_Ok in Ha4.
  simpl in Ha1, Ha2, Ha3, Ha4.
  unfold in_data_vars in Hdv. apply andb_true_iff in Hdv as [_ Hnc].
  apply negb_true_iff, bool_decide_eq_false in Hnc.
  exists wl, a1, a2, a3, a4, da1, da2. repeat split; assumption.
Qed.

(** X1. [_make_hydrotools_consistent] leaves the attributes of the
    dataset and every variable but the four station coordinates as they
    are, adds those four names to the coordinates, and, for a dataset
    whose time variable lies along the time dimension, gives its own
    result back when applied to it. *)
Theorem make_hydrotools_consistent_idempotent (ds ds' : Dataset) :
  time_is_index ds ->
  _make_hydrotools_consistent ds = Ok ds' ->
  ds_attrs ds' = ds_attrs ds /\
  (forall k, ~ In k station_coords -> variables ds' !! k = variables ds !! k) /\
  coord_names ds' = coord_names ds ∪ list_to_set station_coords /\
  _make_hydrotools_consistent ds' = Ok ds'.
Proof.
  intros Hidx H.
  destruct (make_hydrotools_consistent_Ok ds ds' H)
    as (wl & a1 & a2 & a3 & a4 & da1 & da2 & Htime & Hdim & Hwl & Hnc & Hunits &
        H1 & Hd1 & H2 & Hd2 & H3 & H4).
  rewrite (make_hydrotools_consistent_run ds wl a1 a2 a3 a4 da1 da2) in H by assumption.
  injection H as <-. simpl.
  split; [reflexivity|]. split; [|split; [reflexivity|]].
  - intros k Hk. simpl in Hk.
    rewrite !lookup_insert_ne; [reflexivity | intros <-; tauto ..].
  - erewrite (make_hydrotools_consistent_run _ wl a1 a2 a3 a4 da1 da2); simpl.
    + f_equal. f_equal.
      * apply map_eq. intros k.
        destruct (decide (k = "station_y_coordinate")) as [->|Ny]; [now simplify_map_eq|].
        destruct (decide (k = "station_x_coordinate")) as [->|Nx]; [now simplify_map_eq|].
        destruct (decide (k = "station_id")) as [->|Ni]; [now simplify_map_eq|].
        destruct (decide (k = "station_name")) as [->|Nn]; [now simplify_map_eq|].
        now simplify_map_eq.
      * unfold station_coords. set_solver.
    + unfold in_variables in *. simpl.
      apply bool_decide_eq_true. apply bool_decide_eq_true in Htime.
      now simplify_map_eq.
    + apply in_dims_iff. simpl.
      unfold in_variables in Htime. apply bool_decide_eq_true in Htime.
      destruct Htime as [vt Hvt].
      exists "time", vt. split; [now simplify_map_eq|].
      now apply (Hidx vt Hvt).
    + now simplify_map_eq.
    + unfold station_coords. set_solver.
    + exact Hunits.
    + exact H1.
    + exact Hd1.
    + exact H2.
    + exact Hd2.
    + exact H3.
    + exact H4.
Qed.

End HydrotoolsMore.

(** The property at a series of two samples. *)
Lemma make_hydrotools_consistent_idempotent_witness :
  exists ds',
    Retrieve._make_hydrotools_consistent Terms.hydrotools_sample = Ok ds' /\
    (Xr.ds_attrs ds' = Xr.ds_attrs Terms.hydrotools_sample /\
     (forall k, ~ In k Terms.station_coords ->
                Xr.variables ds' !! k = Xr.variables Terms.hydrotools_sample !! k) /\
     Xr.coord_names ds' = Xr.coord_names Terms.hydrotools_sample ∪ list_to_set Terms.station_coords /\
     Retrieve._make_hydrotools_consistent ds' = Ok ds').
Proof.
  eexists. split.
  - vm_compute. reflexivity.
  - apply (make_hydrotools_consistent_idempotent Terms.hydrotools_sample).
    + apply series_dataset_time_is_index.
    + vm_compute. reflexivity.
Defined.

(** ** Numbers in names *)

Section TextProps.
Import Text.

Lemma append_String (c : ascii) (s t : string) :
  (String c s ++ t)%string = String c (s ++ t)%string.
Proof. reflexivity. Qed.

Lemma append_empty (t : string) : (EmptyString ++ t)%string = t.
Proof. reflexivity. Qed.

Lemma string_app_assoc (s t u : string) : ((s ++ t) ++ u = s ++ (t ++ u))%string.
Proof.
  induction s as [|c s IH]; [reflexivity|].
  now rewrite !append_String, IH.
Qed.

Lemma string_app_length (s t : string) :
  String.length (s ++ t)%string = (String.length s + String.length t)%nat.
Proof.
  induction s as [|c s IH]; [reflexivity|].
  rewrite append_String. simpl. now rewrite IH.
Qed.

Lemma pretty_N_char_digit (d : N) :
  (d < 10)%N -> is_digit (pretty_N_char d) = true /\ digit_value (pretty_N_char d) = d.
Proof.
  intros Hd.
  assert (H : (d = 0 \/ d = 1 \/ d = 2 \/ d = 3 \/ d = 4 \/ d = 5 \/ d = 6 \/ d = 7 \/
               d = 8 \/ d = 9)%N) by lia.
  repeat (destruct H as [->|H]; [split; reflexivity|]). subst d. split; reflexivity.
Qed.

Lemma pretty_N_go_app (x : N) (s t : string) :
  (pretty_N_go x s ++ t)%string = pretty_N_go x (s ++ t).
Proof.
  revert s. induction (N.lt_wf_0 x) as [x _ IH]; intros s.
  destruct (N.eq_dec x 0%N) as [->|Hx]; [now rewrite !pretty_N_go_0|].
  rewrite !(pretty_N_go_step x) by lia.
  rewrite IH by (apply N.div_lt; lia). now rewrite append_String.
Qed.

Lemma parse_pretty_N_go (x : N) (s : string) :
  parse_digits 0 (pretty_N_go x s) = parse_digits x s.
Proof.
  revert s. induction (N.lt_wf_0 x) as [x _ IH]; intros s.
  destruct (N.eq_dec x 0%N) as [->|Hx]; [now rewrite pretty_N_go_0|].
  rewrite (pretty_N_go_step x) by lia.
  rewrite IH by (apply N.div_lt; lia). simpl.
  destruct (pretty_N_char_digit (x mod 10)) as [-> ->]; [apply N.mod_lt; lia|].
  f_equal. rewrite (N.div_mod x 10) at 3 by lia. lia.
Qed.

(** The digits of a number, followed by any text, spell the number. *)
Lemma parse_pretty_N (x : N) (t : string) :
  parse_digits 0 (pretty x ++ t) = parse_digits x t.
Proof.
  unfold pretty, pretty_N. destruct (decide (x = 0%N)) as [->|Hx]; [reflexivity|].
  rewrite pretty_N_go_app, append_empty. apply parse_pretty_N_go.
Qed.

Lemma parse_zeros (n : nat) (s : string) :
  parse_digits 0 (zeros n ++ s) = parse_digits 0 s.
Proof.
  induction n as [|n IH]; [reflexivity|].
  simpl zeros. rewrite append_String. simpl. exact IH.
Qed.

Lemma parse_zfill (width : nat) (x : N) (t : string) :
  parse_digits 0 (zfill width (pretty x) ++ t) = parse_digits x t.
Proof.
  unfold zfill. rewrite string_app_assoc, parse_zeros. apply parse_pretty_N.
Qed.

End TextProps.

(** ** The unique names of the SSC catalog *)

Section SscReadProps.
Import Accents SscRead.

Lemma is_alnum_not_dash (c : N) : is_alnum c = true -> c <> dash.
Proof. intros H ->. discriminate H. Qed.

Lemma sub_non_alnum_chars (in_run : bool) (x : ustr) :
  Forall (fun c => is_alnum c = true \/ c = dash) (sub_non_alnum in_run x).
Proof.
  revert in_run. induction x as [|c x IH]; intros in_run; simpl; [constructor|].
  destruct (is_alnum c) eqn:E; [constructor; [now left | apply IH]|].
  destruct in_run; [apply IH | constructor; [now right | apply IH]].
Qed.

Lemma sub_non_alnum_alnum (in_run : bool) (x : ustr) :
  List.filter is_alnum (sub_non_alnum in_run x) = List.filter is_alnum x.
Proof.
  revert in_run. induction x as [|c x IH]; intros in_run; simpl; [reflexivity|].
  destruct (is_alnum c) eqn:E; [simpl; rewrite E; f_equal; apply IH|].
  destruct in_run; [apply IH | simpl; apply IH].
Qed.

(** After the substitution no two dashes stand in a row, and a run that
    had started gives no dash at the start. *)
Lemma sub_non_alnum_dashes (in_run : bool) (x : ustr) :
  (in_run = true -> forall rest, sub_non_alnum in_run x <> dash :: rest) /\
  (forall pre post, sub_non_alnum in_run x <> pre ++ dash :: dash :: post).
Proof.
  revert in_run. induction x as [|c x IH]; intros in_run; simpl.
  - split; [discriminate|]. intros [|? ?] ?; discriminate.
  - destruct (is_alnum c) eqn:E.
    + destruct (IH false) as [_ IH2]. split.
      * intros _ rest H. injection H as H _. now apply (is_alnum_not_dash c E).
      * intros [|d pre] post H; simpl in H; injection H as Hc H.
        -- now apply (is_alnum_not_dash c E).
        -- now apply (IH2 pre post).
    + destruct (IH true) as [IH1 IH2]. destruct in_run.
      * split; [intros _; now apply IH1 | exact IH2].
      * split; [discriminate|].
        intros [|d pre] post H; simpl in H.
        -- injection H as H. now apply (IH1 eq_refl post).
        -- injection H as _ H. now apply (IH2 pre post).
Qed.

Lemma lstrip_spec (c : N) (s : ustr) :
  exists t, s = t ++ lstrip c s /\ Forall (fun d => d = c) t /\
            forall rest, lstrip c s <> c :: rest.
Proof.
  induction s as [|d s IH]; simpl; [|destruct IH as [t [E [Ht Hh]]]].
  - exists []. split; [reflexivity|]. split; [constructor | discriminate].
  - destruct (N.eqb_spec d c) as [->|Hne].
    + exists (c :: t). split; [simpl; now f_equal|]. split; [now constructor | exact Hh].
    + exists []. split; [reflexivity|]. split; [constructor|].
      intros rest H. injection H as H _. contradiction.
Qed.

Lemma rstrip_spec (c : N) (s : ustr) :
  exists t, s = rstrip c s ++ t /\ Forall (fun d => d = c) t /\
            forall rest, rstrip c s <> rest ++ [c].
Proof.
  unfold rstrip. destruct (lstrip_spec c (rev s)) as [t [E [Ht Hh]]].
  exists (rev t). split; [|split].
  - rewrite <- rev_app_distr, <- E. now rewrite rev_involutive.
  - now apply Forall_rev.
  - intros rest H. apply (f_equal (@rev N)) in H.
    rewrite rev_involutive, rev_app_distr in H. simpl in H. now apply (Hh (rev rest)).
Qed.

Lemma strip_spec (c : N) (s : ustr) :
  exists t1 t2, s = t1 ++ strip c s ++ t2 /\
                Forall (fun d => d = c) t1 /\ Forall (fun d => d = c) t2 /\
                (forall rest, strip c s <> c :: rest) /\
                (forall rest, strip c s <> rest ++ [c]).
Proof.
  unfold strip.
  destruct (lstrip_spec c s) as [t1 [E1 [H1 Hh]]].
  destruct (rstrip_spec c (lstrip c s)) as [t2 [E2 [H2 Hl]]].
  exists t1, t2. split; [now rewrite <- E2|]. split; [exact H1|]. split; [exact H2|].
  split; [|exact Hl].
  intros rest H. rewrite H in E2. simpl in E2. now apply (Hh (rest ++ t2)).
Qed.

Lemma filter_alnum_dashes (t : ustr) :
  Forall (fun d => d = dash) t -> List.filter is_alnum t = [].
Proof. induction 1 as [|d t Hd _ IH]; simpl; [reflexivity | subst d; exact IH]. Qed.

(** X5. The unique name of a station of the SSC catalog is its
    [ssc_id], an underscore, and the cleaned name. The cleaned name
    holds letters of [a-z] and [A-Z], digits and dashes only; its
    letters and digits are those of the name without accents, in their
    order; it neither starts nor ends with a dash and has no two dashes
    in a row. *)
Theorem ssc_station_name_unique_clean
    (NFKD : ustr -> ustr) (ssc_catalog_pd : list ssc_json) (row : ssc_station) :
  In row (ssc_ssh_read_catalog NFKD ssc_catalog_pd) ->
  exists clean,
    station_name_unique row = station_id row ++ [underscore] ++ clean /\
    Forall (fun c => is_alnum c = true \/ c = dash) clean /\
    List.filter is_alnum clean
    = List.filter is_alnum (_remove_accents NFKD (station_name row)) /\
    (forall rest, clean <> dash :: rest) /\
    (forall rest, clean <> rest ++ [dash]) /\
    (forall pre post, clean <> pre ++ dash :: dash :: post).
Proof.
  unfold ssc_ssh_read_catalog. intros Hrow.
  apply in_map_iff in Hrow as [j [<- _]]. simpl.
  exists (station_name_clean NFKD (name j)). split; [reflexivity|].
  unfold station_name_clean.
  set (x := _remove_accents NFKD (name j)).
  destruct (strip_spec dash (sub_non_alnum false x)) as [t1 [t2 [E [H1 [H2 [Hh Hl]]]]]].
  pose proof (sub_non_alnum_chars false x) as Hc.
  pose proof (sub_non_alnum_alnum false x) as Ha.
  destruct (sub_non_alnum_dashes false x) as [_ Hd].
  rewrite E in Hc, Ha, Hd.
  split; [|split; [|split; [exact Hh | split; [exact Hl|]]]].
  - apply Forall_app in Hc as [_ Hc]. now apply Forall_app in Hc as [Hc _].
  - rewrite <- Ha. rewrite !List.filter_app, (filter_alnum_dashes t1 H1), (filter_alnum_dashes t2 H2).
    now rewrite app_nil_r.
  - intros pre post H. apply (Hd (t1 ++ pre) (post ++ t2)).
    rewrite H. now rewrite <- !app_assoc.
Qed.

End SscReadProps.

(** The property at "Saint-Louis (Sénégal)". *)
Lemma ssc_station_name_unique_clean_witness :
  exists row clean,
    In row (SscRead.ssc_ssh_read_catalog Accents.nfkd_fragment [SscRead.ssc_json_sample]) /\
    SscRead.station_name_unique row
    = SscRead.station_id row ++ [SscRead.underscore] ++ clean /\
    Forall (fun c => SscRead.is_alnum c = true \/ c = SscRead.dash) clean /\
    List.filter SscRead.is_alnum clean
    = List.filter SscRead.is_alnum
        (Accents._remove_accents Accents.nfkd_fragment (SscRead.station_name row)) /\
    (forall rest, clean <> SscRead.dash :: rest) /\
    (forall rest, clean <> rest ++ [SscRead.dash]) /\
    (forall pre post, clean <> pre ++ SscRead.dash :: SscRead.dash :: post).
Proof.
  destruct (ssc_station_name_unique_clean Accents.nfkd_fragment [SscRead.ssc_json_sample] _
              (or_introl eq_refl)) as [clean H].
  eexists. exists clean. split; [left; reflexivity | exact H].
Defined.

(** "Saint-Louis (Sénégal)" of station SSC-slou becomes
    "SSC-slou_Saint-Louis-Senegal". *)
Example ssc_station_name_sample :
  map SscRead.station_name_unique
      (SscRead.ssc_ssh_read_catalog Accents.nfkd_fragment [SscRead.ssc_json_sample])
  = [[83; 83; 67; 45; 115; 108; 111; 117; 95; 83; 97; 105; 110; 116; 45; 76; 111; 117;
      105; 115; 45; 83; 101; 110; 101; 103; 97; 108]%N].
Proof. vm_compute. reflexivity. Qed.

(** The identifier cells of that station: one identifier, the missing
    value of a column of objects, a list, and a NaN of a column of
    floats, which is kept as an element. *)
Example ssc_station_ids_sample :
  map (fun row => (SscRead.psmsl row, SscRead.ioc row, SscRead.gloss row, SscRead.sonel_tg row))
      (SscRead.ssc_ssh_read_catalog Accents.nfkd_fragment [SscRead.ssc_json_sample])
  = [([SscRead.IdText [49; 56; 49; 54]%N], [], [SscRead.IdText [50; 53; 51]%N],
      [SscRead.IdNaN])].
Proof. vm_compute. reflexivity. Qed.

(** ** The stations of the IOC catalog *)

Section IocReadProps.
Import Ssc IocRead.

Lemma in_ssc_filter (ssc_catalog_pd : list ssc_row) (lbl : string) :
  in_ssc ssc_catalog_pd lbl
  = match List.filter (fun x => str_in lbl (ioc x)) ssc_catalog_pd with
    | [] => false
    | _ :: _ => true
    end.
Proof.
  unfold in_ssc. induction ssc_catalog_pd as [|x l IHl]; simpl; [reflexivity|].
  destruct (str_in lbl (ioc x)); [reflexivity | exact IHl].
Qed.

(** The flags after the loop over some codes. *)
Lemma flag_codes_spec (ssc_catalog_pd : list ssc_row) (codes : list string)
    (catalog : list ioc_entry) :
  fold_left (flag_code ssc_catalog_pd) codes catalog
  = map (fun r =>
           let lbl := ioc_label (station r) in
           with_flags
             (if existsb (String.eqb lbl) codes && in_uhslc ssc_catalog_pd lbl
              then Some true else UHSLC r)
             (if existsb (String.eqb lbl) codes && in_ssc ssc_catalog_pd lbl
              then Some true else inSSClist r) r)
        catalog.
Proof.
  revert catalog. induction codes as [|ioc_code codes IH]; intros catalog.
  - simpl. rewrite <- (map_id catalog) at 1. apply map_ext. now intros [].
  - cbn [fold_left]. rewrite IH. unfold flag_code.
    pose proof (in_ssc_filter ssc_catalog_pd) as Hssc. unfold in_uhslc.
    assert (Hr : forall r : ioc_entry,
              String.eqb (ioc_label (station r)) ioc_code = true ->
              ioc_label (station r) = ioc_code) by (intros r; apply String.eqb_eq).
    destruct (List.filter (fun x => str_in ioc_code (ioc x)) ssc_catalog_pd)
      as [|first rest] eqn:Ef.
    + apply map_ext. intros r. cbn zeta. cbn [existsb].
      destruct (String.eqb (ioc_label (station r)) ioc_code) eqn:E; [|reflexivity].
      rewrite (Hr r E), Hssc, Ef. simpl.
      destruct (existsb (String.eqb ioc_code) codes); reflexivity.
    + cbn [map]. destruct (length (uhslc first) =? 0)%nat eqn:El.
      * unfold set_inSSClist. rewrite map_map. apply map_ext. intros r. cbn zeta.
        cbn [existsb].
        destruct (String.eqb (ioc_label (station r)) ioc_code) eqn:E; [|reflexivity].
        simpl. rewrite (Hr r E), Hssc, Ef, El. simpl.
        destruct (existsb (String.eqb ioc_code) codes); reflexivity.
      * unfold set_UHSLC, set_inSSClist. rewrite !map_map. apply map_ext. intros r.
        cbn zeta. cbn [existsb].
        destruct (String.eqb (ioc_label (station r)) ioc_code) eqn:E; [|now rewrite E].
        simpl. rewrite E. simpl. rewrite (Hr r E), Hssc, Ef, El. simpl.
        destruct (existsb (String.eqb ioc_code) codes); reflexivity.
Qed.

Lemma filter_map_comm {A B : Type} (p : B -> bool) (g : A -> B) (l : list A) :
  List.filter p (map g l) = map g (List.filter (fun x => p (g x)) l).
Proof.
  induction l as [|a l IH]; simpl; [reflexivity|].
  destruct (p (g a)); simpl; now rewrite IH.
Qed.

Lemma filter_filter_and {A : Type} (p q : A -> bool) (l : list A) :
  List.filter p (List.filter q l) = List.filter (fun x => q x && p x) l.
Proof.
  induction l as [|a l IH]; simpl; [reflexivity|].
  destruct (q a); simpl; [destruct (p a); now rewrite IH | exact IH].
Qed.

Lemma filter_if {A : Type} (b : bool) (p : A -> bool) (l : list A) :
  (if b then List.filter p l else l) = List.filter (fun x => negb b || p x) l.
Proof.
  destruct b; simpl; [reflexivity|].
  induction l as [|a l IH]; simpl; [reflexivity | now rewrite <- IH].
Qed.

Lemma ioc_ssh_read_catalog_run (resp : http_response) (ssc_catalog : result (list ssc_row))
    (ssc_catalog_pd : list ssc_row) (drop_uhslc drop_dart drop_nonutc : bool) :
  status_code resp <> 404%Z ->
  (drop_uhslc = true -> ssc_catalog = Ok ssc_catalog_pd) ->
  ioc_ssh_read_catalog resp ssc_catalog drop_uhslc drop_dart drop_nonutc
  = Ok (map (ioc_entry_of ssc_catalog_pd drop_uhslc)
            (List.filter (kept ssc_catalog_pd drop_uhslc drop_dart drop_nonutc) (json resp))).
Proof.
  intros Hstatus Hssc. unfold ioc_ssh_read_catalog, _ioc_get_json.
  apply Z.eqb_neq in Hstatus. rewrite Hstatus. cbn [mbind result_bind]. cbv zeta.
  set (base := fun s : ioc_station =>
                 mkIocEntry (mkIocRow (Code s) s (Geo.mkPoint (lon s) (lat s)))
                            (date_created s) (lasttime s) (Code s) (Code s)
                            ("ioc-" ++ Code s ++ "-" ++ pretty (code s))%string
                            None None None).
  assert (E0 : map (fun r : ioc_row =>
                      mkIocEntry r (date_created (ioc_data r)) (lasttime (ioc_data r))
                                 (Code (ioc_data r)) (Code (ioc_data r))
                                 ("ioc-" ++ Code (ioc_data r) ++ "-"
                                         ++ pretty (code (ioc_data r)))%string
                                 None None None)
                   (map (fun s => mkIocRow (Code s) s (Geo.mkPoint (lon s) (lat s)))
                        (json resp))
               = map base (json resp)) by (rewrite map_map; reflexivity).
  rewrite E0. clear E0.
  destruct drop_uhslc.
  - rewrite (Hssc eq_refl). cbn [mbind result_bind].
    rewrite flag_codes_spec. rewrite !map_map.
    rewrite (map_ext_in _
               (fun s => with_flags
                           (if in_uhslc ssc_catalog_pd (Code s) then Some true else Some false)
                           (if in_ssc ssc_catalog_pd (Code s) then Some true else Some false)
                           (base s))).
    2:{ intros s Hs. cbn zeta. simpl.
        assert (E : existsb (String.eqb (Code s)) (map (fun x => Code x) (json resp)) = true).
        { apply existsb_exists. exists (Code s). split; [now apply in_map | apply String.eqb_refl]. }
        rewrite E. reflexivity. }
    rewrite !filter_if, !filter_map_comm, !filter_filter_and. rewrite map_map.
    f_equal. rewrite (filter_ext _ (kept ssc_catalog_pd true drop_dart drop_nonutc)).
    + apply map_ext_in. intros s Hs. apply filter_In in Hs as [_ Hs].
      unfold kept in Hs. simpl in Hs.
      apply andb_true_iff in Hs as [Hs _]. apply andb_true_iff in Hs as [Hs _].
      apply negb_true_iff in Hs. unfold ioc_entry_of. simpl. rewrite Hs.
      destruct (in_ssc ssc_catalog_pd (Code s)); reflexivity.
    + intros s. unfold kept. simpl.
      destruct (in_uhslc ssc_catalog_pd (Code s)); reflexivity.
  - cbn [mbind result_bind].
    rewrite !filter_if, !filter_map_comm, !filter_filter_and. rewrite map_map.
    reflexivity.
Qed.

(** X9. The stations that [ioc_ssh_read_catalog] returns are those of
    the station list, in its order, without the stations that the SSC
    catalog links to UHSLC (the first SSC station that lists the code
    has a UHSLC identifier), without those whose location starts with
    "DART ", and without those whose UTC offset is not zero, each
    exclusion only when it is asked for; each is named
    [ioc-<Code>-<code>] and covers the time from its creation to its
    last measurement. *)
Theorem ioc_ssh_read_catalog_kept (resp : http_response)
    (ssc_catalog : result (list ssc_row)) (ssc_catalog_pd : list ssc_row)
    (drop_uhslc drop_dart drop_nonutc : bool) :
  status_code resp <> 404%Z ->
  (drop_uhslc = true -> ssc_catalog = Ok ssc_catalog_pd) ->
  exists rows,
    ioc_ssh_read_catalog resp ssc_catalog drop_uhslc drop_dart drop_nonutc = Ok rows /\
    map (fun r => ioc_data (station r)) rows
    = List.filter (fun s =>
                     (negb drop_uhslc || negb (in_uhslc ssc_catalog_pd (Code s))) &&
                     (negb drop_dart || negb (String.prefix "DART " (Location s))) &&
                     (negb drop_nonutc || (UTCOffset s =? 0)%Z))
                  (json resp) /\
    Forall (fun r =>
              let s := ioc_data (station r) in
              ioc_label (station r) = Code s /\
              station_name r = Code s /\ station_id r = Code s /\
              station_name_unique r = ("ioc-" ++ Code s ++ "-" ++ pretty (code s))%string /\
              time_min r = date_created s /\ time_max r = lasttime s /\
              time_ndays r = Some (ndays (lasttime s - date_created s)) /\
              (drop_uhslc = true -> UHSLC r = Some false))
           rows.
Proof.
  intros Hstatus Hssc. eexists. split; [|split].
  - apply (ioc_ssh_read_catalog_run resp ssc_catalog ssc_catalog_pd); assumption.
  - rewrite map_map. simpl. now rewrite map_id.
  - apply List.Forall_forall. intros r Hr. apply in_map_iff in Hr as [s [<- _]].
    simpl. repeat split. now intros ->.
Qed.

End IocReadProps.

(** The sample station list: a DART buoy, a station with a UTC offset,
    and a station that the SSC catalog links to UHSLC are dropped. *)
Example ioc_catalog_sample :
  match IocRead.ioc_ssh_read_catalog IocRead.ioc_stations_sample (Ok Ssc.ssc_sample)
                                     true true true with
  | Ok rows => map IocRead.station_name_unique rows = ["ioc-zanz-4"]
  | Raise _ => False
  end.
Proof. vm_compute. reflexivity. Qed.

Lemma ioc_ssh_read_catalog_kept_witness :
  exists rows,
    IocRead.ioc_ssh_read_catalog IocRead.ioc_stations_sample (Ok Ssc.ssc_sample)
                                 true true true = Ok rows /\
    map (fun r => Ssc.ioc_data (IocRead.station r)) rows
    = List.filter (fun s =>
                     (negb true || negb (IocRead.in_uhslc Ssc.ssc_sample (Ssc.Code s))) &&
                     (negb true || negb (String.prefix "DART " (Ssc.Location s))) &&
                     (negb true || (Ssc.UTCOffset s =? 0)%Z))
                  (Ssc.json IocRead.ioc_stations_sample) /\
    Forall (fun r =>
              let s := Ssc.ioc_data (IocRead.station r) in
              Ssc.ioc_label (IocRead.station r) = Ssc.Code s /\
              IocRead.station_name r = Ssc.Code s /\ IocRead.station_id r = Ssc.Code s /\
              IocRead.station_name_unique r
              = ("ioc-" ++ Ssc.Code s ++ "-" ++ pretty (Ssc.code s))%string /\
              IocRead.time_min r = Ssc.date_created s /\
              IocRead.time_max r = Ssc.lasttime s /\
              IocRead.time_ndays r
              = Some (IocRead.ndays (Ssc.lasttime s - Ssc.date_created s)) /\
              (true = true -> IocRead.UHSLC r = Some false))
           rows.
Proof.
  apply (ioc_ssh_read_catalog_kept IocRead.ioc_stations_sample (Ok Ssc.ssc_sample)
           Ssc.ssc_sample true true true).
  - simpl. lia.
  - reflexivity.
Defined.

(** ** The series of the IOC service *)

Section IocRetrieveProps.
Import Series IocRetrieve.

Lemma period_window (i : Z) :
  month_window (period_of_number i)
  = (mkDate (i / 12) (i mod 12 + 1) 1, mkDate ((i + 1) / 12) ((i + 1) mod 12 + 1) 1).
Proof.
  unfold month_window, period_of_number. simpl.
  pose proof (Z.div_mod i 12 ltac:(lia)) as Hd.
  pose proof (Z.mod_pos_bound i 12 ltac:(lia)) as Hm.
  f_equal.
  destruct (Z.eqb_spec (i mod 12 + 1) 12) as [E|N].
  - assert (E1 : ((i + 1) / 12 = i / 12 + 1)%Z)
      by (symmetry; apply (Z.div_unique _ _ _ 0); lia).
    assert (E2 : ((i + 1) mod 12 = 0)%Z)
      by (symmetry; apply (Z.mod_unique _ _ (i / 12 + 1)); lia).
    now rewrite E1, E2.
  - assert (E1 : ((i + 1) / 12 = i / 12)%Z)
      by (symmetry; apply (Z.div_unique _ _ _ (i mod 12 + 1)); lia).
    assert (E2 : ((i + 1) mod 12 = i mod 12 + 1)%Z)
      by (symmetry; apply (Z.mod_unique _ _ (i / 12)); lia).
    now rewrite E1, E2.
Qed.

Lemma period_of_month_number (d : date) :
  (1 <= month d <= 12)%Z ->
  period_of_number (month_number d) = mkPeriod (year d) (month d).
Proof.
  intros Hm. unfold period_of_number, month_number.
  assert (E1 : ((year d * 12 + (month d - 1)) / 12 = year d)%Z)
    by (symmetry; apply (Z.div_unique _ _ _ (month d - 1)); lia).
  assert (E2 : ((year d * 12 + (month d - 1)) mod 12 = month d - 1)%Z)
    by (symmetry; apply (Z.mod_unique _ _ (year d)); lia).
  rewrite E1, E2. f_equal. lia.
Qed.

Lemma windows_seqZ (a : Z) (n : nat) :
  map month_window (map period_of_number (seqZ a (Z.of_nat n)))
  = map (fun i => (mkDate (i / 12) (i mod 12 + 1) 1,
                   mkDate ((i + 1) / 12) ((i + 1) mod 12 + 1) 1))
        (seqZ a (Z.of_nat n)).
Proof. rewrite map_map. apply map_ext. intros i. apply period_window. Qed.

Lemma windows_chain (n : nat) (a : Z) (pre post : list (date * date)) (w1 w2 : date * date) :
  map (fun i => (first_day i, first_day (i + 1))) (seqZ a (Z.of_nat n))
  = pre ++ w1 :: w2 :: post ->
  snd w1 = fst w2.
Proof.
  revert a pre. induction n as [|n IH]; intros a pre H.
  - simpl in H. destruct pre; discriminate H.
  - rewrite seqZ_cons in H by lia. simpl map in H.
    replace (Z.pred (Z.of_nat (S n))) with (Z.of_nat n) in H by lia.
    destruct pre as [|p pre]; simpl in H.
    + injection H as <- H.
      destruct n as [|n]; [discriminate H|].
      rewrite seqZ_cons in H by lia. simpl in H. injection H as <- _.
      simpl. f_equal; f_equal; lia.
    + injection H as _ H. now apply (IH (Z.succ a) pre).
Qed.

(** The months from that of [time_min] to that of [time_max]: the first
    window starts on the first day of the month of [time_min], each ends
    on the first day of the next month, where the next one starts, and
    the last ends on the first day of the month after that of
    [time_max]; after December comes January of the next year. *)
Lemma month_windows_calendar (time_min time_max : date) :
  (1 <= month time_min <= 12)%Z -> (1 <= month time_max <= 12)%Z ->
  (month_number time_min <= month_number time_max)%Z ->
  let windows := map month_window (period_range time_min time_max) in
  Z.of_nat (length windows) = (month_number time_max - month_number time_min + 1)%Z /\
  (exists endtime rest,
     windows = (mkDate (year time_min) (month time_min) 1, endtime) :: rest) /\
  (exists starttime before,
     windows = before ++ [(starttime,
                           if (month time_max =? 12)%Z then mkDate (year time_max + 1) 1 1
                           else mkDate (year time_max) (month time_max + 1) 1)]) /\
  (forall pre w1 w2 post, windows = pre ++ w1 :: w2 :: post -> snd w1 = fst w2) /\
  Forall (fun w => day (fst w) = 1%Z /\ day (snd w) = 1%Z /\
                   (1 <= month (fst w) <= 12)%Z /\ (1 <= month (snd w) <= 12)%Z /\
                   month_number (snd w) = (month_number (fst w) + 1)%Z)
         windows.
Proof.
  intros Hmin Hmax Hle windows.
  set (a := month_number time_min) in *. set (b := month_number time_max) in *.
  assert (En : (b - a + 1 = Z.of_nat (Z.to_nat (b - a + 1)))%Z) by lia.
  assert (Ew : windows = map (fun i => (first_day i, first_day (i + 1)))
                             (seqZ a (Z.of_nat (Z.to_nat (b - a + 1))))).
  { unfold windows, period_range. fold a b. rewrite En at 1. apply windows_seqZ. }
  assert (Hnum : forall i, month_number (first_day i) = i).
  { intros i. unfold month_number, first_day. simpl.
    pose proof (Z.div_mod i 12 ltac:(lia)). lia. }
  split; [|split; [|split; [|split]]].
  - rewrite Ew, length_map, length_seqZ. lia.
  - rewrite Ew. rewrite seqZ_cons by lia. simpl. eexists. eexists. f_equal. f_equal.
    pose proof (period_of_month_number time_min Hmin) as E. fold a in E.
    unfold period_of_number in E. injection E as E1 E2.
    unfold first_day. now rewrite E1, E2.
  - rewrite Ew.
    destruct (Z.to_nat (b - a + 1)) as [|n] eqn:En'; [lia|].
    rewrite seqZ_S, map_app. simpl. eexists. eexists. f_equal. f_equal. f_equal.
    replace (a + Z.of_nat n)%Z with b by lia.
    pose proof (period_window b) as Hw.
    pose proof (period_of_month_number time_max Hmax) as E. fold b in E.
    rewrite E in Hw. unfold month_window in Hw. simpl in Hw.
    apply (f_equal snd) in Hw. simpl in Hw. unfold first_day. symmetry. exact Hw.
  - intros pre w1 w2 post H. rewrite Ew in H. now apply windows_chain in H.
  - rewrite Ew. apply List.Forall_forall. intros w Hw.
    apply in_map_iff in Hw as [i [<- _]]. simpl.
    pose proof (Z.mod_pos_bound i 12 ltac:(lia)).
    pose proof (Z.mod_pos_bound (i + 1) 12 ltac:(lia)).
    repeat split; try lia.
    change (month_number (first_day (i + 1)) = (month_number (first_day i) + 1)%Z).
    now rewrite !Hnum.
Qed.

Lemma retrieve_month_refused (service : data_service) (station_code : string)
    (acc : list (list (Z * fnum))) (p : period) :
  let resp := service station_code (fst (month_window p)) (snd (month_window p)) in
  (forall acc', retrieve_month service station_code acc p = Ok acc' -> refused resp = false) /\
  (forall e, retrieve_month service station_code acc p = Raise e -> refused resp = true).
Proof.
  unfold retrieve_month, refused. destruct (month_window p) as [starttime endtime].
  cbn [fst snd].
  destruct (status_code _ =? 404)%Z; simpl.
  - split; intros ? H; [discriminate H | reflexivity].
  - destruct (text _) as [| |[|r records]]; split; intros ? H;
      try discriminate H; reflexivity.
Qed.

Lemma request_months_loop (service : data_service) (station_code : string)
    (acc : list (list (Z * fnum))) (periods : list period) :
  snd (request_months service station_code acc periods)
  = foldM (retrieve_month service station_code) acc periods.
Proof.
  revert acc. induction periods as [|p periods IH]; intros acc; simpl; [reflexivity|].
  destruct (retrieve_month service station_code acc p) as [acc'|e]; simpl; [|reflexivity].
  rewrite <- IH. destruct (request_months service station_code acc' periods). reflexivity.
Qed.

(** The value of [ioc_ssh_retrieve_data] by the loop over the months. *)
Lemma ioc_ssh_retrieve_data_loop (service : data_service) (station_code : string)
    (time_min time_max : date) (subset_hourly : bool) :
  ioc_ssh_retrieve_data service station_code (Some time_min) (Some time_max) subset_hourly
  = results_list ← foldM (retrieve_month service station_code) []
                         (period_range time_min time_max);
    if (length results_list =? 0)%nat then Ok None
    else Ok (Some (mkSeries
                     (let data_pd_all :=
                        keep_last (map (fun '(stime, slevel) => mkSample stime slevel)
                                       (concat results_list)) in
                      if subset_hourly
                      then List.filter (fun s => (minute (time s) =? 0)%Z) data_pd_all
                      else data_pd_all)
                     "m")).
Proof.
  unfold ioc_ssh_retrieve_data, ioc_ssh_retrieve_data_sent.
  rewrite <- request_months_loop.
  destruct (request_months service station_code [] (period_range time_min time_max))
    as [sent loop].
  reflexivity.
Qed.

Lemma ioc_requests_loop (service : data_service) (station_code : string)
    (time_min time_max : date) :
  ioc_requests service station_code (Some time_min) (Some time_max)
  = fst (request_months service station_code [] (period_range time_min time_max)).
Proof.
  unfold ioc_requests, ioc_ssh_retrieve_data_sent.
  destruct (request_months service station_code [] (period_range time_min time_max))
    as [sent loop].
  reflexivity.
Qed.

Lemma request_months_sent (service : data_service) (station_code : string)
    (acc : list (list (Z * fnum))) (periods : list period) :
  let sent := fst (request_months service station_code acc periods) in
  let r := foldM (retrieve_month service station_code) acc periods in
  (exists later, map month_window periods = sent ++ later /\
                 ((exists out, r = Ok out) -> later = [])) /\
  ((exists out, r = Ok out) ->
   Forall (fun w => refused (service station_code (fst w) (snd w)) = false) sent) /\
  (forall e, r = Raise e ->
     exists before w,
       sent = before ++ [w] /\
       Forall (fun w => refused (service station_code (fst w) (snd w)) = false) before /\
       refused (service station_code (fst w) (snd w)) = true).
Proof.
  revert acc. induction periods as [|p periods IH]; intros acc; simpl.
  - split; [exists []; split; [reflexivity | reflexivity]|].
    split; [constructor | intros e H; discriminate H].
  - destruct (retrieve_month_refused service station_code acc p) as [Hok Hraise].
    destruct (retrieve_month service station_code acc p) as [acc'|e] eqn:Hp; simpl.
    + specialize (IH acc'). simpl in IH.
      destruct (request_months service station_code acc' periods) as [sent r] eqn:Hreq.
      simpl in *. destruct IH as [[later [Hl Hdone]] [Hall Hstop]].
      split; [exists later; split; [now rewrite Hl | exact Hdone]|].
      split.
      * intros Hout. constructor; [now apply (Hok acc') | now apply Hall].
      * intros e He. destruct (Hstop e He) as [before [w [-> [Hb Hw]]]].
        exists (month_window p :: before), w. split; [reflexivity|].
        split; [constructor; [now apply (Hok acc') | exact Hb] | exact Hw].
    + split; [|split].
      * exists (map month_window periods). split; [reflexivity|].
        intros [out H]. discriminate H.
      * intros [out H]. discriminate H.
      * intros e' He'. injection He' as <-.
        exists [], (month_window p). split; [reflexivity|].
        split; [apply Forall_nil_2 | apply (Hraise e); reflexivity].
Qed.


Lemma request_months_first (service : data_service) (station_code : string)
    (acc : list (list (Z * fnum))) (p : period) (periods : list period) :
  exists rest, fst (request_months service station_code acc (p :: periods))
               = month_window p :: rest.
Proof.
  simpl. destruct (retrieve_month service station_code acc p) as [acc'|e].
  - destruct (request_months service station_code acc' periods) as [sent r].
    now exists sent.
  - now exists [].
Qed.

(** How [ioc_ssh_retrieve_data] ends is how its loop ends. *)
Lemma ioc_retrieve_loop_end (service : data_service) (station_code : string)
    (time_min time_max : date) (subset_hourly : bool) :
  let out := ioc_ssh_retrieve_data service station_code (Some time_min) (Some time_max)
                                   subset_hourly in
  let r := foldM (retrieve_month service station_code) [] (period_range time_min time_max) in
  ((exists ds, out = Ok ds) -> exists results_list, r = Ok results_list) /\
  (forall e, out = Raise e -> r = Raise e).
Proof.
  rewrite ioc_ssh_retrieve_data_loop.
  destruct (foldM _ [] (period_range time_min time_max)) as [results_list|e0]; simpl.
  - split; [eauto|]. intros e H. destruct (length results_list =? 0)%nat; discriminate H.
  - split; [intros [ds H]; discriminate H | intros e H; now injection H as ->].
Qed.

(** X15. The requests that [ioc_ssh_retrieve_data] sends: the first is
    for the month of [time_min], from its first day to the first day of
    the next month, and every later one starts where the one before
    ended and covers one calendar month (after December comes January
    of the next year). A call that returns has sent one request for
    every month up to that of [time_max] and none was refused; a call
    that raises has stopped at the first refused request (status 404,
    an error message, or records without a first one) and sent none
    after it. *)
Theorem ioc_month_requests (service : data_service) (station_code : string)
    (time_min time_max : date) (subset_hourly : bool) :
  (1 <= month time_min <= 12)%Z -> (1 <= month time_max <= 12)%Z ->
  (month_number time_min <= month_number time_max)%Z ->
  let out := ioc_ssh_retrieve_data service station_code (Some time_min) (Some time_max)
                                   subset_hourly in
  let sent := ioc_requests service station_code (Some time_min) (Some time_max) in
  let months := (month_number time_max - month_number time_min + 1)%Z in
  (exists endtime rest,
     sent = (mkDate (year time_min) (month time_min) 1, endtime) :: rest) /\
  (forall pre w1 w2 post, sent = pre ++ w1 :: w2 :: post -> snd w1 = fst w2) /\
  Forall (fun w => day (fst w) = 1%Z /\ day (snd w) = 1%Z /\
                   (1 <= month (fst w) <= 12)%Z /\ (1 <= month (snd w) <= 12)%Z /\
                   month_number (snd w) = (month_number (fst w) + 1)%Z)
         sent /\
  (Z.of_nat (length sent) <= months)%Z /\
  ((exists ds, out = Ok ds) ->
   Z.of_nat (length sent) = months /\
   (exists starttime before,
      sent = before ++ [(starttime,
                         if (month time_max =? 12)%Z then mkDate (year time_max + 1) 1 1
                         else mkDate (year time_max) (month time_max + 1) 1)]) /\
   Forall (fun w => refused (service station_code (fst w) (snd w)) = false) sent) /\
  (forall e, out = Raise e ->
     exists before w,
       sent = before ++ [w] /\
       Forall (fun w => refused (service station_code (fst w) (snd w)) = false) before /\
       refused (service station_code (fst w) (snd w)) = true).
Proof.
  intros Hmin Hmax Hle out sent months.
  destruct (month_windows_calendar time_min time_max Hmin Hmax Hle)
    as [Hlen [[end0 [rest0 Hfirst]] [Hlast [Hchain Hall]]]].
  destruct (request_months_sent service station_code [] (period_range time_min time_max))
    as [[later [Hpre Hdone]] [Hans Hstop]].
  destruct (ioc_retrieve_loop_end service station_code time_min time_max subset_hourly)
    as [Hok Hraise].
  fold out in Hok, Hraise.
  rewrite <- ioc_requests_loop in Hpre, Hans, Hstop. fold sent in Hpre, Hans, Hstop.
  set (windows := map month_window (period_range time_min time_max)) in *.
  assert (Hlens : (Z.of_nat (length sent) + Z.of_nat (length later) = months)%Z).
  { unfold months. rewrite <- Hlen, Hpre, length_app. lia. }
  split; [|split; [|split; [|split; [|split]]]].
  - unfold windows in Hfirst. unfold sent. rewrite ioc_requests_loop.
    destruct (period_range time_min time_max) as [|p periods].
    { discriminate Hfirst. }
    destruct (request_months_first service station_code [] p periods) as [rest ->].
    apply (f_equal (hd (mkDate 0 0 0, mkDate 0 0 0))) in Hfirst. cbn [map hd] in Hfirst.
    rewrite Hfirst. eauto.
  - intros pre w1 w2 post Hs. apply (Hchain pre w1 w2 (post ++ later)).
    rewrite Hpre, Hs, <- app_assoc. reflexivity.
  - rewrite Hpre in Hall. now apply Forall_app in Hall as [Hall _].
  - lia.
  - intros Hout. specialize (Hdone (Hok Hout)). subst later.
    rewrite app_nil_r in Hpre. split; [simpl in Hlens; lia|].
    split; [rewrite <- Hpre; exact Hlast | exact (Hans (Hok Hout))].
  - intros e He. exact (Hstop e (Hraise e He)).
Qed.

(** The results of the loop over the months are the records of the
    months that have some. *)
Lemma retrieve_months_Ok (service : data_service) (station_code : string)
    (periods : list period) (acc results_list : list (list (Z * fnum))) :
  foldM (retrieve_month service station_code) acc periods = Ok results_list ->
  map (fun '(stime, slevel) => mkSample stime slevel) (concat results_list)
  = map (fun '(stime, slevel) => mkSample stime slevel) (concat acc)
    ++ flat_map (fun p => match text (service station_code (fst (month_window p))
                                               (snd (month_window p))) with
                          | Records records =>
                              map (fun '(stime, slevel) => mkSample stime slevel) records
                          | _ => []
                          end) periods.
Proof.
  revert acc. induction periods as [|p periods IH]; intros acc H; simpl in H.
  - injection H as <-. simpl. now rewrite app_nil_r.
  - apply bind_Ok_inv in H as [acc1 [Hp H]].
    apply IH in H. rewrite H. cbn [flat_map]. rewrite app_assoc. f_equal.
    unfold retrieve_month in Hp.
    destruct (month_window p) as [starttime endtime]. cbn [fst snd].
    destruct (status_code _ =? 404)%Z; [discriminate Hp|].
    destruct (text _) as [| |[|r records]]; try discriminate Hp; injection Hp as <-.
    + now rewrite app_nil_r.
    + rewrite concat_app, map_app. simpl. now rewrite app_nil_r.
Qed.

Lemma keep_last_spec (l : list sample) :
  List.NoDup (map time (keep_last l)) /\
  (forall t, In t (map time (keep_last l)) <-> In t (map time l)) /\
  (forall s, In s (keep_last l) -> last_at (time s) l = Some (waterlevel s)).
Proof.
  unfold keep_last, last_at, first_at.
  split; [|split].
  - rewrite map_rev. apply NoDup_rev. apply keep_first_NoDup.
  - intros t. rewrite map_rev, <- in_rev. split.
    + intros H. apply in_map_iff in H as [s [<- H]].
      apply keep_first_In in H as [H _]. apply in_rev in H. now apply in_map.
    + intros H. apply keep_first_times; [|intros []].
      rewrite map_rev. now apply in_rev in H.
  - intros s Hs. apply in_rev in Hs.
    rewrite <- (keep_first_find time [] (rev l) (time s)) by (intros []).
    now rewrite (find_unique_time time _ s (keep_first_NoDup time [] (rev l)) Hs).
Qed.

(** X16. When [ioc_ssh_retrieve_data] returns a series, its levels are
    in metres and no time occurs twice; its times are those of the
    records of all requested months (with [subset_hourly] only those
    whose minute of the hour is 0; the seconds are not tested), and
    where a time has several records, in one month or in two, the level
    is that of the last one. *)
Theorem ioc_retrieve_last_record_kept
    (service : data_service) (station_code : string) (time_min time_max : date)
    (subset_hourly : bool) (ds : series) :
  ioc_ssh_retrieve_data service station_code (Some time_min) (Some time_max) subset_hourly
  = Ok (Some ds) ->
  let records := answers service station_code time_min time_max in
  units ds = "m" /\
  List.NoDup (map time (samples ds)) /\
  (forall t, In t (map time (samples ds))
             <-> In t (map time records) /\ (subset_hourly = true -> minute t = 0%Z)) /\
  (forall s, In s (samples ds) -> last_at (time s) records = Some (waterlevel s)).
Proof.
  intros H records. rewrite ioc_ssh_retrieve_data_loop in H.
  apply bind_Ok_inv in H as [results_list [Hloop H]].
  destruct (length results_list =? 0)%nat; [discriminate H|].
  apply retrieve_months_Ok in Hloop.
  change (_ ++ flat_map _ _) with records in Hloop.
  rewrite Hloop in H. injection H as <-. cbn [units samples].
  destruct (keep_last_spec records) as [Hnd [Ht Hv]].
  split; [reflexivity|].
  destruct subset_hourly.
  - split; [|split].
    + clear -Hnd. induction (keep_last records) as [|s l IH]; simpl; [constructor|].
      simpl in Hnd. apply List.NoDup_cons_iff in Hnd as [Hs Hl].
      destruct (minute (time s) =? 0)%Z; [|now apply IH].
      simpl. apply List.NoDup_cons; [|now apply IH].
      intros Hin. apply Hs. apply in_map_iff in Hin as [s' [E Hin]].
      apply filter_In in Hin as [Hin _]. apply in_map_iff. exists s'. now split.
    + intros t. rewrite <- Ht. split.
      * intros Hin. apply in_map_iff in Hin as [s [<- Hin]].
        apply filter_In in Hin as [Hin Hm]. apply Z.eqb_eq in Hm.
        split; [now apply in_map | now intros _].
      * intros [Hin Hm]. apply in_map_iff in Hin as [s [<- Hin]].
        apply in_map_iff. exists s. split; [reflexivity|].
        apply filter_In. split; [exact Hin|]. apply Z.eqb_eq. now apply Hm.
    + intros s Hs. apply filter_In in Hs as [Hs _]. now apply Hv.
  - split; [exact Hnd|]. split; [|exact Hv].
    intros t. rewrite Ht. split; [intros Hin; split; [exact Hin | discriminate] | tauto].
Qed.

End IocRetrieveProps.

(** January and February 2024 for the sample service: the record of
    the first moment of February comes with both months, the one of
    February is kept. *)
Example ioc_retrieve_sample :
  IocRetrieve.ioc_ssh_retrieve_data IocRetrieve.ioc_service_sample "zanz"
    (Some (IocRetrieve.mkDate 2024 1 15)) (Some (IocRetrieve.mkDate 2024 2 3)) true
  = Ok (Some (Series.mkSeries
                [Series.mkSample 1704067200000000000 (Some 1.25%Q);
                 Series.mkSample 1706745600000000000 (Some 1.51%Q);
                 Series.mkSample 1706749200000000000 (Some 1.75%Q)] "m")).
Proof. vm_compute. reflexivity. Qed.

Lemma ioc_retrieve_last_record_kept_witness :
  exists ds,
    IocRetrieve.ioc_ssh_retrieve_data IocRetrieve.ioc_service_sample "zanz"
      (Some (IocRetrieve.mkDate 2024 1 15)) (Some (IocRetrieve.mkDate 2024 2 3)) true
    = Ok (Some ds) /\
    let records := IocRetrieve.answers IocRetrieve.ioc_service_sample "zanz"
                     (IocRetrieve.mkDate 2024 1 15) (IocRetrieve.mkDate 2024 2 3) in
    Series.units ds = "m" /\
    List.NoDup (map Series.time (Series.samples ds)) /\
    (forall t, In t (map Series.time (Series.samples ds))
               <-> In t (map Series.time records) /\
                   (true = true -> IocRetrieve.minute t = 0%Z)) /\
    (forall s, In s (Series.samples ds) ->
               IocRetrieve.last_at (Series.time s) records = Some (Series.waterlevel s)).
Proof.
  eexists. split.
  - vm_compute. reflexivity.
  - apply (ioc_retrieve_last_record_kept IocRetrieve.ioc_service_sample "zanz"
             (IocRetrieve.mkDate 2024 1 15) (IocRetrieve.mkDate 2024 2 3) true).
    vm_compute. reflexivity.
Defined.

(** With [subset_hourly] a record half a minute after the full hour is
    kept, one a minute after it is not. *)
Example ioc_retrieve_half_minute_kept :
  IocRetrieve.ioc_ssh_retrieve_data IocRetrieve.half_minute_service "zanz"
    (Some (IocRetrieve.mkDate 2024 1 1)) (Some (IocRetrieve.mkDate 2024 1 1)) true
  = Ok (Some (Series.mkSeries
                [Series.mkSample 1704067200000000000 (Some 1.25%Q);
                 Series.mkSample 1704067230000000000 (Some 1.26%Q)] "m")).
Proof. vm_compute. reflexivity. Qed.

(** The requests from November 2023 to February 2024, to the sample
    service and to one that refuses December. *)
Example ioc_requests_sample :
  IocRetrieve.ioc_requests IocRetrieve.ioc_service_sample "zanz"
    (Some (IocRetrieve.mkDate 2023 11 20)) (Some (IocRetrieve.mkDate 2024 2 3))
  = [(IocRetrieve.mkDate 2023 11 1, IocRetrieve.mkDate 2023 12 1);
     (IocRetrieve.mkDate 2023 12 1, IocRetrieve.mkDate 2024 1 1);
     (IocRetrieve.mkDate 2024 1 1, IocRetrieve.mkDate 2024 2 1);
     (IocRetrieve.mkDate 2024 2 1, IocRetrieve.mkDate 2024 3 1)] /\
  IocRetrieve.ioc_requests IocRetrieve.refusing_service "zanz"
    (Some (IocRetrieve.mkDate 2023 11 20)) (Some (IocRetrieve.mkDate 2024 2 3))
  = [(IocRetrieve.mkDate 2023 11 1, IocRetrieve.mkDate 2023 12 1);
     (IocRetrieve.mkDate 2023 12 1, IocRetrieve.mkDate 2024 1 1)] /\
  IocRetrieve.ioc_ssh_retrieve_data IocRetrieve.refusing_service "zanz"
    (Some (IocRetrieve.mkDate 2023 11 20)) (Some (IocRetrieve.mkDate 2024 2 3)) false
  = Raise Exception.
Proof. repeat split; vm_compute; reflexivity. Qed.

(** The months from November 2023 to February 2024, with a service that
    refuses December. *)
Lemma ioc_month_requests_witness :
  let service := IocRetrieve.refusing_service in
  let time_min := IocRetrieve.mkDate 2023 11 20 in
  let time_max := IocRetrieve.mkDate 2024 2 3 in
  let out := IocRetrieve.ioc_ssh_retrieve_data service "zanz" (Some time_min) (Some time_max)
                                               false in
  let sent := IocRetrieve.ioc_requests service "zanz" (Some time_min) (Some time_max) in
  let months := (IocRetrieve.month_number time_max - IocRetrieve.month_number time_min + 1)%Z in
  (exists endtime rest, sent = (IocRetrieve.mkDate 2023 11 1, endtime) :: rest) /\
  (forall pre w1 w2 post, sent = pre ++ w1 :: w2 :: post -> snd w1 = fst w2) /\
  Forall (fun w => IocRetrieve.day (fst w) = 1%Z /\ IocRetrieve.day (snd w) = 1%Z /\
                   (1 <= IocRetrieve.month (fst w) <= 12)%Z /\
                   (1 <= IocRetrieve.month (snd w) <= 12)%Z /\
                   IocRetrieve.month_number (snd w)
                   = (IocRetrieve.month_number (fst w) + 1)%Z)
         sent /\
  (Z.of_nat (length sent) <= months)%Z /\
  ((exists ds, out = Ok ds) ->
   Z.of_nat (length sent) = months /\
   (exists starttime before, sent = before ++ [(starttime, IocRetrieve.mkDate 2024 3 1)]) /\
   Forall (fun w => IocRetrieve.refused (service "zanz" (fst w) (snd w)) = false) sent) /\
  (forall e, out = Raise e ->
     exists before w,
       sent = before ++ [w] /\
       Forall (fun w => IocRetrieve.refused (service "zanz" (fst w) (snd w)) = false) before /\
       IocRetrieve.refused (service "zanz" (fst w) (snd w)) = true).
Proof.
  apply (ioc_month_requests IocRetrieve.refusing_service "zanz"
           (IocRetrieve.mkDate 2023 11 20) (IocRetrieve.mkDate 2024 2 3) false);
    vm_compute; intuition discriminate.
Defined.

Section OverviewProps.
Import Text Overview.

Lemma range_down_S (n : nat) :
  range_down (S n) = range_down n ++ [(- Z.of_nat n)%Z].
Proof. unfold range_down. rewrite seq_S, map_app. reflexivity. Qed.

Lemma length_range_down (n : nat) : length (range_down n) = n.
Proof. unfold range_down. now rewrite length_map, length_seq. Qed.

Lemma combine_snoc {A B : Type} (l : list A) (k : list B) (a : A) (b : B) :
  length l = length k -> combine (l ++ [a]) (k ++ [b]) = combine l k ++ [(a, b)].
Proof.
  revert k. induction l as [|x l IH]; intros [|y k] H; simpl in *; try discriminate;
    [reflexivity|].
  f_equal. apply IH. lia.
Qed.

Lemma map_snd_combine_range (cur : list string) :
  map snd (combine (range_down (length cur)) cur) = cur.
Proof.
  assert (H : forall (l : list Z) (k : list string),
           length l = length k -> map snd (combine l k) = k).
  { intros l. induction l as [|x l IH]; intros [|y k] Hl; simpl in *; try discriminate;
      [reflexivity|]. f_equal. apply IH. lia. }
  apply H. apply length_range_down.
Qed.

Lemma numbered_snoc (start : nat) (figs : list figure) (f : figure) :
  numbered start figs ->
  figname f = overview_figname (Z.of_nat (start + total_files figs) + 1)
                (Z.of_nat (start + total_files figs + length (figure_files f))) ->
  numbered start (figs ++ [f]).
Proof.
  unfold total_files. revert start.
  induction figs as [|g figs IH]; intros start Hn Hf; simpl in *.
  - rewrite Nat.add_0_r in Hf. auto.
  - destruct Hn as [Hg Hn]. split; [exact Hg|].
    apply IH; [exact Hn|].
    rewrite length_app in Hf. rewrite Hf. f_equal; f_equal; lia.
Qed.

Lemma overview_loop_spec (perplot : Z) (files done : list string) (st : state) :
  (0 < perplot)%Z -> files <> [] ->
  loop_inv perplot done st ->
  let nfiles := Z.of_nat (length done + length files) in
  let figs := saved (overview_loop perplot nfiles st (Z.of_nat (length done)) files) in
  exists full last,
    figs = full ++ [last] /\
    concat (map figure_files figs) = done ++ map (replace ".nc" "") files /\
    Forall (fun f => aligned perplot f /\ Z.of_nat (length (figure_files f)) = perplot) full /\
    aligned perplot last /\
    numbered 0 figs.
Proof.
  intros Hp. revert done st.
  induction files as [|fname files IH]; intros done st Hne Hinv; [contradiction|].
  cbn zeta. cbn [overview_loop].
  destruct Hinv as [Hfiles Hax Hcur Hfull Hnames].
  set (nfiles := Z.of_nat (length done + length (fname :: files))).
  set (ifile := Z.of_nat (length done)) in *.
  set (c := replace ".nc" "" fname).
  set (cur := fig_file_list st) in *.
  pose proof (Z.mod_pos_bound ifile perplot Hp) as Hmod.
  assert (Hrows : ax st ++ [((- (ifile mod perplot))%Z, c)]
                  = combine (range_down (length (cur ++ [c]))) (cur ++ [c])).
  { rewrite length_app. simpl. rewrite Nat.add_1_r, range_down_S.
    rewrite combine_snoc by apply length_range_down.
    now rewrite Hax, Hcur. }
  assert (Hlen : length (cur ++ [c]) = S (length cur))
    by (rewrite length_app; simpl; lia).
  assert (Htot : (total_files (saved st) + length cur = length done)%nat).
  { unfold total_files. rewrite <- Hfiles, length_app. reflexivity. }
  assert (Hfig : forall name,
             aligned perplot
               (mkFigure name (combine (range_down (length (cur ++ [c]))) (cur ++ [c]))
                         (ax st ++ [((- (ifile mod perplot))%Z, c)]))).
  { intros name. unfold aligned, figure_files. simpl.
    rewrite map_snd_combine_range. split; [now rewrite Hrows|]. split.
    - clear. assert (H : forall (l : list Z) (k : list string),
                       length l = length k -> map fst (combine l k) = l).
      { intros l. induction l as [|x l IH]; intros [|y k] Hl; simpl in *;
          try discriminate; [reflexivity|]. f_equal. apply IH. lia. }
      apply H. apply length_range_down.
    - rewrite Hlen. split; lia. }
  assert (Hname : forall f,
             figure_files f = cur ++ [c] ->
             figname f = overview_figname (ifile - Z.of_nat (length (cur ++ [c])) + 2)
                                          (ifile + 1) ->
             numbered 0 (saved st ++ [f])).
  { intros f Hf Hn. apply numbered_snoc; [exact Hnames|].
    rewrite Hn, Hf, Hlen. simpl. f_equal; lia. }
  unfold overview_file. fold c. fold cur.
  destruct (Z.eqb_spec (ifile mod perplot) (perplot - 1)) as [Hlast|Hnot].
  - (* the figure is full *)
    rewrite orb_true_l.
    set (f := mkFigure _ _ _).
    assert (Ef : figure_files f = cur ++ [c])
      by (unfold f, figure_files; simpl; apply map_snd_combine_range).
    assert (Hinv' : loop_inv perplot (done ++ [c]) (mkState [] [] (saved st ++ [f]))).
    { constructor; simpl.
      - rewrite app_nil_r, map_app, concat_app. simpl. rewrite app_nil_r, Ef.
        rewrite <- Hfiles. now rewrite app_assoc.
      - reflexivity.
      - replace (Z.of_nat (length (done ++ [c]))) with (ifile + 1)%Z
          by (unfold ifile; rewrite length_app; simpl; lia).
        apply (Z.mod_unique _ _ (ifile / perplot + 1)); [lia|].
        pose proof (Z.div_mod ifile perplot ltac:(lia)). lia.
      - apply Forall_app. split; [exact Hfull|]. constructor; [|constructor].
        split; [apply Hfig|]. rewrite Ef, Hlen. lia.
      - apply Hname; [exact Ef | reflexivity]. }
    destruct files as [|g files'].
    + simpl. exists (saved st), f. split; [reflexivity|].
      split; [|split; [exact Hfull | split; [apply Hfig|]]].
      * rewrite map_app, concat_app. simpl. rewrite app_nil_r, Ef, <- Hfiles.
        now rewrite app_assoc.
      * apply Hname; [exact Ef | reflexivity].
    + specialize (IH (done ++ [c]) _ ltac:(discriminate) Hinv').
      cbn zeta in IH.
      replace (Z.of_nat (length (done ++ [c]) + length (g :: files'))) with nfiles in IH
        by (unfold nfiles; rewrite length_app; simpl; f_equal; lia).
      replace (Z.of_nat (length (done ++ [c]))) with (ifile + 1)%Z in IH
        by (unfold ifile; rewrite length_app; simpl; lia).
      destruct IH as [full [last [E [Hc [Hf [Hl Hn]]]]]].
      exists full, last. split; [exact E|]. split; [|auto].
      rewrite Hc. now rewrite <- app_assoc.
  - rewrite orb_false_l.
    destruct files as [|g files'].
    + (* the last file *)
      assert (Elast : (ifile =? nfiles - 1)%Z = true).
      { apply Z.eqb_eq. unfold nfiles, ifile. simpl. lia. }
      rewrite Elast. simpl.
      set (f := mkFigure _ _ _).
      assert (Ef : figure_files f = cur ++ [c])
        by (unfold f, figure_files; simpl; apply map_snd_combine_range).
      exists (saved st), f. split; [reflexivity|].
      split; [|split; [exact Hfull | split; [apply Hfig|]]].
      * rewrite map_app, concat_app. simpl. rewrite app_nil_r, Ef, <- Hfiles.
        now rewrite app_assoc.
      * apply Hname; [exact Ef | reflexivity].
    + assert (Elast : (ifile =? nfiles - 1)%Z = false).
      { apply Z.eqb_neq. unfold nfiles, ifile. simpl. lia. }
      rewrite Elast.
      assert (Hinv' : loop_inv perplot (done ++ [c])
                        (mkState (ax st ++ [((- (ifile mod perplot))%Z, c)]) (cur ++ [c])
                                 (saved st))).
      { constructor; simpl.
        - rewrite app_assoc. fold cur in Hfiles. now rewrite Hfiles.
        - exact Hrows.
        - replace (Z.of_nat (length (done ++ [c]))) with (ifile + 1)%Z
            by (unfold ifile; rewrite length_app; simpl; lia).
          rewrite Hlen, Nat2Z.inj_succ, Hcur.
          apply (Z.mod_unique _ _ (ifile / perplot)); [lia|].
          pose proof (Z.div_mod ifile perplot ltac:(lia)). lia.
        - exact Hfull.
        - exact Hnames. }
      specialize (IH (done ++ [c]) _ ltac:(discriminate) Hinv').
      cbn zeta in IH.
      replace (Z.of_nat (length (done ++ [c]) + length (g :: files'))) with nfiles in IH
        by (unfold nfiles; rewrite length_app; simpl; f_equal; lia).
      replace (Z.of_nat (length (done ++ [c]))) with (ifile + 1)%Z in IH
        by (unfold ifile; rewrite length_app; simpl; lia).
      destruct IH as [full [last [E [Hc [Hf [Hl Hn]]]]]].
      exists full, last. split; [exact E|]. split; [|auto].
      rewrite Hc. now rewrite <- app_assoc.
Qed.

Lemma length_insert_casefold (a : string) (l : list string) :
  length (insert_casefold a l) = S (length l).
Proof.
  induction l as [|b l IH]; simpl; [reflexivity|].
  destruct (casefold_le a b); simpl; [reflexivity | now rewrite IH].
Qed.

Lemma length_sorted_casefold (l : list string) : length (sorted_casefold l) = length l.
Proof.
  induction l as [|a l IH]; simpl; [reflexivity|].
  now rewrite length_insert_casefold, IH.
Qed.

(** For a positive [perplot] and at least one file
    [ssh_netcdf_overview] returns the figures of its loop. *)
Lemma overview_unfold (file_list : list string) (perplot : Z) :
  (0 < perplot)%Z -> file_list <> [] ->
  sorted_casefold file_list <> [] /\
  ssh_netcdf_overview file_list perplot
  = Ok (saved (overview_loop perplot (Z.of_nat (length (sorted_casefold file_list)))
                             (mkState [] [] []) 0 (sorted_casefold file_list))).
Proof.
  intros Hp Hne. unfold ssh_netcdf_overview.
  pose proof (length_sorted_casefold file_list) as Hlen.
  destruct (sorted_casefold file_list) as [|f0 sorted] eqn:Es.
  { destruct file_list; [contradiction | discriminate Hlen]. }
  split; [discriminate|].
  destruct (Z.eqb_spec perplot 0) as [->|_]; [lia | reflexivity].
Qed.

Lemma loop_inv_start (perplot : Z) :
  (0 < perplot)%Z -> loop_inv perplot [] (mkState [] [] []).
Proof.
  intros Hp. constructor; simpl.
  - reflexivity.
  - reflexivity.
  - now rewrite Z.mod_0_l by lia.
  - constructor.
  - exact I.
Qed.

Lemma parse_format_03d (a : Z) (t : string) :
  (0 <= a)%Z ->
  parse_digits 0 (format_03d a ++ String "_" t) = Z.to_N a.
Proof.
  intros Ha. destruct a as [|p|p]; [| |lia]; unfold format_03d;
    rewrite parse_zfill; reflexivity.
Qed.

(** Figures with different first numbers have different names. *)
Lemma overview_figname_inj (a b l l' : Z) :
  (0 <= a)%Z -> (0 <= b)%Z ->
  overview_figname a l = overview_figname b l' -> a = b.
Proof.
  unfold overview_figname. intros Ha Hb H.
  apply (inj (String.append "overview_availability_")) in H.
  apply (f_equal (parse_digits 0)) in H.
  change ("_" ++ format_03d l)%string with (String "_" (format_03d l)) in H.
  change ("_" ++ format_03d l')%string with (String "_" (format_03d l')) in H.
  rewrite !parse_format_03d in H by assumption. lia.
Qed.

Lemma numbered_later (start : nat) (figs : list figure) (g : figure) :
  numbered start figs -> In g figs ->
  exists a l, (start <= a)%nat /\ figname g = overview_figname (Z.of_nat a + 1) l.
Proof.
  revert start. induction figs as [|f figs IH]; intros start Hn Hg; [destruct Hg|].
  destruct Hn as [Hf Hn]. destruct Hg as [<-|Hg].
  - exists start. eexists. split; [lia | exact Hf].
  - destruct (IH _ Hn Hg) as [a [l [Ha E]]]. exists a, l. split; [lia | exact E].
Qed.

Lemma numbered_NoDup (start : nat) (figs : list figure) :
  numbered start figs -> Forall (fun f => (0 < length (figure_files f))%nat) figs ->
  List.NoDup (map figname figs).
Proof.
  revert start. induction figs as [|f figs IH]; intros start Hn Hpos; simpl; constructor.
  - destruct Hn as [Hf Hn]. inversion Hpos as [|? ? Hlen _]; subst.
    intros Hin. apply in_map_iff in Hin as [g [Eg Hg]].
    destruct (numbered_later _ _ g Hn Hg) as [a [l [Ha E]]].
    rewrite Hf, E in Eg. apply overview_figname_inj in Eg; lia.
  - destruct Hn as [_ Hn]. inversion Hpos; subst. now apply (IH _ Hn).
Qed.

(** X17. For a positive [perplot] and a directory with files, the
    figures of [ssh_netcdf_overview] hold every file once, in the order
    of the names without regard to case: every figure but the last has
    [perplot] files, the last has between one and [perplot]; in each
    figure the row of markers of a file stands at the label of that
    file; and each figure is named after the numbers of its first and
    last file. *)
Theorem ssh_netcdf_overview_figures (file_list : list string) (perplot : Z) :
  (0 < perplot)%Z -> file_list <> [] ->
  exists full last,
    ssh_netcdf_overview file_list perplot = Ok (full ++ [last]) /\
    concat (map figure_files (full ++ [last]))
    = map (replace ".nc" "") (sorted_casefold file_list) /\
    Forall (fun f => aligned perplot f /\ Z.of_nat (length (figure_files f)) = perplot) full /\
    aligned perplot last /\
    numbered 0 (full ++ [last]).
Proof.
  intros Hp Hne. destruct (overview_unfold file_list perplot Hp Hne) as [Hs ->].
  destruct (overview_loop_spec perplot (sorted_casefold file_list) [] _ Hp Hs
                               (loop_inv_start perplot Hp))
    as [full [last [E [Hc [Hf [Hl Hn]]]]]].
  change (length [] + length (sorted_casefold file_list))%nat
    with (length (sorted_casefold file_list)) in *.
  change (Z.of_nat (length (@nil string))) with 0%Z in *.
  rewrite E in *. exists full, last. auto.
Qed.

(** X18. No figure of [ssh_netcdf_overview] is saved under the name of
    another: for a positive [perplot] the file names of the figures are
    distinct. *)
Theorem ssh_netcdf_overview_names_distinct
    (file_list : list string) (perplot : Z) (figs : list figure) :
  (0 < perplot)%Z ->
  ssh_netcdf_overview file_list perplot = Ok figs ->
  List.NoDup (map figname figs).
Proof.
  intros Hp H.
  destruct file_list as [|f0 files].
  { discriminate H. }
  destruct (overview_unfold (f0 :: files) perplot Hp ltac:(discriminate)) as [Hs Hrun].
  destruct (overview_loop_spec perplot (sorted_casefold (f0 :: files)) [] _ Hp Hs
                               (loop_inv_start perplot Hp))
    as [full [last [E [_ [Hf [Hl Hn]]]]]].
  change (length [] + length (sorted_casefold (f0 :: files)))%nat
    with (length (sorted_casefold (f0 :: files))) in *.
  change (Z.of_nat (length (@nil string))) with 0%Z in *.
  rewrite E in Hrun, Hn. rewrite Hrun in H. injection H as <-.
  apply (numbered_NoDup 0); [exact Hn|].
  apply Forall_app. split.
  - eapply List.Forall_impl; [|exact Hf]. intros f [[_ [_ [H0 _]]] _]. exact H0.
  - constructor; [|constructor]. destruct Hl as [_ [_ [H0 _]]]. exact H0.
Qed.

End OverviewProps.

(** The figures of five files, three to a figure. *)
Lemma ssh_netcdf_overview_figures_witness :
  exists full last,
    Overview.ssh_netcdf_overview Overview.overview_files_sample 3 = Ok (full ++ [last]) /\
    concat (map Overview.figure_files (full ++ [last]))
    = map (Text.replace ".nc" "") (Text.sorted_casefold Overview.overview_files_sample) /\
    Forall (fun f => Overview.aligned 3 f /\
                     Z.of_nat (length (Overview.figure_files f)) = 3%Z) full /\
    Overview.aligned 3 last /\
    Overview.numbered 0 (full ++ [last]).
Proof.
  apply (ssh_netcdf_overview_figures Overview.overview_files_sample 3); [lia | discriminate].
Defined.

Example overview_sample_figures :
  Overview.ssh_netcdf_overview Overview.overview_files_sample 3
  = Ok [Overview.mkFigure "overview_availability_001_003"
          [(0, "gesla3-x"); (-1, "ioc-abas-1"); (-2, "ioc-abur-3")]
          [(0, "gesla3-x"); (-1, "ioc-abas-1"); (-2, "ioc-abur-3")];
        Overview.mkFigure "overview_availability_004_005"
          [(0, "UHSLC-001"); (-1, "uhslc-347")]
          [(0, "UHSLC-001"); (-1, "uhslc-347")]].
Proof. vm_compute. reflexivity. Qed.

Lemma ssh_netcdf_overview_names_distinct_witness :
  exists figs,
    Overview.ssh_netcdf_overview Overview.overview_files_sample 3 = Ok figs /\
    List.NoDup (map Overview.figname figs).
Proof.
  eexists. split.
  - vm_compute. reflexivity.
  - apply (ssh_netcdf_overview_names_distinct Overview.overview_files_sample 3); [lia|].
    vm_compute. reflexivity.
Defined.

(** ** The time extents of the PSMSL GNSS-IR catalog *)

Section PsmslTimesProps.
Import PsmslTimes.

(** The row of a station once its daily file has been read. *)
Lemma gettimes_loop (daily : daily_service) (ids : list Z) (catalog : list site) :
  (forall station_id, In station_id ids ->
     exists first rest, daily station_id = Ok (first :: rest)) ->
  foldM (gettimes_station daily) catalog ids
  = Ok (map (fun r =>
               if existsb (Z.eqb (label r)) ids then
                 match daily (label r) with
                 | Ok (first :: rest) =>
                     mkSite (label r) (site_code r) (Some first)
                            (Some (List.last (first :: rest) first))
                            (Some (ndays (List.last (first :: rest) first - first)))
                 | _ => r
                 end
               else r) catalog).
Proof.
  revert catalog. induction ids as [|station_id ids IH]; intros catalog Hall.
  - simpl. now rewrite map_id.
  - cbn [foldM].
    destruct (Hall station_id (or_introl eq_refl)) as [first [rest Hd]].
    assert (Es : gettimes_station daily catalog station_id
                 = Ok (set_times station_id first (List.last (first :: rest) first) catalog))
      by (unfold gettimes_station; rewrite Hd; reflexivity).
    rewrite Es. cbn [mbind result_bind].
    rewrite IH by (intros i Hi; apply Hall; now right).
    f_equal. unfold set_times. rewrite map_map. apply map_ext. intros r.
    cbn [existsb].
    destruct (Z.eqb_spec (label r) station_id) as [E|N].
    + cbn [label site_code orb]. rewrite E, Hd.
      destruct (existsb (Z.eqb station_id) ids); reflexivity.
    + reflexivity.
Qed.

Lemma gettimes_loop_empty (daily : daily_service) (ids : list Z) (catalog : list site) :
  (forall station_id, In station_id ids -> exists data, daily station_id = Ok data) ->
  (exists station_id, In station_id ids /\ daily station_id = Ok []) ->
  foldM (gettimes_station daily) catalog ids = Raise IndexError.
Proof.
  revert catalog. induction ids as [|station_id ids IH]; intros catalog Hall [i [Hi Hd]].
  - destruct Hi.
  - cbn [foldM].
    destruct (Hall station_id (or_introl eq_refl)) as [data Hdata].
    destruct data as [|first rest].
    { assert (Es : gettimes_station daily catalog station_id = Raise IndexError)
        by (unfold gettimes_station; rewrite Hdata; reflexivity).
      now rewrite Es. }
    assert (Es : gettimes_station daily catalog station_id
                 = Ok (set_times station_id first (List.last (first :: rest) first) catalog))
      by (unfold gettimes_station; rewrite Hdata; reflexivity).
    rewrite Es. cbn [mbind result_bind]. apply IH.
    + intros j Hj. apply Hall. now right.
    + destruct Hi as [<-|Hi]; [rewrite Hdata in Hd; discriminate Hd|].
      exists i. now split.
Qed.

(** X10. When the daily file of every station is served,
    [psmsl_gnssir_ssh_read_catalog_gettimes] either gives every station
    the time of the first line of its file as [time_min], that of the
    last line as [time_max] and the days between them, or, when the file
    of some station has no line, raises [IndexError] and returns no
    catalog. *)
Theorem psmsl_gettimes_first_last (daily : daily_service) (station_list_gpd : list site) :
  (forall r, In r station_list_gpd -> exists data, daily (label r) = Ok data) ->
  ((forall r, In r station_list_gpd -> daily (label r) <> Ok []) ->
   exists catalog,
     psmsl_gnssir_ssh_read_catalog_gettimes daily station_list_gpd = Ok catalog /\
     Forall2 (fun r r' =>
                label r' = label r /\ site_code r' = site_code r /\
                exists first rest,
                  daily (label r) = Ok (first :: rest) /\
                  time_min r' = Some first /\
                  time_max r' = Some (List.last rest first) /\
                  time_ndays r' = Some (ndays (List.last rest first - first)))
             station_list_gpd catalog) /\
  ((exists r, In r station_list_gpd /\ daily (label r) = Ok []) ->
   psmsl_gnssir_ssh_read_catalog_gettimes daily station_list_gpd = Raise IndexError).
Proof.
  intros Hserved. unfold psmsl_gnssir_ssh_read_catalog_gettimes.
  rewrite map_map. cbn [label].
  change (map (fun x : site => label x) station_list_gpd) with (map label station_list_gpd).
  assert (Hids : forall i, In i (map label station_list_gpd) ->
                           exists r, In r station_list_gpd /\ label r = i).
  { intros i Hi. apply in_map_iff in Hi as [r [E Hr]]. eauto. }
  split.
  - intros Hne. eexists. split.
    + apply gettimes_loop. intros i Hi.
      destruct (Hids i Hi) as [r [Hr <-]].
      destruct (Hserved r Hr) as [[|first rest] Hd]; [now apply Hne in Hd | eauto].
    + rewrite map_map. apply Forall2_map_r_In. intros r Hr. cbn [label site_code].
      assert (E : existsb (Z.eqb (label r)) (map label station_list_gpd) = true).
      { apply existsb_exists. exists (label r). split; [now apply in_map | apply Z.eqb_refl]. }
      rewrite E.
      destruct (Hserved r Hr) as [[|first rest] Hd]; [now apply Hne in Hd|].
      rewrite Hd. cbn [label site_code time_min time_max time_ndays].
      split; [reflexivity|]. split; [reflexivity|].
      exists first, rest. split; [reflexivity|].
      assert (El : List.last (first :: rest) first = List.last rest first).
      { destruct rest; reflexivity. }
      rewrite El. auto.
  - intros [r [Hr Hd]]. apply gettimes_loop_empty.
    + intros i Hi. destruct (Hids i Hi) as [r' [Hr' <-]]. now apply Hserved.
    + exists (label r). split; [now apply in_map | exact Hd].
Qed.

End PsmslTimesProps.

(** The property at two sample stations. *)
Lemma psmsl_gettimes_first_last_witness :
  ((forall r, In r PsmslTimes.sites_sample ->
      PsmslTimes.daily_sample (PsmslTimes.label r) <> Ok []) ->
   exists catalog,
     PsmslTimes.psmsl_gnssir_ssh_read_catalog_gettimes PsmslTimes.daily_sample
       PsmslTimes.sites_sample = Ok catalog /\
     Forall2 (fun r r' =>
                PsmslTimes.label r' = PsmslTimes.label r /\
                PsmslTimes.site_code r' = PsmslTimes.site_code r /\
                exists first rest,
                  PsmslTimes.daily_sample (PsmslTimes.label r) = Ok (first :: rest) /\
                  PsmslTimes.time_min r' = Some first /\
                  PsmslTimes.time_max r' = Some (List.last rest first) /\
                  PsmslTimes.time_ndays r'
                  = Some (PsmslTimes.ndays (List.last rest first - first)))
             PsmslTimes.sites_sample catalog) /\
  ((exists r, In r PsmslTimes.sites_sample /\
              PsmslTimes.daily_sample (PsmslTimes.label r) = Ok []) ->
   PsmslTimes.psmsl_gnssir_ssh_read_catalog_gettimes PsmslTimes.daily_sample
     PsmslTimes.sites_sample = Raise IndexError).
Proof.
  apply (psmsl_gettimes_first_last PsmslTimes.daily_sample PsmslTimes.sites_sample).
  intros r [<-|[<-|[]]]; eexists; vm_compute; reflexivity.
Defined.

Example psmsl_gettimes_sample :
  match PsmslTimes.psmsl_gnssir_ssh_read_catalog_gettimes PsmslTimes.daily_sample
          PsmslTimes.sites_sample with
  | Ok catalog =>
      map (fun r => (PsmslTimes.time_min r, PsmslTimes.time_max r)) catalog
      = [(Some 0%Z, Some 172800000000000%Z);
         (Some 86400000000000%Z, Some 86400000000000%Z)]
  | Raise _ => False
  end.
Proof. vm_compute. reflexivity. Qed.
